(** * ArchiveManager: a shallow embedding of src/Archive/ArchiveManager.cpp

    The manager's members become the fields of [State]; every member
    function becomes a function on [State] returning the function's result
    together with the new state.  Archive objects live on a modelled heap
    and are referred to by handle (the C++ pointer).  What the manager only
    calls into (format detectors, archive loading, the file system, the
    entry tree of an archive) is gathered in [Env]. *)

From Stdlib Require Import List ZArith Lia Bool String Ascii Arith PeanoNat.
Import ListNotations.

Local Open Scope string_scope.
Local Open Scope list_scope.

(** ** Identities *)

(** [Archive*], [ArchiveEntry*] and [ArchiveTreeNode*]: object identities.
    A nullable pointer is an [option]. *)
Definition Handle := nat.
Definition Entry := nat.
Definition Node := nat.

(** [Archive::SearchOptions] is opaque to the manager. *)
Definition SearchOptions := nat.

(** The archive classes the manager instantiates. *)
Inductive Format : Type :=
| Wad | Zip | Res | Dat | Lib | Pak | BSP | Grp | Rff | Gob | Lfd | Hog
| ADat | Wad2 | WadJ | Wolf | GZip | BZip2 | Tar | Disk | Pod | ChasmBin
| SiN | Dir.

(** [formatId() == "zip" || formatId() == "folder"] *)
Definition rootWadsFormat (f : Format) : bool :=
  match f with
  | Zip | Dir => true
  | _ => false
  end.

(** ** Results of fuelled functions *)

Inductive outcome (A : Type) : Type :=
| Done (a : A)
| OutOfFuel
| Undefined.

Arguments Done {A} a.
Arguments OutOfFuel {A}.
Arguments Undefined {A}.

Definition bind {A B : Type} (m : outcome A) (k : A -> outcome B) : outcome B :=
  match m with
  | Done a => k a
  | OutOfFuel => OutOfFuel
  | Undefined => Undefined
  end.

Notation "'do' x <- m ; k" := (bind m (fun x => k))
  (at level 10, x pattern, m at level 100, k at level 200).

(** ** Machine integers *)

Definition to_uint32 (z : Z) : Z := (z mod 4294967296)%Z.

Definition to_int32 (z : Z) : Z :=
  let u := to_uint32 z in
  if (u <? 2147483648)%Z then u else (u - 4294967296)%Z.

(** ** The collaborators of the manager *)

Record Env : Type := mkEnv {
  (** [wxFile::Exists], [wxFileExists], [wxFileName::FileExists] *)
  fileExists : string -> bool;
  (** [wxDirExists] *)
  dirExists : string -> bool;
  (** [XArchive::isXArchive(filename)] *)
  isFormatFile : Format -> string -> bool;
  (** [XArchive::isXArchive(entry->data())] *)
  isFormatData : Format -> Entry -> bool;
  (** [StrUtil::endsWithCI(entry->name(), ".pod")] *)
  nameEndsWithPod : Entry -> bool;
  (** [archive->open(filename)] succeeds *)
  loadFile : Format -> string -> bool;
  (** [archive->open(entry)] succeeds *)
  loadEntry : Format -> Entry -> bool;
  (** the text [archive->open] leaves in [Global::error] when it fails *)
  loadError : Format -> string;
  (** [entry->parent()], the archive an entry belongs to *)
  entryParent : Entry -> option Handle;
  (** [archive->rootDir()->allEntries()] *)
  rootEntries : Handle -> list Entry;
  (** [entry->type()->id() == "wad"], after [detectEntryType] *)
  entryTypeIsWad : Entry -> bool;
  (** [archive->entry(name)] *)
  archiveEntry : Handle -> string -> option Entry;
  (** [archive->findLast(options)] *)
  findLast : Handle -> SearchOptions -> option Entry;
  (** [archive->findAll(options)] *)
  findAll : Handle -> SearchOptions -> list Entry;
  (** [entry->parentDir()] *)
  parentDir : Entry -> Node;
  (** [node->parent()] *)
  nodeParent : Node -> option Node;
  (** [archive->rootDir()] *)
  rootDir : Handle -> Node;
  (** [node->dirEntry()] *)
  dirEntry : Node -> Entry;
  (** [node->archive()] *)
  nodeArchive : Node -> Handle;
  (** the name [Archive::filename()] gives an archive opened from an entry *)
  nestedName : Entry -> string
}.

(** ** Data of the manager *)

(** What the manager reads of an [Archive] object. *)
Record ArchiveObj : Type := mkArchive {
  format : Format;
  filename_ : string;
  parent_ : option Entry
}.

(** [struct OpenArchive] *)
Record OpenArchive : Type := mkOpen {
  archive : Handle;
  resource : bool;
  open_children : list Handle
}.

(** An announcement: event name and the index written to the [MemChunk]. *)
Definition Event : Type := (string * option Z)%type.

Record State : Type := mkState {
  open_archives_ : list OpenArchive;
  base_resource_archive_ : option Handle;
  base_resource_paths_ : list string;
  recent_files_ : list string;
  bookmarks_ : list Entry;
  (** CVARs *)
  base_resource : Z;
  max_recent_files : Z;
  auto_open_wads_root : bool;
  (** the [Announcer] base class: mute flag and what was announced *)
  muted_ : bool;
  announced : list Event;
  (** the [Listener] base class *)
  listening : list Handle;
  (** [App::resources()] *)
  resources : list Handle;
  (** archive objects ever allocated; a handle is an index into [heap] *)
  heap : list ArchiveObj;
  (** archive objects closed and deleted, oldest first *)
  destroyed : list Handle;
  (** [Global::error] *)
  global_error : string
}.

Definition set_open_archives (v : list OpenArchive) (s : State) : State :=
  mkState v (base_resource_archive_ s) (base_resource_paths_ s)
    (recent_files_ s) (bookmarks_ s) (base_resource s) (max_recent_files s)
    (auto_open_wads_root s) (muted_ s) (announced s) (listening s)
    (resources s) (heap s) (destroyed s) (global_error s).

Definition set_base_resource_archive (v : option Handle) (s : State) : State :=
  mkState (open_archives_ s) v (base_resource_paths_ s)
    (recent_files_ s) (bookmarks_ s) (base_resource s) (max_recent_files s)
    (auto_open_wads_root s) (muted_ s) (announced s) (listening s)
    (resources s) (heap s) (destroyed s) (global_error s).

Definition set_base_resource_paths (v : list string) (s : State) : State :=
  mkState (open_archives_ s) (base_resource_archive_ s) v
    (recent_files_ s) (bookmarks_ s) (base_resource s) (max_recent_files s)
    (auto_open_wads_root s) (muted_ s) (announced s) (listening s)
    (resources s) (heap s) (destroyed s) (global_error s).

Definition set_recent_files (v : list string) (s : State) : State :=
  mkState (open_archives_ s) (base_resource_archive_ s) (base_resource_paths_ s)
    v (bookmarks_ s) (base_resource s) (max_recent_files s)
    (auto_open_wads_root s) (muted_ s) (announced s) (listening s)
    (resources s) (heap s) (destroyed s) (global_error s).

Definition set_bookmarks (v : list Entry) (s : State) : State :=
  mkState (open_archives_ s) (base_resource_archive_ s) (base_resource_paths_ s)
    (recent_files_ s) v (base_resource s) (max_recent_files s)
    (auto_open_wads_root s) (muted_ s) (announced s) (listening s)
    (resources s) (heap s) (destroyed s) (global_error s).

Definition set_base_resource (v : Z) (s : State) : State :=
  mkState (open_archives_ s) (base_resource_archive_ s) (base_resource_paths_ s)
    (recent_files_ s) (bookmarks_ s) v (max_recent_files s)
    (auto_open_wads_root s) (muted_ s) (announced s) (listening s)
    (resources s) (heap s) (destroyed s) (global_error s).

Definition set_muted (v : bool) (s : State) : State :=
  mkState (open_archives_ s) (base_resource_archive_ s) (base_resource_paths_ s)
    (recent_files_ s) (bookmarks_ s) (base_resource s) (max_recent_files s)
    (auto_open_wads_root s) v (announced s) (listening s)
    (resources s) (heap s) (destroyed s) (global_error s).

Definition set_announced (v : list Event) (s : State) : State :=
  mkState (open_archives_ s) (base_resource_archive_ s) (base_resource_paths_ s)
    (recent_files_ s) (bookmarks_ s) (base_resource s) (max_recent_files s)
    (auto_open_wads_root s) (muted_ s) v (listening s)
    (resources s) (heap s) (destroyed s) (global_error s).

Definition set_listening (v : list Handle) (s : State) : State :=
  mkState (open_archives_ s) (base_resource_archive_ s) (base_resource_paths_ s)
    (recent_files_ s) (bookmarks_ s) (base_resource s) (max_recent_files s)
    (auto_open_wads_root s) (muted_ s) (announced s) v
    (resources s) (heap s) (destroyed s) (global_error s).

Definition set_resources (v : list Handle) (s : State) : State :=
  mkState (open_archives_ s) (base_resource_archive_ s) (base_resource_paths_ s)
    (recent_files_ s) (bookmarks_ s) (base_resource s) (max_recent_files s)
    (auto_open_wads_root s) (muted_ s) (announced s) (listening s)
    v (heap s) (destroyed s) (global_error s).

Definition set_heap (v : list ArchiveObj) (s : State) : State :=
  mkState (open_archives_ s) (base_resource_archive_ s) (base_resource_paths_ s)
    (recent_files_ s) (bookmarks_ s) (base_resource s) (max_recent_files s)
    (auto_open_wads_root s) (muted_ s) (announced s) (listening s)
    (resources s) v (destroyed s) (global_error s).

Definition set_destroyed (v : list Handle) (s : State) : State :=
  mkState (open_archives_ s) (base_resource_archive_ s) (base_resource_paths_ s)
    (recent_files_ s) (bookmarks_ s) (base_resource s) (max_recent_files s)
    (auto_open_wads_root s) (muted_ s) (announced s) (listening s)
    (resources s) (heap s) v (global_error s).

Definition set_global_error (v : string) (s : State) : State :=
  mkState (open_archives_ s) (base_resource_archive_ s) (base_resource_paths_ s)
    (recent_files_ s) (bookmarks_ s) (base_resource s) (max_recent_files s)
    (auto_open_wads_root s) (muted_ s) (announced s) (listening s)
    (resources s) (heap s) (destroyed s) v.

(** The manager as constructed: nothing open, CVARs at their defaults. *)
Definition initial : State :=
  mkState [] None [] [] [] (-1)%Z 25%Z false false [] [] [] [] [] "".

(** ** Vectors *)

(** [v.erase(v.begin() + a)] *)
Definition eraseAt {A : Type} (a : nat) (v : list A) : list A :=
  firstn a v ++ skipn (S a) v.

(** [v[a] = x] *)
Fixpoint setAt {A : Type} (a : nat) (x : A) (v : list A) : list A :=
  match v, a with
  | [], _ => []
  | _ :: v', O => x :: v'
  | y :: v', S a' => y :: setAt a' x v'
  end.

(** Erase the first element equal to [x], as the loop
    loop over [children] in [closeArchive] does (erase, then break). *)
Fixpoint eraseFirst (x : nat) (v : list nat) : list nat :=
  match v with
  | [] => []
  | y :: v' => if Nat.eqb y x then v' else y :: eraseFirst x v'
  end.

Definition eqb_ptr (p q : option nat) : bool :=
  match p, q with
  | Some a, Some b => Nat.eqb a b
  | None, None => true
  | _, _ => false
  end.

(** A range-based [for] whose body may fail or run out of fuel. *)
Fixpoint forEach {A S : Type} (body : A -> S -> outcome S) (v : list A)
    (s : S) : outcome S :=
  match v with
  | [] => Done s
  | a :: v' => do s' <- body a s; forEach body v' s'
  end.

(** ** Strings *)

(** [wxString::Lower], [Upper] and [Capitalize], on ASCII text: a letter
    changes case, every other character stays. *)
Definition lowerChar (c : ascii) : ascii :=
  let n := nat_of_ascii c in
  if Nat.leb 65 n && Nat.leb n 90 then ascii_of_nat (n + 32) else c.

Definition upperChar (c : ascii) : ascii :=
  let n := nat_of_ascii c in
  if Nat.leb 97 n && Nat.leb n 122 then ascii_of_nat (n - 32) else c.

Fixpoint mapString (f : ascii -> ascii) (t : string) : string :=
  match t with
  | EmptyString => EmptyString
  | String c rest => String (f c) (mapString f rest)
  end.

Definition Lower (t : string) : string := mapString lowerChar t.

Definition Upper (t : string) : string := mapString upperChar t.

Definition Capitalize (t : string) : string :=
  match t with
  | EmptyString => EmptyString
  | String c rest => String (upperChar c) (Lower rest)
  end.

(** [wxString::RemoveLast(1)] *)
Fixpoint RemoveLast (t : string) : string :=
  match t with
  | EmptyString => EmptyString
  | String c EmptyString => EmptyString
  | String c rest => String c (RemoveLast rest)
  end.

(** What [getArchiveExtensionsString] reads of an [ArchiveFormat]: the
    pairs of extension and description. *)
Record ArchiveFormat : Type := mkFormat {
  extensions : list (string * string)
}.

(** [ext_case] of the inner loop: the extension in lower case, in upper
    case and capitalised. *)
Definition extCase (ext : string) : string :=
  (("*." ++ Lower ext ++ ";") ++ ("*." ++ Upper ext ++ ";")
   ++ ("*." ++ Capitalize ext))%string.

(** [ArchiveManager::getArchiveExtensionsString]; [formats] is
    [Archive::allFormats()]. *)
Definition getArchiveExtensionsString (formats : list ArchiveFormat) : string :=
  let exts := flat_map extensions formats in
  let ext_all :=
    fold_left (fun all ext => (all ++ (extCase (fst ext) ++ ";"))%string)
      exts "Any supported file|" in
  let ext_strings :=
    map (fun ext =>
           (snd ext ++ " files (*." ++ fst ext ++ ")|"
            ++ extCase (fst ext))%string)
        exts in
  let ext_all := RemoveLast ext_all in
  fold_left (fun all ext => (all ++ ("|" ++ ext))%string) ext_strings ext_all.

(** * The member functions *)

Section Model.

Context (E : Env).

(** ** Announcer, resource manager, archive objects *)

(** Modelled from the spec: [Announcer::announce] (General/ListenerAnnouncer)
    is not part of the file; a muted announcer drops the event, otherwise
    the event is delivered synchronously, here appended to [announced]. *)
Definition announce (name : string) (data : option Z) (s : State) : State :=
  if muted_ s then s else set_announced (announced s ++ [(name, data)]) s.

(** The [MemChunk] built by [uint32_t index = ...; mc.write(&index, 4)]. *)
Definition indexChunk (index : Z) : option Z := Some (to_uint32 index).

(** Modelled from the spec: [ResourceManager::addArchive]
    (General/ResourceManager) registers the archive with the shared resource
    pool, kept as the list of the archives registered with it. *)
Definition resources_addArchive (a : Handle) (s : State) : State :=
  set_resources (resources s ++ [a]) s.

(** Modelled from the spec: [ResourceManager::removeArchive], which takes
    the archive out of the shared resource pool. *)
Definition resources_removeArchive (a : Handle) (s : State) : State :=
  set_resources (filter (fun x => negb (Nat.eqb x a)) (resources s)) s.

(** [new XArchive()]: the new object sits at the end of the heap. *)
Definition new_archive (f : Format) (s : State) : Handle * State :=
  (List.length (heap s), set_heap (heap s ++ [mkArchive f "" None]) s).

(** [delete archive] (after [archive->close()] where the code calls it). *)
Definition delete_archive (a : Handle) (s : State) : State :=
  set_destroyed (destroyed s ++ [a]) s.

Definition formatOf (s : State) (a : Handle) : option Format :=
  option_map format (nth_error (heap s) a).

(** [archive->parentEntry()] *)
Definition parentEntry (s : State) (a : Handle) : option Entry :=
  match nth_error (heap s) a with
  | Some o => parent_ o
  | None => None
  end.

(** Modelled from the spec: [Archive::filename()] (Archive/Archive) is the
    path the archive was opened from, or a synthetic name when it was opened
    from an entry. *)
Definition filename (s : State) (a : Handle) : string :=
  match nth_error (heap s) a with
  | Some o =>
      match parent_ o with
      | Some e => nestedName E e
      | None => filename_ o
      end
  | None => ""
  end.

(** Modelled from the spec: [Archive::open(filename)] (Archive/Archive)
    loads the file and, when that succeeds, records the path as the
    archive's filename; on failure it leaves its message in [Global::error]. *)
Definition archive_open_file (a : Handle) (f : Format) (path : string)
    (s : State) : bool * State :=
  if loadFile E f path
  then (true, set_heap (setAt a (mkArchive f path None) (heap s)) s)
  else (false, set_global_error (loadError E f) s).

(** Modelled from the spec: [Archive::open(entry)] (Archive/Archive) loads
    the entry's data and, when that succeeds, records the entry as the
    archive's parent entry. *)
Definition archive_open_entry (a : Handle) (f : Format) (entry : Entry)
    (s : State) : bool * State :=
  if loadEntry E f entry
  then (true, set_heap (setAt a (mkArchive f "" (Some entry)) (heap s)) s)
  else (false, set_global_error (loadError E f) s).

(** ** Index and lookup of open archives *)

Fixpoint archiveIndex_from (a : nat) (x : Handle) (v : list OpenArchive) : Z :=
  match v with
  | [] => (-1)%Z
  | oa :: v' =>
      if Nat.eqb (archive oa) x then Z.of_nat a
      else archiveIndex_from (S a) x v'
  end.

(** [ArchiveManager::archiveIndex] *)
Definition archiveIndex (x : Handle) (s : State) : Z :=
  archiveIndex_from 0 x (open_archives_ s).

(** [ArchiveManager::getArchive(int index)] *)
Definition getArchiveAt (index : Z) (s : State) : option Handle :=
  if ((index <? 0) || (Z.of_nat (List.length (open_archives_ s)) <=? index))%Z
  then None
  else option_map archive (nth_error (open_archives_ s) (Z.to_nat index)).

Fixpoint getArchive_loop (s : State) (path : string) (v : list OpenArchive)
    : option Handle :=
  match v with
  | [] => None
  | oa :: v' =>
      if String.eqb (filename s (archive oa)) path then Some (archive oa)
      else getArchive_loop s path v'
  end.

(** [ArchiveManager::getArchive(const wxString& filename)] *)
Definition getArchive (path : string) (s : State) : option Handle :=
  getArchive_loop s path (open_archives_ s).

(** [ArchiveManager::archiveIsResource] *)
Definition archiveIsResource (x : Handle) (s : State) : bool :=
  let index := archiveIndex x s in
  if (index <? 0)%Z then false
  else match nth_error (open_archives_ s) (Z.to_nat index) with
       | Some oa => resource oa
       | None => false
       end.

(** [ArchiveManager::setArchiveResource] *)
Definition setArchiveResource (x : Handle) (res : bool) (s : State) : State :=
  let index := archiveIndex x s in
  if (0 <=? index)%Z then
    match nth_error (open_archives_ s) (Z.to_nat index) with
    | Some oa =>
        let was_resource := resource oa in
        let s1 := set_open_archives
                    (setAt (Z.to_nat index)
                       (mkOpen (archive oa) res (open_children oa))
                       (open_archives_ s)) s in
        if res && negb was_resource then resources_addArchive x s1
        else if negb res && was_resource then resources_removeArchive x s1
        else s1
    | None => s
    end
  else s.

(** ** Recent files *)

(** [path.Replace("\\", "/")] *)
Fixpoint replaceBackslash (path : string) : string :=
  match path with
  | EmptyString => EmptyString
  | String c rest =>
      String (if Ascii.eqb c "\"%char then "/"%char else c)
             (replaceBackslash rest)
  end.

(** The first index [a] with [v[a] == x], counting from [a0]. *)
Fixpoint indexOf_from {A : Type} (eqb : A -> A -> bool) (a0 : nat) (x : A)
    (v : list A) : option nat :=
  match v with
  | [] => None
  | y :: v' => if eqb y x then Some a0 else indexOf_from eqb (S a0) x v'
  end.

(** [while (size() > (unsigned)max_recent_files) pop_back()]: at most one
    pass per element. *)
Fixpoint trimRecent (passes : nat) (max : Z) (v : list string) : list string :=
  match passes with
  | O => v
  | S passes' =>
      if (to_uint32 max <? Z.of_nat (List.length v))%Z
      then trimRecent passes' max (removelast v)
      else v
  end.

(** [ArchiveManager::addRecentFile] *)
Definition addRecentFile (path : string) (s : State) : State :=
  if negb (fileExists E path || dirExists E path) then s
  else
    let path := replaceBackslash path in
    match indexOf_from String.eqb 0 path (recent_files_ s) with
    | Some a =>
        let s := set_recent_files (eraseAt a (recent_files_ s)) s in
        let s := set_recent_files (path :: recent_files_ s) s in
        announce "recent_files_changed" None s
    | None =>
        let s := set_recent_files (path :: recent_files_ s) s in
        let s := set_recent_files
                   (trimRecent (List.length (recent_files_ s)) (max_recent_files s)
                      (recent_files_ s)) s in
        announce "recent_files_changed" None s
    end.

(** [ArchiveManager::addRecentFiles] *)
Definition addRecentFiles (paths : list string) (s : State) : State :=
  let s := set_muted true s in
  let s := set_recent_files [] s in
  let s := fold_left (fun st path => addRecentFile path st) paths s in
  let s := set_muted false s in
  announce "recent_files_changed" None s.

(** [ArchiveManager::removeRecentFile] *)
Definition removeRecentFile (path : string) (s : State) : State :=
  match indexOf_from String.eqb 0 path (recent_files_ s) with
  | Some a =>
      announce "recent_files_changed" None
        (set_recent_files (eraseAt a (recent_files_ s)) s)
  | None => s
  end.

(** [ArchiveManager::recentFile] *)
Definition recentFile (index : Z) (s : State) : string :=
  if (Z.of_nat (List.length (recent_files_ s)) <=? index)%Z then ""
  else nth (Z.to_nat index) (recent_files_ s) "".

(** ** Base resource *)

(** [ArchiveManager::openBaseResource] *)
Definition openBaseResource (index : Z) (s : State) : bool * State :=
  let loaded := match base_resource_archive_ s with
                | Some _ => true
                | None => false
                end in
  if loaded && (base_resource s =? index)%Z then (true, s)
  else
    let s :=
      match base_resource_archive_ s with
      | Some b =>
          let s := resources_removeArchive b s in
          delete_archive b (set_base_resource_archive None s)
      | None => s
      end in
    if ((index <? 0) || (Z.of_nat (List.length (base_resource_paths_ s)) <=? to_uint32 index))%Z
    then
      let s := set_base_resource (-1)%Z s in
      (false, announce "base_resource_changed" None s)
    else
      match nth_error (base_resource_paths_ s) (Z.to_nat index) with
      | None => (false, s)
      | Some path =>
          let created :=
            if isFormatFile E Wad path then Some Wad
            else if isFormatFile E Zip path then Some Zip
            else None in
          match created with
          | None => (false, s)
          | Some f =>
              let '(b, s) := new_archive f s in
              let s := set_base_resource_archive (Some b) s in
              let '(ok, s) := archive_open_file b f path s in
              if ok then
                let s := set_base_resource index s in
                let s := resources_addArchive b s in
                (true, announce "base_resource_changed" None s)
              else
                let s := delete_archive b (set_base_resource_archive None s) in
                (false, announce "base_resource_changed" None s)
          end
      end.

(** [ArchiveManager::addBaseResourcePath] *)
Definition addBaseResourcePath (path : string) (s : State) : bool * State :=
  if negb (fileExists E path) then (false, s)
  else if existsb (fun p => String.eqb p path) (base_resource_paths_ s)
  then (false, s)
  else
    let s := set_base_resource_paths (base_resource_paths_ s ++ [path]) s in
    (true, announce "base_resource_path_added" None s).

(** [ArchiveManager::removeBaseResourcePath]; [index] is the [unsigned]
    argument. *)
Definition removeBaseResourcePath (index : Z) (s : State) : State :=
  if (Z.of_nat (List.length (base_resource_paths_ s)) <=? index)%Z then s
  else
    let s :=
      if (index =? to_uint32 (base_resource s))%Z
      then snd (openBaseResource (-1)%Z s)
      else if (to_int32 index <? base_resource s)%Z
      then set_base_resource (base_resource s - 1)%Z s
      else s in
    let s := set_base_resource_paths
               (eraseAt (Z.to_nat index) (base_resource_paths_ s)) s in
    announce "base_resource_path_removed" None s.

(** [ArchiveManager::getBaseResourcePath] *)
Definition getBaseResourcePath (index : Z) (s : State) : string :=
  if (Z.of_nat (List.length (base_resource_paths_ s)) <=? index)%Z
  then "INVALID INDEX"
  else nth (Z.to_nat index) (base_resource_paths_ s) "".

(** ** Resource lookup *)

Fixpoint getResourceEntry_loop (name : string) (ignore : option Handle)
    (v : list OpenArchive) : option Entry :=
  match v with
  | [] => None
  | open_archive :: v' =>
      if negb (resource open_archive) then getResourceEntry_loop name ignore v'
      else if eqb_ptr (Some (archive open_archive)) ignore
      then getResourceEntry_loop name ignore v'
      else match archiveEntry E (archive open_archive) name with
           | Some entry => Some entry
           | None => getResourceEntry_loop name ignore v'
           end
  end.

(** [ArchiveManager::getResourceEntry] *)
Definition getResourceEntry (name : string) (ignore : option Handle)
    (s : State) : option Entry :=
  match getResourceEntry_loop name ignore (open_archives_ s) with
  | Some entry => Some entry
  | None =>
      match base_resource_archive_ s with
      | Some b => archiveEntry E b name
      | None => None
      end
  end.

Fixpoint findResourceEntry_loop (options : SearchOptions)
    (ignore : option Handle) (v : list OpenArchive) : option Entry :=
  match v with
  | [] => None
  | open_archive :: v' =>
      if negb (resource open_archive)
      then findResourceEntry_loop options ignore v'
      else if eqb_ptr (Some (archive open_archive)) ignore
      then findResourceEntry_loop options ignore v'
      else match findLast E (archive open_archive) options with
           | Some entry => Some entry
           | None => findResourceEntry_loop options ignore v'
           end
  end.

(** [ArchiveManager::findResourceEntry] *)
Definition findResourceEntry (options : SearchOptions) (ignore : option Handle)
    (s : State) : option Entry :=
  match findResourceEntry_loop options ignore (open_archives_ s) with
  | Some entry => Some entry
  | None =>
      match base_resource_archive_ s with
      | Some b => findLast E b options
      | None => None
      end
  end.

Fixpoint findAllResourceEntries_loop (options : SearchOptions)
    (ignore : option Handle) (v : list OpenArchive) (ret : list Entry)
    : list Entry :=
  match v with
  | [] => ret
  | open_archive :: v' =>
      if negb (resource open_archive)
      then findAllResourceEntries_loop options ignore v' ret
      else if eqb_ptr (Some (archive open_archive)) ignore
      then findAllResourceEntries_loop options ignore v' ret
      else findAllResourceEntries_loop options ignore v'
             (ret ++ findAll E (archive open_archive) options)
  end.

(** [ArchiveManager::findAllResourceEntries] *)
Definition findAllResourceEntries (options : SearchOptions)
    (ignore : option Handle) (s : State) : list Entry :=
  let ret :=
    match base_resource_archive_ s with
    | Some b => [] ++ findAll E b options
    | None => []
    end in
  findAllResourceEntries_loop options ignore (open_archives_ s) ret.

(** ** Bookmarks *)

(** [ArchiveManager::addBookmark] *)
Definition addBookmark (entry : Entry) (s : State) : State :=
  if existsb (fun b => Nat.eqb b entry) (bookmarks_ s) then s
  else announce "bookmarks_changed" None
         (set_bookmarks (bookmarks_ s ++ [entry]) s).

(** [ArchiveManager::deleteBookmark(ArchiveEntry* entry)] *)
Definition deleteBookmark (entry : Entry) (s : State) : bool * State :=
  match indexOf_from Nat.eqb 0 entry (bookmarks_ s) with
  | Some a =>
      (true, announce "bookmarks_changed" None
               (set_bookmarks (eraseAt a (bookmarks_ s)) s))
  | None => (false, s)
  end.

(** [ArchiveManager::deleteBookmark(unsigned index)] *)
Definition deleteBookmarkAt (index : Z) (s : State) : bool * State :=
  if (Z.of_nat (List.length (bookmarks_ s)) <=? index)%Z then (false, s)
  else (true, announce "bookmarks_changed" None
                (set_bookmarks (eraseAt (Z.to_nat index) (bookmarks_ s)) s)).

(** The loop of [deleteBookmarksInArchive]: erasing at [a] and stepping [a]
    back keeps the scan on the element that followed; [v] is what is left
    to scan, the result the bookmarks kept and the [removed] flag. *)
Fixpoint deleteBookmarksInArchive_loop (x : Handle) (v : list Entry)
    (removed : bool) : list Entry * bool :=
  match v with
  | [] => ([], removed)
  | b :: v' =>
      if eqb_ptr (entryParent E b) (Some x)
      then deleteBookmarksInArchive_loop x v' true
      else let '(kept, r) := deleteBookmarksInArchive_loop x v' removed in
           (b :: kept, r)
  end.

(** [ArchiveManager::deleteBookmarksInArchive] *)
Definition deleteBookmarksInArchive (x : Handle) (s : State) : bool * State :=
  let '(kept, removed) :=
    deleteBookmarksInArchive_loop x (bookmarks_ s) false in
  let s := set_bookmarks kept s in
  if removed then (true, announce "bookmarks_changed" None s)
  else (false, s).

(** The [while] loop of [deleteBookmarksInDir]: walk from [anode] towards
    the root of the archive, looking for [node]. *)
Fixpoint withinDir (fuel : nat) (node root anode : Node) : outcome bool :=
  match fuel with
  | O => OutOfFuel
  | S fuel' =>
      if Nat.eqb anode root then Done false
      else if Nat.eqb anode node then Done true
      else match nodeParent E anode with
           | Some up => withinDir fuel' node root up
           | None => Undefined
           end
  end.

Fixpoint deleteBookmarksInDir_loop (fuel : nat) (node : Node) (x : Handle)
    (v : list Entry) (removed : bool) : outcome (list Entry * bool) :=
  match v with
  | [] => Done ([], removed)
  | b :: v' =>
      if eqb_ptr (entryParent E b) (Some x) then
        do remove <- withinDir fuel node (rootDir E x) (parentDir E b);
        if (remove : bool) then deleteBookmarksInDir_loop fuel node x v' true
        else
          do kr <- deleteBookmarksInDir_loop fuel node x v' removed;
          Done (b :: fst kr, snd kr)
      else
        do kr <- deleteBookmarksInDir_loop fuel node x v' removed;
        Done (b :: fst kr, snd kr)
  end.

(** [ArchiveManager::deleteBookmarksInDir]; [fuel] bounds the walk up the
    directory tree. *)
Definition deleteBookmarksInDir (fuel : nat) (node : Node) (s : State)
    : outcome (bool * State) :=
  let x := nodeArchive E node in
  let '(removed, s) := deleteBookmark (dirEntry E node) s in
  do kr <- deleteBookmarksInDir_loop fuel node x (bookmarks_ s) removed;
  let s := set_bookmarks (fst kr) s in
  if snd kr then Done (true, announce "bookmarks_changed" None s)
  else Done (false, s).

(** [ArchiveManager::getBookmark] *)
Definition getBookmark (index : Z) (s : State) : option Entry :=
  if (Z.of_nat (List.length (bookmarks_ s)) <=? index)%Z then None
  else nth_error (bookmarks_ s) (Z.to_nat index).

(** ** Opening archives *)

(** The order in which [openArchive(filename)] tries the formats. *)
Definition fileFormats : list Format :=
  [Wad; Zip; Res; Dat; Lib; Pak; BSP; Grp; Rff; Gob; Lfd; Hog; ADat; Wad2;
   WadJ; Wolf; GZip; BZip2; Tar; Disk; Pod; ChasmBin; SiN].

(** The order in which [openArchive(entry)] tries the formats. *)
Definition entryFormats : list Format :=
  [Wad; Zip; Res; Lib; Dat; Pak; BSP; Grp; Rff; Gob; Lfd; Hog; ADat; Wad2;
   WadJ; Wolf; GZip; BZip2; Tar; Disk; Pod; ChasmBin; SiN].

(** The [if ... else if ...] chain over file names. *)
Definition detectFile (path : string) : option Format :=
  find (fun f => isFormatFile E f path) fileFormats.

(** The [if ... else if ...] chain over entry data. *)
Definition detectEntry (entry : Entry) : option Format :=
  find (fun f =>
          match f with
          | Pod => nameEndsWithPod E entry && isFormatData E Pod entry
          | _ => isFormatData E f entry
          end) entryFormats.

(** [if (!silent) { index = archiveIndex(a); announce("archive_opened", mc); }] *)
Definition announceOpened (a : Handle) (silent : bool) (s : State) : State :=
  if silent then s
  else announce "archive_opened" (indexChunk (archiveIndex a s)) s.

(** [ArchiveManager::addArchive], with the call [openArchive(entry, true,
    true)] of its loop passed as [openEntry]. *)
Definition addArchive_with
    (openEntry : Entry -> State -> outcome (option Handle * State))
    (x : option Handle) (s : State) : outcome (bool * State) :=
  match x with
  | Some a =>
      let s := set_open_archives (open_archives_ s ++ [mkOpen a true []]) s in
      let s := set_listening (listening s ++ [a]) s in
      let s := announce "archive_added" None s in
      let s := resources_addArchive a s in
      let roots := match formatOf s a with
                   | Some f => rootWadsFormat f
                   | None => false
                   end in
      if roots && auto_open_wads_root s then
        do s <- forEach (fun entry st =>
                           if entryTypeIsWad E entry
                           then do r <- openEntry entry st; Done (snd r)
                           else Done st)
                        (rootEntries E a) s;
        Done (true, s)
      else Done (true, s)
  | None => Done (false, s)
  end.

(** The first open archive whose [parentEntry()] is [entry]. *)
Fixpoint openedFrom (s : State) (entry : Entry) (v : list OpenArchive)
    : option Handle :=
  match v with
  | [] => None
  | oa :: v' =>
      if eqb_ptr (parentEntry s (archive oa)) (Some entry)
      then Some (archive oa)
      else openedFrom s entry v'
  end.

Definition unsupported : string := "Unsupported or invalid Archive format".

(** [ArchiveManager::openArchive(ArchiveEntry* entry, bool manage, bool silent)];
    [fuel] bounds the nesting of archives opened from the roots of archives. *)
Fixpoint openArchiveEntry (fuel : nat) (entry : option Entry)
    (manage silent : bool) (s : State) : outcome (option Handle * State) :=
  match fuel with
  | O => OutOfFuel
  | S fuel' =>
      match entry with
      | None => Done (None, s)
      | Some e =>
          match openedFrom s e (open_archives_ s) with
          | Some a => Done (Some a, announceOpened a silent s)
          | None =>
              match detectEntry e with
              | None => Done (None, set_global_error unsupported s)
              | Some f =>
                  let '(a, s) := new_archive f s in
                  let '(ok, s) := archive_open_entry a f e s in
                  if ok then
                    if manage then
                      let index_parent :=
                        match entryParent E e with
                        | Some p => archiveIndex p s
                        | None => (-1)%Z
                        end in
                      let s :=
                        if (0 <=? index_parent)%Z then
                          match nth_error (open_archives_ s)
                                  (Z.to_nat index_parent) with
                          | Some oa =>
                              set_open_archives
                                (setAt (Z.to_nat index_parent)
                                   (mkOpen (archive oa) (resource oa)
                                      (open_children oa ++ [a]))
                                   (open_archives_ s)) s
                          | None => s
                          end
                        else s in
                      do r <- addArchive_with
                                (fun e' st =>
                                   openArchiveEntry fuel' (Some e') true true st)
                                (Some a) s;
                      Done (Some a, announceOpened a silent (snd r))
                    else Done (Some a, s)
                  else Done (None, delete_archive a s)
              end
          end
      end
  end.

(** [ArchiveManager::addArchive] *)
Definition addArchive (fuel : nat) (x : option Handle) (s : State)
    : outcome (bool * State) :=
  addArchive_with
    (fun e st => openArchiveEntry fuel (Some e) true true st) x s.

(** [ArchiveManager::openDirArchive] *)
Definition openDirArchive (fuel : nat) (dir : string) (manage silent : bool)
    (s : State) : outcome (option Handle * State) :=
  match getArchive dir s with
  | Some a => Done (Some a, announceOpened a silent s)
  | None =>
      let '(a, s) := new_archive Dir s in
      let '(ok, s) := archive_open_file a Dir dir s in
      if ok then
        if manage then
          do r <- addArchive fuel (Some a) s;
          let s := announceOpened a silent (snd r) in
          Done (Some a, addRecentFile dir s)
        else Done (Some a, s)
      else Done (None, delete_archive a s)
  end.

(** [ArchiveManager::openArchive(const wxString& filename, bool manage,
    bool silent)] *)
Definition openArchive (fuel : nat) (path : string) (manage silent : bool)
    (s : State) : outcome (option Handle * State) :=
  if negb (fileExists E path) && dirExists E path
  then openDirArchive fuel path manage silent s
  else
    match getArchive path s with
    | Some a => Done (Some a, announceOpened a silent s)
    | None =>
        match detectFile path with
        | None => Done (None, set_global_error unsupported s)
        | Some f =>
            let '(a, s) := new_archive f s in
            let '(ok, s) := archive_open_file a f path s in
            if ok then
              if manage then
                do r <- addArchive fuel (Some a) s;
                let s := announceOpened a silent (snd r) in
                Done (Some a, addRecentFile path s)
              else Done (Some a, s)
            else Done (None, delete_archive a s)
        end
    end.

(** ** Closing archives *)

(** [open_archives_[index].open_children = children] *)
Definition set_children (index : nat) (children : list Handle) (s : State)
    : State :=
  match nth_error (open_archives_ s) index with
  | Some oa =>
      set_open_archives
        (setAt index (mkOpen (archive oa) (resource oa) children)
           (open_archives_ s)) s
  | None => s
  end.

(** "Remove ourselves from our parent's open-child list" *)
Definition detachFromParent (x : Handle) (s : State) : State :=
  match parentEntry s x with
  | Some parent =>
      match entryParent E parent with
      | Some gp =>
          let pi := archiveIndex gp s in
          if (0 <=? pi)%Z then
            match nth_error (open_archives_ s) (Z.to_nat pi) with
            | Some oa =>
                set_children (Z.to_nat pi) (eraseFirst x (open_children oa)) s
            | None => s
            end
          else s
      | None => s
      end
  | None => s
  end.

(** [ArchiveManager::closeArchive(int index)]; [fuel] bounds the depth of
    the recursion into child archives.  An access past the end of
    [open_archives_] is [Undefined]. *)
Fixpoint closeArchive (fuel : nat) (index : Z) (s : State)
    : outcome (bool * State) :=
  match fuel with
  | O => OutOfFuel
  | S fuel' =>
      if ((index <? 0) || (Z.of_nat (List.length (open_archives_ s)) <=? index))%Z
      then Done (false, s)
      else
        let mc := Some (to_int32 index) in
        let s := announce "archive_closing" mc s in
        match nth_error (open_archives_ s) (Z.to_nat index) with
        | None => Undefined
        | Some oa =>
            let s := snd (deleteBookmarksInArchive (archive oa) s) in
            let s := resources_removeArchive (archive oa) s in
            let children := open_children oa in
            let s := set_children (Z.to_nat index) [] s in
            do s <- forEach (fun child st =>
                               let ci := archiveIndex child st in
                               if (0 <=? ci)%Z
                               then do r <- closeArchive fuel' ci st;
                                    Done (snd r)
                               else Done st)
                            children s;
            match nth_error (open_archives_ s) (Z.to_nat index) with
            | None => Undefined
            | Some oa' =>
                let s := detachFromParent (archive oa') s in
                match nth_error (open_archives_ s) (Z.to_nat index) with
                | None => Undefined
                | Some oa'' =>
                    let s := delete_archive (archive oa'') s in
                    let s := set_open_archives
                               (eraseAt (Z.to_nat index) (open_archives_ s)) s in
                    Done (true, announce "archive_closed" mc s)
                end
            end
        end
  end.

(** [ArchiveManager::closeArchive(const wxString& filename)] *)
Definition closeArchiveNamed (fuel : nat) (path : string) (s : State)
    : outcome (bool * State) :=
  match indexOf_from String.eqb 0 path
          (map (fun oa => filename s (archive oa)) (open_archives_ s)) with
  | Some a => closeArchive fuel (Z.of_nat a) s
  | None => Done (false, s)
  end.

(** [ArchiveManager::closeArchive(Archive* archive)] *)
Definition closeArchivePtr (fuel : nat) (x : Handle) (s : State)
    : outcome (bool * State) :=
  match indexOf_from Nat.eqb 0 x (map archive (open_archives_ s)) with
  | Some a => closeArchive fuel (Z.of_nat a) s
  | None => Done (false, s)
  end.

(** [ArchiveManager::closeAll]; one [pass] per turn of the [while] loop. *)
Fixpoint closeAll (passes fuel : nat) (s : State) : outcome State :=
  match open_archives_ s with
  | [] => Done s
  | _ :: _ =>
      match passes with
      | O => OutOfFuel
      | S passes' =>
          do r <- closeArchive fuel 0%Z s; closeAll passes' fuel (snd r)
      end
  end.

(** [ArchiveManager::getDependentArchivesInternal] *)
Fixpoint getDependentArchivesInternal (fuel : nat) (s : State) (x : Handle)
    (vec : list Handle) : outcome (list Handle) :=
  match fuel with
  | O => OutOfFuel
  | S fuel' =>
      let ai := archiveIndex x s in
      if (ai <? 0)%Z then Undefined
      else match nth_error (open_archives_ s) (Z.to_nat ai) with
           | None => Undefined
           | Some oa =>
               forEach (fun child vec' =>
                          getDependentArchivesInternal fuel' s child
                            (vec' ++ [child]))
                       (open_children oa) vec
           end
  end.

(** [ArchiveManager::getDependentArchives] *)
Definition getDependentArchives (fuel : nat) (x : Handle) (s : State)
    : outcome (list Handle) :=
  getDependentArchivesInternal fuel s x [].

(** ** Start-up, new archives, relayed announcements, console *)

(** [ArchiveManager::initBaseResource] *)
Definition initBaseResource (s : State) : bool * State :=
  openBaseResource (base_resource s) s.

(** Modelled from the spec: [Archive::setFilename] (Archive/Archive)
    replaces the name the archive reports. *)
Definition setFilename (a : Handle) (name : string) (s : State) : State :=
  match nth_error (heap s) a with
  | Some o =>
      set_heap (setAt a (mkArchive (format o) name (parent_ o)) (heap s)) s
  | None => s
  end.

(** [ArchiveManager::newArchive]; [desc] gives [formatDesc().name] of the
    archive created. *)
Definition newArchive (fuel : nat) (desc : Format -> string) (fmt : string)
    (s : State) : outcome (option Handle * State) :=
  let created :=
    if String.eqb fmt "wad" then Some Wad
    else if String.eqb fmt "zip" then Some Zip
    else None in
  match created with
  | None =>
      Done (None,
            set_global_error
              ("Can not create archive of format: " ++ fmt)%string s)
  | Some f =>
      let '(a, s) := new_archive f s in
      let s := setFilename a ("UNSAVED (" ++ desc f ++ ")")%string s in
      do r <- addArchive fuel (Some a) s;
      Done (Some a, snd r)
  end.

(** [ArchiveManager::onAnnouncement]; [announcer] is the archive the event
    comes from.  The event data is rewound and not read. *)
Definition onAnnouncement (announcer : Handle) (event_name : string)
    (s : State) : State :=
  let index := archiveIndex announcer s in
  if (0 <=? index)%Z then
    let s :=
      if String.eqb event_name "saved"
      then announce "archive_saved" (Some index) s
      else s in
    if String.eqb event_name "modified"
       || String.eqb event_name "entry_modified"
    then announce "archive_modified" (Some index) s
    else s
  else s.

(** Modelled from the spec: [openArchive(filename)] with its default
    arguments, [manage = true] and [silent = false], which the class
    declaration (Archive/ArchiveManager.h) gives and the file does not. *)
Definition openArchive_default (fuel : nat) (path : string) (s : State)
    : outcome (option Handle * State) :=
  openArchive fuel path true false s.

(** The console command [open]: [openArchive(arg)] for each argument. *)
Definition c_open (fuel : nat) (args : list string) (s : State)
    : outcome State :=
  forEach (fun arg st => do r <- openArchive_default fuel arg st; Done (snd r))
          args s.

End Model.

(** * Concrete worlds used by the examples *)

(** A world with no files, no recognisable data and empty archives. *)
Definition emptyEnv : Env :=
  mkEnv (fun _ => false) (fun _ => false) (fun _ _ => false)
    (fun _ _ => false) (fun _ => false) (fun _ _ => false) (fun _ _ => false)
    (fun _ => "load failed") (fun _ => None) (fun _ => []) (fun _ => false)
    (fun _ _ => None) (fun _ _ => None) (fun _ _ => []) (fun _ => 0)
    (fun _ => None) (fun _ => 0) (fun _ => 0) (fun _ => 0) (fun _ => "").

(** [emptyEnv] with the files of [files] on disk. *)
Definition diskEnv (files : list string) : Env :=
  mkEnv (fun p => existsb (String.eqb p) files) (fun _ => false)
    (fun _ _ => false)
    (fun _ _ => false) (fun _ => false) (fun _ _ => false) (fun _ _ => false)
    (fun _ => "load failed") (fun _ => None) (fun _ => []) (fun _ => false)
    (fun _ _ => None) (fun _ _ => None) (fun _ _ => []) (fun _ => 0)
    (fun _ => None) (fun _ => 0) (fun _ => 0) (fun _ => 0) (fun _ => "").

(** [doom.wad] is loaded as base resource 0; the second candidate path is a
    text file. *)
Definition baseLoaded : State :=
  mkState [] (Some 0) ["doom.wad"; "notes.txt"] [] [] 0%Z 25%Z false false
    [] [] [0] [mkArchive Wad "doom.wad" None] [] "".

(** Two candidate paths, the second one loaded. *)
Definition secondLoaded : State :=
  mkState [] (Some 0) ["p0.wad"; "p1.wad"] [] [] 1%Z 25%Z false false
    [] [] [0] [mkArchive Wad "p1.wad" None] [] "".

(** Archive 0 holds entry 10 and archive 1 holds entry 11; both answer every
    lookup with their entry. *)
Definition overlayEnv : Env :=
  {| fileExists := fun _ => false;
     dirExists := fun _ => false;
     isFormatFile := fun _ _ => false;
     isFormatData := fun _ _ => false;
     nameEndsWithPod := fun _ => false;
     loadFile := fun _ _ => false;
     loadEntry := fun _ _ => false;
     loadError := fun _ => "load failed";
     entryParent := fun e => if Nat.eqb e 10 then Some 0
                             else if Nat.eqb e 11 then Some 1 else None;
     rootEntries := fun _ => [];
     entryTypeIsWad := fun _ => false;
     archiveEntry := fun a _ => if Nat.eqb a 0 then Some 10
                                else if Nat.eqb a 1 then Some 11 else None;
     findLast := fun a _ => if Nat.eqb a 0 then Some 10
                            else if Nat.eqb a 1 then Some 11 else None;
     findAll := fun a _ => if Nat.eqb a 0 then [10]
                           else if Nat.eqb a 1 then [11] else [];
     parentDir := fun _ => 0;
     nodeParent := fun _ => None;
     rootDir := fun _ => 0;
     dirEntry := fun _ => 0;
     nodeArchive := fun _ => 0;
     nestedName := fun _ => "" |}.

(** Archive 0 is the base archive, archive 1 is open and a resource. *)
Definition overlayState : State :=
  mkState [mkOpen 1 true []] (Some 0) ["doom.wad"] [] [] 0%Z 25%Z false false
    [] [1] [0; 1]
    [mkArchive Wad "doom.wad" None; mkArchive Wad "my.wad" None] [] "".

(** Only the base archive (archive 0) is loaded. *)
Definition baseOnlyState : State :=
  mkState [] (Some 0) ["doom.wad"] [] [] 0%Z 25%Z false false
    [] [] [0] [mkArchive Wad "doom.wad" None] [] "".

(** Archive 0 with root node 0 and one directory, node 1, below it; entry 5
    is the directory's own entry, entry 6 lies inside the directory and
    entry 7 at the root. *)
Definition bookmarkEnv : Env :=
  {| fileExists := fun _ => false;
     dirExists := fun _ => false;
     isFormatFile := fun _ _ => false;
     isFormatData := fun _ _ => false;
     nameEndsWithPod := fun _ => false;
     loadFile := fun _ _ => false;
     loadEntry := fun _ _ => false;
     loadError := fun _ => "load failed";
     entryParent := fun _ => Some 0;
     rootEntries := fun _ => [];
     entryTypeIsWad := fun _ => false;
     archiveEntry := fun _ _ => None;
     findLast := fun _ _ => None;
     findAll := fun _ _ => [];
     parentDir := fun e => if Nat.eqb e 6 then 1 else 0;
     nodeParent := fun n => if Nat.eqb n 1 then Some 0 else None;
     rootDir := fun _ => 0;
     dirEntry := fun n => if Nat.eqb n 1 then 5 else 0;
     nodeArchive := fun _ => 0;
     nestedName := fun _ => "" |}.

(** Archive 0 is open; bookmarks on entries 5, 6 and 7. *)
Definition bookmarkedState : State :=
  mkState [mkOpen 0 true []] None [] [] [5; 6; 7] (-1)%Z 25%Z false false
    [] [0] [0] [mkArchive Zip "maps.pk3" None] [] "".

(** [maps.pk3] is a ZIP on disk whose root holds entry 20, a WAD; every
    load succeeds. *)
Definition autoMountEnv : Env :=
  {| fileExists := fun p => String.eqb p "maps.pk3";
     dirExists := fun _ => false;
     isFormatFile := fun f p => match f with
                                | Zip => String.eqb p "maps.pk3"
                                | _ => false
                                end;
     isFormatData := fun f e => match f with
                                | Wad => Nat.eqb e 20
                                | _ => false
                                end;
     nameEndsWithPod := fun _ => false;
     loadFile := fun _ _ => true;
     loadEntry := fun _ _ => true;
     loadError := fun _ => "load failed";
     entryParent := fun e => if Nat.eqb e 20 then Some 0 else None;
     rootEntries := fun a => if Nat.eqb a 0 then [20] else [];
     entryTypeIsWad := fun e => Nat.eqb e 20;
     archiveEntry := fun _ _ => None;
     findLast := fun _ _ => None;
     findAll := fun _ _ => [];
     parentDir := fun _ => 0;
     nodeParent := fun _ => None;
     rootDir := fun _ => 0;
     dirEntry := fun _ => 0;
     nodeArchive := fun _ => 0;
     nestedName := fun _ => "maps.pk3/inner" |}.

(** The manager as constructed, with [auto_open_wads_root] switched on. *)
Definition autoMountState : State :=
  mkState [] None [] [] [] (-1)%Z 25%Z true false [] [] [] [] [] "".

(** Entry 20 lies in archive 0 and entry 21 in archive 1. *)
Definition nestedEnv : Env :=
  {| fileExists := fun _ => false;
     dirExists := fun _ => false;
     isFormatFile := fun _ _ => false;
     isFormatData := fun _ _ => false;
     nameEndsWithPod := fun _ => false;
     loadFile := fun _ _ => false;
     loadEntry := fun _ _ => false;
     loadError := fun _ => "load failed";
     entryParent := fun e => if Nat.eqb e 20 then Some 0
                             else if Nat.eqb e 21 then Some 1 else None;
     rootEntries := fun _ => [];
     entryTypeIsWad := fun _ => false;
     archiveEntry := fun _ _ => None;
     findLast := fun _ _ => None;
     findAll := fun _ _ => [];
     parentDir := fun _ => 0;
     nodeParent := fun _ => None;
     rootDir := fun _ => 0;
     dirEntry := fun _ => 0;
     nodeArchive := fun _ => 0;
     nestedName := fun _ => "" |}.

(** [maps.pk3] (archive 0) is open; archive 1 was opened from its entry 20
    and archive 2 from entry 21 of archive 1; [other.wad] (archive 3) is
    open beside them. *)
Definition nestedState : State :=
  mkState
    [mkOpen 0 true [1]; mkOpen 1 true [2]; mkOpen 2 true []; mkOpen 3 true []]
    None [] [] [] (-1)%Z 25%Z false false [] [0; 1; 2; 3] [0; 1; 2; 3]
    [mkArchive Zip "maps.pk3" None; mkArchive Wad "" (Some 20);
     mkArchive Wad "" (Some 21); mkArchive Wad "other.wad" None] [] "".

(** One WAD on disk, reachable under two spellings of its path. *)
Definition slashEnv : Env :=
  {| fileExists := fun p => String.eqb p "C:\maps\a.wad"
                            || String.eqb p "C:/maps/a.wad";
     dirExists := fun _ => false;
     isFormatFile := fun f _ => match f with
                                | Wad => true
                                | _ => false
                                end;
     isFormatData := fun _ _ => false;
     nameEndsWithPod := fun _ => false;
     loadFile := fun _ _ => true;
     loadEntry := fun _ _ => false;
     loadError := fun _ => "load failed";
     entryParent := fun _ => None;
     rootEntries := fun _ => [];
     entryTypeIsWad := fun _ => false;
     archiveEntry := fun _ _ => None;
     findLast := fun _ _ => None;
     findAll := fun _ _ => [];
     parentDir := fun _ => 0;
     nodeParent := fun _ => None;
     rootDir := fun _ => 0;
     dirEntry := fun _ => 0;
     nodeArchive := fun _ => 0;
     nestedName := fun _ => "" |}.

(** [nestedEnv] with one more entry: entry 22 lies in archive 3, holds a
    WAD and loads. *)
Definition nestedChildEnv : Env :=
  {| fileExists := fun _ => false;
     dirExists := fun _ => false;
     isFormatFile := fun _ _ => false;
     isFormatData := fun f e => match f with
                                | Wad => Nat.eqb e 22
                                | _ => false
                                end;
     nameEndsWithPod := fun _ => false;
     loadFile := fun _ _ => false;
     loadEntry := fun _ e => Nat.eqb e 22;
     loadError := fun _ => "load failed";
     entryParent := fun e => if Nat.eqb e 20 then Some 0
                             else if Nat.eqb e 21 then Some 1
                             else if Nat.eqb e 22 then Some 3 else None;
     rootEntries := fun _ => [];
     entryTypeIsWad := fun _ => false;
     archiveEntry := fun _ _ => None;
     findLast := fun _ _ => None;
     findAll := fun _ _ => [];
     parentDir := fun _ => 0;
     nodeParent := fun _ => None;
     rootDir := fun _ => 0;
     dirEntry := fun _ => 0;
     nodeArchive := fun _ => 0;
     nestedName := fun _ => "" |}.

(** One WAD on disk that is recognised and does not load. *)
Definition brokenEnv : Env :=
  {| fileExists := fun p => String.eqb p "broken.wad";
     dirExists := fun _ => false;
     isFormatFile := fun f p => match f with
                                | Wad => String.eqb p "broken.wad"
                                | _ => false
                                end;
     isFormatData := fun _ _ => false;
     nameEndsWithPod := fun _ => false;
     loadFile := fun _ _ => false;
     loadEntry := fun _ _ => false;
     loadError := fun _ => "load failed";
     entryParent := fun e => if Nat.eqb e 20 then Some 0
                             else if Nat.eqb e 21 then Some 1 else None;
     rootEntries := fun _ => [];
     entryTypeIsWad := fun _ => false;
     archiveEntry := fun _ _ => None;
     findLast := fun _ _ => None;
     findAll := fun _ _ => [];
     parentDir := fun _ => 0;
     nodeParent := fun _ => None;
     rootDir := fun _ => 0;
     dirEntry := fun _ => 0;
     nodeArchive := fun _ => 0;
     nestedName := fun _ => "" |}.

(** [nestedState] after the attempt to open [broken.wad]: a fifth archive
    object was created and deleted again, and the message is in
    [Global::error]. *)
Definition afterBrokenOpen : State :=
  mkState
    [mkOpen 0 true [1]; mkOpen 1 true [2]; mkOpen 2 true []; mkOpen 3 true []]
    None [] [] [] (-1)%Z 25%Z false false [] [0; 1; 2; 3] [0; 1; 2; 3]
    [mkArchive Zip "maps.pk3" None; mkArchive Wad "" (Some 20);
     mkArchive Wad "" (Some 21); mkArchive Wad "other.wad" None;
     mkArchive Wad "" None] [4] "load failed".

(** * Vocabulary of the statements *)

(** The recent-file list has no duplicates and is within the configured
    maximum. *)
Definition recentInv (s : State) : Prop :=
  NoDup (recent_files_ s) /\
  (Z.of_nat (List.length (recent_files_ s)) <= max_recent_files s)%Z.

(** How often the event [name] was announced. *)
Definition announcedCount (name : string) (s : State) : nat :=
  List.length (filter (fun ev => String.eqb (fst ev) name) (announced s)).

(** An open archive takes part in a lookup that ignores [ignore]. *)
Definition eligible (ignore : option Handle) (oa : OpenArchive) : bool :=
  resource oa && negb (eqb_ptr (Some (archive oa)) ignore).

(** The first answer [lookup] gives over [v], in the order of [v]. *)
Fixpoint firstMatch {A B : Type} (lookup : A -> option B) (v : list A)
    : option B :=
  match v with
  | [] => None
  | a :: v' =>
      match lookup a with
      | Some b => Some b
      | None => firstMatch lookup v'
      end
  end.

(** C6 as stated: a result never belongs to the ignored archive nor to an
    open archive whose resource flag is off. *)
Definition excludesIneligible (E : Env) (s : State) (ignore : option Handle)
    (result : option Entry) : Prop :=
  forall e a,
    result = Some e -> entryParent E e = Some a ->
    ignore <> Some a /\
    (forall oa, In oa (open_archives_ s) -> archive oa = a -> resource oa = true).

(** The members the manager keeps about open archives, bookmarks, recent
    files and the base resource, the resource pool and what was announced
    are the same in [s] and [s']; the heap of archive objects and
    [Global::error] may differ. *)
Definition sameRegistry (s s' : State) : Prop :=
  open_archives_ s' = open_archives_ s /\
  base_resource_archive_ s' = base_resource_archive_ s /\
  base_resource_paths_ s' = base_resource_paths_ s /\
  recent_files_ s' = recent_files_ s /\
  bookmarks_ s' = bookmarks_ s /\
  base_resource s' = base_resource s /\
  announced s' = announced s /\
  listening s' = listening s /\
  resources s' = resources s.

(** ** The nesting of open archives *)

(** [archive->parentEntry()->parent()]: the archive that holds the entry an
    archive was opened from. *)
Definition parentArchive (E : Env) (s : State) (x : Handle) : option Handle :=
  match parentEntry s x with
  | Some e => entryParent E e
  | None => None
  end.

(** [x] has a record in the registry. *)
Definition tracked (s : State) (x : Handle) : Prop :=
  In x (map archive (open_archives_ s)).

(** [d] is reached from [x] along the child lists of the registry [v]. *)
Inductive descendant (v : list OpenArchive) (x : Handle) : Handle -> Prop :=
| desc_child (oa : OpenArchive) (c : Handle) :
    In oa v -> archive oa = x -> In c (open_children oa) ->
    descendant v x c
| desc_step (y : Handle) (oa : OpenArchive) (c : Handle) :
    descendant v x y ->
    In oa v -> archive oa = y -> In c (open_children oa) ->
    descendant v x c.

(** Every listed child has its record later in the registry: children are
    opened, and so registered, after the archive they are opened from. *)
Fixpoint ordered (v : list OpenArchive) : Prop :=
  match v with
  | [] => True
  | oa :: v' =>
      (forall c, In c (open_children oa) -> In c (map archive v')) /\
      ordered v'
  end.

(** The registry invariant, over the parent relation [par] of the archive
    objects: one record per handle, a listed child was opened from an entry
    of the listing archive, no child is listed twice, and [ordered]. *)
Definition wf (par : Handle -> option Handle) (v : list OpenArchive) : Prop :=
  NoDup (map archive v) /\
  (forall oa c, In oa v -> In c (open_children oa) ->
                par c = Some (archive oa)) /\
  (forall oa, In oa v -> NoDup (open_children oa)) /\
  ordered v.

Definition wellFormed (E : Env) (s : State) : Prop :=
  wf (parentArchive E s) (open_archives_ s).

(** The order in which closing [x] closes archives: depth first, the
    subtrees of the listed children in the order of the child list, then
    [x] itself; a handle without a record is passed over. *)
Fixpoint closeOrder (fuel : nat) (v : list OpenArchive) (x : Handle)
    : list Handle :=
  match fuel with
  | O => []
  | S fuel' =>
      match find (fun oa => Nat.eqb (archive oa) x) v with
      | Some oa => flat_map (closeOrder fuel' v) (open_children oa) ++ [x]
      | None => []
      end
  end.

(** Every tracked handle refers to an archive object that was created. *)
Definition allocated (s : State) : Prop :=
  forall x, tracked s x -> x < List.length (heap s).

(** The invariant of the registry that opening and closing maintain. *)
Definition registryInv (E : Env) (s : State) : Prop :=
  wellFormed E s /\ allocated s.

(** The states the manager gets into: it starts with no archive open and
    no archive object created, and changes state by its member functions
    and the console command.  ([init] is left out: it sets up the program
    resource archive, which is kept outside the registry and is not part
    of [State].)  Code outside the manager may create archive
    objects ([reach_create]) and hand them to [addArchive]; the invariant
    of the registry needs [addArchive] to be given the null pointer or an
    archive object that was created and is not registered yet, which is
    how the manager itself calls it. *)
Inductive reachable (E : Env) : State -> Prop :=
| reach_start (s : State) :
    open_archives_ s = [] -> heap s = [] -> reachable E s
| reach_create (o : ArchiveObj) (s : State) :
    reachable E s -> reachable E (set_heap (heap s ++ [o]) s)
| reach_addArchive (fuel : nat) (x : option Handle) (s : State) (r : bool)
    (s' : State) :
    reachable E s ->
    (forall a, x = Some a -> a < List.length (heap s) /\ ~ tracked s a) ->
    addArchive E fuel x s = Done (r, s') ->
    reachable E s'
| reach_newArchive (fuel : nat) (desc : Format -> string) (fmt : string)
    (s : State) (r : option Handle) (s' : State) :
    reachable E s ->
    newArchive E fuel desc fmt s = Done (r, s') ->
    reachable E s'
| reach_openArchive (fuel : nat) (path : string) (manage silent : bool)
    (s : State) (r : option Handle) (s' : State) :
    reachable E s ->
    openArchive E fuel path manage silent s = Done (r, s') ->
    reachable E s'
| reach_openDirArchive (fuel : nat) (dir : string) (manage silent : bool)
    (s : State) (r : option Handle) (s' : State) :
    reachable E s ->
    openDirArchive E fuel dir manage silent s = Done (r, s') ->
    reachable E s'
| reach_openArchiveEntry (fuel : nat) (entry : option Entry)
    (manage silent : bool) (s : State) (r : option Handle) (s' : State) :
    reachable E s ->
    openArchiveEntry E fuel entry manage silent s = Done (r, s') ->
    reachable E s'
| reach_c_open (fuel : nat) (args : list string) (s s' : State) :
    reachable E s ->
    c_open E fuel args s = Done s' ->
    reachable E s'
| reach_closeArchive (fuel : nat) (index : Z) (s : State) (r : bool)
    (s' : State) :
    reachable E s ->
    List.length (open_archives_ s) <= fuel ->
    closeArchive E fuel index s = Done (r, s') ->
    reachable E s'
| reach_closeArchiveNamed (fuel : nat) (path : string) (s : State) (r : bool)
    (s' : State) :
    reachable E s ->
    List.length (open_archives_ s) <= fuel ->
    closeArchiveNamed E fuel path s = Done (r, s') ->
    reachable E s'
| reach_closeArchivePtr (fuel : nat) (x : Handle) (s : State) (r : bool)
    (s' : State) :
    reachable E s ->
    List.length (open_archives_ s) <= fuel ->
    closeArchivePtr E fuel x s = Done (r, s') ->
    reachable E s'
| reach_closeAll (passes fuel : nat) (s s' : State) :
    reachable E s ->
    List.length (open_archives_ s) <= fuel ->
    closeAll E passes fuel s = Done s' ->
    reachable E s'
| reach_setArchiveResource (x : Handle) (res : bool) (s : State) :
    reachable E s -> reachable E (setArchiveResource x res s)
| reach_initBaseResource (s : State) :
    reachable E s -> reachable E (snd (initBaseResource E s))
| reach_openBaseResource (index : Z) (s : State) :
    reachable E s -> reachable E (snd (openBaseResource E index s))
| reach_removeBaseResourcePath (index : Z) (s : State) :
    reachable E s -> reachable E (removeBaseResourcePath E index s)
| reach_addBaseResourcePath (path : string) (s : State) :
    reachable E s -> reachable E (snd (addBaseResourcePath E path s))
| reach_addRecentFile (path : string) (s : State) :
    reachable E s -> reachable E (addRecentFile E path s)
| reach_addRecentFiles (paths : list string) (s : State) :
    reachable E s -> reachable E (addRecentFiles E paths s)
| reach_removeRecentFile (path : string) (s : State) :
    reachable E s -> reachable E (removeRecentFile path s)
| reach_addBookmark (entry : Entry) (s : State) :
    reachable E s -> reachable E (addBookmark entry s)
| reach_deleteBookmark (entry : Entry) (s : State) :
    reachable E s -> reachable E (snd (deleteBookmark entry s))
| reach_deleteBookmarkAt (index : Z) (s : State) :
    reachable E s -> reachable E (snd (deleteBookmarkAt index s))
| reach_deleteBookmarksInArchive (x : Handle) (s : State) :
    reachable E s -> reachable E (snd (deleteBookmarksInArchive E x s))
| reach_deleteBookmarksInDir (fuel : nat) (node : Node) (s : State)
    (r : bool) (s' : State) :
    reachable E s ->
    deleteBookmarksInDir E fuel node s = Done (r, s') ->
    reachable E s'
| reach_onAnnouncement (x : Handle) (event_name : string) (s : State) :
    reachable E s -> reachable E (onAnnouncement x event_name s).

(** The decision procedure for [wellFormed]. *)
Fixpoint nodupb (l : list nat) : bool :=
  match l with
  | [] => true
  | x :: l' => negb (existsb (Nat.eqb x) l') && nodupb l'
  end.

Fixpoint orderedb (v : list OpenArchive) : bool :=
  match v with
  | [] => true
  | oa :: v' =>
      forallb (fun c => existsb (Nat.eqb c) (map archive v'))
        (open_children oa)
      && orderedb v'
  end.

Definition wellFormedb (E : Env) (s : State) : bool :=
  nodupb (map archive (open_archives_ s))
  && forallb (fun oa =>
                forallb (fun c => eqb_ptr (parentArchive E s c)
                                    (Some (archive oa)))
                  (open_children oa))
       (open_archives_ s)
  && forallb (fun oa => nodupb (open_children oa)) (open_archives_ s)
  && orderedb (open_archives_ s).

(** The record of an archive that is not among the closed ones [L]. *)
Definition keep (L : list Handle) (oa : OpenArchive) : bool :=
  negb (existsb (Nat.eqb (archive oa)) L).

(** What closing [x] does to a record that stays: the record of the archive
    [x] was opened from loses [x] from its child list. *)
Definition detachFrom (par : Handle -> option Handle) (x : Handle)
    (oa : OpenArchive) : OpenArchive :=
  if eqb_ptr (par x) (Some (archive oa))
  then mkOpen (archive oa) (resource oa) (eraseFirst x (open_children oa))
  else oa.

(** A bookmark whose entry belongs to none of the archives [R]. *)
Definition keepBookmark (E : Env) (R : list Handle) (b : Entry) : bool :=
  negb (existsb (fun a => eqb_ptr (entryParent E b) (Some a)) R).

(** A handle that is not among [R]. *)
Definition notAmong (R : list Handle) (y : Handle) : bool :=
  negb (existsb (Nat.eqb y) R).

(** The archive [a] holds a bookmarked entry. *)
Definition hasBookmark (E : Env) (bm : list Entry) (a : Handle) : bool :=
  existsb (fun b => eqb_ptr (entryParent E b) (Some a)) bm.

(** How often closing the archives [R], with the bookmarks [bm] before,
    announces the event [name]: "archive_closing" and "archive_closed" once
    for each archive, "bookmarks_changed" once for each archive that holds
    a bookmark, and nothing else. *)
Definition closingEvents (E : Env) (bm : list Entry) (R : list Handle)
    (name : string) : nat :=
  if String.eqb name "archive_closing" then List.length R
  else if String.eqb name "archive_closed" then List.length R
  else if String.eqb name "bookmarks_changed"
       then List.length (filter (hasBookmark E bm) R)
       else 0.

(** The members of the manager that closing an archive never writes, the
    settings and the mute flag are the same in [s] and [s']. *)
Definition closeFrame (s s' : State) : Prop :=
  base_resource_archive_ s' = base_resource_archive_ s /\
  base_resource_paths_ s' = base_resource_paths_ s /\
  recent_files_ s' = recent_files_ s /\
  base_resource s' = base_resource s /\
  max_recent_files s' = max_recent_files s /\
  auto_open_wads_root s' = auto_open_wads_root s /\
  muted_ s' = muted_ s.

(** Between [s] and [s'] none of the members of [closeFrame] was written,
    and nothing was announced if the manager is muted. *)
Definition quietly (s s' : State) : Prop :=
  closeFrame s s' /\ (muted_ s = true -> announced s' = announced s).

(** The class [openArchive] by file name instantiates for [path]: a folder
    archive when the path is a directory and not a file, otherwise the first
    format whose check accepts the file. *)
Definition classOf (E : Env) (path : string) : option Format :=
  if negb (fileExists E path) && dirExists E path then Some Dir
  else detectFile E path.

(** From [s] to [s'] the registry only got records at its end, the archive
    objects that existed are as they were, and "archive_added" was not
    announced less often. *)
Definition grows (s s' : State) : Prop :=
  (exists more,
      map archive (open_archives_ s')
      = map archive (open_archives_ s) ++ more) /\
  (forall x, x < List.length (heap s) ->
             nth_error (heap s') x = nth_error (heap s) x) /\
  List.length (heap s) <= List.length (heap s') /\
  muted_ s' = muted_ s /\
  announcedCount "archive_added" s <= announcedCount "archive_added" s'.

(** The calls of the manager that report success or failure. *)
Inductive Call : Type :=
  | Call_openArchive (path : string) (manage silent : bool)
  | Call_openDirArchive (dir : string) (manage silent : bool)
  | Call_openArchiveEntry (entry : option Entry) (manage silent : bool)
  | Call_newArchive (desc : Format -> string) (fmt : string)
  | Call_addArchive (x : option Handle)
  | Call_closeArchive (index : Z)
  | Call_closeArchiveNamed (path : string)
  | Call_closeArchivePtr (x : Handle)
  | Call_addBaseResourcePath (path : string)
  | Call_deleteBookmark (entry : Entry)
  | Call_deleteBookmarkAt (index : Z)
  | Call_deleteBookmarksInArchive (x : Handle)
  | Call_deleteBookmarksInDir (node : Node).

(** The call is one that creates an archive object: an open or
    [newArchive]. *)
Definition creates (c : Call) : bool :=
  match c with
  | Call_openArchive _ _ _ | Call_openDirArchive _ _ _
  | Call_openArchiveEntry _ _ _ | Call_newArchive _ _ => true
  | _ => false
  end.

(** A call that returns an archive has succeeded when the archive is not
    null. *)
Definition returned (r : outcome (option Handle * State))
    : outcome (bool * State) :=
  do res <- r;
  Done (match fst res with Some _ => true | None => false end, snd res).

(** The call [c] made in the state [s]: whether it reports success, and the
    state after it. *)
Definition runCall (E : Env) (fuel : nat) (c : Call) (s : State)
    : outcome (bool * State) :=
  match c with
  | Call_openArchive path manage silent =>
      returned (openArchive E fuel path manage silent s)
  | Call_openDirArchive dir manage silent =>
      returned (openDirArchive E fuel dir manage silent s)
  | Call_openArchiveEntry entry manage silent =>
      returned (openArchiveEntry E fuel entry manage silent s)
  | Call_newArchive desc fmt => returned (newArchive E fuel desc fmt s)
  | Call_addArchive x => addArchive E fuel x s
  | Call_closeArchive index => closeArchive E fuel index s
  | Call_closeArchiveNamed path => closeArchiveNamed E fuel path s
  | Call_closeArchivePtr x => closeArchivePtr E fuel x s
  | Call_addBaseResourcePath path => Done (addBaseResourcePath E path s)
  | Call_deleteBookmark entry => Done (deleteBookmark entry s)
  | Call_deleteBookmarkAt index => Done (deleteBookmarkAt index s)
  | Call_deleteBookmarksInArchive x => Done (deleteBookmarksInArchive E x s)
  | Call_deleteBookmarksInDir node => deleteBookmarksInDir E fuel node s
  end.

(** What a failed open or [newArchive] leaves of [s]: the state as it was;
    or the state with a message in [Global::error]; or, after a load that
    failed, the state with the message of the format and with the archive
    object that was created for the load deleted again. *)
Definition afterFailedOpen (E : Env) (s s' : State) : Prop :=
  s' = s \/
  (exists msg, s' = set_global_error msg s) \/
  (exists f,
      s' = delete_archive (List.length (heap s))
             (set_global_error (loadError E f)
                (set_heap (heap s ++ [mkArchive f "" None]) s))).

(** [s'] has heard what [s] has and possibly more, and is muted alike. *)
Definition extends (s s' : State) : Prop :=
  muted_ s' = muted_ s /\ exists ext, announced s' = announced s ++ ext.

(** How often the character [c] occurs in [t]. *)
Fixpoint occurrences (c : ascii) (t : string) : nat :=
  match t with
  | EmptyString => 0
  | String d rest => (if Ascii.eqb d c then 1 else 0) + occurrences c rest
  end.

(** * Properties *)

(** ** Announcing leaves every member but [announced] alone *)

Section AnnounceFrame.

Variables (name : string) (data : option Z) (s : State).

Lemma announce_open_archives :
  open_archives_ (announce name data s) = open_archives_ s.
Proof. unfold announce. destruct (muted_ s) eqn:Hm; simpl; congruence. Qed.

Lemma announce_base_resource_archive :
  base_resource_archive_ (announce name data s) = base_resource_archive_ s.
Proof. unfold announce. destruct (muted_ s) eqn:Hm; simpl; congruence. Qed.

Lemma announce_base_resource_paths :
  base_resource_paths_ (announce name data s) = base_resource_paths_ s.
Proof. unfold announce. destruct (muted_ s) eqn:Hm; simpl; congruence. Qed.

Lemma announce_recent_files :
  recent_files_ (announce name data s) = recent_files_ s.
Proof. unfold announce. destruct (muted_ s) eqn:Hm; simpl; congruence. Qed.

Lemma announce_bookmarks :
  bookmarks_ (announce name data s) = bookmarks_ s.
Proof. unfold announce. destruct (muted_ s) eqn:Hm; simpl; congruence. Qed.

Lemma announce_base_resource :
  base_resource (announce name data s) = base_resource s.
Proof. unfold announce. destruct (muted_ s) eqn:Hm; simpl; congruence. Qed.

Lemma announce_max_recent_files :
  max_recent_files (announce name data s) = max_recent_files s.
Proof. unfold announce. destruct (muted_ s) eqn:Hm; simpl; congruence. Qed.

Lemma announce_auto_open_wads_root :
  auto_open_wads_root (announce name data s) = auto_open_wads_root s.
Proof. unfold announce. destruct (muted_ s) eqn:Hm; simpl; congruence. Qed.

Lemma announce_muted :
  muted_ (announce name data s) = muted_ s.
Proof. unfold announce. destruct (muted_ s) eqn:Hm; simpl; congruence. Qed.

Lemma announce_listening :
  listening (announce name data s) = listening s.
Proof. unfold announce. destruct (muted_ s) eqn:Hm; simpl; congruence. Qed.

Lemma announce_resources :
  resources (announce name data s) = resources s.
Proof. unfold announce. destruct (muted_ s) eqn:Hm; simpl; congruence. Qed.

Lemma announce_heap :
  heap (announce name data s) = heap s.
Proof. unfold announce. destruct (muted_ s) eqn:Hm; simpl; congruence. Qed.

Lemma announce_destroyed :
  destroyed (announce name data s) = destroyed s.
Proof. unfold announce. destruct (muted_ s) eqn:Hm; simpl; congruence. Qed.

Lemma announce_global_error :
  global_error (announce name data s) = global_error s.
Proof. unfold announce. destruct (muted_ s) eqn:Hm; simpl; congruence. Qed.

Lemma announce_announced :
  muted_ s = false ->
  announced (announce name data s) = announced s ++ [(name, data)].
Proof. intros H. unfold announce. rewrite H. reflexivity. Qed.

End AnnounceFrame.

Create Rewrite HintDb state.
#[export] Hint Rewrite announce_open_archives announce_base_resource_archive
  announce_base_resource_paths announce_recent_files announce_bookmarks
  announce_base_resource announce_max_recent_files
  announce_auto_open_wads_root announce_muted announce_listening
  announce_resources announce_heap announce_destroyed announce_global_error : state.

(** Reduce projections of updated states without unfolding anything else. *)
Ltac state_simpl :=
  repeat progress
    (autorewrite with state;
     unfold set_open_archives, set_base_resource_archive,
       set_base_resource_paths, set_recent_files, set_bookmarks,
       set_base_resource, set_muted, set_announced, set_listening,
       set_resources, set_heap, set_destroyed, set_global_error;
     cbn [open_archives_ base_resource_archive_ base_resource_paths_
          recent_files_ bookmarks_ base_resource max_recent_files
          auto_open_wads_root muted_ announced listening resources heap
          destroyed global_error]).

(** ** Vectors *)

Section Vectors.

Context {A : Type}.

Lemma eraseAt_length (a : nat) (v : list A) :
  a < List.length v -> List.length (eraseAt a v) = List.length v - 1.
Proof.
  intros Ha. unfold eraseAt.
  rewrite length_app, length_firstn, length_skipn. lia.
Qed.

Lemma eraseAt_split (before after : list A) (x : A) :
  eraseAt (List.length before) (before ++ x :: after) = before ++ after.
Proof.
  unfold eraseAt.
  rewrite firstn_app, firstn_all, Nat.sub_diag, firstn_O, app_nil_r.
  replace (S (List.length before)) with (List.length (before ++ [x])).
  - replace (before ++ x :: after) with ((before ++ [x]) ++ after).
    + rewrite skipn_app, skipn_all, Nat.sub_diag. reflexivity.
    + rewrite <- app_assoc. reflexivity.
  - rewrite length_app. simpl. lia.
Qed.

Lemma nth_error_split_at (v : list A) (a : nat) (x : A) :
  nth_error v a = Some x ->
  v = firstn a v ++ x :: skipn (S a) v /\ List.length (firstn a v) = a.
Proof.
  revert a. induction v as [|y v IH]; intros [|a] H; simpl in *;
    try discriminate.
  - inversion H; subst. split; reflexivity.
  - destruct (IH a H) as [Hv Hl]. split.
    + f_equal. exact Hv.
    + f_equal. exact Hl.
Qed.

Lemma eraseAt_In (a : nat) (v : list A) (x : A) :
  In x (eraseAt a v) -> In x v.
Proof.
  unfold eraseAt. intros H. apply in_app_or in H. destruct H as [H|H].
  - rewrite <- (firstn_skipn a v). apply in_or_app. left. exact H.
  - rewrite <- (firstn_skipn (S a) v). apply in_or_app. right. exact H.
Qed.

Lemma NoDup_eraseAt (a : nat) (v : list A) : NoDup v -> NoDup (eraseAt a v).
Proof.
  intros H. destruct (nth_error v a) as [x|] eqn:Hx.
  - destruct (nth_error_split_at v a x Hx) as [Hv _].
    rewrite Hv in H. apply NoDup_remove_1 in H. exact H.
  - apply nth_error_None in Hx. unfold eraseAt.
    rewrite firstn_all2 by lia. rewrite skipn_all2 by lia.
    rewrite app_nil_r. exact H.
Qed.

Lemma NoDup_eraseAt_notin (a : nat) (v : list A) (x : A) :
  NoDup v -> nth_error v a = Some x -> ~ In x (eraseAt a v).
Proof.
  intros H Hx. destruct (nth_error_split_at v a x Hx) as [Hv _].
  rewrite Hv in H. apply NoDup_remove_2 in H. exact H.
Qed.

Lemma NoDup_firstn (k : nat) (v : list A) : NoDup v -> NoDup (firstn k v).
Proof.
  intros H. rewrite <- (firstn_skipn k v) in H.
  apply NoDup_app_remove_r in H. exact H.
Qed.

Lemma setAt_length (a : nat) (x : A) (v : list A) :
  List.length (setAt a x v) = List.length v.
Proof.
  revert a. induction v as [|y v IH]; intros [|a]; simpl; auto.
Qed.

Lemma nth_error_setAt_eq (a : nat) (x : A) (v : list A) :
  a < List.length v -> nth_error (setAt a x v) a = Some x.
Proof.
  revert a. induction v as [|y v IH]; intros [|a] H; simpl in *; try lia.
  - reflexivity.
  - apply IH. lia.
Qed.

Lemma nth_error_setAt_ne (a b : nat) (x : A) (v : list A) :
  a <> b -> nth_error (setAt a x v) b = nth_error v b.
Proof.
  revert a b. induction v as [|y v IH]; intros [|a] [|b] H; simpl; auto;
    lia.
Qed.

Variable eqb : A -> A -> bool.
Hypothesis eqb_spec : forall x y, eqb x y = true <-> x = y.

Lemma indexOf_from_Some (a0 a : nat) (x : A) (v : list A) :
  indexOf_from eqb a0 x v = Some a ->
  exists before after,
    v = before ++ x :: after /\ ~ In x before /\ a = a0 + List.length before.
Proof.
  revert a0. induction v as [|y v IH]; intros a0 H; simpl in H.
  - discriminate.
  - destruct (eqb y x) eqn:Hy.
    + apply eqb_spec in Hy. inversion H; subst.
      exists [], v. simpl. split; [reflexivity|]. split; [tauto|lia].
    + destruct (IH _ H) as (before & after & Hv & Hn & Ha).
      exists (y :: before), after. subst v. simpl.
      split; [reflexivity|]. split; [|lia].
      intros [Hyx|Hin]; [|tauto].
      apply eqb_spec in Hyx. congruence.
Qed.

Lemma indexOf_from_None (a0 : nat) (x : A) (v : list A) :
  indexOf_from eqb a0 x v = None -> ~ In x v.
Proof.
  revert a0. induction v as [|y v IH]; intros a0 H; simpl in *.
  - tauto.
  - destruct (eqb y x) eqn:Hy; [discriminate|].
    intros [Hyx|Hin].
    + apply eqb_spec in Hyx. congruence.
    + exact (IH _ H Hin).
Qed.

Lemma indexOf_from_first (a0 : nat) (x : A) (before after : list A) :
  ~ In x before ->
  indexOf_from eqb a0 x (before ++ x :: after) = Some (a0 + List.length before).
Proof.
  revert a0. induction before as [|y before IH]; intros a0 Hn; simpl.
  - assert (Hx : eqb x x = true) by (apply eqb_spec; reflexivity).
    rewrite Hx. f_equal. lia.
  - destruct (eqb y x) eqn:Hy.
    + apply eqb_spec in Hy. subst. exfalso. apply Hn. left. reflexivity.
    + rewrite IH.
      * f_equal. lia.
      * intros Hin. apply Hn. right. exact Hin.
Qed.

End Vectors.

Lemma string_eqb_spec (x y : string) : String.eqb x y = true <-> x = y.
Proof. apply String.eqb_eq. Qed.

Lemma nat_eqb_spec (x y : nat) : Nat.eqb x y = true <-> x = y.
Proof. apply Nat.eqb_eq. Qed.

Lemma to_uint32_small (z : Z) :
  (0 <= z < 4294967296)%Z -> to_uint32 z = z.
Proof. intros H. unfold to_uint32. apply Z.mod_small. exact H. Qed.


(** ** Recent files *)

Section RecentFiles.

Context (E : Env).

Lemma trimRecent_firstn (passes : nat) (max : Z) (v : list string) :
  exists k, trimRecent passes max v = firstn k v.
Proof.
  revert v. induction passes as [|passes IH]; intros v; simpl.
  - exists (List.length v). rewrite firstn_all. reflexivity.
  - destruct (to_uint32 max <? Z.of_nat (List.length v))%Z.
    + destruct (IH (removelast v)) as [k Hk]. rewrite Hk.
      rewrite removelast_firstn_len, firstn_firstn.
      eexists. reflexivity.
    + exists (List.length v). rewrite firstn_all. reflexivity.
Qed.

Lemma trimRecent_length (passes : nat) (max : Z) (v : list string) :
  (0 <= to_uint32 max)%Z ->
  List.length v <= passes ->
  (Z.of_nat (List.length (trimRecent passes max v)) <= to_uint32 max)%Z.
Proof.
  intros Hmax. revert v.
  induction passes as [|passes IH]; intros v Hv; simpl.
  - destruct v; simpl in *; lia.
  - destruct (to_uint32 max <? Z.of_nat (List.length v))%Z eqn:Hc.
    + apply IH. rewrite removelast_firstn_len, length_firstn. lia.
    + apply Z.ltb_ge in Hc. exact Hc.
Qed.

Lemma addRecentFile_max (path : string) (s : State) :
  max_recent_files (addRecentFile E path s) = max_recent_files s.
Proof.
  unfold addRecentFile.
  destruct (negb (fileExists E path || dirExists E path)); [reflexivity|].
  destruct (indexOf_from String.eqb 0 (replaceBackslash path) (recent_files_ s));
    rewrite announce_max_recent_files; reflexivity.
Qed.

Lemma addRecentFile_touch (path : string) (s : State) (before after : list string) :
  fileExists E path || dirExists E path = true ->
  NoDup (recent_files_ s) ->
  recent_files_ s = before ++ replaceBackslash path :: after ->
  recent_files_ (addRecentFile E path s)
  = replaceBackslash path :: before ++ after.
Proof.
  intros Hex Hnd Hv. unfold addRecentFile. rewrite Hex. simpl negb. cbv iota.
  assert (Hn : ~ In (replaceBackslash path) before).
  { rewrite Hv in Hnd. apply NoDup_remove_2 in Hnd.
    intros Hin. apply Hnd. apply in_or_app. left. exact Hin. }
  rewrite Hv.
  rewrite (indexOf_from_first String.eqb string_eqb_spec 0 _ before after Hn).
  rewrite announce_recent_files. simpl.
  rewrite eraseAt_split. reflexivity.
Qed.

Lemma addRecentFile_inv (path : string) (s : State) :
  (0 <= max_recent_files s < 4294967296)%Z ->
  recentInv s -> recentInv (addRecentFile E path s).
Proof.
  intros Hmax [Hnd Hlen]. unfold recentInv.
  rewrite addRecentFile_max. unfold addRecentFile.
  destruct (negb (fileExists E path || dirExists E path)); [split; assumption|].
  destruct (indexOf_from String.eqb 0 (replaceBackslash path) (recent_files_ s))
    as [a|] eqn:Hidx; rewrite announce_recent_files;
    unfold set_recent_files; cbn [recent_files_ max_recent_files List.length].
  - apply (indexOf_from_Some String.eqb string_eqb_spec) in Hidx.
    destruct Hidx as (before & after & Hv & Hn & Ha). simpl in Ha. subst a.
    rewrite Hv, eraseAt_split. rewrite Hv in Hnd, Hlen. split.
    + constructor.
      * apply NoDup_remove_2 in Hnd. exact Hnd.
      * apply NoDup_remove_1 in Hnd. exact Hnd.
    + rewrite length_app in *. simpl in *. lia.
  - apply (indexOf_from_None String.eqb string_eqb_spec) in Hidx.
    assert (Hnd' : NoDup (replaceBackslash path :: recent_files_ s))
      by (constructor; assumption).
    destruct (trimRecent_firstn
                (S (List.length (recent_files_ s))) (max_recent_files s)
                (replaceBackslash path :: recent_files_ s)) as [k Hk].
    split.
    + rewrite Hk. apply NoDup_firstn. exact Hnd'.
    + rewrite <- (to_uint32_small (max_recent_files s)) at 2 by lia.
      apply trimRecent_length.
      * rewrite to_uint32_small by lia. lia.
      * simpl. lia.
Qed.

Lemma removeRecentFile_inv (path : string) (s : State) :
  recentInv s -> recentInv (removeRecentFile path s).
Proof.
  intros [Hnd Hlen]. unfold recentInv, removeRecentFile.
  destruct (indexOf_from String.eqb 0 path (recent_files_ s)) as [a|] eqn:Hidx;
    [|split; assumption].
  rewrite announce_recent_files, announce_max_recent_files.
  unfold set_recent_files; cbn [recent_files_ max_recent_files].
  apply (indexOf_from_Some String.eqb string_eqb_spec) in Hidx.
  destruct Hidx as (before & after & Hv & Hn & Ha). simpl in Ha. subst a.
  rewrite Hv, eraseAt_split. rewrite Hv in Hnd, Hlen. split.
  - apply NoDup_remove_1 in Hnd. exact Hnd.
  - rewrite length_app in *. simpl in *. lia.
Qed.

Lemma addRecentFile_fold_inv (paths : list string) (s : State) :
  (0 <= max_recent_files s < 4294967296)%Z ->
  recentInv s ->
  recentInv (fold_left (fun st path => addRecentFile E path st) paths s) /\
  max_recent_files (fold_left (fun st path => addRecentFile E path st) paths s)
  = max_recent_files s.
Proof.
  revert s. induction paths as [|p paths IH]; intros s Hmax Hinv; simpl.
  - split; [exact Hinv|reflexivity].
  - destruct (IH (addRecentFile E p s)) as [H1 H2].
    + rewrite addRecentFile_max. exact Hmax.
    + apply addRecentFile_inv; assumption.
    + split; [exact H1|]. rewrite H2. apply addRecentFile_max.
Qed.

Lemma addRecentFiles_inv (paths : list string) (s : State) :
  (0 <= max_recent_files s < 4294967296)%Z ->
  recentInv (addRecentFiles E paths s).
Proof.
  intros Hmax.
  destruct (addRecentFile_fold_inv paths
              (set_recent_files [] (set_muted true s))) as [[H1 H2] H3].
  - exact Hmax.
  - split; simpl; [constructor|lia].
  - unfold addRecentFiles, recentInv.
    rewrite announce_recent_files, announce_max_recent_files.
    split; [exact H1|exact H2].
Qed.

(** C10: for a path that is neither a file nor a directory on disk,
    [addRecentFile] returns at once: the state, and with it the recent-file
    list and the announcements, is unchanged. *)
Theorem addRecentFile_missing_noop (path : string) (s : State) :
  fileExists E path = false ->
  dirExists E path = false ->
  addRecentFile E path s = s.
Proof.
  intros Hf Hd. unfold addRecentFile. rewrite Hf, Hd. reflexivity.
Qed.

(** C8, as amended.  With the configured maximum a non-negative 32-bit
    value, the recent-file list stays free of duplicates and within the
    maximum under [addRecentFile], [removeRecentFile] and [addRecentFiles];
    and touching a path that exists on disk and whose slash-normalised form
    is in the list moves it to the front, the other paths keeping their
    order, so the length is unchanged. *)
Theorem recent_files_bounded_nodup (path : string) (s : State) :
  (0 <= max_recent_files s < 4294967296)%Z ->
  recentInv s ->
  recentInv (addRecentFile E path s) /\
  recentInv (removeRecentFile path s) /\
  (forall paths, recentInv (addRecentFiles E paths s)) /\
  (fileExists E path || dirExists E path = true ->
   forall before after,
     recent_files_ s = before ++ replaceBackslash path :: after ->
     recent_files_ (addRecentFile E path s)
     = replaceBackslash path :: before ++ after /\
     List.length (recent_files_ (addRecentFile E path s))
     = List.length (recent_files_ s)).
Proof.
  intros Hmax Hinv. split; [|split; [|split]].
  - apply addRecentFile_inv; assumption.
  - apply removeRecentFile_inv; assumption.
  - intros paths. apply addRecentFiles_inv; assumption.
  - intros Hex before after Hv.
    rewrite (addRecentFile_touch path s before after Hex (proj1 Hinv) Hv).
    split; [reflexivity|]. rewrite Hv. simpl.
    rewrite !length_app. simpl. lia.
Qed.

End RecentFiles.

Lemma addRecentFile_missing_noop_witness :
  addRecentFile emptyEnv "gone.wad" initial = initial.
Proof. apply addRecentFile_missing_noop; reflexivity. Defined.

Lemma recent_files_bounded_nodup_witness :
  recentInv (addRecentFile (diskEnv ["b.wad"]) "b.wad"
               (set_recent_files ["a.wad"; "b.wad"] initial)).
Proof.
  apply (recent_files_bounded_nodup (diskEnv ["b.wad"]) "b.wad"
           (set_recent_files ["a.wad"; "b.wad"] initial)).
  - simpl. lia.
  - split; simpl; [|lia].
    repeat constructor; simpl; intuition discriminate.
Defined.

(** Counterexample to C8 as stated: a path that is in the list but no longer
    on disk is not moved to the front when touched. *)
Lemma touch_missing_path_not_moved :
  let s := set_recent_files ["a.wad"; "b.wad"] initial in
  In "b.wad" (recent_files_ s) /\
  hd_error (recent_files_ (addRecentFile emptyEnv "b.wad" s)) <> Some "b.wad".
Proof.
  simpl. split.
  - right. left. reflexivity.
  - discriminate.
Qed.

(** ** Base resource *)

Section BaseResource.

Context (E : Env).




(** X29: a failing [openBaseResource] always ends with no base archive
    loaded, whichever way it fails: the archive that was loaded before is
    not kept. *)
Lemma openBaseResource_failure_unloaded (index : Z) (s : State) :
  fst (openBaseResource E index s) = false ->
  base_resource_archive_ (snd (openBaseResource E index s)) = None.
Proof.
  unfold openBaseResource.
  destruct ((match base_resource_archive_ s with
             | Some _ => true
             | None => false
             end) && (base_resource s =? index)%Z)%bool;
    [intros H; discriminate H|].
  set (s1 := match base_resource_archive_ s with
             | Some b =>
                 delete_archive b
                   (set_base_resource_archive None
                      (resources_removeArchive b s))
             | None => s
             end).
  assert (H1 : base_resource_archive_ s1 = None).
  { subst s1. destruct (base_resource_archive_ s) eqn:Hb;
      [reflexivity|exact Hb]. }
  clearbody s1.
  destruct ((index <? 0)%Z || _)%bool.
  - intros _. cbn [snd]. state_simpl. exact H1.
  - destruct (nth_error (base_resource_paths_ s1) (Z.to_nat index))
      as [path|]; [|intros _; exact H1].
    destruct (if isFormatFile E Wad path then Some Wad
              else if isFormatFile E Zip path then Some Zip else None)
      as [f|]; [|intros _; exact H1].
    unfold new_archive, archive_open_file.
    destruct (loadFile E f path); cbn [fst snd].
    + intros H. discriminate H.
    + intros _. unfold delete_archive. state_simpl. reflexivity.
Qed.

End BaseResource.


(** C5 at the failing input: selecting a path that is neither a WAD nor a
    ZIP unloads the loaded base archive and returns [false] without any
    announcement. *)
Theorem openBaseResource_unrecognised_silent :
  muted_ baseLoaded = false /\
  base_resource_archive_ baseLoaded = Some 0 /\
  fst (openBaseResource emptyEnv 1%Z baseLoaded) = false /\
  base_resource_archive_ (snd (openBaseResource emptyEnv 1%Z baseLoaded)) = None /\
  announced (snd (openBaseResource emptyEnv 1%Z baseLoaded)) = [].
Proof. repeat split. Qed.

(** Counterexample to C4 as stated: selecting an invalid base-resource index
    fails, yet the loaded base archive has been unloaded, deregistered from
    the resource pool and the remembered index reset. *)
Lemma openBaseResource_fails_after_unloading :
  let r := openBaseResource emptyEnv 5%Z baseLoaded in
  fst r = false /\
  base_resource_archive_ baseLoaded = Some 0 /\
  base_resource_archive_ (snd r) = None /\
  resources (snd r) <> resources baseLoaded /\
  snd r <> baseLoaded.
Proof.
  simpl. repeat split; try discriminate.
Qed.

(** ** Resource lookup *)

Section Resolver.

Context (E : Env).

Lemma getResourceEntry_loop_firstMatch (name : string) (ignore : option Handle)
    (v : list OpenArchive) :
  getResourceEntry_loop E name ignore v
  = firstMatch (fun oa => archiveEntry E (archive oa) name)
      (filter (eligible ignore) v).
Proof.
  induction v as [|oa v IH];
    cbn [getResourceEntry_loop filter firstMatch]; [reflexivity|].
  unfold eligible at 1.
  destruct (resource oa); cbn [negb andb]; [|exact IH].
  destruct (eqb_ptr (Some (archive oa)) ignore); cbn [negb firstMatch];
    [exact IH|].
  destruct (archiveEntry E (archive oa) name); [reflexivity|exact IH].
Qed.

Lemma findResourceEntry_loop_firstMatch (options : SearchOptions)
    (ignore : option Handle) (v : list OpenArchive) :
  findResourceEntry_loop E options ignore v
  = firstMatch (fun oa => findLast E (archive oa) options)
      (filter (eligible ignore) v).
Proof.
  induction v as [|oa v IH];
    cbn [findResourceEntry_loop filter firstMatch]; [reflexivity|].
  unfold eligible at 1.
  destruct (resource oa); cbn [negb andb]; [|exact IH].
  destruct (eqb_ptr (Some (archive oa)) ignore); cbn [negb firstMatch];
    [exact IH|].
  destruct (findLast E (archive oa) options); [reflexivity|exact IH].
Qed.

Lemma findAllResourceEntries_loop_flat_map (options : SearchOptions)
    (ignore : option Handle) (v : list OpenArchive) (ret : list Entry) :
  findAllResourceEntries_loop E options ignore v ret
  = ret ++ flat_map (fun oa => findAll E (archive oa) options)
             (filter (eligible ignore) v).
Proof.
  revert ret. induction v as [|oa v IH]; intros ret;
    cbn [findAllResourceEntries_loop filter flat_map].
  - rewrite app_nil_r. reflexivity.
  - unfold eligible at 1.
    destruct (resource oa); cbn [negb andb]; [|apply IH].
    destruct (eqb_ptr (Some (archive oa)) ignore); cbn [negb flat_map];
      [apply IH|].
    rewrite IH, <- app_assoc. reflexivity.
Qed.

Lemma firstMatch_Some {A B : Type} (lookup : A -> option B) (v : list A)
    (b : B) :
  firstMatch lookup v = Some b -> exists a, In a v /\ lookup a = Some b.
Proof.
  induction v as [|a v IH]; simpl; [discriminate|].
  destruct (lookup a) as [b'|] eqn:Ha.
  - intros H. inversion H; subst. exists a. split; [left; reflexivity|exact Ha].
  - intros H. destruct (IH H) as (a' & Hin & Hl).
    exists a'. split; [right; exact Hin|exact Hl].
Qed.

Lemma eligible_true (ignore : option Handle) (oa : OpenArchive) :
  eligible ignore oa = true ->
  resource oa = true /\ Some (archive oa) <> ignore.
Proof.
  unfold eligible. intros H. apply andb_true_iff in H. destruct H as [Hr Hi].
  split; [exact Hr|].
  intros Heq. rewrite <- Heq in Hi. simpl in Hi.
  rewrite Nat.eqb_refl in Hi. discriminate.
Qed.

(** C6, as amended: whatever [getResourceEntry] or [findResourceEntry]
    returns was answered either by the archive of a registry record whose
    resource flag is on and whose handle is not the ignored one, or by the
    base resource archive, which is asked whatever [ignore] is. *)
Theorem findFirst_only_eligible_or_base (name : string)
    (options : SearchOptions) (ignore : option Handle) (s : State) (e : Entry) :
  (getResourceEntry E name ignore s = Some e ->
   (exists oa, In oa (open_archives_ s) /\ resource oa = true /\
               Some (archive oa) <> ignore /\
               archiveEntry E (archive oa) name = Some e) \/
   (exists b, base_resource_archive_ s = Some b /\
              archiveEntry E b name = Some e)) /\
  (findResourceEntry E options ignore s = Some e ->
   (exists oa, In oa (open_archives_ s) /\ resource oa = true /\
               Some (archive oa) <> ignore /\
               findLast E (archive oa) options = Some e) \/
   (exists b, base_resource_archive_ s = Some b /\
              findLast E b options = Some e)).
Proof.
  split.
  - unfold getResourceEntry. rewrite getResourceEntry_loop_firstMatch.
    destruct (firstMatch _ _) as [e'|] eqn:Hfirst.
    + intros H. inversion H; subst e'. left.
      apply firstMatch_Some in Hfirst. destruct Hfirst as (oa & Hin & Hl).
      apply filter_In in Hin. destruct Hin as [Hin Hel].
      apply eligible_true in Hel. destruct Hel as [Hr Hi].
      exists oa. repeat split; assumption.
    + destruct (base_resource_archive_ s) as [b|]; [|discriminate].
      intros H. right. exists b. split; [reflexivity|exact H].
  - unfold findResourceEntry. rewrite findResourceEntry_loop_firstMatch.
    destruct (firstMatch _ _) as [e'|] eqn:Hfirst.
    + intros H. inversion H; subst e'. left.
      apply firstMatch_Some in Hfirst. destruct Hfirst as (oa & Hin & Hl).
      apply filter_In in Hin. destruct Hin as [Hin Hel].
      apply eligible_true in Hel. destruct Hel as [Hr Hi].
      exists oa. repeat split; assumption.
    + destruct (base_resource_archive_ s) as [b|]; [|discriminate].
      intros H. right. exists b. split; [reflexivity|exact H].
Qed.

End Resolver.

Lemma findFirst_only_eligible_or_base_witness :
  (exists oa, In oa (open_archives_ overlayState) /\ resource oa = true /\
              Some (archive oa) <> Some 0 /\
              findLast overlayEnv (archive oa) 0 = Some 11) \/
  (exists b, base_resource_archive_ overlayState = Some b /\
             findLast overlayEnv b 0 = Some 11).
Proof.
  apply (findFirst_only_eligible_or_base overlayEnv "PLAYPAL" 0 (Some 0)
           overlayState 11).
  reflexivity.
Defined.

(** Counterexample to C6 as stated: with the base archive itself as the
    ignored archive, the lookup still returns the base archive's entry. *)
Lemma findFirst_returns_ignored_base :
  ~ excludesIneligible overlayEnv baseOnlyState (Some 0)
      (getResourceEntry overlayEnv "PLAYPAL" (Some 0) baseOnlyState).
Proof.
  intros H. destruct (H 10 0) as [Hne _]; try reflexivity.
  apply Hne. reflexivity.
Qed.

(** C2: the first-match lookups go through the eligible open archives in
    registration order and ask the base archive only when none of them
    answers; the find-all lookup returns the base archive's matches first
    and the matches of the eligible open archives, in registration order,
    after them.  The two orders differ: with one entry in the base archive
    and one in an open archive, the first-match lookup returns the open
    archive's entry while the find-all lookup lists the base archive's entry
    first. *)
Theorem search_orders :
  (forall (E : Env) (name : string) (options : SearchOptions)
          (ignore : option Handle) (s : State),
      getResourceEntry E name ignore s
      = match firstMatch (fun oa => archiveEntry E (archive oa) name)
                (filter (eligible ignore) (open_archives_ s)) with
        | Some e => Some e
        | None => match base_resource_archive_ s with
                  | Some b => archiveEntry E b name
                  | None => None
                  end
        end /\
      findResourceEntry E options ignore s
      = match firstMatch (fun oa => findLast E (archive oa) options)
                (filter (eligible ignore) (open_archives_ s)) with
        | Some e => Some e
        | None => match base_resource_archive_ s with
                  | Some b => findLast E b options
                  | None => None
                  end
        end /\
      findAllResourceEntries E options ignore s
      = match base_resource_archive_ s with
        | Some b => findAll E b options
        | None => []
        end
        ++ flat_map (fun oa => findAll E (archive oa) options)
             (filter (eligible ignore) (open_archives_ s))) /\
  (exists (E : Env) (options : SearchOptions) (s : State)
          (in_base in_open : Entry),
      in_base <> in_open /\
      base_resource_archive_ s = Some 0 /\
      findAll E 0 options = [in_base] /\
      findResourceEntry E options None s = Some in_open /\
      findAllResourceEntries E options None s = [in_base; in_open]).
Proof.
  split.
  - intros E name options ignore s. split; [|split].
    + unfold getResourceEntry.
      rewrite getResourceEntry_loop_firstMatch. reflexivity.
    + unfold findResourceEntry.
      rewrite findResourceEntry_loop_firstMatch. reflexivity.
    + unfold findAllResourceEntries.
      rewrite findAllResourceEntries_loop_flat_map.
      destruct (base_resource_archive_ s); reflexivity.
  - exists overlayEnv, 0, overlayState, 10, 11.
    repeat split. discriminate.
Qed.

(** ** Bookmarks *)

Section Bookmarks.

Context (E : Env).

Lemma announcedCount_announce (name : string) (data : option Z) (s : State) :
  muted_ s = false ->
  announcedCount name (announce name data s) = S (announcedCount name s).
Proof.
  intros Hm. unfold announcedCount. rewrite announce_announced by exact Hm.
  rewrite filter_app, length_app. cbn [filter fst].
  rewrite String.eqb_refl. cbn [List.length]. rewrite Nat.add_1_r. reflexivity.
Qed.

(** The flag the loop returns says whether it dropped a bookmark (or was
    already set), and the bookmarks kept are those outside the archive. *)
Lemma deleteBookmarksInArchive_loop_spec (x : Handle) (v : list Entry)
    (removed : bool) :
  deleteBookmarksInArchive_loop E x v removed
  = (filter (fun b => negb (eqb_ptr (entryParent E b) (Some x))) v,
     removed || existsb (fun b => eqb_ptr (entryParent E b) (Some x)) v).
Proof.
  revert removed. induction v as [|b v IH]; intros removed;
    cbn [deleteBookmarksInArchive_loop filter existsb].
  - rewrite orb_false_r. reflexivity.
  - destruct (eqb_ptr (entryParent E b) (Some x)); cbn [negb orb].
    + rewrite IH. rewrite orb_true_r. reflexivity.
    + rewrite IH. reflexivity.
Qed.

(** X28: [deleteBookmarksInArchive] removes exactly the bookmarks whose
    entry belongs to the archive, keeping the others in order; it returns
    whether there was one, and announces "bookmarks_changed" once if a
    bookmark was removed and not at all otherwise. *)
Lemma deleteBookmarksInArchive_announces_once (x : Handle) (s : State) :
  muted_ s = false ->
  let r := deleteBookmarksInArchive E x s in
  bookmarks_ (snd r)
  = filter (fun b => negb (eqb_ptr (entryParent E b) (Some x))) (bookmarks_ s) /\
  fst r = existsb (fun b => eqb_ptr (entryParent E b) (Some x)) (bookmarks_ s) /\
  announcedCount "bookmarks_changed" (snd r)
  = announcedCount "bookmarks_changed" s + (if fst r then 1 else 0).
Proof.
  intros Hm. unfold deleteBookmarksInArchive.
  rewrite deleteBookmarksInArchive_loop_spec. cbn [orb].
  destruct (existsb _ (bookmarks_ s)); cbn [fst snd].
  - rewrite announcedCount_announce by exact Hm.
    state_simpl. unfold announcedCount. cbn [announced].
    repeat split. lia.
  - unfold announcedCount. state_simpl. repeat split. lia.
Qed.

End Bookmarks.

(** C7 at the failing input: the directory's own entry (5) and an entry
    inside the directory (6) are bookmarked; removing the bookmarks of the
    directory removes both and announces "bookmarks_changed" twice, once
    from the inner [deleteBookmark] and once at the end. *)
Theorem deleteBookmarksInDir_announces_twice :
  muted_ bookmarkedState = false /\
  announcedCount "bookmarks_changed" bookmarkedState = 0 /\
  exists s',
    deleteBookmarksInDir bookmarkEnv 2 1 bookmarkedState = Done (true, s') /\
    bookmarks_ s' = [7] /\
    announcedCount "bookmarks_changed" s' = 2.
Proof.
  split; [reflexivity|]. split; [reflexivity|].
  eexists. split; [vm_compute; reflexivity|].
  split; reflexivity.
Qed.

(** ** Opening archives *)

Section Opening.

Context (E : Env).

Lemma sameRegistry_refl (s : State) : sameRegistry s s.
Proof. unfold sameRegistry. repeat split. Qed.

Lemma sameRegistry_error (msg : string) (s : State) :
  sameRegistry s (set_global_error msg s).
Proof. unfold sameRegistry. repeat split. Qed.

Lemma sameRegistry_failed_load (a : Handle) (msg : string)
    (h : list ArchiveObj) (s : State) :
  sameRegistry s (delete_archive a (set_global_error msg (set_heap h s))).
Proof. unfold sameRegistry. repeat split. Qed.

(** A [bind] that ends in [Done (Some _, _)] never yields [Done (None, _)]. *)
Lemma bind_Some_not_None {A : Type} (m : outcome A) (a : Handle)
    (k : A -> State) (s' : State) :
  (do r <- m; Done (Some a, k r)) = Done (None, s') -> False.
Proof. destruct m; simpl; intros H; discriminate H. Qed.

Lemma openDirArchive_failure (fuel : nat) (dir : string) (manage silent : bool)
    (s s' : State) :
  openDirArchive E fuel dir manage silent s = Done (None, s') ->
  sameRegistry s s'.
Proof.
  unfold openDirArchive.
  destruct (getArchive E dir s); [intros H; discriminate H|].
  unfold new_archive, archive_open_file.
  destruct (loadFile E Dir dir).
  - destruct manage; [|intros H; discriminate H].
    intros H. exfalso.
    exact (bind_Some_not_None _ _
             (fun r => addRecentFile E dir (announceOpened _ silent (snd r)))
             _ H).
  - intros H. inversion H; subst s'. apply sameRegistry_failed_load.
Qed.

Lemma openArchive_failure (fuel : nat) (path : string) (manage silent : bool)
    (s s' : State) :
  openArchive E fuel path manage silent s = Done (None, s') ->
  sameRegistry s s'.
Proof.
  unfold openArchive.
  destruct (negb (fileExists E path) && dirExists E path);
    [apply openDirArchive_failure|].
  destruct (getArchive E path s); [intros H; discriminate H|].
  destruct (detectFile E path) as [f|].
  - unfold new_archive, archive_open_file.
    destruct (loadFile E f path).
    + destruct manage; [|intros H; discriminate H].
      intros H. exfalso.
      exact (bind_Some_not_None _ _
               (fun r => addRecentFile E path
                           (announceOpened _ silent (snd r)))
               _ H).
    + intros H. inversion H; subst s'. apply sameRegistry_failed_load.
  - intros H. inversion H; subst s'. apply sameRegistry_error.
Qed.

Lemma openArchiveEntry_failure (fuel : nat) (entry : option Entry)
    (manage silent : bool) (s s' : State) :
  openArchiveEntry E fuel entry manage silent s = Done (None, s') ->
  sameRegistry s s'.
Proof.
  destruct fuel as [|fuel]; [intros H; discriminate H|].
  cbn [openArchiveEntry].
  destruct entry as [e|];
    [|intros H; inversion H; subst s'; apply sameRegistry_refl].
  destruct (openedFrom s e (open_archives_ s));
    [intros H; discriminate H|].
  destruct (detectEntry E e) as [f|].
  - unfold new_archive, archive_open_entry.
    destruct (loadEntry E f e).
    + destruct manage; [|intros H; discriminate H].
      intros H. exfalso.
      exact (bind_Some_not_None _ _
               (fun r => announceOpened _ silent (snd r)) _ H).
    + intros H. inversion H; subst s'. apply sameRegistry_failed_load.
  - intros H. inversion H; subst s'. apply sameRegistry_error.
Qed.

(** An unrecognised file is refused whatever the fuel: only
    [Global::error] is written. *)
Lemma openArchive_unsupported (fuel : nat) (path : string)
    (manage silent : bool) (s : State) :
  negb (fileExists E path) && dirExists E path = false ->
  getArchive E path s = None ->
  detectFile E path = None ->
  openArchive E fuel path manage silent s
  = Done (None, set_global_error unsupported s).
Proof.
  intros Hd Hg Hf. unfold openArchive. rewrite Hd, Hg, Hf. reflexivity.
Qed.

(** A recognised file that does not load is refused whatever the fuel: the
    archive object is created and deleted again, the registry is not
    touched. *)
Lemma openArchive_load_failure (fuel : nat) (path : string)
    (manage silent : bool) (s : State) (f : Format) :
  negb (fileExists E path) && dirExists E path = false ->
  getArchive E path s = None ->
  detectFile E path = Some f ->
  loadFile E f path = false ->
  exists s', openArchive E fuel path manage silent s = Done (None, s') /\
             sameRegistry s s'.
Proof.
  intros Hd Hg Hf Hl. unfold openArchive. rewrite Hd, Hg, Hf.
  unfold new_archive, archive_open_file. rewrite Hl.
  eexists. split; [reflexivity|]. apply sameRegistry_failed_load.
Qed.

End Opening.

(** ** Opening the same path twice *)

Section Reopening.

Context (E : Env).

Lemma announcedCount_announce_other (name other : string) (data : option Z)
    (s : State) :
  String.eqb other name = false ->
  announcedCount name (announce other data s) = announcedCount name s.
Proof.
  intros Hne. unfold announce. destruct (muted_ s); [reflexivity|].
  unfold announcedCount. state_simpl.
  rewrite filter_app, length_app. cbn [filter fst]. rewrite Hne.
  cbn [List.length]. apply Nat.add_0_r.
Qed.

Lemma announceOpened_frame (a : Handle) (silent : bool) (s : State) :
  open_archives_ (announceOpened a silent s) = open_archives_ s /\
  heap (announceOpened a silent s) = heap s /\
  announcedCount "archive_added" (announceOpened a silent s)
  = announcedCount "archive_added" s.
Proof.
  unfold announceOpened. destruct silent.
  - repeat split.
  - state_simpl. split; [reflexivity|]. split; [reflexivity|].
    apply announcedCount_announce_other. reflexivity.
Qed.

Lemma addRecentFile_frame (path : string) (s : State) :
  open_archives_ (addRecentFile E path s) = open_archives_ s /\
  heap (addRecentFile E path s) = heap s /\
  announcedCount "archive_added" (addRecentFile E path s)
  = announcedCount "archive_added" s.
Proof.
  unfold addRecentFile.
  destruct (negb (fileExists E path || dirExists E path)); [repeat split|].
  destruct (indexOf_from String.eqb 0 (replaceBackslash path) (recent_files_ s));
    (split; [state_simpl; reflexivity|]);
    (split; [state_simpl; reflexivity|]);
    rewrite announcedCount_announce_other by reflexivity; reflexivity.
Qed.

Lemma filename_ext (s s' : State) (x : Handle) :
  heap s' = heap s -> filename E s' x = filename E s x.
Proof. intros Hh. unfold filename. rewrite Hh. reflexivity. Qed.

(** [getArchive] depends on the state through the registry and the heap
    only. *)
Lemma getArchive_ext (path : string) (s s' : State) :
  open_archives_ s' = open_archives_ s -> heap s' = heap s ->
  getArchive E path s' = getArchive E path s.
Proof.
  intros Ho Hh. unfold getArchive. rewrite Ho.
  generalize (open_archives_ s). intros v.
  induction v as [|oa v IH]; [reflexivity|].
  cbn [getArchive_loop]. rewrite (filename_ext s s' _ Hh), IH. reflexivity.
Qed.

(** [addArchive] when no root entry is to be auto-mounted. *)
Lemma addArchive_plain
    (openEntry : Entry -> State -> outcome (option Handle * State))
    (a : Handle) (f : Format) (s : State) :
  formatOf s a = Some f ->
  rootWadsFormat f && auto_open_wads_root s = false ->
  addArchive_with E openEntry (Some a) s
  = Done (true,
          resources_addArchive a
            (announce "archive_added" None
               (set_listening (listening s ++ [a])
                  (set_open_archives (open_archives_ s ++ [mkOpen a true []])
                     s)))).
Proof.
  intros Hfmt Hroots. unfold addArchive_with.
  unfold formatOf, resources_addArchive. state_simpl.
  change (option_map format (nth_error (heap s) a)) with (formatOf s a).
  rewrite Hfmt, Hroots. reflexivity.
Qed.

(** An archive that is already open under this very file name is returned
    as it is: nothing is created, nothing is added to the registry and no
    "archive_added" is announced. *)
Lemma openArchive_already_open (fuel : nat) (path : string)
    (manage silent : bool) (s : State) (a : Handle) :
  getArchive E path s = Some a ->
  openArchive E fuel path manage silent s
  = Done (Some a, announceOpened a silent s).
Proof.
  intros Hg. unfold openArchive, openDirArchive. rewrite Hg.
  destruct (negb (fileExists E path) && dirExists E path); reflexivity.
Qed.

Lemma getArchive_loop_new (s s1 : State) (path : string) (a : Handle)
    (v : list OpenArchive) :
  getArchive_loop E s path v = None ->
  (forall x, x <> a -> filename E s1 x = filename E s x) ->
  filename E s1 a = path ->
  getArchive_loop E s1 path (v ++ [mkOpen a true []]) = Some a.
Proof.
  intros Hnone Hold Hnew.
  induction v as [|oa v IH]; cbn [getArchive_loop app archive].
  - rewrite Hnew, String.eqb_refl. reflexivity.
  - cbn [getArchive_loop] in Hnone.
    destruct (String.eqb (filename E s (archive oa)) path) eqn:Hoa;
      [discriminate Hnone|].
    destruct (Nat.eq_dec (archive oa) a) as [Heq|Hne].
    + rewrite Heq, Hnew, String.eqb_refl. reflexivity.
    + rewrite (Hold _ Hne), Hoa. exact (IH Hnone).
Qed.

Lemma nth_error_alloc_other {A : Type} (h : list A) (o o' : A) (x : nat) :
  x <> List.length h ->
  nth_error (setAt (List.length h) o' (h ++ [o])) x = nth_error h x.
Proof.
  intros Hx. rewrite nth_error_setAt_ne by congruence.
  destruct (Nat.lt_ge_cases x (List.length h)) as [Hlt|Hge].
  - apply nth_error_app1. exact Hlt.
  - rewrite (proj2 (nth_error_None h x)) by exact Hge.
    apply nth_error_None. rewrite length_app. simpl. lia.
Qed.

Lemma nth_error_alloc_new {A : Type} (h : list A) (o o' : A) :
  nth_error (setAt (List.length h) o' (h ++ [o])) (List.length h) = Some o'.
Proof.
  apply nth_error_setAt_eq. rewrite length_app. simpl. lia.
Qed.

(** *** Opening only adds *)

Lemma grows_refl (s : State) : grows s s.
Proof.
  unfold grows. split; [exists []; rewrite app_nil_r; reflexivity|].
  repeat split; auto.
Qed.

Lemma grows_trans (s1 s2 s3 : State) :
  grows s1 s2 -> grows s2 s3 -> grows s1 s3.
Proof.
  unfold grows.
  intros ([m1 A1] & A2 & A3 & A4 & A5) ([m2 B1] & B2 & B3 & B4 & B5).
  split; [exists (m1 ++ m2); rewrite B1, A1, app_assoc; reflexivity|].
  split; [intros x Hx; rewrite B2 by lia; exact (A2 x Hx)|].
  split; [lia|]. split; [congruence|lia].
Qed.

(** A step that keeps the handles of the registry, the archive objects and
    the muting, and announces no "archive_added". *)
Lemma grows_same (s s' : State) :
  map archive (open_archives_ s') = map archive (open_archives_ s) ->
  heap s' = heap s ->
  muted_ s' = muted_ s ->
  announcedCount "archive_added" s' = announcedCount "archive_added" s ->
  grows s s'.
Proof.
  intros H1 H2 H3 H4. unfold grows. rewrite H1, H2, H3, H4.
  split; [exists []; rewrite app_nil_r; reflexivity|].
  repeat split; auto.
Qed.

Lemma grows_announce (name : string) (data : option Z) (s : State) :
  grows s (announce name data s).
Proof.
  unfold announce. destruct (muted_ s) eqn:Hm; [apply grows_refl|].
  unfold grows. cbn [open_archives_ heap muted_ set_announced].
  split; [exists []; rewrite app_nil_r; reflexivity|].
  split; [reflexivity|]. split; [reflexivity|]. split; [reflexivity|].
  unfold announcedCount. cbn [announced set_announced].
  rewrite filter_app, length_app. apply Nat.le_add_r.
Qed.

Lemma grows_announceOpened (a : Handle) (silent : bool) (s : State) :
  grows s (announceOpened a silent s).
Proof.
  unfold announceOpened. destruct silent;
    [apply grows_refl|apply grows_announce].
Qed.

Lemma grows_addRecentFile (path : string) (s : State) :
  grows s (addRecentFile E path s).
Proof.
  destruct (addRecentFile_frame path s) as (H1 & H2 & H3).
  apply grows_same; [rewrite H1; reflexivity|exact H2| |exact H3].
  unfold addRecentFile.
  destruct (negb (fileExists E path || dirExists E path)); [reflexivity|].
  destruct (indexOf_from String.eqb 0 (replaceBackslash path)
              (recent_files_ s));
    rewrite announce_muted; reflexivity.
Qed.

Lemma forEach_grows {A : Type} (body : A -> State -> outcome State)
    (v : list A) (s s' : State) :
  (forall a st st', body a st = Done st' -> grows st st') ->
  forEach body v s = Done s' -> grows s s'.
Proof.
  intros Hbody. revert s. induction v as [|a v IH]; intros s Hrun;
    cbn [forEach] in Hrun.
  - injection Hrun as Hs. subst s'. apply grows_refl.
  - destruct (body a s) as [s1| |] eqn:Ha; cbn [bind] in Hrun;
      try discriminate Hrun.
    exact (grows_trans _ _ _ (Hbody a s s1 Ha) (IH s1 Hrun)).
Qed.

(** Rewriting the child list of a record keeps the handles. *)
Lemma map_setAt_archive (v : list OpenArchive) (k : nat) (oa : OpenArchive)
    (children : list Handle) :
  nth_error v k = Some oa ->
  map archive (setAt k (mkOpen (archive oa) (resource oa) children) v)
  = map archive v.
Proof.
  revert k. induction v as [|o v IH]; intros [|k] H; cbn in H |- *;
    try discriminate H.
  - injection H as Ho. subst o. reflexivity.
  - rewrite (IH k H). reflexivity.
Qed.

(** Allocating an object at the end of the heap and filling it in. *)
Lemma grows_alloc (s s' : State) (o o' : ArchiveObj) :
  map archive (open_archives_ s') = map archive (open_archives_ s) ->
  heap s' = setAt (List.length (heap s)) o' (heap s ++ [o]) ->
  muted_ s' = muted_ s ->
  announcedCount "archive_added" s' = announcedCount "archive_added" s ->
  grows s s'.
Proof.
  intros H1 H2 H3 H4. unfold grows. rewrite H1, H2, H3, H4.
  split; [exists []; rewrite app_nil_r; reflexivity|].
  split.
  { intros x Hx. apply nth_error_alloc_other. lia. }
  rewrite setAt_length, length_app. cbn [List.length].
  repeat split; auto; lia.
Qed.

(** [addArchive] from the state in which the archive has its record, its
    subscription and its place in the resource pool. *)
Lemma addArchive_with_grows
    (openEntry : Entry -> State -> outcome (option Handle * State))
    (a : Handle) (s : State) (r : bool) (s' : State) :
  (forall e st res st', openEntry e st = Done (res, st') -> grows st st') ->
  addArchive_with E openEntry (Some a) s = Done (r, s') ->
  grows (resources_addArchive a
           (announce "archive_added" None
              (set_listening (listening s ++ [a])
                 (set_open_archives (open_archives_ s ++ [mkOpen a true []])
                    s)))) s'.
Proof.
  intros Hopen Hadd. unfold addArchive_with in Hadd. cbv zeta in Hadd.
  match type of Hadd with
  | (if ?c then _ else _) = _ => destruct c
  end.
  - match type of Hadd with
    | context [forEach ?body ?v ?st] =>
        destruct (forEach body v st) as [s1| |] eqn:Hloop
    end; cbn [bind] in Hadd; try discriminate Hadd.
    injection Hadd as _ Hs'. rewrite <- Hs'.
    refine (forEach_grows _ _ _ _ _ Hloop).
    intros entry st st' Hbody.
    destruct (entryTypeIsWad E entry).
    + destruct (openEntry entry st) as [[res st1]| |] eqn:Hcall;
        cbn [bind snd] in Hbody; try discriminate Hbody.
      injection Hbody as Hst'. rewrite <- Hst'.
      exact (Hopen _ _ _ _ Hcall).
    + injection Hbody as Hst'. rewrite <- Hst'. apply grows_refl.
  - injection Hadd as _ Hs'. rewrite <- Hs'. apply grows_refl.
Qed.

(** Registering [a] announces "archive_added" once, unless muted. *)
Lemma register_grows (a : Handle) (s sP : State) :
  map archive (open_archives_ sP) = map archive (open_archives_ s) ->
  heap sP = heap s -> muted_ sP = muted_ s -> announced sP = announced s ->
  let s0 := resources_addArchive a
              (announce "archive_added" None
                 (set_listening (listening sP ++ [a])
                    (set_open_archives
                       (open_archives_ sP ++ [mkOpen a true []]) sP))) in
  map archive (open_archives_ s0) = map archive (open_archives_ s) ++ [a] /\
  heap s0 = heap s /\
  muted_ s0 = muted_ s /\
  announcedCount "archive_added" s <= announcedCount "archive_added" s0 /\
  (muted_ s = false ->
   announcedCount "archive_added" s0 = announcedCount "archive_added" s + 1).
Proof.
  intros H1 H2 H3 H4 s0. unfold s0, resources_addArchive. state_simpl.
  rewrite map_app, H1. cbn [map archive].
  split; [reflexivity|]. split; [exact H2|]. split; [exact H3|].
  unfold announcedCount, announce. cbn [muted_ set_listening set_open_archives].
  cbn [announced set_resources].
  destruct (muted_ sP) eqn:Hm.
  - cbn [announced set_listening set_open_archives]. rewrite H4.
    split; [lia|]. intros Hs. congruence.
  - cbn [announced set_announced set_listening set_open_archives].
    rewrite H4, filter_app, length_app.
    change (List.length
              (filter (fun ev : string * option Z =>
                         String.eqb (fst ev) "archive_added")
                 [("archive_added", None)])) with 1.
    split; [apply Nat.le_add_r|]. intros _. reflexivity.
Qed.

Lemma openArchiveEntry_grows (fuel : nat) :
  forall (entry : option Entry) (manage silent : bool) (s : State)
         (r : option Handle) (s' : State),
    openArchiveEntry E fuel entry manage silent s = Done (r, s') ->
    grows s s'.
Proof.
  induction fuel as [|fuel IH]; intros entry manage silent s r s' Hrun;
    [discriminate Hrun|].
  cbn [openArchiveEntry] in Hrun.
  destruct entry as [e|]; [|inversion Hrun; subst; apply grows_refl].
  destruct (openedFrom s e (open_archives_ s)) as [a0|].
  { inversion Hrun; subst. apply grows_announceOpened. }
  destruct (detectEntry E e) as [f|].
  2:{ inversion Hrun; subst. apply grows_same; reflexivity. }
  unfold new_archive, archive_open_entry in Hrun.
  destruct (loadEntry E f e).
  2:{ inversion Hrun; subst. unfold grows.
      cbn [open_archives_ heap muted_ delete_archive set_destroyed
           set_global_error set_heap].
      split; [exists []; rewrite app_nil_r; reflexivity|].
      split; [intros x Hx; apply nth_error_app1; exact Hx|].
      rewrite length_app. cbn [List.length].
      split; [lia|]. split; [reflexivity|]. apply Nat.le_refl. }
  destruct manage.
  2:{ inversion Hrun; subst.
      apply (grows_alloc _ _ (mkArchive f "" None)
               (mkArchive f "" (Some e))); reflexivity. }
  match type of Hrun with
  | context [addArchive_with E ?open ?x ?st] =>
      set (sP := st) in *;
      destruct (addArchive_with E open x sP) as [[b s1]| |] eqn:Hadd
  end; cbn [bind snd] in Hrun; try discriminate Hrun.
  injection Hrun as _ Hs'. rewrite <- Hs'.
  apply (grows_trans _ s1); [|apply grows_announceOpened].
  pose proof (addArchive_with_grows _ _ _ _ _
                (fun e' st res st' Hcall => IH _ _ _ _ _ _ Hcall) Hadd)
    as Hg.
  refine (grows_trans _ _ _ _ Hg).
  set (sN := set_heap
               (setAt (List.length (heap s)) (mkArchive f "" (Some e))
                  (heap (set_heap (heap s ++ [mkArchive f "" None]) s)))
               (set_heap (heap s ++ [mkArchive f "" None]) s)) in *.
  assert (HP : map archive (open_archives_ sP) = map archive (open_archives_ sN)
               /\ heap sP = heap sN /\ muted_ sP = muted_ sN
               /\ announced sP = announced sN).
  { unfold sP. destruct (entryParent E e) as [p|]; [|repeat split].
    destruct (0 <=? archiveIndex p sN)%Z; [|repeat split].
    destruct (nth_error (open_archives_ sN) (Z.to_nat (archiveIndex p sN)))
      as [oa|] eqn:Hnth; [|repeat split].
    cbn [open_archives_ heap muted_ announced set_open_archives].
    split; [|repeat split].
    apply map_setAt_archive. exact Hnth. }
  destruct HP as (P1 & P2 & P3 & P4).
  destruct (register_grows (List.length (heap s)) sN sP P1 P2 P3 P4)
    as (R1 & R2 & R3 & R4 & _).
  apply (grows_trans _ sN).
  - apply (grows_alloc _ _ (mkArchive f "" None)
             (mkArchive f "" (Some e))); reflexivity.
  - unfold grows. rewrite R1, R2, R3.
    split; [exists [List.length (heap s)]; reflexivity|].
    repeat split; auto.
Qed.

Lemma addArchive_grows (fuel : nat) (a : Handle) (s : State) (r : bool)
    (s' : State) :
  addArchive E fuel (Some a) s = Done (r, s') ->
  grows (resources_addArchive a
           (announce "archive_added" None
              (set_listening (listening s ++ [a])
                 (set_open_archives (open_archives_ s ++ [mkOpen a true []])
                    s)))) s'.
Proof.
  unfold addArchive. apply addArchive_with_grows.
  intros e st res st' Hcall.
  exact (openArchiveEntry_grows _ _ _ _ _ _ _ Hcall).
Qed.

(** The lookup by file name goes by the handles of the registry. *)
Lemma getArchive_loop_find (s : State) (path : string)
    (v : list OpenArchive) :
  getArchive_loop E s path v
  = find (fun x => String.eqb (filename E s x) path) (map archive v).
Proof.
  induction v as [|oa v IH]; [reflexivity|].
  cbn [getArchive_loop map find]. rewrite IH. reflexivity.
Qed.

Lemma getArchive_found (path : string) (s : State) (a : Handle) :
  getArchive E path s = Some a -> tracked s a /\ filename E s a = path.
Proof.
  unfold getArchive, tracked. rewrite getArchive_loop_find. intros H.
  apply find_some in H. destruct H as [H1 H2].
  split; [exact H1|apply String.eqb_eq; exact H2].
Qed.

Lemma getArchive_finds (path : string) (s : State) (y : Handle) :
  tracked s y -> filename E s y = path ->
  exists a, getArchive E path s = Some a.
Proof.
  unfold getArchive, tracked. rewrite getArchive_loop_find. intros Hy Hf.
  destruct (find _ (map archive (open_archives_ s))) as [a|] eqn:Hfind;
    [exists a; reflexivity|].
  pose proof (find_none _ _ Hfind y Hy) as Hn. cbv beta in Hn.
  rewrite Hf, String.eqb_refl in Hn. discriminate Hn.
Qed.

(** The first managed open of a path that is not open yet, with the class
    [f] and a successful load, as far as it depends on [addArchive]. *)
Lemma open_file_first (fuel : nat) (f : Format) (path : string)
    (silent : bool) (s : State) (r : option Handle) (s1 : State) :
  muted_ s = false ->
  getArchive E path s = None ->
  (let a := List.length (heap s) in
   let sA := set_heap
               (setAt a (mkArchive f path None)
                  (heap (set_heap (heap s ++ [mkArchive f "" None]) s)))
               (set_heap (heap s ++ [mkArchive f "" None]) s) in
   do res <- addArchive E fuel (Some a) sA;
   Done (Some a, addRecentFile E path (announceOpened a silent (snd res))))
  = Done (r, s1) ->
  r = Some (List.length (heap s)) /\
  announcedCount "archive_added" s + 1 <= announcedCount "archive_added" s1 /\
  (allocated s -> getArchive E path s1 = Some (List.length (heap s))).
Proof.
  intros Hm Hg Hrun. cbv zeta in Hrun.
  set (a := List.length (heap s)) in *.
  set (sA := set_heap
               (setAt a (mkArchive f path None)
                  (heap (set_heap (heap s ++ [mkArchive f "" None]) s)))
               (set_heap (heap s ++ [mkArchive f "" None]) s)) in *.
  destruct (addArchive E fuel (Some a) sA) as [[b s2]| |] eqn:Hadd;
    cbn [bind snd] in Hrun; try discriminate Hrun.
  injection Hrun as Hr Hs1. split; [symmetry; exact Hr|].
  pose proof (addArchive_grows _ _ _ _ _ Hadd) as Hgrow.
  destruct (register_grows a sA sA eq_refl eq_refl eq_refl eq_refl)
    as (R1 & R2 & R3 & _ & R5).
  cbv zeta in R1, R2, R3, R5.
  match type of Hgrow with
  | grows ?st _ => set (s0 := st) in *
  end.
  assert (Hgrow1 : grows s0 s1).
  { rewrite <- Hs1.
    exact (grows_trans _ _ _ Hgrow
             (grows_trans _ _ _ (grows_announceOpened a silent s2)
                (grows_addRecentFile path _))). }
  clear Hgrow Hadd Hs1.
  destruct Hgrow1 as ([more G1] & G2 & G3 & G4 & G5).
  assert (HheapA : heap sA
                   = setAt a (mkArchive f path None)
                       (heap s ++ [mkArchive f "" None])) by reflexivity.
  assert (Hlen0 : List.length (heap s0) = S a).
  { rewrite R2, HheapA, setAt_length, length_app. cbn [List.length].
    unfold a. lia. }
  split.
  { assert (HcA : announcedCount "archive_added" sA
                  = announcedCount "archive_added" s) by reflexivity.
    rewrite R5 in G5 by exact Hm. lia. }
  intros Halloc.
  unfold getArchive. rewrite getArchive_loop_find, G1, R1.
  change (map archive (open_archives_ sA)) with (map archive (open_archives_ s)).
  rewrite <- app_assoc. cbn [app].
  assert (Hold : forall x, x < a -> filename E s1 x = filename E s x).
  { intros x Hx. unfold filename. rewrite G2 by lia.
    rewrite R2, HheapA. unfold a in *.
    rewrite nth_error_alloc_other by lia. reflexivity. }
  assert (Hnew : filename E s1 a = path).
  { unfold filename. rewrite G2 by lia. rewrite R2, HheapA. unfold a.
    rewrite nth_error_alloc_new. reflexivity. }
  unfold getArchive in Hg. rewrite getArchive_loop_find in Hg.
  assert (Hv : forall x, In x (map archive (open_archives_ s)) -> x < a).
  { intros x Hx. exact (Halloc x Hx). }
  revert Hg Hv. generalize (map archive (open_archives_ s)). intros hv.
  induction hv as [|x hv IHv]; intros Hg Hv; cbn [app find].
  - rewrite Hnew, String.eqb_refl. reflexivity.
  - cbn [find] in Hg. rewrite (Hold x (Hv x (or_introl eq_refl))).
    destruct (String.eqb (filename E s x) path); [discriminate Hg|].
    apply IHv; [exact Hg|]. intros y Hy. exact (Hv y (or_intror Hy)).
Qed.

(** C3, as amended.  [openArchive] compares the path as it is spelled with
    the file names of the registered archives.  For a path that is not open
    yet, whose class (a folder, or the first format that accepts the file)
    is [f] and which loads, and a manager that is not muted:
    - when no root entries are auto-mounted, the managed open returns the
      new archive, adds its one record to the registry and announces
      "archive_added" exactly once;
    - whatever is auto-mounted, a managed open that returns yields the new
      archive and at least one "archive_added", and afterwards the path is
      open under that handle (the handles of the registry being those of
      created objects);
    - in every state in which the path is open, be it from this open or any
      other, every further [openArchive] of the same string returns the
      first registered archive of that file name, creates nothing, leaves
      the registry as it is and announces no "archive_added"; and a
      registered archive of that file name is enough for the path to be
      open.
    So two opens of one path string give one handle and, without
    auto-mounting, exactly one "archive_added". *)
Theorem openArchive_twice (fuel : nat) (path : string) (silent : bool)
    (s : State) (f : Format) :
  muted_ s = false ->
  getArchive E path s = None ->
  classOf E path = Some f ->
  loadFile E f path = true ->
  (rootWadsFormat f && auto_open_wads_root s = false ->
   exists s1,
     openArchive E fuel path true silent s
     = Done (Some (List.length (heap s)), s1) /\
     open_archives_ s1
     = open_archives_ s ++ [mkOpen (List.length (heap s)) true []] /\
     announcedCount "archive_added" s1
     = announcedCount "archive_added" s + 1 /\
     getArchive E path s1 = Some (List.length (heap s))) /\
  (forall r s1,
     openArchive E fuel path true silent s = Done (r, s1) ->
     r = Some (List.length (heap s)) /\
     announcedCount "archive_added" s + 1
     <= announcedCount "archive_added" s1 /\
     (allocated s -> getArchive E path s1 = Some (List.length (heap s)))) /\
  (forall st a,
     getArchive E path st = Some a ->
     tracked st a /\ filename E st a = path /\
     forall fuel' manage' silent',
       openArchive E fuel' path manage' silent' st
       = Done (Some a, announceOpened a silent' st) /\
       open_archives_ (announceOpened a silent' st) = open_archives_ st /\
       heap (announceOpened a silent' st) = heap st /\
       announcedCount "archive_added" (announceOpened a silent' st)
       = announcedCount "archive_added" st) /\
  (forall st y,
     tracked st y -> filename E st y = path ->
     exists a, getArchive E path st = Some a).
Proof.
  intros Hm Hg Hclass Hl.
  assert (Hbody : openArchive E fuel path true silent s
                  = (let a := List.length (heap s) in
                     let sA := set_heap
                                 (setAt a (mkArchive f path None)
                                    (heap (set_heap
                                             (heap s ++ [mkArchive f "" None])
                                             s)))
                                 (set_heap (heap s ++ [mkArchive f "" None]) s)
                     in
                     do res <- addArchive E fuel (Some a) sA;
                     Done (Some a,
                           addRecentFile E path
                             (announceOpened a silent (snd res))))).
  { unfold classOf in Hclass. unfold openArchive, openDirArchive.
    destruct (negb (fileExists E path) && dirExists E path).
    - injection Hclass as Hf. subst f. rewrite Hg.
      unfold new_archive, archive_open_file. rewrite Hl. reflexivity.
    - rewrite Hg, Hclass.
      unfold new_archive, archive_open_file. rewrite Hl. reflexivity. }
  split; [|split; [|split]].
  - intros Hroots.
    set (a := List.length (heap s)) in *.
    set (sA := set_heap
                 (setAt a (mkArchive f path None)
                    (heap (set_heap (heap s ++ [mkArchive f "" None]) s)))
                 (set_heap (heap s ++ [mkArchive f "" None]) s)).
    set (s0 := resources_addArchive a
                 (announce "archive_added" None
                    (set_listening (listening sA ++ [a])
                       (set_open_archives
                          (open_archives_ sA ++ [mkOpen a true []]) sA)))).
    set (s1 := addRecentFile E path (announceOpened a silent s0)).
    assert (HheapA : heap sA
                     = setAt a (mkArchive f path None)
                         (heap s ++ [mkArchive f "" None])) by reflexivity.
    assert (Hopen0 : open_archives_ s0
                     = open_archives_ s ++ [mkOpen a true []]).
    { subst s0. unfold resources_addArchive. state_simpl. reflexivity. }
    assert (Hheap0 : heap s0 = heap sA).
    { subst s0. unfold resources_addArchive. state_simpl. reflexivity. }
    assert (Hcount0 : announcedCount "archive_added" s0
                      = announcedCount "archive_added" s + 1).
    { subst s0. unfold resources_addArchive, announcedCount. state_simpl.
      rewrite announce_announced by exact Hm. state_simpl.
      rewrite filter_app, length_app. reflexivity. }
    destruct (announceOpened_frame a silent s0) as (Ho1 & Hh1 & Hc1).
    destruct (addRecentFile_frame path (announceOpened a silent s0))
      as (Ho2 & Hh2 & Hc2).
    assert (HfmtA : formatOf sA a = Some f).
    { unfold formatOf. rewrite HheapA. subst a.
      rewrite nth_error_alloc_new. reflexivity. }
    assert (Hfirst : openArchive E fuel path true silent s
                     = Done (Some a, s1)).
    { rewrite Hbody. cbv zeta. fold a. fold sA. unfold addArchive.
      rewrite (addArchive_plain _ a f sA HfmtA Hroots).
      reflexivity. }
    assert (Hg1 : getArchive E path s1 = Some a).
    { rewrite (getArchive_ext path (announceOpened a silent s0) s1 Ho2 Hh2).
      rewrite (getArchive_ext path s0 _ Ho1 Hh1).
      unfold getArchive. rewrite Hopen0.
      apply (getArchive_loop_new s s0).
      - exact Hg.
      - intros x Hx. unfold filename. rewrite Hheap0, HheapA. subst a.
        rewrite nth_error_alloc_other by exact Hx. reflexivity.
      - unfold filename. rewrite Hheap0, HheapA. subst a.
        rewrite nth_error_alloc_new. reflexivity. }
    exists s1. split; [exact Hfirst|].
    split; [subst s1; rewrite Ho2, Ho1; exact Hopen0|].
    split; [subst s1; rewrite Hc2, Hc1; exact Hcount0|exact Hg1].
  - intros r s1 Hrun. rewrite Hbody in Hrun.
    exact (open_file_first fuel f path silent s r s1 Hm Hg Hrun).
  - intros st a Ha.
    destruct (getArchive_found path st a Ha) as [Ht Hf].
    split; [exact Ht|]. split; [exact Hf|].
    intros fuel' manage' silent'.
    split; [apply openArchive_already_open; exact Ha|].
    exact (announceOpened_frame a silent' st).
  - intros st y. apply getArchive_finds.
Qed.

End Reopening.

Lemma openArchive_twice_witness :
  exists s1,
    openArchive autoMountEnv 1 "maps.pk3" true false initial
    = Done (Some 0, s1) /\
    announcedCount "archive_added" s1 = 1 /\
    openArchive autoMountEnv 1 "maps.pk3" true false s1
    = Done (Some 0, announceOpened 0 false s1) /\
    announcedCount "archive_added" (announceOpened 0 false s1) = 1.
Proof.
  destruct (openArchive_twice autoMountEnv 1 "maps.pk3" false initial Zip
              eq_refl eq_refl eq_refl eq_refl)
    as (H1 & _ & H3 & _).
  destruct (H1 eq_refl) as (s1 & Hopen & _ & Hcount & Hg).
  exists s1. split; [exact Hopen|]. split; [exact Hcount|].
  destruct (H3 s1 0 Hg) as (_ & _ & Hagain).
  destruct (Hagain 1 true false) as (H4 & _ & _ & H5).
  split; [exact H4|]. rewrite H5. exact Hcount.
Defined.

(** File names are compared as they are spelled: the same file opened under
    a second spelling, equal to the first once backslashes are replaced by
    slashes, is opened as a second archive and announced as added again. *)
Example openArchive_other_spelling :
  replaceBackslash "C:\maps\a.wad" = replaceBackslash "C:/maps/a.wad" /\
  exists s1 s2,
    openArchive slashEnv 1 "C:\maps\a.wad" true false initial
    = Done (Some 0, s1) /\
    openArchive slashEnv 1 "C:/maps/a.wad" true false s1
    = Done (Some 1, s2) /\
    announcedCount "archive_added" s2 = 2.
Proof.
  split; [reflexivity|].
  eexists. eexists.
  split; [vm_compute; reflexivity|].
  split; [vm_compute; reflexivity|].
  vm_compute. reflexivity.
Qed.

(** Counterexample to C3 as stated: with [auto_open_wads_root] on, opening
    a ZIP whose root holds a WAD announces "archive_added" for the ZIP and
    for the auto-mounted WAD, so the two opens of the same path produce two
    such announcements, not one. *)
Lemma openArchive_twice_two_added :
  exists a s1 s2,
    openArchive autoMountEnv 2 "maps.pk3" true false autoMountState
    = Done (Some a, s1) /\
    openArchive autoMountEnv 2 "maps.pk3" true false s1 = Done (Some a, s2) /\
    announcedCount "archive_added" autoMountState = 0 /\
    announcedCount "archive_added" s2 = 2.
Proof.
  eexists. eexists. eexists.
  split; [vm_compute; reflexivity|].
  split; [vm_compute; reflexivity|].
  split; vm_compute; reflexivity.
Qed.

(** ** The nesting forest *)

Lemma eraseFirst_In (x c : Handle) (l : list Handle) :
  In c (eraseFirst x l) -> In c l.
Proof.
  induction l as [|y l IH]; cbn [eraseFirst]; [tauto|].
  destruct (Nat.eqb y x).
  - intros H. right. exact H.
  - intros [H|H]; [left; exact H|right; exact (IH H)].
Qed.

Lemma eraseFirst_NoDup (x : Handle) (l : list Handle) :
  NoDup l -> NoDup (eraseFirst x l) /\ ~ In x (eraseFirst x l).
Proof.
  induction l as [|y l IH]; cbn [eraseFirst]; intros H.
  - split; [constructor|tauto].
  - inversion H as [|? ? Hn H']; subst.
    destruct (Nat.eqb y x) eqn:Hy.
    + apply Nat.eqb_eq in Hy. subst y. split; assumption.
    + apply Nat.eqb_neq in Hy. destruct (IH H') as [H1 H2]. split.
      * constructor; [|exact H1]. intros Hin. apply Hn.
        exact (eraseFirst_In _ _ _ Hin).
      * intros [Hin|Hin]; [congruence|exact (H2 Hin)].
Qed.

Lemma eqb_ptr_true (p q : option nat) : eqb_ptr p q = true <-> p = q.
Proof.
  destruct p as [a|], q as [b|]; cbn [eqb_ptr]; split; intros H;
    try discriminate; try reflexivity.
  - apply Nat.eqb_eq in H. congruence.
  - inversion H. apply Nat.eqb_refl.
Qed.

Section Forest.

Variable par : Handle -> option Handle.

Lemma handles_unique (v : list OpenArchive) (oa ob : OpenArchive) :
  NoDup (map archive v) -> In oa v -> In ob v -> archive oa = archive ob ->
  oa = ob.
Proof.
  induction v as [|o v IH]; intros Hnd Ha Hb Heq; [contradiction|].
  cbn [map] in Hnd. inversion Hnd as [|? ? Hnotin Hnd']; subst.
  destruct Ha as [Ha|Ha], Hb as [Hb|Hb].
  - congruence.
  - subst o. exfalso. apply Hnotin. rewrite Heq. apply in_map. exact Hb.
  - subst o. exfalso. apply Hnotin. rewrite <- Heq. apply in_map. exact Ha.
  - exact (IH Hnd' Ha Hb Heq).
Qed.

Lemma handles_split_tail (l1 l2 : list OpenArchive) (oa ob : OpenArchive) :
  NoDup (map archive (l1 ++ oa :: l2)) ->
  In ob (l1 ++ oa :: l2) -> In (archive ob) (map archive l2) -> In ob l2.
Proof.
  intros Hnd Hin Hh. apply in_map_iff in Hh. destruct Hh as (ob' & Heq & Hin').
  assert (Hwhole : In ob' (l1 ++ oa :: l2)).
  { apply in_or_app. right. right. exact Hin'. }
  rewrite (handles_unique _ ob ob' Hnd Hin Hwhole (eq_sym Heq)). exact Hin'.
Qed.

Lemma handles_split_notin (l1 l2 : list OpenArchive) (oa : OpenArchive) :
  NoDup (map archive (l1 ++ oa :: l2)) ->
  ~ In (archive oa) (map archive l1) /\ ~ In (archive oa) (map archive l2) /\
  (forall y, In y (map archive l1) -> ~ In y (map archive l2)).
Proof.
  rewrite map_app. cbn [map]. intros Hnd.
  split; [|split].
  - apply NoDup_remove_2 in Hnd. intros H. apply Hnd.
    apply in_or_app. left. exact H.
  - apply NoDup_remove_2 in Hnd. intros H. apply Hnd.
    apply in_or_app. right. exact H.
  - apply NoDup_remove_1 in Hnd. intros y H1 H2.
    revert Hnd H1 H2. generalize (map archive l1) (map archive l2).
    intros a b. induction a as [|z a IH]; intros Hnd H1 H2; [contradiction|].
    cbn [app] in Hnd. inversion Hnd as [|? ? Hz Hnd']; subst.
    destruct H1 as [H1|H1].
    + subst z. apply Hz. apply in_or_app. right. exact H2.
    + exact (IH Hnd' H1 H2).
Qed.

Lemma ordered_app (l1 l2 : list OpenArchive) :
  ordered (l1 ++ l2) -> ordered l2.
Proof.
  induction l1 as [|o l1 IH]; cbn [app ordered]; [tauto|].
  intros [_ H]. exact (IH H).
Qed.

Lemma ordered_split (l1 l2 : list OpenArchive) (oa : OpenArchive) (c : Handle) :
  ordered (l1 ++ oa :: l2) -> In c (open_children oa) ->
  In c (map archive l2).
Proof.
  intros H Hc. apply ordered_app in H. destruct H as [H _]. exact (H c Hc).
Qed.

Lemma ordered_in (v : list OpenArchive) (ob : OpenArchive) (c : Handle) :
  ordered v -> In ob v -> In c (open_children ob) -> In c (map archive v).
Proof.
  intros Ho Hin Hc. apply in_split in Hin. destruct Hin as (m1 & m2 & Hv).
  subst v. rewrite map_app. apply in_or_app. right. right.
  exact (ordered_split _ _ _ _ Ho Hc).
Qed.

(** The descendants of an archive all sit after it in the registry. *)
Lemma descendant_later (l1 l2 : list OpenArchive) (oa : OpenArchive)
    (d : Handle) :
  NoDup (map archive (l1 ++ oa :: l2)) -> ordered (l1 ++ oa :: l2) ->
  descendant (l1 ++ oa :: l2) (archive oa) d -> In d (map archive l2).
Proof.
  intros Hnd Hord Hd.
  induction Hd as [ob c Hin Heq Hc|y ob c Hd IH Hin Heq Hc].
  - assert (Hoa : In oa (l1 ++ oa :: l2))
      by (apply in_or_app; right; left; reflexivity).
    rewrite (handles_unique _ ob oa Hnd Hin Hoa Heq) in Hc.
    exact (ordered_split _ _ _ _ Hord Hc).
  - subst y. pose proof (handles_split_tail _ _ _ _ Hnd Hin IH) as Hob.
    apply in_split in Hob. destruct Hob as (m1 & m2 & Hl2).
    assert (Hord' : ordered (m1 ++ ob :: m2)).
    { rewrite <- Hl2. apply (ordered_app (l1 ++ [oa])).
      rewrite <- app_assoc. exact Hord. }
    rewrite Hl2, map_app. apply in_or_app. right. right.
    exact (ordered_split _ _ _ _ Hord' Hc).
Qed.

Lemma descendant_tracked (v : list OpenArchive) (x d : Handle) :
  ordered v -> descendant v x d -> In d (map archive v).
Proof.
  intros Ho Hd. destruct Hd as [ob c Hin _ Hc|y ob c _ Hin _ Hc];
    exact (ordered_in _ _ _ Ho Hin Hc).
Qed.

Lemma descendant_irrefl (v : list OpenArchive) (x : Handle) :
  NoDup (map archive v) -> ordered v -> ~ descendant v x x.
Proof.
  intros Hnd Hord Hd.
  assert (Hx : In x (map archive v)) by exact (descendant_tracked _ _ _ Hord Hd).
  apply in_map_iff in Hx. destruct Hx as (oa & Heq & Hin).
  apply in_split in Hin. destruct Hin as (l1 & l2 & Hv). subst v x.
  pose proof (descendant_later _ _ _ _ Hnd Hord Hd) as Hl.
  destruct (handles_split_notin _ _ _ Hnd) as (_ & H2 & _). exact (H2 Hl).
Qed.

Lemma descendant_trans (v : list OpenArchive) (x y z : Handle) :
  descendant v x y -> descendant v y z -> descendant v x z.
Proof.
  intros Hxy Hyz.
  induction Hyz as [ob c Hin Heq Hc|w ob c Hyw IH Hin Heq Hc].
  - exact (desc_step v x y ob c Hxy Hin Heq Hc).
  - exact (desc_step v x w ob c IH Hin Heq Hc).
Qed.

(** The last step of a descent. *)
Lemma descendant_last (v : list OpenArchive) (x d : Handle) :
  descendant v x d ->
  exists ob, In ob v /\ In d (open_children ob) /\
             (archive ob = x \/ descendant v x (archive ob)).
Proof.
  intros Hd. destruct Hd as [ob c Hin Heq Hc|y ob c Hd Hin Heq Hc].
  - exists ob. split; [exact Hin|]. split; [exact Hc|]. left. exact Heq.
  - exists ob. split; [exact Hin|]. split; [exact Hc|]. right.
    rewrite Heq. exact Hd.
Qed.

(** Descents are kept by a registry that keeps the listing records. *)
Lemma descendant_mono (v v' : list OpenArchive) (x d : Handle) :
  (forall ob c, In ob v -> In c (open_children ob) ->
                exists ob', In ob' v' /\ archive ob' = archive ob /\
                            In c (open_children ob')) ->
  descendant v x d -> descendant v' x d.
Proof.
  intros Hsub Hd.
  induction Hd as [ob c Hin Heq Hc|y ob c Hd IH Hin Heq Hc].
  - destruct (Hsub ob c Hin Hc) as (ob' & Hin' & Heq' & Hc').
    apply (desc_child v' x ob' c Hin'); congruence.
  - destruct (Hsub ob c Hin Hc) as (ob' & Hin' & Heq' & Hc').
    apply (desc_step v' x y ob' c IH Hin'); congruence.
Qed.

(** With one parent per child, the ancestors of an archive form a chain. *)
Lemma descendant_linear (v : list OpenArchive) (a b d : Handle) :
  wf par v ->
  descendant v a d -> descendant v b d ->
  a = b \/ descendant v a b \/ descendant v b a.
Proof.
  intros (_ & Hpar & _ & _) Ha. revert b.
  induction Ha as [oa c Hin Heq Hc|y oa c Ha IH Hin Heq Hc]; intros b Hb;
    apply descendant_last in Hb;
    destruct Hb as (ob & Hinb & Hcb & Hb);
    assert (Hsame : archive oa = archive ob)
      by (pose proof (Hpar _ _ Hin Hc); pose proof (Hpar _ _ Hinb Hcb);
          congruence).
  - destruct Hb as [Hb|Hb].
    + left. congruence.
    + right. right. rewrite <- Heq, Hsame. exact Hb.
  - destruct Hb as [Hb|Hb].
    + right. left. rewrite <- Hb, <- Hsame, Heq. exact Ha.
    + apply IH. rewrite <- Heq, Hsame. exact Hb.
Qed.

(** A set of handles that contains the children of its members' records. *)
Lemma descendant_closed (v : list OpenArchive) (x d : Handle)
    (ob : OpenArchive) :
  wf par v ->
  descendant v x d -> In ob v -> In d (open_children ob) ->
  archive ob = x \/ descendant v x (archive ob).
Proof.
  intros (_ & Hpar & _ & _) Hd Hin Hc.
  apply descendant_last in Hd. destruct Hd as (ob' & Hin' & Hc' & Hd).
  assert (Hsame : archive ob' = archive ob)
    by (pose proof (Hpar _ _ Hin Hc); pose proof (Hpar _ _ Hin' Hc');
        congruence).
  rewrite <- Hsame. exact Hd.
Qed.

(** *** Removing closed records *)

Lemma keep_true (L : list Handle) (oa : OpenArchive) :
  keep L oa = true <-> ~ In (archive oa) L.
Proof.
  unfold keep. rewrite negb_true_iff. split.
  - intros H Hin.
    assert (Hex : existsb (Nat.eqb (archive oa)) L = true).
    { apply existsb_exists. exists (archive oa).
      split; [exact Hin|apply Nat.eqb_refl]. }
    congruence.
  - intros H. destruct (existsb (Nat.eqb (archive oa)) L) eqn:Hex;
      [|reflexivity].
    apply existsb_exists in Hex. destruct Hex as (y & Hy & Heq).
    apply Nat.eqb_eq in Heq. subst y. contradiction.
Qed.

Lemma filter_keep_all (L : list Handle) (v : list OpenArchive) :
  (forall ob, In ob v -> ~ In (archive ob) L) -> filter (keep L) v = v.
Proof.
  induction v as [|o v IH]; intros H; cbn [filter]; [reflexivity|].
  rewrite (proj2 (keep_true L o)) by (apply H; left; reflexivity).
  f_equal. apply IH. intros ob Hob. apply H. right. exact Hob.
Qed.

Lemma keep_app (L1 L2 : list Handle) (oa : OpenArchive) :
  keep (L1 ++ L2) oa = keep L1 oa && keep L2 oa.
Proof.
  unfold keep. rewrite existsb_app, negb_orb. reflexivity.
Qed.

Lemma filter_keep_app (L1 L2 : list Handle) (v : list OpenArchive) :
  filter (keep (L1 ++ L2)) v = filter (keep L2) (filter (keep L1) v).
Proof.
  induction v as [|o v IH]; cbn [filter]; [reflexivity|].
  rewrite keep_app. destruct (keep L1 o); cbn [andb filter].
  - destruct (keep L2 o); rewrite IH; reflexivity.
  - exact IH.
Qed.

Lemma filter_keep_split (L : list Handle) (m1 m2 : list OpenArchive)
    (oc : OpenArchive) (L1 : list Handle) :
  L = L1 ++ [archive oc] ->
  (forall ob, In ob m1 -> ~ In (archive ob) L) ->
  filter (keep L) (m1 ++ oc :: m2) = m1 ++ filter (keep L) m2.
Proof.
  intros HL Hm1. rewrite filter_app. cbn [filter].
  rewrite (filter_keep_all L m1 Hm1).
  assert (Hoc : keep L oc = false).
  { apply not_true_is_false. intros H. apply keep_true in H. apply H.
    subst L. apply in_or_app. right. left. reflexivity. }
  rewrite Hoc. reflexivity.
Qed.

Lemma filter_In_handles (L : list Handle) (v : list OpenArchive) (y : Handle) :
  In y (map archive (filter (keep L) v)) <->
  In y (map archive v) /\ ~ In y L.
Proof.
  rewrite !in_map_iff. split.
  - intros (ob & Heq & Hin). apply filter_In in Hin. destruct Hin as [Hin Hk].
    apply keep_true in Hk. subst y. split; [|exact Hk].
    exists ob. split; [reflexivity|exact Hin].
  - intros [(ob & Heq & Hin) Hn]. exists ob. split; [exact Heq|].
    apply filter_In. split; [exact Hin|]. apply keep_true. subst y. exact Hn.
Qed.

Lemma NoDup_map_filter {A B : Type} (g : A -> B) (p : A -> bool) (v : list A) :
  NoDup (map g v) -> NoDup (map g (filter p v)).
Proof.
  induction v as [|a v IH]; cbn [map filter]; intros H; [constructor|].
  inversion H as [|? ? Hn H']; subst.
  destruct (p a); cbn [map]; [|exact (IH H')].
  constructor; [|exact (IH H')].
  intros Hin. apply Hn. apply in_map_iff in Hin.
  destruct Hin as (a' & Heq & Hin). apply filter_In in Hin.
  apply in_map_iff. exists a'. tauto.
Qed.

(** [ordered] survives removing records and shrinking child lists, as long
    as the children still listed are kept. *)
Lemma ordered_filter_map (g : OpenArchive -> OpenArchive) (L : list Handle)
    (v : list OpenArchive) :
  (forall ob, archive (g ob) = archive ob) ->
  (forall ob c, In c (open_children (g ob)) -> In c (open_children ob)) ->
  (forall ob c, In ob v -> keep L ob = true ->
                In c (open_children (g ob)) -> ~ In c L) ->
  ordered v -> ordered (map g (filter (keep L) v)).
Proof.
  intros Hga Hgc. induction v as [|o v IH]; intros Hkept Hord;
    cbn [filter map]; [exact I|].
  destruct Hord as [Ho Hord].
  assert (IH' : ordered (map g (filter (keep L) v))).
  { apply IH; [|exact Hord]. intros ob c Hin. apply Hkept. right. exact Hin. }
  destruct (keep L o) eqn:Hk; [|exact IH'].
  cbn [map ordered]. split; [|exact IH'].
  intros c Hc.
  rewrite map_map.
  rewrite (map_ext (fun ob => archive (g ob)) archive Hga).
  apply filter_In_handles. split.
  - apply Ho. apply Hgc. exact Hc.
  - exact (Hkept o c (or_introl eq_refl) Hk Hc).
Qed.

Lemma detachFrom_archive (x : Handle) (ob : OpenArchive) :
  archive (detachFrom par x ob) = archive ob.
Proof. unfold detachFrom. destruct (eqb_ptr _ _); reflexivity. Qed.

Lemma detachFrom_children (x c : Handle) (ob : OpenArchive) :
  In c (open_children (detachFrom par x ob)) -> In c (open_children ob).
Proof.
  unfold detachFrom. destruct (eqb_ptr _ _); cbn [open_children]; [|tauto].
  apply eraseFirst_In.
Qed.

(** After the detaching, no remaining record lists [x]. *)
Lemma detachFrom_unlisted (v : list OpenArchive) (x : Handle)
    (ob : OpenArchive) :
  wf par v -> In ob v -> ~ In x (open_children (detachFrom par x ob)).
Proof.
  intros (_ & Hpar & Hnd & _) Hin Hx.
  pose proof (detachFrom_children _ _ _ Hx) as Hx'.
  pose proof (Hpar _ _ Hin Hx') as Hp.
  unfold detachFrom in Hx.
  rewrite (proj2 (eqb_ptr_true _ _) Hp) in Hx. cbn [open_children] in Hx.
  exact (proj2 (eraseFirst_NoDup x _ (Hnd _ Hin)) Hx).
Qed.

End Forest.

(** ** The registry invariant under removal *)

Section Invariant.

Variable par : Handle -> option Handle.

Lemma wf_filter_map (g : OpenArchive -> OpenArchive) (L : list Handle)
    (v : list OpenArchive) :
  (forall ob, archive (g ob) = archive ob) ->
  (forall ob c, In c (open_children (g ob)) -> In c (open_children ob)) ->
  (forall ob, NoDup (open_children ob) -> NoDup (open_children (g ob))) ->
  (forall ob c, In ob v -> keep L ob = true ->
                In c (open_children (g ob)) -> ~ In c L) ->
  wf par v -> wf par (map g (filter (keep L) v)).
Proof.
  intros Hga Hgc Hgn Hkept (Hnd & Hpar & Hcn & Hord).
  split; [|split; [|split]].
  - rewrite map_map.
    rewrite (map_ext (fun ob => archive (g ob)) archive Hga).
    apply NoDup_map_filter. exact Hnd.
  - intros oa c Hin Hc. apply in_map_iff in Hin.
    destruct Hin as (ob & Heq & Hin). apply filter_In in Hin. subst oa.
    rewrite Hga. apply Hpar; [tauto|]. apply Hgc. exact Hc.
  - intros oa Hin. apply in_map_iff in Hin.
    destruct Hin as (ob & Heq & Hin). apply filter_In in Hin. subst oa.
    apply Hgn. apply Hcn. tauto.
  - apply ordered_filter_map; assumption.
Qed.

Lemma wf_filter (L : list Handle) (v : list OpenArchive) :
  (forall ob c, In ob v -> keep L ob = true ->
                In c (open_children ob) -> ~ In c L) ->
  wf par v -> wf par (filter (keep L) v).
Proof.
  intros Hkept Hwf.
  rewrite <- (map_id (filter (keep L) v)).
  apply wf_filter_map; auto.
Qed.

(** Emptying a child list keeps the invariant. *)
Lemma wf_cleared (l1 l2 : list OpenArchive) (oa : OpenArchive) :
  wf par (l1 ++ oa :: l2) ->
  wf par (l1 ++ mkOpen (archive oa) (resource oa) [] :: l2).
Proof.
  intros (Hnd & Hpar & Hcn & Hord).
  split; [|split; [|split]].
  - rewrite map_app in *. exact Hnd.
  - intros ob c Hin Hc. apply in_app_or in Hin.
    destruct Hin as [Hin|[Hin|Hin]].
    + apply Hpar; [apply in_or_app; left; exact Hin|exact Hc].
    + subst ob. contradiction.
    + apply Hpar; [apply in_or_app; right; right; exact Hin|exact Hc].
  - intros ob Hin. apply in_app_or in Hin.
    destruct Hin as [Hin|[Hin|Hin]].
    + apply Hcn. apply in_or_app. left. exact Hin.
    + subst ob. constructor.
    + apply Hcn. apply in_or_app. right. right. exact Hin.
  - clear Hnd Hpar Hcn. induction l1 as [|o l1 IH]; cbn [app ordered] in *.
    + split; [intros c []|tauto].
    + destruct Hord as [Ho Hord]. split; [|exact (IH Hord)].
      intros c Hc. specialize (Ho c Hc). rewrite map_app in *. exact Ho.
Qed.

(** An archive whose listing record has been emptied is listed nowhere. *)
Lemma unlisted_child (v : list OpenArchive) (oa0 ob : OpenArchive)
    (c : Handle) :
  wf par v -> In oa0 v -> open_children oa0 = [] ->
  par c = Some (archive oa0) ->
  In ob v -> ~ In c (open_children ob).
Proof.
  intros (Hnd & Hpar & _ & _) Hin0 Hempty Hc Hin Hlisted.
  pose proof (Hpar _ _ Hin Hlisted) as Hp.
  assert (Heq : archive ob = archive oa0) by congruence.
  rewrite (handles_unique _ ob oa0 Hnd Hin Hin0 Heq), Hempty in Hlisted.
  exact Hlisted.
Qed.

Lemma unlisted_not_descendant (v : list OpenArchive) (y c : Handle) :
  (forall ob, In ob v -> ~ In c (open_children ob)) ->
  ~ descendant v y c.
Proof.
  intros Hun Hd. apply descendant_last in Hd.
  destruct Hd as (ob & Hin & Hc & _). exact (Hun ob Hin Hc).
Qed.

(** Closing [c] and its descendants does not cut the descents from another
    unlisted archive [c']. *)
Lemma descendant_survives (v v1 : list OpenArchive) (R : list Handle)
    (c c' d : Handle) :
  wf par v ->
  (forall y, In y R -> y = c \/ descendant v c y) ->
  (forall ob, In ob v -> ~ In (archive ob) R -> In ob v1) ->
  (forall ob, In ob v -> ~ In c (open_children ob)) ->
  (forall ob, In ob v -> ~ In c' (open_children ob)) ->
  c <> c' ->
  descendant v c' d -> descendant v1 c' d.
Proof.
  intros Hwf HR Hv1 Hc Hc' Hne Hd.
  induction Hd as [ob e Hin Heq He|y ob e Hd IH Hin Heq He].
  - apply (desc_child v1 c' ob e); [|exact Heq|exact He].
    apply Hv1; [exact Hin|]. rewrite Heq. intros Hr.
    destruct (HR _ Hr) as [H|H]; [congruence|].
    exact (unlisted_not_descendant _ _ _ Hc' H).
  - apply (desc_step v1 c' y ob e IH); [|exact Heq|exact He].
    apply Hv1; [exact Hin|]. rewrite Heq. intros Hr.
    destruct (HR _ Hr) as [H|H].
    + rewrite H in Hd. exact (unlisted_not_descendant _ _ _ Hc Hd).
    + destruct (descendant_linear par v c c' y Hwf H Hd) as [H1|[H1|H1]].
      * exact (Hne H1).
      * exact (unlisted_not_descendant _ _ _ Hc' H1).
      * exact (unlisted_not_descendant _ _ _ Hc H1).
Qed.

(** The descents from [x] are those from its listed children in the
    registry where the child list of [x] has been emptied. *)
Lemma descendant_cleared (l1 l2 : list OpenArchive) (oa : OpenArchive)
    (d : Handle) :
  wf par (l1 ++ oa :: l2) ->
  descendant (l1 ++ oa :: l2) (archive oa) d <->
  exists c, In c (open_children oa) /\
            (d = c \/
             descendant (l1 ++ mkOpen (archive oa) (resource oa) [] :: l2) c d).
Proof.
  intros Hwf. pose proof Hwf as (Hnd & Hpar & Hcn & Hord).
  set (v := l1 ++ oa :: l2) in *.
  set (v0 := l1 ++ mkOpen (archive oa) (resource oa) [] :: l2).
  assert (Hoa : In oa v) by (apply in_or_app; right; left; reflexivity).
  split.
  - intros Hd.
    remember (archive oa) as x eqn:Hx.
    induction Hd as [ob c Hin Heq Hc|y ob c Hd IH Hin Heq Hc].
    + exists c. split; [|left; reflexivity].
      assert (Hob : ob = oa)
        by (apply (handles_unique v); try assumption; congruence).
      subst ob. exact Hc.
    + destruct IH as (c0 & Hc0 & Hy).
      exists c0. split; [exact Hc0|]. right.
      assert (Hne : archive ob <> archive oa).
      { rewrite Heq, <- Hx. intros Hyx. rewrite Hyx in Hd.
        exact (descendant_irrefl v x Hnd Hord Hd). }
      assert (Hob0 : In ob v0).
      { unfold v in Hin. apply in_app_or in Hin. apply in_or_app.
        destruct Hin as [Hin|[Hin|Hin]].
        - left. exact Hin.
        - subst ob. congruence.
        - right. right. exact Hin. }
      destruct Hy as [Hy|Hy].
      * rewrite Hy in Heq. exact (desc_child v0 c0 ob c Hob0 Heq Hc).
      * exact (desc_step v0 c0 y ob c Hy Hob0 Heq Hc).
  - intros (c & Hc & Hd).
    assert (Hxc : descendant v (archive oa) c)
      by exact (desc_child v (archive oa) oa c Hoa eq_refl Hc).
    destruct Hd as [Hd|Hd]; [subst d; exact Hxc|].
    apply (descendant_trans v _ c); [exact Hxc|].
    apply (descendant_mono v0 v); [|exact Hd].
    intros ob e Hin He. exists ob. split; [|split; [reflexivity|exact He]].
    unfold v0 in Hin. apply in_app_or in Hin. apply in_or_app.
    destruct Hin as [Hin|[Hin|Hin]].
    + left. exact Hin.
    + subst ob. contradiction.
    + right. right. exact Hin.
Qed.

End Invariant.

(** ** Closing an archive *)

Section Closing.

Context (E : Env).

Lemma archiveIndex_from_split (a0 : nat) (x : Handle)
    (l1 l2 : list OpenArchive) (oa : OpenArchive) :
  ~ In x (map archive l1) -> archive oa = x ->
  archiveIndex_from a0 x (l1 ++ oa :: l2) = Z.of_nat (a0 + List.length l1).
Proof.
  revert a0. induction l1 as [|o l1 IH]; intros a0 Hn Heq;
    cbn [app archiveIndex_from List.length].
  - rewrite Heq, Nat.eqb_refl. f_equal. lia.
  - cbn [map] in Hn.
    destruct (Nat.eqb (archive o) x) eqn:Ho.
    + apply Nat.eqb_eq in Ho. exfalso. apply Hn. left. exact Ho.
    + rewrite IH; [f_equal; lia| |exact Heq].
      intros H. apply Hn. right. exact H.
Qed.

Lemma archiveIndex_from_notin (a0 : nat) (x : Handle) (v : list OpenArchive) :
  ~ In x (map archive v) -> archiveIndex_from a0 x v = (-1)%Z.
Proof.
  revert a0. induction v as [|o v IH]; intros a0 Hn;
    cbn [archiveIndex_from]; [reflexivity|].
  cbn [map] in Hn. destruct (Nat.eqb (archive o) x) eqn:Ho.
  - apply Nat.eqb_eq in Ho. exfalso. apply Hn. left. exact Ho.
  - apply IH. intros H. apply Hn. right. exact H.
Qed.

Lemma nth_error_middle {A : Type} (l1 l2 : list A) (a : A) :
  nth_error (l1 ++ a :: l2) (List.length l1) = Some a.
Proof.
  rewrite nth_error_app2 by lia. rewrite Nat.sub_diag. reflexivity.
Qed.

Lemma setAt_middle {A : Type} (l1 l2 : list A) (a b : A) :
  setAt (List.length l1) b (l1 ++ a :: l2) = l1 ++ b :: l2.
Proof.
  induction l1 as [|o l1 IH]; cbn [app List.length setAt]; [reflexivity|].
  rewrite IH. reflexivity.
Qed.

Lemma set_children_middle (l1 l2 : list OpenArchive) (oa : OpenArchive)
    (children : list Handle) (s : State) :
  open_archives_ s = l1 ++ oa :: l2 ->
  open_archives_ (set_children (List.length l1) children s)
  = l1 ++ mkOpen (archive oa) (resource oa) children :: l2 /\
  heap (set_children (List.length l1) children s) = heap s /\
  destroyed (set_children (List.length l1) children s) = destroyed s.
Proof.
  intros Hv. unfold set_children. rewrite Hv, nth_error_middle.
  state_simpl. rewrite setAt_middle. repeat split.
Qed.

Lemma parentArchive_ext (s s' : State) (y : Handle) :
  heap s' = heap s -> parentArchive E s' y = parentArchive E s y.
Proof.
  intros Hh. unfold parentArchive, parentEntry. rewrite Hh. reflexivity.
Qed.

Lemma map_detachFrom_id (par : Handle -> option Handle) (x : Handle)
    (v : list OpenArchive) :
  (forall ob, In ob v -> par x = Some (archive ob) -> open_children ob = []) ->
  map (detachFrom par x) v = v.
Proof.
  intros H. rewrite <- (map_id v) at 2. apply map_ext_in.
  intros ob Hin. unfold detachFrom.
  destruct (eqb_ptr (par x) (Some (archive ob))) eqn:Hp; [|reflexivity].
  apply eqb_ptr_true in Hp. pose proof (H ob Hin Hp) as Hc.
  destruct ob as [a r c]. cbn [open_children archive resource] in *.
  subst c. reflexivity.
Qed.

Lemma map_detachFrom_ext (par par' : Handle -> option Handle) (x : Handle)
    (v : list OpenArchive) :
  par x = par' x -> map (detachFrom par x) v = map (detachFrom par' x) v.
Proof.
  intros H. apply map_ext. intros ob. unfold detachFrom. rewrite H.
  reflexivity.
Qed.

(** What [detachFromParent] does to the registry. *)
Lemma detachFromParent_spec (x : Handle) (s : State) :
  NoDup (map archive (open_archives_ s)) ->
  open_archives_ (detachFromParent E x s)
  = map (detachFrom (parentArchive E s) x) (open_archives_ s) /\
  heap (detachFromParent E x s) = heap s /\
  destroyed (detachFromParent E x s) = destroyed s.
Proof.
  intros Hnd.
  set (target := map (detachFrom (parentArchive E s) x) (open_archives_ s)).
  assert (Hnone : parentArchive E s x = None -> target = open_archives_ s).
  { intros Hp. apply map_detachFrom_id. intros ob _ H. congruence. }
  assert (Hsome : forall gp, parentArchive E s x = Some gp ->
                  target
                  = map (detachFrom (fun _ => Some gp) x) (open_archives_ s)).
  { intros gp Hp. apply map_detachFrom_ext. exact Hp. }
  clearbody target. unfold parentArchive in Hnone, Hsome.
  unfold detachFromParent.
  destruct (parentEntry s x) as [e|];
    [|rewrite Hnone by reflexivity; repeat split].
  destruct (entryParent E e) as [gp|];
    [|rewrite Hnone by reflexivity; repeat split].
  rewrite (Hsome gp eq_refl). clear Hnone Hsome target.
  unfold archiveIndex.
  destruct (in_dec Nat.eq_dec gp (map archive (open_archives_ s)))
    as [Hin|Hnotin].
  - apply in_map_iff in Hin. destruct Hin as (op & Hop & Hin).
    apply in_split in Hin. destruct Hin as (l1 & l2 & Hv).
    rewrite Hv in Hnd |- *.
    destruct (handles_split_notin _ _ _ Hnd) as (H1 & H2 & _).
    rewrite Hop in H1, H2.
    rewrite (archiveIndex_from_split 0 gp l1 l2 op H1 Hop).
    cbn [Nat.add].
    assert (Hpos : (0 <=? Z.of_nat (List.length l1))%Z = true)
      by (apply Z.leb_le; lia).
    rewrite Hpos, Nat2Z.id, nth_error_middle.
    destruct (set_children_middle l1 l2 op
                (eraseFirst x (open_children op)) s Hv) as (Ho & Hh & Hd).
    rewrite Ho, Hh, Hd. split; [|split; reflexivity].
    rewrite map_app. cbn [map].
    assert (Hother : forall l, ~ In gp (map archive l) ->
                               map (detachFrom (fun _ => Some gp) x) l = l).
    { intros l Hl. apply map_detachFrom_id. intros ob Hob Hp.
      exfalso. apply Hl. inversion Hp. apply in_map. exact Hob. }
    rewrite (Hother l1 H1), (Hother l2 H2).
    unfold detachFrom. cbn [eqb_ptr].
    rewrite Hop, Nat.eqb_refl. reflexivity.
  - rewrite (archiveIndex_from_notin 0 gp _ Hnotin). cbn [Z.leb Z.compare].
    split; [|split; reflexivity].
    symmetry. apply map_detachFrom_id. intros ob Hob Hp.
    exfalso. apply Hnotin. inversion Hp. apply in_map. exact Hob.
Qed.

Lemma deleteBookmarksInArchive_frame (x : Handle) (s : State) :
  open_archives_ (snd (deleteBookmarksInArchive E x s)) = open_archives_ s /\
  heap (snd (deleteBookmarksInArchive E x s)) = heap s /\
  destroyed (snd (deleteBookmarksInArchive E x s)) = destroyed s.
Proof.
  unfold deleteBookmarksInArchive.
  destruct (deleteBookmarksInArchive_loop E x (bookmarks_ s) false)
    as [kept removed].
  destruct removed; cbn [snd]; state_simpl; repeat split.
Qed.

End Closing.

(** ** The order of closing *)

Lemma find_record_middle (x : Handle) (l1 l2 : list OpenArchive)
    (oa : OpenArchive) :
  ~ In x (map archive l1) -> archive oa = x ->
  find (fun ob => Nat.eqb (archive ob) x) (l1 ++ oa :: l2) = Some oa.
Proof.
  intros Hn Heq. induction l1 as [|o l1 IH]; cbn [app find].
  - rewrite Heq, Nat.eqb_refl. reflexivity.
  - cbn [map] in Hn. destruct (Nat.eqb (archive o) x) eqn:Ho.
    + apply Nat.eqb_eq in Ho. exfalso. apply Hn. left. exact Ho.
    + apply IH. intros H. apply Hn. right. exact H.
Qed.

Lemma find_record_replace (y : Handle) (l1 l2 : list OpenArchive)
    (oa oa' : OpenArchive) :
  archive oa <> y -> archive oa' <> y ->
  find (fun ob => Nat.eqb (archive ob) y) (l1 ++ oa' :: l2)
  = find (fun ob => Nat.eqb (archive ob) y) (l1 ++ oa :: l2).
Proof.
  intros H H'. induction l1 as [|o l1 IH]; cbn [app find].
  - rewrite (proj2 (Nat.eqb_neq _ _) H), (proj2 (Nat.eqb_neq _ _) H').
    reflexivity.
  - destruct (Nat.eqb (archive o) y); [reflexivity|exact IH].
Qed.

Lemma find_record_filter (y : Handle) (R : list Handle)
    (v : list OpenArchive) :
  ~ In y R ->
  find (fun ob => Nat.eqb (archive ob) y) (filter (keep R) v)
  = find (fun ob => Nat.eqb (archive ob) y) v.
Proof.
  intros Hy. induction v as [|o v IH]; cbn [filter find]; [reflexivity|].
  destruct (Nat.eqb (archive o) y) eqn:Ho.
  - apply Nat.eqb_eq in Ho.
    rewrite (proj2 (keep_true R o)) by (rewrite Ho; exact Hy).
    cbn [find]. rewrite Ho, Nat.eqb_refl. reflexivity.
  - destruct (keep R o); cbn [find]; [rewrite Ho|]; exact IH.
Qed.

Lemma flat_map_same {A B : Type} (f g : A -> list B) (l : list A) :
  (forall a, In a l -> f a = g a) -> flat_map f l = flat_map g l.
Proof.
  induction l as [|a l IH]; intros H; cbn [flat_map]; [reflexivity|].
  rewrite (H a (or_introl eq_refl)). f_equal.
  apply IH. intros b Hb. apply H. right. exact Hb.
Qed.

(** The order of closing [c] depends on the records of [c] and of its
    descendants only. *)
Lemma closeOrder_ext (fuel : nat) (v v' : list OpenArchive) :
  forall c,
    (forall y, y = c \/ descendant v c y ->
               find (fun ob => Nat.eqb (archive ob) y) v'
               = find (fun ob => Nat.eqb (archive ob) y) v) ->
    closeOrder fuel v' c = closeOrder fuel v c.
Proof.
  induction fuel as [|fuel IH]; intros c Hsame; cbn [closeOrder];
    [reflexivity|].
  rewrite (Hsame c (or_introl eq_refl)).
  destruct (find (fun ob => Nat.eqb (archive ob) c) v) as [oa|] eqn:Hfind;
    [|reflexivity].
  apply find_some in Hfind. destruct Hfind as [Hin Heq].
  apply Nat.eqb_eq in Heq.
  f_equal. apply flat_map_same. intros c' Hc'. apply IH.
  assert (Hcc' : descendant v c c')
    by exact (desc_child v c oa c' Hin Heq Hc').
  intros y [Hy|Hy]; apply Hsame; right.
  - subst y. exact Hcc'.
  - exact (descendant_trans v c c' y Hcc' Hy).
Qed.

(** The subtrees of two distinct archives that are listed nowhere are
    disjoint. *)
Lemma subtrees_disjoint (par : Handle -> option Handle)
    (v : list OpenArchive) (c c' y : Handle) :
  wf par v ->
  (forall ob, In ob v -> ~ In c (open_children ob)) ->
  (forall ob, In ob v -> ~ In c' (open_children ob)) ->
  c <> c' ->
  y = c' \/ descendant v c' y ->
  ~ (y = c \/ descendant v c y).
Proof.
  intros Hwf Hc Hc' Hne [Hy'|Hy'] [Hy|Hy].
  - congruence.
  - subst y. exact (unlisted_not_descendant _ _ _ Hc' Hy).
  - subst y. exact (unlisted_not_descendant _ _ _ Hc Hy').
  - destruct (descendant_linear par v c c' y Hwf Hy Hy') as [H|[H|H]].
    + exact (Hne H).
    + exact (unlisted_not_descendant _ _ _ Hc' H).
    + exact (unlisted_not_descendant _ _ _ Hc H).
Qed.

(** ** Bookmarks and the resource pool when archives close *)

Lemma filter_keepBookmark_nil (E : Env) (v : list Entry) :
  filter (keepBookmark E []) v = v.
Proof.
  induction v as [|b v IH]; [reflexivity|].
  cbn [filter]. unfold keepBookmark at 1. cbn [existsb negb].
  rewrite IH. reflexivity.
Qed.

Lemma filter_keepBookmark_app (E : Env) (R1 R2 : list Handle)
    (v : list Entry) :
  filter (keepBookmark E R2) (filter (keepBookmark E R1) v)
  = filter (keepBookmark E (R1 ++ R2)) v.
Proof.
  induction v as [|b v IH]; [reflexivity|].
  assert (Hk : keepBookmark E (R1 ++ R2) b
               = keepBookmark E R1 b && keepBookmark E R2 b).
  { unfold keepBookmark. rewrite existsb_app, negb_orb. reflexivity. }
  cbn [filter]. rewrite Hk.
  destruct (keepBookmark E R1 b); cbn [andb filter]; [|exact IH].
  destruct (keepBookmark E R2 b); rewrite IH; reflexivity.
Qed.

Lemma filter_keepBookmark_perm (E : Env) (R1 R2 : list Handle)
    (v : list Entry) :
  (forall a, In a R1 <-> In a R2) ->
  filter (keepBookmark E R1) v = filter (keepBookmark E R2) v.
Proof.
  intros Hsame. apply filter_ext. intros b. unfold keepBookmark. f_equal.
  apply eq_true_iff_eq. rewrite !existsb_exists.
  split; intros (a & Ha & Hb); exists a; (split; [apply Hsame; exact Ha|exact Hb]).
Qed.

Lemma filter_notAmong_nil (v : list Handle) : filter (notAmong []) v = v.
Proof.
  induction v as [|y v IH]; [reflexivity|].
  cbn [filter]. unfold notAmong at 1. cbn [existsb negb].
  rewrite IH. reflexivity.
Qed.

Lemma filter_notAmong_app (R1 R2 : list Handle) (v : list Handle) :
  filter (notAmong R2) (filter (notAmong R1) v) = filter (notAmong (R1 ++ R2)) v.
Proof.
  induction v as [|y v IH]; [reflexivity|].
  assert (Hk : notAmong (R1 ++ R2) y = notAmong R1 y && notAmong R2 y).
  { unfold notAmong. rewrite existsb_app, negb_orb. reflexivity. }
  cbn [filter]. rewrite Hk.
  destruct (notAmong R1 y); cbn [andb filter]; [|exact IH].
  destruct (notAmong R2 y); rewrite IH; reflexivity.
Qed.

Lemma filter_notAmong_perm (R1 R2 : list Handle) (v : list Handle) :
  (forall a, In a R1 <-> In a R2) ->
  filter (notAmong R1) v = filter (notAmong R2) v.
Proof.
  intros Hsame. apply filter_ext. intros y. unfold notAmong. f_equal.
  apply eq_true_iff_eq. rewrite !existsb_exists.
  split; intros (a & Ha & Hb); exists a; (split; [apply Hsame; exact Ha|exact Hb]).
Qed.

Lemma set_children_side (index : nat) (children : list Handle) (s : State) :
  bookmarks_ (set_children index children s) = bookmarks_ s /\
  resources (set_children index children s) = resources s.
Proof.
  unfold set_children. destruct (nth_error (open_archives_ s) index);
    split; reflexivity.
Qed.

Lemma set_children_heard (index : nat) (children : list Handle) (s : State) :
  muted_ (set_children index children s) = muted_ s /\
  announced (set_children index children s) = announced s.
Proof.
  unfold set_children. destruct (nth_error (open_archives_ s) index);
    split; reflexivity.
Qed.

Lemma detachFromParent_heard (E : Env) (x : Handle) (s : State) :
  muted_ (detachFromParent E x s) = muted_ s /\
  announced (detachFromParent E x s) = announced s.
Proof.
  unfold detachFromParent.
  destruct (parentEntry s x) as [parent|]; [|split; reflexivity].
  destruct (entryParent E parent) as [gp|]; [|split; reflexivity].
  destruct (0 <=? archiveIndex gp s)%Z; [|split; reflexivity].
  destruct (nth_error (open_archives_ s) (Z.to_nat (archiveIndex gp s)));
    [apply set_children_heard|split; reflexivity].
Qed.

(** ** How often closing announces *)

Lemma announcedCount_heard (name : string) (s s' : State) :
  announced s' = announced s -> announcedCount name s' = announcedCount name s.
Proof. intros H. unfold announcedCount. rewrite H. reflexivity. Qed.

Lemma announcedCount_announce_any (name n : string) (data : option Z)
    (s : State) :
  muted_ s = false ->
  announcedCount name (announce n data s)
  = announcedCount name s + (if String.eqb name n then 1 else 0).
Proof.
  intros Hm. unfold announcedCount.
  rewrite announce_announced by exact Hm.
  rewrite filter_app, length_app. cbn [filter fst].
  rewrite (String.eqb_sym n name).
  destruct (String.eqb name n); reflexivity.
Qed.

Lemma hasBookmark_filter (E : Env) (R : list Handle) (bm : list Entry)
    (d : Handle) :
  ~ In d R ->
  hasBookmark E (filter (keepBookmark E R) bm) d = hasBookmark E bm d.
Proof.
  intros Hd. unfold hasBookmark.
  induction bm as [|b bm IH]; [reflexivity|].
  cbn [filter existsb].
  destruct (keepBookmark E R b) eqn:Hk.
  - cbn [existsb]. rewrite IH. reflexivity.
  - rewrite IH.
    destruct (eqb_ptr (entryParent E b) (Some d)) eqn:Hb; [|reflexivity].
    exfalso. unfold keepBookmark in Hk. apply negb_false_iff in Hk.
    apply existsb_exists in Hk. destruct Hk as (a & Ha & Hba).
    destruct (entryParent E b) as [q|]; [|discriminate Hb].
    cbn [eqb_ptr] in Hb, Hba. apply Nat.eqb_eq in Hb, Hba.
    apply Hd. rewrite <- Hb, Hba. exact Ha.
Qed.

Lemma closingEvents_nil (E : Env) (bm : list Entry) (name : string) :
  closingEvents E bm [] name = 0.
Proof.
  unfold closingEvents.
  destruct (String.eqb name "archive_closing"); [reflexivity|].
  destruct (String.eqb name "archive_closed"); [reflexivity|].
  destruct (String.eqb name "bookmarks_changed"); reflexivity.
Qed.

Lemma closingEvents_app (E : Env) (bm : list Entry) (R1 R2 : list Handle)
    (name : string) :
  closingEvents E bm (R1 ++ R2) name
  = closingEvents E bm R1 name + closingEvents E bm R2 name.
Proof.
  unfold closingEvents. rewrite filter_app, !length_app.
  destruct (String.eqb name "archive_closing"); [reflexivity|].
  destruct (String.eqb name "archive_closed"); [reflexivity|].
  destruct (String.eqb name "bookmarks_changed"); reflexivity.
Qed.

Lemma closingEvents_ext (E : Env) (bm bm' : list Entry) (R : list Handle)
    (name : string) :
  (forall d, In d R -> hasBookmark E bm' d = hasBookmark E bm d) ->
  closingEvents E bm' R name = closingEvents E bm R name.
Proof.
  intros H. unfold closingEvents.
  rewrite (filter_ext_in (hasBookmark E bm') (hasBookmark E bm) R H).
  reflexivity.
Qed.

Lemma closingEvents_one (E : Env) (bm : list Entry) (x : Handle)
    (name : string) :
  closingEvents E bm [x] name
  = (if String.eqb name "archive_closing" then 1 else 0)
    + (if String.eqb name "bookmarks_changed" && hasBookmark E bm x
       then 1 else 0)
    + (if String.eqb name "archive_closed" then 1 else 0).
Proof.
  unfold closingEvents. cbn [filter List.length].
  destruct (String.eqb name "archive_closing") eqn:H1.
  - apply String.eqb_eq in H1. subst name. reflexivity.
  - destruct (String.eqb name "archive_closed") eqn:H2.
    + apply String.eqb_eq in H2. subst name. reflexivity.
    + destruct (String.eqb name "bookmarks_changed"); cbn [andb];
        [|reflexivity].
      destruct (hasBookmark E bm x); reflexivity.
Qed.

(** The first steps of [closeArchive], as far as they are heard. *)
Lemma closing_heard (E : Env) (x : Handle) (mc : option Z) (s : State) :
  muted_ (resources_removeArchive x
            (snd (deleteBookmarksInArchive E x
                    (announce "archive_closing" mc s))))
  = muted_ s /\
  (muted_ s = false ->
   forall name,
     announcedCount name
       (resources_removeArchive x
          (snd (deleteBookmarksInArchive E x
                  (announce "archive_closing" mc s))))
     = announcedCount name s
       + (if String.eqb name "archive_closing" then 1 else 0)
       + (if String.eqb name "bookmarks_changed"
             && hasBookmark E (bookmarks_ s) x
          then 1 else 0)).
Proof.
  unfold resources_removeArchive, deleteBookmarksInArchive.
  rewrite deleteBookmarksInArchive_loop_spec. cbn [orb].
  rewrite announce_bookmarks. fold (hasBookmark E (bookmarks_ s) x).
  destruct (hasBookmark E (bookmarks_ s) x); cbn [snd]; split.
  - state_simpl. reflexivity.
  - intros Hm name. rewrite andb_true_r.
    rewrite (announcedCount_heard name
               (announce "bookmarks_changed" None
                  (set_bookmarks
                     (filter
                        (fun b => negb (eqb_ptr (entryParent E b) (Some x)))
                        (bookmarks_ s))
                     (announce "archive_closing" mc s))))
      by reflexivity.
    rewrite announcedCount_announce_any
      by (cbn [muted_ set_bookmarks]; rewrite announce_muted; exact Hm).
    rewrite (announcedCount_heard name (announce "archive_closing" mc s))
      by reflexivity.
    rewrite announcedCount_announce_any by exact Hm. reflexivity.
  - state_simpl. reflexivity.
  - intros Hm name. rewrite andb_false_r, Nat.add_0_r.
    rewrite (announcedCount_heard name (announce "archive_closing" mc s))
      by reflexivity.
    apply announcedCount_announce_any. exact Hm.
Qed.

Lemma detachFromParent_side (E : Env) (x : Handle) (s : State) :
  bookmarks_ (detachFromParent E x s) = bookmarks_ s /\
  resources (detachFromParent E x s) = resources s.
Proof.
  unfold detachFromParent.
  destruct (parentEntry s x) as [parent|]; [|split; reflexivity].
  destruct (entryParent E parent) as [gp|]; [|split; reflexivity].
  destruct (0 <=? archiveIndex gp s)%Z; [|split; reflexivity].
  destruct (nth_error (open_archives_ s) (Z.to_nat (archiveIndex gp s)));
    [apply set_children_side|split; reflexivity].
Qed.

(** The first steps of [closeArchive]: the bookmarks in the archive go and
    the archive leaves the resource pool. *)
Lemma closing_side (E : Env) (x : Handle) (mc : option Z) (s : State) :
  bookmarks_ (resources_removeArchive x
                (snd (deleteBookmarksInArchive E x
                        (announce "archive_closing" mc s))))
  = filter (keepBookmark E [x]) (bookmarks_ s) /\
  resources (resources_removeArchive x
               (snd (deleteBookmarksInArchive E x
                       (announce "archive_closing" mc s))))
  = filter (notAmong [x]) (resources s).
Proof.
  unfold resources_removeArchive, deleteBookmarksInArchive.
  rewrite deleteBookmarksInArchive_loop_spec. cbn [orb].
  rewrite announce_bookmarks.
  assert (Hb : filter (fun b => negb (eqb_ptr (entryParent E b) (Some x)))
                 (bookmarks_ s)
               = filter (keepBookmark E [x]) (bookmarks_ s)).
  { apply filter_ext. intros b. unfold keepBookmark. cbn [existsb].
    rewrite orb_false_r. reflexivity. }
  assert (Hr : filter (fun y => negb (Nat.eqb y x)) (resources s)
               = filter (notAmong [x]) (resources s)).
  { apply filter_ext. intros y. unfold notAmong. cbn [existsb].
    rewrite orb_false_r. reflexivity. }
  destruct (existsb _ (bookmarks_ s)); cbn [snd]; state_simpl;
    rewrite Hb, Hr; split; reflexivity.
Qed.

(** ** The cascade *)

Lemma filter_keep_front (R : list Handle) (l1 l2 : list OpenArchive)
    (oa0 : OpenArchive) :
  (forall ob, In ob (l1 ++ [oa0]) -> ~ In (archive ob) R) ->
  filter (keep R) (l1 ++ oa0 :: l2) = l1 ++ oa0 :: filter (keep R) l2.
Proof.
  intros H. rewrite filter_app. cbn [filter].
  rewrite filter_keep_all.
  - rewrite (proj2 (keep_true R oa0)); [reflexivity|].
    apply H. apply in_or_app. right. left. reflexivity.
  - intros ob Hob. apply H. apply in_or_app. left. exact Hob.
Qed.

Section Cascade.

Context (E : Env).

Variable par : Handle -> option Handle.

Section Children.

Variable fuel' : nat.

(** What the recursive calls do, as the induction on the fuel gives it. *)
Hypothesis IHclose :
  forall (s : State) (l1 : list OpenArchive) (oa : OpenArchive)
         (l2 : list OpenArchive),
    open_archives_ s = l1 ++ oa :: l2 ->
    (forall y, parentArchive E s y = par y) ->
    wf par (l1 ++ oa :: l2) ->
    List.length l2 < fuel' ->
    exists s' L,
      closeArchive E fuel' (Z.of_nat (List.length l1)) s = Done (true, s') /\
      open_archives_ s'
      = map (detachFrom par (archive oa)) (l1 ++ filter (keep L) l2) /\
      destroyed s' = destroyed s ++ L ++ [archive oa] /\
      heap s' = heap s /\
      (forall d, In d L <-> descendant (l1 ++ oa :: l2) (archive oa) d) /\
      L ++ [archive oa] = closeOrder fuel' (l1 ++ oa :: l2) (archive oa) /\
      bookmarks_ s' = filter (keepBookmark E (L ++ [archive oa])) (bookmarks_ s) /\
      resources s' = filter (notAmong (L ++ [archive oa])) (resources s) /\
      NoDup (L ++ [archive oa]) /\
      muted_ s' = muted_ s /\
      (muted_ s = false ->
       forall name,
         announcedCount name s'
         = announcedCount name s
           + closingEvents E (bookmarks_ s) (L ++ [archive oa]) name).

(** The loop over the copied child list: [oa0] is the record of the
    archive being closed, its child list already emptied. *)
Lemma closeChildren_spec (l1 : list OpenArchive) (oa0 : OpenArchive)
    (cs : list Handle) :
  open_children oa0 = [] ->
  forall (s : State) (l2 : list OpenArchive),
    open_archives_ s = l1 ++ oa0 :: l2 ->
    (forall y, parentArchive E s y = par y) ->
    wf par (l1 ++ oa0 :: l2) ->
    List.length l2 <= fuel' ->
    NoDup cs ->
    (forall c, In c cs ->
               In c (map archive l2) /\ par c = Some (archive oa0)) ->
    exists s' L,
      forEach (fun child st =>
                 let ci := archiveIndex child st in
                 if (0 <=? ci)%Z
                 then do r <- closeArchive E fuel' ci st; Done (snd r)
                 else Done st) cs s = Done s' /\
      open_archives_ s' = l1 ++ oa0 :: filter (keep L) l2 /\
      destroyed s' = destroyed s ++ L /\
      heap s' = heap s /\
      (forall d, In d L <->
                 exists c, In c cs /\
                           (d = c \/ descendant (l1 ++ oa0 :: l2) c d)) /\
      L = flat_map (closeOrder fuel' (l1 ++ oa0 :: l2)) cs /\
      bookmarks_ s' = filter (keepBookmark E L) (bookmarks_ s) /\
      resources s' = filter (notAmong L) (resources s) /\
      NoDup L /\
      muted_ s' = muted_ s /\
      (muted_ s = false ->
       forall name,
         announcedCount name s'
         = announcedCount name s + closingEvents E (bookmarks_ s) L name).
Proof.
  intros Hempty.
  induction cs as [|c cs IHcs]; intros s l2 Hv Hp Hwf Hlen Hnd Hcs.
  - exists s, []. cbn [forEach]. split; [reflexivity|].
    split; [rewrite filter_keep_all by (intros ob _ []); exact Hv|].
    split; [rewrite app_nil_r; reflexivity|]. split; [reflexivity|].
    split; [intros d; split; [intros []|intros (c & [] & _)]|].
    split; [reflexivity|].
    rewrite filter_keepBookmark_nil, filter_notAmong_nil.
    split; [reflexivity|]. split; [reflexivity|].
    split; [constructor|]. split; [reflexivity|].
    intros _ name. rewrite closingEvents_nil. lia.
  - destruct (Hcs c (or_introl eq_refl)) as [Hc_in Hc_par].
    apply in_map_iff in Hc_in. destruct Hc_in as (oc & Hoc & Hin).
    apply in_split in Hin. destruct Hin as (m1 & m2 & Hl2). subst l2.
    set (v0 := l1 ++ oa0 :: m1 ++ oc :: m2) in *.
    assert (Hassoc : (l1 ++ oa0 :: m1) ++ oc :: m2 = v0)
      by (unfold v0; rewrite <- app_assoc; reflexivity).
    pose proof Hwf as (Hnodup & Hpar & Hcn & Hord).
    assert (Hv' : open_archives_ s = (l1 ++ oa0 :: m1) ++ oc :: m2)
      by (rewrite Hassoc; exact Hv).
    assert (Hwf' : wf par ((l1 ++ oa0 :: m1) ++ oc :: m2))
      by (rewrite Hassoc; exact Hwf).
    destruct (handles_split_notin _ _ _ (proj1 Hwf')) as (Hfront & Hback & Hdisj).
    rewrite Hoc in Hfront, Hback.
    assert (Hidx : archiveIndex c s
                   = Z.of_nat (List.length (l1 ++ oa0 :: m1))).
    { unfold archiveIndex. rewrite Hv'.
      apply (archiveIndex_from_split 0); [exact Hfront|exact Hoc]. }
    destruct (IHclose s (l1 ++ oa0 :: m1) oc m2 Hv' Hp Hwf')
      as (s1 & L1 & Hclose & Hreg1 & Hdes1 & Hheap1 & HL1 & Hord1
          & Hbm1 & Hres1 & HndR & Hmu1 & Hcnt1).
    { rewrite length_app in Hlen. cbn [List.length] in Hlen. lia. }
    rewrite Hoc in Hbm1, Hres1, HndR, Hcnt1.
    assert (HL1m2 : forall d, In d L1 -> In d (map archive m2)).
    { intros d Hd. apply HL1 in Hd.
      exact (descendant_later _ _ _ _ (proj1 Hwf')
               (proj2 (proj2 (proj2 Hwf'))) Hd). }
    rewrite Hassoc, Hoc in HL1, Hord1. rewrite Hoc in Hdes1, Hreg1.
    assert (Hoa0 : In oa0 v0)
      by (unfold v0; apply in_or_app; right; left; reflexivity).
    assert (Hun : forall c', In c' (c :: cs) ->
                  forall ob, In ob v0 -> ~ In c' (open_children ob)).
    { intros c' Hc' ob Hob.
      exact (unlisted_child par v0 oa0 ob c' Hwf Hoa0 Hempty
               (proj2 (Hcs c' Hc')) Hob). }
    set (R := L1 ++ [c]).
    assert (Hbm1' : bookmarks_ s1 = filter (keepBookmark E R) (bookmarks_ s))
      by exact Hbm1.
    assert (Hres1' : resources s1 = filter (notAmong R) (resources s))
      by exact Hres1.
    assert (HR : forall y, In y R -> y = c \/ descendant v0 c y).
    { intros y Hy. apply in_app_or in Hy. destruct Hy as [Hy|[Hy|[]]].
      - right. apply HL1. exact Hy.
      - left. symmetry. exact Hy. }
    assert (Hkeep_front : forall ob, In ob (l1 ++ oa0 :: m1) ->
                                     ~ In (archive ob) R).
    { intros ob Hob Hr. apply in_app_or in Hr. destruct Hr as [Hr|[Hr|[]]].
      - apply (Hdisj (archive ob)); [apply in_map; exact Hob|].
        apply HL1m2. exact Hr.
      - apply Hfront. rewrite Hr. apply in_map. exact Hob. }
    assert (Hm2 : filter (keep R) m2 = filter (keep L1) m2).
    { unfold R. rewrite filter_keep_app. apply filter_keep_all.
      intros ob Hob [Hr|[]]. apply filter_In in Hob. destruct Hob as [Hob _].
      apply Hback. rewrite Hr. apply in_map. exact Hob. }
    set (l2' := filter (keep R) (m1 ++ oc :: m2)).
    assert (Hl2' : l2' = m1 ++ filter (keep L1) m2).
    { unfold l2'. rewrite (filter_keep_split R m1 m2 oc L1).
      - rewrite Hm2. reflexivity.
      - unfold R. rewrite Hoc. reflexivity.
      - intros ob Hob. apply Hkeep_front. apply in_or_app. right. right.
        exact Hob. }
    assert (Hwhole : filter (keep R) v0 = l1 ++ oa0 :: l2').
    { unfold v0. apply filter_keep_front. intros ob Hob.
      apply Hkeep_front. apply in_app_or in Hob. apply in_or_app.
      destruct Hob as [Hob|[Hob|[]]]; [left; exact Hob|].
      right. left. exact Hob. }
    assert (Hreg1' : open_archives_ s1 = l1 ++ oa0 :: l2').
    { rewrite Hreg1, Hl2'. rewrite map_detachFrom_id.
      - rewrite <- app_assoc. reflexivity.
      - intros ob Hob Hpc.
        assert (Hob0 : In ob v0).
        { rewrite <- Hassoc. apply in_app_or in Hob. apply in_or_app.
          destruct Hob as [Hob|Hob]; [left; exact Hob|].
          apply filter_In in Hob. right. right. tauto. }
        assert (Heq : archive ob = archive oa0) by congruence.
        rewrite (handles_unique v0 ob oa0 Hnodup Hob0 Hoa0 Heq).
        exact Hempty. }
    assert (Hwf1 : wf par (l1 ++ oa0 :: l2')).
    { rewrite <- Hwhole. apply wf_filter; [|exact Hwf].
      intros ob e Hob Hk He Hr. apply keep_true in Hk.
      destruct (HR e Hr) as [Hec|Hec].
      - subst e. exact (Hun c (or_introl eq_refl) ob Hob He).
      - destruct (descendant_closed par v0 c e ob Hwf Hec Hob He) as [H|H].
        + apply Hk. unfold R. apply in_or_app. right. left.
          symmetry. exact H.
        + apply Hk. unfold R. apply in_or_app. left. apply HL1. exact H. }
    assert (Hp1 : forall y, parentArchive E s1 y = par y).
    { intros y. rewrite (parentArchive_ext E s s1 y Hheap1). apply Hp. }
    assert (Hlen1 : List.length l2' <= fuel').
    { unfold l2'. pose proof (filter_length_le (keep R) (m1 ++ oc :: m2)).
      lia. }
    assert (Hc_notin : ~ In c cs) by (inversion Hnd; assumption).
    assert (Hnd' : NoDup cs) by (inversion Hnd; assumption).
    assert (Hcs1 : forall c', In c' cs ->
                   In c' (map archive l2') /\ par c' = Some (archive oa0)).
    { intros c' Hc'. destruct (Hcs c' (or_intror Hc')) as [H1 H2].
      split; [|exact H2]. unfold l2'. apply filter_In_handles.
      split; [exact H1|]. intros Hr. destruct (HR c' Hr) as [H|H].
      - subst c'. exact (Hc_notin Hc').
      - exact (unlisted_not_descendant v0 c c'
                 (Hun c' (or_intror Hc')) H). }
    destruct (IHcs s1 l2' Hreg1' Hp1 Hwf1 Hlen1 Hnd' Hcs1)
      as (s' & L2 & Hloop & Hreg' & Hdes' & Hheap' & HL2 & Hord2
          & Hbm2 & Hres2 & HndL2 & Hmu2 & Hcnt2).
    assert (HL2R : forall d, In d L2 -> ~ In d R).
    { intros d Hd. apply HL2 in Hd. destruct Hd as (c' & Hc' & Hd).
      assert (Hin : In d (map archive (l1 ++ oa0 :: l2'))).
      { destruct Hd as [Hd|Hd].
        - subst d. rewrite map_app. apply in_or_app. right. right.
          exact (proj1 (Hcs1 c' Hc')).
        - exact (descendant_tracked _ _ _ (proj2 (proj2 (proj2 Hwf1))) Hd). }
      apply in_map_iff in Hin. destruct Hin as (ob & Hob & Hin).
      rewrite <- Hwhole in Hin. apply filter_In in Hin.
      destruct Hin as [_ Hk]. apply keep_true in Hk. rewrite Hob in Hk.
      exact Hk. }
    exists s', (R ++ L2).
    split.
    { cbn [forEach]. cbv zeta. rewrite Hidx.
      assert (Hpos : (0 <=? Z.of_nat (List.length (l1 ++ oa0 :: m1)))%Z = true)
        by (apply Z.leb_le; lia).
      rewrite Hpos, Hclose. cbn [bind snd]. exact Hloop. }
    split.
    { rewrite Hreg'. unfold l2'. rewrite <- filter_keep_app. reflexivity. }
    split.
    { rewrite Hdes', Hdes1. unfold R. rewrite <- !app_assoc. reflexivity. }
    split; [rewrite Hheap', Hheap1; reflexivity|].
    split.
    2:{ split.
        - cbn [flat_map]. unfold R. rewrite Hord1, Hord2. f_equal.
          apply flat_map_same. intros c' Hc'. apply closeOrder_ext.
          intros y Hy. rewrite <- Hwhole. apply find_record_filter.
          intros Hr.
          exact (subtrees_disjoint par v0 c c' y Hwf
                   (Hun c (or_introl eq_refl)) (Hun c' (or_intror Hc'))
                   (fun H => Hc_notin (eq_ind_r (fun z => In z cs) Hc' H))
                   Hy (HR y Hr)).
        - rewrite Hbm2, Hbm1', Hres2, Hres1'.
          rewrite filter_keepBookmark_app, filter_notAmong_app.
          split; [reflexivity|]. split; [reflexivity|].
          split.
          { apply NoDup_app; [exact HndR|exact HndL2|].
            intros d HdR HdL. exact (HL2R d HdL HdR). }
          split; [congruence|].
          intros Hm name.
          rewrite (Hcnt2 (eq_trans Hmu1 Hm) name), (Hcnt1 Hm name).
          rewrite (closingEvents_app E (bookmarks_ s) R L2 name), Hbm1'.
          rewrite (closingEvents_ext E (bookmarks_ s)
                     (filter (keepBookmark E R) (bookmarks_ s)) L2 name).
          + unfold R. lia.
          + intros d Hd. apply hasBookmark_filter. exact (HL2R d Hd). }
    intros d. split.
    + intros Hd. apply in_app_or in Hd. destruct Hd as [Hd|Hd].
      * exists c. split; [left; reflexivity|].
        destruct (HR d Hd) as [H|H]; [left; exact H|right; exact H].
      * apply HL2 in Hd. destruct Hd as (c' & Hc' & Hd).
        exists c'. split; [right; exact Hc'|].
        destruct Hd as [Hd|Hd]; [left; exact Hd|right].
        apply (descendant_mono (l1 ++ oa0 :: l2') v0); [|exact Hd].
        intros ob e Hob He. exists ob.
        split; [|split; [reflexivity|exact He]].
        rewrite <- Hwhole in Hob. apply filter_In in Hob. tauto.
    + intros (c' & [Hc'|Hc'] & Hd).
      * subst c'. apply in_or_app. left. unfold R. apply in_or_app.
        destruct Hd as [Hd|Hd].
        -- right. left. symmetry. exact Hd.
        -- left. apply HL1. exact Hd.
      * apply in_or_app. right. apply HL2. exists c'.
        split; [exact Hc'|].
        destruct Hd as [Hd|Hd]; [left; exact Hd|right].
        apply (descendant_survives par v0 (l1 ++ oa0 :: l2') R c c' d Hwf HR).
        -- intros ob Hob Hk. rewrite <- Hwhole. apply filter_In.
           split; [exact Hob|]. apply keep_true. exact Hk.
        -- exact (Hun c (or_introl eq_refl)).
        -- exact (Hun c' (or_intror Hc')).
        -- intros Heq. subst c'. exact (Hc_notin Hc').
        -- exact Hd.
Qed.

End Children.

Lemma closeArchive_spec (fuel : nat) :
  forall (s : State) (l1 : list OpenArchive) (oa : OpenArchive)
         (l2 : list OpenArchive),
    open_archives_ s = l1 ++ oa :: l2 ->
    (forall y, parentArchive E s y = par y) ->
    wf par (l1 ++ oa :: l2) ->
    List.length l2 < fuel ->
    exists s' L,
      closeArchive E fuel (Z.of_nat (List.length l1)) s = Done (true, s') /\
      open_archives_ s'
      = map (detachFrom par (archive oa)) (l1 ++ filter (keep L) l2) /\
      destroyed s' = destroyed s ++ L ++ [archive oa] /\
      heap s' = heap s /\
      (forall d, In d L <-> descendant (l1 ++ oa :: l2) (archive oa) d) /\
      L ++ [archive oa] = closeOrder fuel (l1 ++ oa :: l2) (archive oa) /\
      bookmarks_ s' = filter (keepBookmark E (L ++ [archive oa])) (bookmarks_ s) /\
      resources s' = filter (notAmong (L ++ [archive oa])) (resources s) /\
      NoDup (L ++ [archive oa]) /\
      muted_ s' = muted_ s /\
      (muted_ s = false ->
       forall name,
         announcedCount name s'
         = announcedCount name s
           + closingEvents E (bookmarks_ s) (L ++ [archive oa]) name).
Proof.
  induction fuel as [|fuel' IH]; intros s l1 oa l2 Hv Hp Hwf Hlen; [lia|].
  pose proof Hwf as (Hnodup & Hpar & Hcn & Hord).
  cbn [closeArchive].
  assert (Hrange : ((Z.of_nat (List.length l1) <? 0)%Z
                    || (Z.of_nat (List.length (open_archives_ s))
                        <=? Z.of_nat (List.length l1))%Z) = false).
  { apply orb_false_iff. split; [apply Z.ltb_ge; lia|].
    apply Z.leb_gt. rewrite Hv, length_app. cbn [List.length]. lia. }
  rewrite Hrange, Nat2Z.id.
  rewrite announce_open_archives, Hv, nth_error_middle.
  set (x := archive oa).
  set (oa0 := mkOpen x (resource oa) []).
  set (mc := Some (to_int32 (Z.of_nat (List.length l1)))).
  set (sB := resources_removeArchive x
               (snd (deleteBookmarksInArchive E x
                       (announce "archive_closing" mc s)))).
  assert (HB : open_archives_ sB = l1 ++ oa :: l2 /\
               heap sB = heap s /\ destroyed sB = destroyed s).
  { unfold sB, resources_removeArchive. state_simpl.
    destruct (deleteBookmarksInArchive_frame E x
                (announce "archive_closing" mc s)) as (H1 & H2 & H3).
    rewrite H1, H2, H3. state_simpl. auto. }
  destruct HB as (HvB & HhB & HdB).
  destruct (closing_side E x mc s) as [HbB HrB]. fold sB in HbB, HrB.
  destruct (closing_heard E x mc s) as [HmB HcB]. fold sB in HmB, HcB.
  destruct (set_children_side (List.length l1) [] sB) as [HbP HrP].
  destruct (set_children_heard (List.length l1) [] sB) as [HmP HaP].
  destruct (set_children_middle l1 l2 oa [] sB HvB) as (HvP & HhP & HdP).
  fold x in HvP. fold oa0 in HvP.
  set (sP := set_children (List.length l1) [] sB) in *.
  assert (Hoa : In oa (l1 ++ oa :: l2))
    by (apply in_or_app; right; left; reflexivity).
  assert (Hwf0 : wf par (l1 ++ oa0 :: l2)) by exact (wf_cleared par _ _ _ Hwf).
  assert (HpP : forall y, parentArchive E sP y = par y).
  { intros y. rewrite (parentArchive_ext E s sP y); [apply Hp|].
    rewrite HhP. exact HhB. }
  assert (Hcs : forall c, In c (open_children oa) ->
                In c (map archive l2) /\ par c = Some (archive oa0)).
  { intros c Hc. split.
    - exact (ordered_split _ _ _ _ Hord Hc).
    - exact (Hpar oa c Hoa Hc). }
  destruct (closeChildren_spec fuel' IH l1 oa0 (open_children oa) eq_refl
              sP l2 HvP HpP Hwf0 ltac:(lia) (Hcn oa Hoa) Hcs)
    as (sK & L & Hloop & HvK & HdK & HhK & HL & HLord & HbK & HrK
        & HndL & HmK & HcK).
  cbv zeta in Hloop. rewrite Hloop. cbn [bind].
  assert (HLdesc : forall d, In d L <->
                             descendant (l1 ++ oa :: l2) x d).
  { intros d.
    exact (iff_trans (HL d)
             (iff_sym (descendant_cleared par l1 l2 oa d Hwf))). }
  assert (HLback : forall d, In d L -> In d (map archive l2)).
  { intros d Hd. apply HLdesc in Hd.
    exact (descendant_later _ _ _ _ Hnodup Hord Hd). }
  destruct (handles_split_notin _ _ _ (proj1 Hwf0)) as (Hx1 & Hx2 & Hdisj).
  assert (HndK : NoDup (map archive (open_archives_ sK))).
  { rewrite HvK. rewrite <- filter_keep_front.
    - apply NoDup_map_filter. exact (proj1 Hwf0).
    - intros ob Hob Hin. apply HLback in Hin. apply in_app_or in Hob.
      destruct Hob as [Hob|[Hob|[]]].
      + exact (Hdisj _ (in_map archive _ _ Hob) Hin).
      + subst ob. exact (Hx2 Hin). }
  rewrite HvK, nth_error_middle.
  destruct (detachFromParent_spec E (archive oa0) sK HndK)
    as (HvD & HhD & HdD).
  destruct (detachFromParent_side E (archive oa0) sK) as [HbD HrD].
  destruct (detachFromParent_heard E (archive oa0) sK) as [HmD HaD].
  assert (HpK : parentArchive E sK (archive oa0) = par (archive oa0)).
  { rewrite (parentArchive_ext E sP sK _ HhK). apply HpP. }
  rewrite (map_detachFrom_ext _ par _ _ HpK) in HvD.
  rewrite HvK in HvD. cbn [archive oa0] in HvD, HhD, HdD |- *.
  cbn [archive oa0] in HbD, HrD, HmD, HaD.
  rewrite HvD, nth_error_map, nth_error_middle. cbn [option_map].
  assert (HxL : ~ In x L).
  { intros Hin. apply HLdesc in Hin.
    exact (descendant_irrefl _ _ Hnodup Hord Hin). }
  match goal with
  | |- exists _ _, Done (true, ?F) = _ /\ _ =>
      assert (Hheard :
                NoDup (L ++ [x]) /\
                muted_ F = muted_ s /\
                (muted_ s = false ->
                 forall name,
                   announcedCount name F
                   = announcedCount name s
                     + closingEvents E (bookmarks_ s) (L ++ [x]) name))
  end.
  { split.
    - apply NoDup_app; [exact HndL|repeat constructor; intros []|].
      intros d Hd [Hdx|[]]. subst d. exact (HxL Hd).
    - assert (HmAll : muted_ (detachFromParent E x sK) = muted_ s).
      { rewrite HmD, HmK. fold sP. rewrite HmP. exact HmB. }
      split; [rewrite announce_muted; exact HmAll|].
      intros Hm name.
      rewrite announcedCount_announce_any by (cbn [muted_ set_open_archives
        delete_archive set_destroyed]; rewrite HmAll; exact Hm).
      rewrite (announcedCount_heard name (detachFromParent E x sK))
        by reflexivity.
      rewrite (announcedCount_heard name sK) by exact HaD.
      rewrite HcK by (fold sP; rewrite HmP, HmB; exact Hm).
      fold sP. rewrite (announcedCount_heard name sB) by exact HaP.
      rewrite (HcB Hm name), HbP, HbB.
      rewrite closingEvents_app, closingEvents_one.
      rewrite (closingEvents_ext E (bookmarks_ s)
                 (filter (keepBookmark E [x]) (bookmarks_ s)) L name).
      + lia.
      + intros d Hd. apply hasBookmark_filter.
        intros [Hdx|[]]. subst d. exact (HxL Hd). }
  eexists. exists L. split; [reflexivity|].
  match goal with
  | |- ?A1 /\ ?A2 /\ ?A3 /\ ?A4 /\ ?A5 /\ ?A6 /\ ?A7 /\ _ =>
      assert (Hold : A1 /\ A2 /\ A3 /\ A4 /\ A5 /\ A6 /\ A7);
        [|destruct Hold as (H1 & H2 & H3 & H4 & H5 & H6 & H7);
          repeat (split; [assumption|]); exact Hheard]
  end.
  unfold delete_archive. state_simpl.
  rewrite HvD, HhD, HdD, HhK, HdK, HhP, HdP, HhB, HdB.
  rewrite detachFrom_archive. cbn [archive oa0].
  split.
  { rewrite !map_app. cbn [map].
    rewrite <- (length_map (detachFrom par x) l1) at 1.
    rewrite eraseAt_split. reflexivity. }
  split; [rewrite <- app_assoc; reflexivity|].
  split; [reflexivity|]. split; [exact HLdesc|].
  split.
  { cbn [closeOrder].
    rewrite (find_record_middle x l1 l2 oa
               (proj1 (handles_split_notin _ _ _ Hnodup)) eq_refl).
    f_equal. rewrite HLord. apply flat_map_same. intros c Hc.
    apply closeOrder_ext. intros y Hy.
    assert (Hxy : descendant (l1 ++ oa :: l2) (archive oa) y).
    { assert (Hxc : descendant (l1 ++ oa :: l2) (archive oa) c)
        by exact (desc_child _ _ oa c Hoa eq_refl Hc).
      destruct Hy as [Hy|Hy]; [rewrite Hy; exact Hxc|].
      exact (descendant_trans _ _ _ _ Hxc Hy). }
    assert (Hne : archive oa <> y).
    { intros Heq. rewrite <- Heq in Hxy.
      exact (descendant_irrefl _ _ Hnodup Hord Hxy). }
    apply find_record_replace; [exact Hne|exact Hne]. }
  assert (Hsame : forall a, In a ([x] ++ L) <-> In a (L ++ [x])).
  { intros a. rewrite !in_app_iff. tauto. }
  rewrite HbD, HrD, HbK, HrK. fold sP. rewrite HbP, HrP, HbB, HrB.
  rewrite filter_keepBookmark_app, filter_notAmong_app.
  split.
  - exact (filter_keepBookmark_perm E _ _ _ Hsame).
  - exact (filter_notAmong_perm _ _ _ Hsame).
Qed.

End Cascade.

(** ** Closing a tracked archive closes its subtree *)

Lemma wf_ext (par par' : Handle -> option Handle) (v : list OpenArchive) :
  (forall y, par y = par' y) -> wf par v -> wf par' v.
Proof.
  intros H (H1 & H2 & H3 & H4). split; [exact H1|]. split; [|tauto].
  intros oa c Hin Hc. rewrite <- H. exact (H2 oa c Hin Hc).
Qed.

Lemma nodupb_sound (l : list nat) : nodupb l = true -> NoDup l.
Proof.
  induction l as [|x l IH]; cbn [nodupb]; intros H; [constructor|].
  apply andb_true_iff in H. destruct H as [Hx Hl].
  constructor; [|exact (IH Hl)].
  intros Hin. apply negb_true_iff in Hx.
  assert (Hex : existsb (Nat.eqb x) l = true).
  { apply existsb_exists. exists x. split; [exact Hin|apply Nat.eqb_refl]. }
  congruence.
Qed.

Lemma orderedb_sound (v : list OpenArchive) : orderedb v = true -> ordered v.
Proof.
  induction v as [|oa v IH]; cbn [orderedb ordered]; intros H; [exact I|].
  apply andb_true_iff in H. destruct H as [Hc Hv].
  split; [|exact (IH Hv)].
  intros c Hin. rewrite forallb_forall in Hc. specialize (Hc c Hin).
  apply existsb_exists in Hc. destruct Hc as (y & Hy & Heq).
  apply Nat.eqb_eq in Heq. subst y. exact Hy.
Qed.

Lemma wellFormedb_sound (E : Env) (s : State) :
  wellFormedb E s = true -> wellFormed E s.
Proof.
  unfold wellFormedb, wellFormed, wf. intros H.
  apply andb_true_iff in H. destruct H as [H H4].
  apply andb_true_iff in H. destruct H as [H H3].
  apply andb_true_iff in H. destruct H as [H1 H2].
  split; [exact (nodupb_sound _ H1)|].
  split; [|split; [|exact (orderedb_sound _ H4)]].
  - intros oa c Hin Hc. rewrite forallb_forall in H2.
    specialize (H2 oa Hin). rewrite forallb_forall in H2.
    apply eqb_ptr_true. exact (H2 c Hc).
  - intros oa Hin. rewrite forallb_forall in H3.
    exact (nodupb_sound _ (H3 oa Hin)).
Qed.

Section CascadeTheorem.

Context (E : Env).

(** In a well-formed registry no record that stays lists a closed handle
    once the closed archive has been detached from its parent. *)
Lemma closed_unlisted (par : Handle -> option Handle)
    (l1 l2 : list OpenArchive) (oa ob : OpenArchive) (L : list Handle)
    (c : Handle) :
  wf par (l1 ++ oa :: l2) ->
  (forall d, In d L <-> descendant (l1 ++ oa :: l2) (archive oa) d) ->
  In ob (l1 ++ oa :: l2) ->
  keep (L ++ [archive oa]) ob = true ->
  In c (open_children (detachFrom par (archive oa) ob)) ->
  ~ In c (L ++ [archive oa]).
Proof.
  intros Hwf HL Hob Hk Hc Hin. apply keep_true in Hk.
  apply in_app_or in Hin. destruct Hin as [Hin|[Hin|[]]].
  - apply HL in Hin.
    pose proof (detachFrom_children par _ _ _ Hc) as Hc'.
    destruct (descendant_closed par _ _ _ ob Hwf Hin Hob Hc') as [H|H].
    + apply Hk. apply in_or_app. right. left. symmetry. exact H.
    + apply Hk. apply in_or_app. left. apply HL. exact H.
  - subst c. exact (detachFrom_unlisted par _ _ ob Hwf Hob Hc).
Qed.

(** What closing the tracked archive at [index] does, in full. *)
Lemma closeArchive_subtree (s : State) (fuel index : nat)
    (oa : OpenArchive) :
  wellFormed E s ->
  List.length (open_archives_ s) <= fuel ->
  nth_error (open_archives_ s) index = Some oa ->
  exists s' L,
    closeArchive E fuel (Z.of_nat index) s = Done (true, s') /\
    destroyed s' = destroyed s ++ L ++ [archive oa] /\
    L ++ [archive oa] = closeOrder fuel (open_archives_ s) (archive oa) /\
    (forall d, In d L <-> descendant (open_archives_ s) (archive oa) d) /\
    (forall y, tracked s' y <->
               tracked s y /\ y <> archive oa /\ ~ In y L) /\
    (forall ob c, In ob (open_archives_ s') -> In c (open_children ob) ->
                  c <> archive oa /\ ~ In c L) /\
    heap s' = heap s /\
    wellFormed E s'.
Proof.
  intros Hwf Hfuel Hnth.
  destruct (nth_error_split _ _ Hnth) as (l1 & l2 & Hv & Hl1).
  set (par := parentArchive E s).
  unfold wellFormed in Hwf. fold par in Hwf. rewrite Hv in Hwf.
  assert (Hlen : List.length l2 < fuel).
  { rewrite Hv, length_app in Hfuel. cbn [List.length] in Hfuel. lia. }
  destruct (closeArchive_spec E par fuel s l1 oa l2 Hv
              (fun y => eq_refl) Hwf Hlen)
    as (s' & L & Hclose & Hreg & Hdes & Hheap & HL & HLord & _).
  pose proof Hwf as (Hnodup & Hpar & Hcn & Hord).
  destruct (handles_split_notin _ _ _ Hnodup) as (Hx1 & Hx2 & Hdisj).
  assert (HLback : forall d, In d L -> In d (map archive l2)).
  { intros d Hd. apply HL in Hd.
    exact (descendant_later _ _ _ _ Hnodup Hord Hd). }
  set (R := L ++ [archive oa]).
  assert (Hfront : forall ob, In ob l1 -> ~ In (archive ob) R).
  { intros ob Hob Hr. apply in_app_or in Hr. destruct Hr as [Hr|[Hr|[]]].
    - exact (Hdisj _ (in_map archive _ _ Hob) (HLback _ Hr)).
    - apply Hx1. rewrite Hr. apply in_map. exact Hob. }
  assert (Hback : filter (keep R) l2 = filter (keep L) l2).
  { unfold R. rewrite filter_keep_app. apply filter_keep_all.
    intros ob Hob [Hr|[]]. apply filter_In in Hob. destruct Hob as [Hob _].
    apply Hx2. rewrite Hr. apply in_map. exact Hob. }
  assert (Hwhole : filter (keep R) (l1 ++ oa :: l2)
                   = l1 ++ filter (keep L) l2).
  { rewrite (filter_keep_split R l1 l2 oa L eq_refl Hfront), Hback.
    reflexivity. }
  rewrite <- Hwhole in Hreg.
  assert (Hunlisted : forall ob c,
             In ob (l1 ++ oa :: l2) -> keep R ob = true ->
             In c (open_children (detachFrom par (archive oa) ob)) ->
             ~ In c R).
  { intros ob c Hob Hk Hc.
    exact (closed_unlisted par l1 l2 oa ob L c Hwf HL Hob Hk Hc). }
  exists s', L. rewrite <- Hl1. split; [exact Hclose|].
  split; [exact Hdes|]. split; [rewrite Hv; exact HLord|].
  split; [rewrite Hv; exact HL|].
  split; [|split; [|split; [exact Hheap|]]].
  - intros y. unfold tracked. rewrite Hreg, Hv, map_map.
    rewrite (map_ext _ archive (detachFrom_archive par (archive oa))).
    rewrite filter_In_handles. unfold R. rewrite in_app_iff.
    cbn [In]. split.
    + intros [H1 H2]. split; [exact H1|]. split.
      * intros Hy. apply H2. right. left. symmetry. exact Hy.
      * intros Hy. apply H2. left. exact Hy.
    + intros (H1 & H2 & H3). split; [exact H1|].
      intros [H|[H|[]]]; [exact (H3 H)|exact (H2 (eq_sym H))].
  - intros ob' c Hob' Hc. rewrite Hreg in Hob'.
    apply in_map_iff in Hob'. destruct Hob' as (ob & Heq & Hob).
    apply filter_In in Hob. destruct Hob as [Hob Hk]. subst ob'.
    pose proof (Hunlisted ob c Hob Hk Hc) as Hn. unfold R in Hn.
    split.
    + intros Hcx. apply Hn. apply in_or_app. right. left.
      symmetry. exact Hcx.
    + intros HcL. apply Hn. apply in_or_app. left. exact HcL.
  - unfold wellFormed. rewrite Hreg.
    apply (wf_ext par).
    + intros y. symmetry. apply parentArchive_ext. exact Hheap.
    + apply wf_filter_map.
      * apply detachFrom_archive.
      * intros ob c. apply detachFrom_children.
      * intros ob Hnd. unfold detachFrom.
        destruct (eqb_ptr _ _); cbn [open_children]; [|exact Hnd].
        exact (proj1 (eraseFirst_NoDup _ _ Hnd)).
      * exact Hunlisted.
      * exact Hwf.
Qed.

End CascadeTheorem.

(** The cascade on the example: closing [maps.pk3] closes archive 2, then
    archive 1, then [maps.pk3] itself, and leaves [other.wad]. *)
Example closeArchive_nested :
  exists s',
    closeArchive nestedEnv 4 0%Z nestedState = Done (true, s') /\
    destroyed s' = [2; 1; 0] /\
    open_archives_ s' = [mkOpen 3 true []].
Proof.
  eexists. split; [vm_compute; reflexivity|]. split; reflexivity.
Qed.

(** ** The registry invariant is established by the opens *)

Lemma forEach_preserves {A S : Type} (P : S -> Prop)
    (body : A -> S -> outcome S) (v : list A) :
  (forall a s s', body a s = Done s' -> P s -> P s') ->
  forall s s', forEach body v s = Done s' -> P s -> P s'.
Proof.
  intros Hbody. induction v as [|a v IH]; intros s s' Hrun Hs;
    cbn [forEach] in Hrun.
  - inversion Hrun; subst. exact Hs.
  - destruct (body a s) as [s1| |] eqn:Ha; cbn [bind] in Hrun;
      try discriminate Hrun.
    exact (IH s1 s' Hrun (Hbody a s s1 Ha Hs)).
Qed.

Lemma ordered_snoc (v : list OpenArchive) (new : OpenArchive) :
  open_children new = [] -> ordered v -> ordered (v ++ [new]).
Proof.
  intros Hnew. induction v as [|o v IH]; cbn [app ordered].
  - intros _. split; [|exact I]. rewrite Hnew. intros c [].
  - intros [Ho Hv]. split; [|exact (IH Hv)].
    intros c Hc. rewrite map_app. apply in_or_app. left. exact (Ho c Hc).
Qed.

(** Registering the new archive [a]: its record goes to the end of the
    registry. *)
Lemma wf_snoc (par : Handle -> option Handle) (v : list OpenArchive)
    (a : Handle) :
  wf par v -> ~ In a (map archive v) -> wf par (v ++ [mkOpen a true []]).
Proof.
  intros (Hnd & Hpar & Hcn & Hord) Ha.
  split; [|split; [|split]].
  - rewrite map_app. cbn [map archive].
    apply NoDup_app; [exact Hnd|repeat constructor; intros []|].
    intros x Hx [Hxa|[]]. subst x. exact (Ha Hx).
  - intros oa c Hin Hc. apply in_app_or in Hin.
    destruct Hin as [Hin|[Hin|[]]]; [exact (Hpar oa c Hin Hc)|].
    subst oa. destruct Hc.
  - intros oa Hin. apply in_app_or in Hin.
    destruct Hin as [Hin|[Hin|[]]]; [exact (Hcn oa Hin)|].
    subst oa. constructor.
  - apply ordered_snoc; [reflexivity|exact Hord].
Qed.

Lemma ordered_push (l1 l2 : list OpenArchive) (op : OpenArchive)
    (a : Handle) :
  ordered (l1 ++ op :: l2) ->
  ordered ((l1 ++ mkOpen (archive op) (resource op) (open_children op ++ [a])
                  :: l2) ++ [mkOpen a true []]).
Proof.
  induction l1 as [|o l1 IH]; cbn [app ordered].
  - intros [Ho Hl2]. split.
    + cbn [open_children]. intros c Hc. rewrite map_app.
      apply in_or_app. apply in_app_or in Hc.
      destruct Hc as [Hc|[Hc|[]]].
      * left. exact (Ho c Hc).
      * right. left. exact Hc.
    + apply ordered_snoc; [reflexivity|exact Hl2].
  - intros [Ho Hrest]. split; [|exact (IH Hrest)].
    intros c Hc. specialize (Ho c Hc).
    rewrite !map_app in *. cbn [map archive] in *.
    apply in_or_app. left. exact Ho.
Qed.

(** Registering the new archive [a] as a child of the tracked archive it
    was opened from. *)
Lemma wf_push (par : Handle -> option Handle) (l1 l2 : list OpenArchive)
    (op : OpenArchive) (a : Handle) :
  wf par (l1 ++ op :: l2) ->
  ~ In a (map archive (l1 ++ op :: l2)) ->
  par a = Some (archive op) ->
  wf par ((l1 ++ mkOpen (archive op) (resource op) (open_children op ++ [a])
                 :: l2) ++ [mkOpen a true []]).
Proof.
  intros Hwf Ha Hpa. pose proof Hwf as (Hnd & Hpar & Hcn & Hord).
  assert (Hop : In op (l1 ++ op :: l2))
    by (apply in_or_app; right; left; reflexivity).
  split; [|split; [|split]].
  - rewrite !map_app in *. cbn [map archive] in *.
    apply NoDup_app; [exact Hnd|repeat constructor; intros []|].
    intros x Hx [Hxa|[]]. subst x. exact (Ha Hx).
  - intros oa c Hin Hc. apply in_app_or in Hin.
    destruct Hin as [Hin|[Hin|[]]]; [|subst oa; destruct Hc].
    apply in_app_or in Hin. destruct Hin as [Hin|[Hin|Hin]].
    + apply Hpar; [apply in_or_app; left; exact Hin|exact Hc].
    + subst oa. cbn [open_children archive] in *. apply in_app_or in Hc.
      destruct Hc as [Hc|[Hc|[]]]; [exact (Hpar op c Hop Hc)|].
      subst c. exact Hpa.
    + apply Hpar; [apply in_or_app; right; right; exact Hin|exact Hc].
  - intros oa Hin. apply in_app_or in Hin.
    destruct Hin as [Hin|[Hin|[]]]; [|subst oa; constructor].
    apply in_app_or in Hin. destruct Hin as [Hin|[Hin|Hin]].
    + apply Hcn. apply in_or_app. left. exact Hin.
    + subst oa. cbn [open_children].
      apply NoDup_app; [exact (Hcn op Hop)|repeat constructor; intros []|].
      intros x Hx [Hxa|[]]. subst x. apply Ha.
      exact (ordered_in _ _ _ Hord Hop Hx).
    + apply Hcn. apply in_or_app. right. right. exact Hin.
  - apply ordered_push. exact Hord.
Qed.

(** The invariant only looks at the parents of tracked archives. *)
Lemma wf_ext_tracked (par par' : Handle -> option Handle)
    (v : list OpenArchive) :
  (forall c, In c (map archive v) -> par' c = par c) ->
  wf par v -> wf par' v.
Proof.
  intros H (H1 & H2 & H3 & H4). split; [exact H1|]. split; [|tauto].
  intros oa c Hin Hc. rewrite H; [exact (H2 oa c Hin Hc)|].
  exact (ordered_in _ _ _ H4 Hin Hc).
Qed.

Section OpenInvariant.

Context (E : Env).

Lemma registryInv_initial : registryInv E initial.
Proof.
  split.
  - unfold wellFormed, wf. cbn [initial open_archives_ map ordered].
    split; [constructor|]. split; [intros oa c []|].
    split; [intros oa []|exact I].
  - intros x [].
Qed.

(** The invariant depends on the registry and on the archive objects of
    the tracked handles only. *)
Lemma registryInv_frame (s s' : State) :
  open_archives_ s' = open_archives_ s ->
  (forall x, x < List.length (heap s) ->
             nth_error (heap s') x = nth_error (heap s) x) ->
  List.length (heap s) <= List.length (heap s') ->
  registryInv E s -> registryInv E s'.
Proof.
  intros Hreg Hheap Hlen [Hwf Halloc]. split.
  - unfold wellFormed in *. rewrite Hreg.
    apply (wf_ext_tracked (parentArchive E s)); [|exact Hwf].
    intros c Hc. unfold parentArchive, parentEntry.
    rewrite (Hheap c (Halloc c Hc)). reflexivity.
  - intros x Hx. unfold tracked in Hx. rewrite Hreg in Hx.
    specialize (Halloc x Hx). lia.
Qed.

Lemma registryInv_same (s s' : State) :
  open_archives_ s' = open_archives_ s -> heap s' = heap s ->
  registryInv E s -> registryInv E s'.
Proof.
  intros Hreg Hheap. apply registryInv_frame; [exact Hreg| |].
  - intros x _. rewrite Hheap. reflexivity.
  - rewrite Hheap. apply le_n.
Qed.

Lemma alloc_old {A : Type} (h : list A) (o o' : A) (x : nat) :
  x < List.length h ->
  nth_error (setAt (List.length h) o' (h ++ [o])) x = nth_error h x.
Proof. intros Hx. apply nth_error_alloc_other. lia. Qed.

Lemma alloc_length {A : Type} (h : list A) (o o' : A) :
  List.length (setAt (List.length h) o' (h ++ [o])) = S (List.length h).
Proof. rewrite setAt_length, length_app. cbn [List.length]. lia. Qed.

(** Creating an archive object without registering it. *)
Lemma registryInv_alloc (s s' : State) (o o' : ArchiveObj) :
  open_archives_ s' = open_archives_ s ->
  heap s' = setAt (List.length (heap s)) o' (heap s ++ [o]) ->
  registryInv E s -> registryInv E s'.
Proof.
  intros Hreg Hheap. apply registryInv_frame; [exact Hreg| |].
  - intros x Hx. rewrite Hheap. apply alloc_old. exact Hx.
  - rewrite Hheap, alloc_length. lia.
Qed.

(** Registering a new archive object, as a child of [p] when [p] is
    tracked. *)
Lemma registryInv_register (s s' : State) (o o' : ArchiveObj)
    (p : option Handle) :
  registryInv E s ->
  heap s' = setAt (List.length (heap s)) o' (heap s ++ [o]) ->
  match parent_ o' with
  | Some e => entryParent E e
  | None => None
  end = p ->
  open_archives_ s'
  = (let index_parent := match p with
                         | Some x => archiveIndex x s
                         | None => (-1)%Z
                         end in
     if (0 <=? index_parent)%Z then
       match nth_error (open_archives_ s) (Z.to_nat index_parent) with
       | Some oa =>
           setAt (Z.to_nat index_parent)
             (mkOpen (archive oa) (resource oa)
                (open_children oa ++ [List.length (heap s)]))
             (open_archives_ s)
       | None => open_archives_ s
       end
     else open_archives_ s)
    ++ [mkOpen (List.length (heap s)) true []] ->
  registryInv E s'.
Proof.
  intros [Hwf Halloc] Hheap Hp Hreg.
  set (a := List.length (heap s)) in *.
  assert (Hfresh : ~ In a (map archive (open_archives_ s))).
  { intros Hin. specialize (Halloc a Hin). unfold a in Halloc. lia. }
  assert (Hpar_a : parentArchive E s' a = p).
  { unfold parentArchive, parentEntry. rewrite Hheap. unfold a.
    rewrite nth_error_alloc_new. exact Hp. }
  assert (Hwf' : wf (parentArchive E s') (open_archives_ s)).
  { apply (wf_ext_tracked (parentArchive E s)); [|exact Hwf].
    intros c Hc. unfold parentArchive, parentEntry. rewrite Hheap.
    unfold a. rewrite (alloc_old _ _ _ c (Halloc c Hc)). reflexivity. }
  assert (Hplain : open_archives_ s' = open_archives_ s ++ [mkOpen a true []] ->
                   registryInv E s').
  { intros Hr. split.
    - unfold wellFormed. rewrite Hr. apply wf_snoc; assumption.
    - intros x Hx. unfold tracked in Hx. rewrite Hr, map_app in Hx.
      rewrite Hheap. unfold a. rewrite alloc_length.
      apply in_app_or in Hx. destruct Hx as [Hx|[Hx|[]]].
      + specialize (Halloc x Hx). lia.
      + cbn [archive] in Hx. unfold a in Hx. lia. }
  destruct p as [x|]; [|apply Hplain; exact Hreg].
  unfold archiveIndex in Hreg. cbv zeta in Hreg.
  destruct (in_dec Nat.eq_dec x (map archive (open_archives_ s)))
    as [Hin|Hnotin].
  - apply in_map_iff in Hin. destruct Hin as (op & Hop & Hin).
    apply in_split in Hin. destruct Hin as (l1 & l2 & Hv).
    rewrite Hv in Hreg, Hwf', Hfresh.
    destruct (handles_split_notin _ _ _ (proj1 Hwf')) as (H1 & _ & _).
    rewrite Hop in H1.
    rewrite (archiveIndex_from_split 0 x l1 l2 op H1 Hop) in Hreg.
    cbn [Nat.add] in Hreg.
    assert (Hpos : (0 <=? Z.of_nat (List.length l1))%Z = true)
      by (apply Z.leb_le; lia).
    rewrite Hpos, Nat2Z.id, nth_error_middle, setAt_middle in Hreg.
    split.
    + unfold wellFormed. rewrite Hreg. apply wf_push; try assumption.
      rewrite Hpar_a, Hop. reflexivity.
    + intros y Hy. unfold tracked in Hy. rewrite Hreg in Hy.
      rewrite Hheap. fold a. unfold a at 1. rewrite alloc_length.
      rewrite !map_app in Hy. cbn [map archive] in Hy.
      assert (Hy' : In y (map archive (open_archives_ s)) \/ y = a).
      { rewrite Hv, map_app. cbn [map].
        apply in_app_or in Hy. destruct Hy as [Hy|[Hy|[]]]; [|right; auto].
        left. exact Hy. }
      destruct Hy' as [Hy'|Hy']; [specialize (Halloc y Hy'); lia|].
      subst y. unfold a. lia.
  - rewrite (archiveIndex_from_notin 0 x _ Hnotin) in Hreg.
    cbn [Z.leb Z.compare] in Hreg. apply Hplain. exact Hreg.
Qed.

End OpenInvariant.

Section OpenInvariantSteps.

Context (E : Env).

Lemma addArchive_with_inv
    (openEntry : Entry -> State -> outcome (option Handle * State))
    (a : Handle) (s : State) (r : bool) (s' : State) :
  (forall e st res st',
      openEntry e st = Done (res, st') ->
      registryInv E st -> registryInv E st') ->
  addArchive_with E openEntry (Some a) s = Done (r, s') ->
  registryInv E
    (set_open_archives (open_archives_ s ++ [mkOpen a true []]) s) ->
  registryInv E s'.
Proof.
  intros Hopen Hadd Hinv. unfold addArchive_with in Hadd.
  match type of Hadd with
  | context [resources_addArchive a ?st] =>
      set (sR := resources_addArchive a st) in *
  end.
  assert (HR : registryInv E sR).
  { revert Hinv. apply registryInv_same;
      unfold sR, resources_addArchive; state_simpl; reflexivity. }
  clearbody sR.
  match type of Hadd with
  | (if ?c then _ else _) = _ => destruct c
  end.
  - match type of Hadd with
    | context [forEach ?body ?v ?st] =>
        destruct (forEach body v st) as [s1| |] eqn:Hloop
    end; cbn [bind] in Hadd; try discriminate Hadd.
    injection Hadd as _ Hs'. rewrite <- Hs'.
    revert Hloop HR. apply forEach_preserves.
    intros entry st st' Hbody Hst.
    destruct (entryTypeIsWad E entry).
    + destruct (openEntry entry st) as [[res st1]| |] eqn:Hcall;
        cbn [bind snd] in Hbody; try discriminate Hbody.
      injection Hbody as Hst'. rewrite <- Hst'.
      exact (Hopen _ _ _ _ Hcall Hst).
    + injection Hbody as Hst'. rewrite <- Hst'. exact Hst.
  - injection Hadd as _ Hs'. rewrite <- Hs'. exact HR.
Qed.

Lemma announceOpened_inv (a : Handle) (silent : bool) (s : State) :
  registryInv E s -> registryInv E (announceOpened a silent s).
Proof.
  destruct (announceOpened_frame a silent s) as (H1 & H2 & _).
  apply registryInv_same; assumption.
Qed.

(** Creating an archive object that is deleted again or stays
    unmanaged. *)
Lemma registryInv_grow (s s' : State) (o : ArchiveObj) :
  open_archives_ s' = open_archives_ s ->
  heap s' = heap s ++ [o] ->
  registryInv E s -> registryInv E s'.
Proof.
  intros Hreg Hheap. apply registryInv_frame; [exact Hreg| |].
  - intros x Hx. rewrite Hheap. apply nth_error_app1. exact Hx.
  - rewrite Hheap, length_app. lia.
Qed.

Lemma openArchiveEntry_inv (fuel : nat) :
  forall (entry : option Entry) (manage silent : bool) (s : State)
         (r : option Handle) (s' : State),
    openArchiveEntry E fuel entry manage silent s = Done (r, s') ->
    registryInv E s -> registryInv E s'.
Proof.
  induction fuel as [|fuel IH]; intros entry manage silent s r s' Hrun Hinv;
    [discriminate Hrun|].
  cbn [openArchiveEntry] in Hrun.
  destruct entry as [e|]; [|inversion Hrun; subst; exact Hinv].
  destruct (openedFrom s e (open_archives_ s)) as [a0|].
  { inversion Hrun; subst. apply announceOpened_inv. exact Hinv. }
  destruct (detectEntry E e) as [f|].
  2:{ inversion Hrun; subst. revert Hinv.
      apply registryInv_same; reflexivity. }
  unfold new_archive, archive_open_entry in Hrun.
  destruct (loadEntry E f e).
  2:{ inversion Hrun; subst. revert Hinv.
      apply (registryInv_grow _ _ (mkArchive f "" None)); reflexivity. }
  destruct manage.
  2:{ inversion Hrun; subst. revert Hinv.
      apply (registryInv_alloc E _ _ (mkArchive f "" None)
               (mkArchive f "" (Some e))); reflexivity. }
  match type of Hrun with
  | context [addArchive_with E ?open ?x ?st] =>
      destruct (addArchive_with E open x st) as [[b s1]| |] eqn:Hadd
  end; cbn [bind snd] in Hrun; try discriminate Hrun.
  injection Hrun as _ Hs'. rewrite <- Hs'. apply announceOpened_inv.
  eapply addArchive_with_inv; [|exact Hadd|].
  - intros e' st res st' Hcall. exact (IH _ _ _ _ _ _ Hcall).
  - apply (registryInv_register E s _ (mkArchive f "" None)
             (mkArchive f "" (Some e)) (entryParent E e) Hinv).
    + state_simpl. destruct (entryParent E e) as [p|].
      * destruct (0 <=? archiveIndex p _)%Z.
        -- destruct (nth_error _ _); reflexivity.
        -- reflexivity.
      * reflexivity.
    + reflexivity.
    + state_simpl. destruct (entryParent E e) as [p|].
      * unfold archiveIndex. state_simpl.
        destruct (0 <=? archiveIndex_from 0 p (open_archives_ s))%Z.
        -- destruct (nth_error _ _); reflexivity.
        -- reflexivity.
      * reflexivity.
Qed.

End OpenInvariantSteps.

Section ReachableStates.

Context (E : Env).

Lemma addArchive_inv (fuel : nat) (a : Handle) (s : State) (r : bool)
    (s' : State) :
  addArchive E fuel (Some a) s = Done (r, s') ->
  registryInv E
    (set_open_archives (open_archives_ s ++ [mkOpen a true []]) s) ->
  registryInv E s'.
Proof.
  unfold addArchive. intros Hadd. eapply addArchive_with_inv; [|exact Hadd].
  intros e st res st' Hcall. exact (openArchiveEntry_inv E _ _ _ _ _ _ _ Hcall).
Qed.

Lemma addRecentFile_inv_registry (path : string) (s : State) :
  registryInv E s -> registryInv E (addRecentFile E path s).
Proof.
  destruct (addRecentFile_frame E path s) as (H1 & H2 & _).
  apply registryInv_same; assumption.
Qed.

(** Opening a file or a directory: [f] is the class instantiated. *)
Lemma open_file_inv (fuel : nat) (f : Format) (path : string)
    (manage silent : bool) (s : State) (r : option Handle) (s' : State) :
  (let '(a, s0) := new_archive f s in
   let '(ok, s1) := archive_open_file E a f path s0 in
   if ok then
     if manage then
       do res <- addArchive E fuel (Some a) s1;
       Done (Some a, addRecentFile E path (announceOpened a silent (snd res)))
     else Done (Some a, s1)
   else Done (None, delete_archive a s1)) = Done (r, s') ->
  registryInv E s -> registryInv E s'.
Proof.
  unfold new_archive, archive_open_file. intros Hrun Hinv.
  destruct (loadFile E f path).
  2:{ injection Hrun as _ Hs'. rewrite <- Hs'. revert Hinv.
      apply (registryInv_grow E _ _ (mkArchive f "" None)); reflexivity. }
  destruct manage.
  2:{ injection Hrun as _ Hs'. rewrite <- Hs'. revert Hinv.
      apply (registryInv_alloc E _ _ (mkArchive f "" None)
               (mkArchive f path None)); reflexivity. }
  match type of Hrun with
  | context [addArchive E fuel ?x ?st] =>
      destruct (addArchive E fuel x st) as [[b s1]| |] eqn:Hadd
  end; cbn [bind snd] in Hrun; try discriminate Hrun.
  injection Hrun as _ Hs'. rewrite <- Hs'.
  apply addRecentFile_inv_registry, announceOpened_inv.
  eapply addArchive_inv; [exact Hadd|].
  apply (registryInv_register E s _ (mkArchive f "" None)
           (mkArchive f path None) None Hinv); reflexivity.
Qed.

Lemma openDirArchive_inv (fuel : nat) (dir : string) (manage silent : bool)
    (s : State) (r : option Handle) (s' : State) :
  openDirArchive E fuel dir manage silent s = Done (r, s') ->
  registryInv E s -> registryInv E s'.
Proof.
  unfold openDirArchive.
  destruct (getArchive E dir s) as [a|].
  - intros Hrun Hinv. injection Hrun as _ Hs'. rewrite <- Hs'.
    apply announceOpened_inv. exact Hinv.
  - apply open_file_inv.
Qed.

Lemma openArchive_inv (fuel : nat) (path : string) (manage silent : bool)
    (s : State) (r : option Handle) (s' : State) :
  openArchive E fuel path manage silent s = Done (r, s') ->
  registryInv E s -> registryInv E s'.
Proof.
  unfold openArchive.
  destruct (negb (fileExists E path) && dirExists E path);
    [apply openDirArchive_inv|].
  destruct (getArchive E path s) as [a|].
  - intros Hrun Hinv. injection Hrun as _ Hs'. rewrite <- Hs'.
    apply announceOpened_inv. exact Hinv.
  - destruct (detectFile E path) as [f|]; [apply open_file_inv|].
    intros Hrun Hinv. injection Hrun as _ Hs'. rewrite <- Hs'.
    revert Hinv. apply registryInv_same; reflexivity.
Qed.

Lemma closeArchive_inv (fuel : nat) (index : Z) (s : State) (r : bool)
    (s' : State) :
  List.length (open_archives_ s) <= fuel ->
  closeArchive E fuel index s = Done (r, s') ->
  registryInv E s -> registryInv E s'.
Proof.
  intros Hfuel Hrun [Hwf Halloc].
  destruct ((index <? 0)%Z
            || (Z.of_nat (List.length (open_archives_ s)) <=? index)%Z)
    eqn:Hrange.
  - destruct fuel as [|fuel]; [discriminate Hrun|].
    cbn [closeArchive] in Hrun. rewrite Hrange in Hrun.
    injection Hrun as _ Hs'. rewrite <- Hs'. split; assumption.
  - apply orb_false_iff in Hrange. destruct Hrange as [H0 Hlt].
    apply Z.ltb_ge in H0. apply Z.leb_gt in Hlt.
    destruct (nth_error (open_archives_ s) (Z.to_nat index)) as [oa|] eqn:Hnth;
      [|apply nth_error_None in Hnth; lia].
    destruct (closeArchive_subtree E s fuel (Z.to_nat index) oa Hwf Hfuel Hnth)
      as (s1 & L & Hclose & _ & _ & _ & Htracked & _ & Hheap & Hwf1).
    rewrite Z2Nat.id in Hclose by exact H0.
    rewrite Hclose in Hrun. injection Hrun as _ Hs'. rewrite <- Hs'.
    split; [exact Hwf1|].
    intros x Hx. apply Htracked in Hx. destruct Hx as [Hx _].
    rewrite Hheap. exact (Halloc x Hx).
Qed.

Lemma wf_replace (par : Handle -> option Handle) (l1 l2 : list OpenArchive)
    (oa oa' : OpenArchive) :
  archive oa' = archive oa -> open_children oa' = open_children oa ->
  wf par (l1 ++ oa :: l2) -> wf par (l1 ++ oa' :: l2).
Proof.
  intros Ha Hc (Hnd & Hpar & Hcn & Hord).
  split; [|split; [|split]].
  - rewrite map_app in *. cbn [map] in *. rewrite Ha. exact Hnd.
  - intros ob c Hin Hcc. apply in_app_or in Hin.
    destruct Hin as [Hin|[Hin|Hin]].
    + apply Hpar; [apply in_or_app; left; exact Hin|exact Hcc].
    + subst ob. rewrite Ha. rewrite Hc in Hcc.
      apply Hpar; [apply in_or_app; right; left; reflexivity|exact Hcc].
    + apply Hpar; [apply in_or_app; right; right; exact Hin|exact Hcc].
  - intros ob Hin. apply in_app_or in Hin.
    destruct Hin as [Hin|[Hin|Hin]].
    + apply Hcn. apply in_or_app. left. exact Hin.
    + subst ob. rewrite Hc. apply Hcn. apply in_or_app. right. left.
      reflexivity.
    + apply Hcn. apply in_or_app. right. right. exact Hin.
  - clear Hnd Hpar Hcn. induction l1 as [|o l1 IH]; cbn [app ordered] in *.
    + rewrite Hc. exact Hord.
    + destruct Hord as [Ho Hord]. split; [|exact (IH Hord)].
      intros c Hcc. specialize (Ho c Hcc). rewrite map_app in *.
      cbn [map] in *. rewrite Ha. exact Ho.
Qed.

Lemma setArchiveResource_inv (x : Handle) (res : bool) (s : State) :
  registryInv E s -> registryInv E (setArchiveResource x res s).
Proof.
  intros Hinv. unfold setArchiveResource.
  destruct (0 <=? archiveIndex x s)%Z; [|exact Hinv].
  destruct (nth_error (open_archives_ s) (Z.to_nat (archiveIndex x s)))
    as [oa|] eqn:Hnth; [|exact Hinv].
  destruct (nth_error_split _ _ Hnth) as (l1 & l2 & Hv & Hl1).
  assert (Hset : registryInv E
                   (set_open_archives
                      (setAt (Z.to_nat (archiveIndex x s))
                         (mkOpen (archive oa) res (open_children oa))
                         (open_archives_ s)) s)).
  { destruct Hinv as [Hwf Halloc]. rewrite <- Hl1, Hv, setAt_middle. split.
    - unfold wellFormed in Hwf. rewrite Hv in Hwf.
      exact (wf_replace (parentArchive E s) l1 l2 oa
               (mkOpen (archive oa) res (open_children oa))
               eq_refl eq_refl Hwf).
    - intros y Hy. apply Halloc. unfold tracked in *. rewrite Hv.
      cbn [open_archives_ set_open_archives] in Hy.
      rewrite map_app in *. exact Hy. }
  destruct (res && negb (resource oa)).
  - revert Hset. apply registryInv_same; reflexivity.
  - destruct (negb res && resource oa); [|exact Hset].
    revert Hset. apply registryInv_same; reflexivity.
Qed.

Lemma openBaseResource_inv (index : Z) (s : State) :
  registryInv E s -> registryInv E (snd (openBaseResource E index s)).
Proof.
  intros Hinv. unfold openBaseResource.
  destruct ((match base_resource_archive_ s with
             | Some _ => true
             | None => false
             end) && (base_resource s =? index)%Z)%bool; [exact Hinv|].
  set (s1 := match base_resource_archive_ s with
             | Some b =>
                 delete_archive b
                   (set_base_resource_archive None
                      (resources_removeArchive b s))
             | None => s
             end).
  assert (H1 : registryInv E s1).
  { subst s1. destruct (base_resource_archive_ s); [|exact Hinv].
    revert Hinv. apply registryInv_same; reflexivity. }
  clearbody s1. clear Hinv.
  destruct ((index <? 0)%Z || _)%bool.
  - cbn [snd]. revert H1.
    apply registryInv_same;
      [rewrite announce_open_archives|rewrite announce_heap]; reflexivity.
  - destruct (nth_error (base_resource_paths_ s1) (Z.to_nat index))
      as [path|]; [|exact H1].
    destruct (if isFormatFile E Wad path then Some Wad
              else if isFormatFile E Zip path then Some Zip else None)
      as [f|]; [|exact H1].
    unfold new_archive, archive_open_file.
    destruct (loadFile E f path); cbn [fst snd]; revert H1.
    + apply (registryInv_alloc E _ _ (mkArchive f "" None)
               (mkArchive f path None));
        [rewrite announce_open_archives|rewrite announce_heap]; reflexivity.
    + apply (registryInv_grow E _ _ (mkArchive f "" None));
        [rewrite announce_open_archives|rewrite announce_heap]; reflexivity.
Qed.

Lemma deleteBookmarksInDir_frame (fuel : nat) (node : Node) (s : State)
    (r : bool) (s' : State) :
  deleteBookmarksInDir E fuel node s = Done (r, s') ->
  open_archives_ s' = open_archives_ s /\ heap s' = heap s.
Proof.
  unfold deleteBookmarksInDir, deleteBookmark.
  destruct (indexOf_from Nat.eqb 0 (dirEntry E node) (bookmarks_ s));
    match goal with
    | |- context [deleteBookmarksInDir_loop E fuel node ?x ?v ?b] =>
        destruct (deleteBookmarksInDir_loop E fuel node x v b)
          as [[kept removed]| |]
    end; cbn [bind fst snd]; try discriminate;
    destruct removed; intros H; injection H as _ Hs'; rewrite <- Hs';
    state_simpl; split; reflexivity.
Qed.

End ReachableStates.

(** ** The dependent archives are the descendants *)

(** The first step of a descent. *)
Lemma descendant_first (v : list OpenArchive) (x d : Handle) :
  descendant v x d ->
  exists oa c, In oa v /\ archive oa = x /\ In c (open_children oa) /\
               (d = c \/ descendant v c d).
Proof.
  intros Hd. induction Hd as [oa c Hin Heq Hc|y ob c Hd IH Hin Heq Hc].
  - exists oa, c. repeat split; try assumption. left. reflexivity.
  - destruct IH as (oa & c0 & Hoa & Hx & Hc0 & Hy).
    exists oa, c0. repeat split; try assumption. right.
    destruct Hy as [Hy|Hy].
    + apply (desc_child v c0 ob c Hin); [congruence|exact Hc].
    + exact (desc_step v c0 y ob c Hy Hin Heq Hc).
Qed.

Section Dependents.

Variable par : Handle -> option Handle.
Variable s : State.
Hypothesis Hwf : wf par (open_archives_ s).

Lemma getDependentArchivesInternal_spec (fuel : nat) :
  forall (l1 : list OpenArchive) (oa : OpenArchive) (l2 : list OpenArchive)
         (vec0 : list Handle),
    open_archives_ s = l1 ++ oa :: l2 ->
    List.length l2 < fuel ->
    exists vec,
      getDependentArchivesInternal fuel s (archive oa) vec0
      = Done (vec0 ++ vec) /\
      (forall d, In d vec <-> descendant (open_archives_ s) (archive oa) d).
Proof.
  induction fuel as [|fuel IH]; intros l1 oa l2 vec0 Hv Hlen; [lia|].
  pose proof Hwf as (Hnd & Hpar & Hcn & Hord).
  cbn [getDependentArchivesInternal]. unfold archiveIndex.
  rewrite Hv in Hnd, Hord.
  destruct (handles_split_notin _ _ _ Hnd) as (H1 & _ & _).
  rewrite Hv, (archiveIndex_from_split 0 (archive oa) l1 l2 oa H1 eq_refl).
  cbn [Nat.add].
  assert (Hneg : (Z.of_nat (List.length l1) <? 0)%Z = false)
    by (apply Z.ltb_ge; lia).
  rewrite Hneg, Nat2Z.id, nth_error_middle. rewrite <- Hv.
  assert (Hoa : In oa (open_archives_ s))
    by (rewrite Hv; apply in_or_app; right; left; reflexivity).
  assert (Hloop : forall cs,
             (forall c, In c cs -> In c (open_children oa)) ->
             forall vec1,
             exists vec,
               forEach (fun child vec' =>
                          getDependentArchivesInternal fuel s child
                            (vec' ++ [child])) cs vec1
               = Done (vec1 ++ vec) /\
               (forall d, In d vec <->
                          exists c, In c cs /\
                                    (d = c \/
                                     descendant (open_archives_ s) c d))).
  { induction cs as [|c cs IHcs]; intros Hsub vec1; cbn [forEach].
    - exists []. rewrite app_nil_r. split; [reflexivity|].
      intros d. split; [intros []|intros (c & [] & _)].
    - assert (Hc : In c (map archive l2))
        by exact (ordered_split _ _ _ _ Hord (Hsub c (or_introl eq_refl))).
      apply in_map_iff in Hc. destruct Hc as (oc & Hoc & Hin).
      apply in_split in Hin. destruct Hin as (m1 & m2 & Hl2).
      assert (Hv' : open_archives_ s = (l1 ++ oa :: m1) ++ oc :: m2)
        by (rewrite Hv, Hl2, <- app_assoc; reflexivity).
      assert (Hlen' : List.length m2 < fuel).
      { rewrite Hl2, length_app in Hlen. cbn [List.length] in Hlen. lia. }
      destruct (IH (l1 ++ oa :: m1) oc m2 (vec1 ++ [c]) Hv' Hlen')
        as (vc & Hrun & Hvc).
      rewrite Hoc in Hrun, Hvc. rewrite Hrun. cbn [bind].
      destruct (IHcs (fun c' H => Hsub c' (or_intror H))
                  ((vec1 ++ [c]) ++ vc)) as (vr & Hrest & Hvr).
      exists ((c :: vc) ++ vr). split.
      + rewrite Hrest. f_equal. rewrite <- !app_assoc. reflexivity.
      + intros d. rewrite in_app_iff. cbn [In]. split.
        * intros [[Hd|Hd]|Hd].
          -- exists c. split; [left; reflexivity|left; symmetry; exact Hd].
          -- exists c. split; [left; reflexivity|right; apply Hvc; exact Hd].
          -- apply Hvr in Hd. destruct Hd as (c' & Hc' & Hd).
             exists c'. split; [right; exact Hc'|exact Hd].
        * intros (c' & [Hc'|Hc'] & Hd).
          -- subst c'. left. destruct Hd as [Hd|Hd].
             ++ left. symmetry. exact Hd.
             ++ right. apply Hvc. exact Hd.
          -- right. apply Hvr. exists c'. split; [exact Hc'|exact Hd]. }
  destruct (Hloop (open_children oa) (fun c H => H) vec0) as (vec & Hrun & Hvec).
  exists vec. split; [exact Hrun|].
  intros d. rewrite Hvec. split.
  - intros (c & Hc & Hd).
    assert (Hxc : descendant (open_archives_ s) (archive oa) c)
      by exact (desc_child _ _ oa c Hoa eq_refl Hc).
    destruct Hd as [Hd|Hd]; [subst d; exact Hxc|].
    exact (descendant_trans _ _ _ _ Hxc Hd).
  - intros Hd. apply descendant_first in Hd.
    destruct Hd as (ob & c & Hob & Hx & Hc & Hd).
    exists c. split; [|exact Hd].
    rewrite <- Hv in Hnd.
    rewrite (handles_unique _ oa ob Hnd Hoa Hob (eq_sym Hx)). exact Hc.
Qed.

(** X26: [getDependentArchives] of a tracked archive of a well-formed
    registry returns, with fuel for the depth of the nesting, exactly the
    descendants of the archive. *)
Lemma getDependentArchives_descendants (fuel index : nat) (oa : OpenArchive) :
  List.length (open_archives_ s) <= fuel ->
  nth_error (open_archives_ s) index = Some oa ->
  exists vec,
    getDependentArchives fuel (archive oa) s = Done vec /\
    (forall d, In d vec <-> descendant (open_archives_ s) (archive oa) d).
Proof.
  intros Hfuel Hnth.
  destruct (nth_error_split _ _ Hnth) as (l1 & l2 & Hv & _).
  assert (Hlen : List.length l2 < fuel).
  { rewrite Hv, length_app in Hfuel. cbn [List.length] in Hfuel. lia. }
  destruct (getDependentArchivesInternal_spec fuel l1 oa l2 [] Hv Hlen)
    as (vec & Hrun & Hvec).
  exists vec. split; [exact Hrun|exact Hvec].
Qed.

End Dependents.

(** X27: asked for an archive that is not tracked, for one that has been
    closed in particular, [getDependentArchives] indexes the registry at
    -1: the call has no defined result. *)
Lemma getDependentArchives_untracked (fuel : nat) (x : Handle) (s : State) :
  ~ tracked s x -> getDependentArchives (S fuel) x s = Undefined.
Proof.
  intros Hx. unfold getDependentArchives.
  cbn [getDependentArchivesInternal]. unfold archiveIndex.
  rewrite (archiveIndex_from_notin 0 x _ Hx). reflexivity.
Qed.

(** ** How often the bulk removals announce *)

Section BulkRemoval.

Context (E : Env).

Lemma deleteBookmarksInDir_loop_flag (fuel : nat) (node : Node) (x : Handle)
    (v : list Entry) :
  forall (removed : bool) (kept : list Entry) (r : bool),
    deleteBookmarksInDir_loop E fuel node x v removed = Done (kept, r) ->
    removed = true -> r = true.
Proof.
  induction v as [|b v IH]; intros removed kept r Hrun Hrem;
    cbn [deleteBookmarksInDir_loop] in Hrun.
  - injection Hrun as _ Hr. congruence.
  - destruct (eqb_ptr (entryParent E b) (Some x)).
    + destruct (withinDir E fuel node (rootDir E x) (parentDir E b))
        as [[|]| |]; cbn [bind] in Hrun; try discriminate Hrun.
      * exact (IH _ _ _ Hrun eq_refl).
      * destruct (deleteBookmarksInDir_loop E fuel node x v removed)
          as [[k r']| |] eqn:Hrest; cbn [bind fst snd] in Hrun;
          try discriminate Hrun.
        injection Hrun as _ Hr. rewrite <- Hr. exact (IH _ _ _ Hrest Hrem).
    + destruct (deleteBookmarksInDir_loop E fuel node x v removed)
        as [[k r']| |] eqn:Hrest; cbn [bind fst snd] in Hrun;
        try discriminate Hrun.
      injection Hrun as _ Hr. rewrite <- Hr. exact (IH _ _ _ Hrest Hrem).
Qed.

(** [deleteBookmarksInDir] announces "bookmarks_changed" twice whenever the
    directory's own entry is bookmarked; otherwise once if a bookmark was
    removed and not at all if none was. *)
Lemma deleteBookmarksInDir_announcements (fuel : nat) (node : Node)
    (s : State) (r : bool) (s' : State) :
  muted_ s = false ->
  deleteBookmarksInDir E fuel node s = Done (r, s') ->
  announcedCount "bookmarks_changed" s'
  = announcedCount "bookmarks_changed" s
    + (if existsb (Nat.eqb (dirEntry E node)) (bookmarks_ s) then 2
       else if r then 1 else 0).
Proof.
  intros Hm Hrun. unfold deleteBookmarksInDir, deleteBookmark in Hrun.
  destruct (indexOf_from Nat.eqb 0 (dirEntry E node) (bookmarks_ s))
    as [a|] eqn:Hidx.
  - assert (Hex : existsb (Nat.eqb (dirEntry E node)) (bookmarks_ s) = true).
    { apply (indexOf_from_Some Nat.eqb nat_eqb_spec) in Hidx.
      destruct Hidx as (before & after & Hv & _ & _).
      apply existsb_exists. exists (dirEntry E node).
      split; [|apply Nat.eqb_refl].
      rewrite Hv. apply in_or_app. right. left. reflexivity. }
    rewrite Hex.
    match type of Hrun with
    | context [deleteBookmarksInDir_loop E fuel node ?x ?v true] =>
        destruct (deleteBookmarksInDir_loop E fuel node x v true)
          as [[kept removed]| |] eqn:Hloop
    end; cbn [bind fst snd] in Hrun; try discriminate Hrun.
    rewrite (deleteBookmarksInDir_loop_flag _ _ _ _ _ _ _ Hloop eq_refl)
      in Hrun.
    injection Hrun as _ Hs'. rewrite <- Hs'.
    rewrite announcedCount_announce.
    + unfold announcedCount at 1. cbn [announced set_bookmarks].
      fold (announcedCount "bookmarks_changed"
              (announce "bookmarks_changed" None
                 (set_bookmarks (eraseAt a (bookmarks_ s)) s))).
      rewrite announcedCount_announce by exact Hm.
      unfold announcedCount. cbn [announced set_bookmarks]. lia.
    + cbn [muted_ set_bookmarks]. rewrite announce_muted. exact Hm.
  - assert (Hex : existsb (Nat.eqb (dirEntry E node)) (bookmarks_ s) = false).
    { apply (indexOf_from_None Nat.eqb nat_eqb_spec) in Hidx.
      apply not_true_is_false. intros Hex. apply existsb_exists in Hex.
      destruct Hex as (b & Hb & Heq). apply Nat.eqb_eq in Heq. subst b.
      exact (Hidx Hb). }
    rewrite Hex.
    match type of Hrun with
    | context [deleteBookmarksInDir_loop E fuel node ?x ?v false] =>
        destruct (deleteBookmarksInDir_loop E fuel node x v false)
          as [[kept removed]| |] eqn:Hloop
    end; cbn [bind fst snd] in Hrun; try discriminate Hrun.
    destruct removed; injection Hrun as Hr Hs'; rewrite <- Hs', <- Hr.
    + rewrite announcedCount_announce by exact Hm.
      unfold announcedCount. cbn [announced set_bookmarks]. lia.
    + unfold announcedCount. cbn [announced set_bookmarks]. lia.
Qed.

End BulkRemoval.

(** ** When selecting a base resource announces *)

Section BaseResourceAnnouncements.

Context (E : Env).

(** X30: [openBaseResource], asked for another index than the one
    loaded, announces "base_resource_changed" exactly once, as the last
    thing it does, when the index is out of range or the file at the index
    is recognised as a WAD or ZIP, whether or not it then loads. *)
Lemma openBaseResource_announces (index : Z) (s : State) :
  (-2147483648 <= index < 2147483648)%Z ->
  muted_ s = false ->
  (match base_resource_archive_ s with
   | Some _ => true
   | None => false
   end && (base_resource s =? index)%Z = false) ->
  (index < 0)%Z \/
  (Z.of_nat (List.length (base_resource_paths_ s)) <= index)%Z \/
  (exists path,
      nth_error (base_resource_paths_ s) (Z.to_nat index) = Some path /\
      isFormatFile E Wad path || isFormatFile E Zip path = true) ->
  announced (snd (openBaseResource E index s))
  = announced s ++ [("base_resource_changed", None)].
Proof.
  intros Hint Hm Hnoop Hcase. unfold openBaseResource. rewrite Hnoop.
  set (s1 := match base_resource_archive_ s with
             | Some b =>
                 delete_archive b
                   (set_base_resource_archive None
                      (resources_removeArchive b s))
             | None => s
             end).
  assert (H1 : muted_ s1 = false /\ announced s1 = announced s /\
               base_resource_paths_ s1 = base_resource_paths_ s).
  { subst s1. destruct (base_resource_archive_ s); repeat split; exact Hm. }
  destruct H1 as (Hm1 & Ha1 & Hp1). clearbody s1.
  destruct ((index <? 0)%Z
            || (Z.of_nat (List.length (base_resource_paths_ s1))
                <=? to_uint32 index)%Z) eqn:Hrange.
  - cbn [snd]. rewrite announce_announced by exact Hm1.
    cbn [announced set_base_resource]. rewrite Ha1. reflexivity.
  - apply orb_false_iff in Hrange. destruct Hrange as [H0 Hlt].
    apply Z.ltb_ge in H0. apply Z.leb_gt in Hlt.
    destruct Hcase as [Hneg|[Hbig|(path & Hnth & Hfmt)]]; [lia| |].
    { exfalso. rewrite Hp1, to_uint32_small in Hlt by lia. lia. }
    rewrite Hp1, Hnth.
    assert (Hf : exists f,
               (if isFormatFile E Wad path then Some Wad
                else if isFormatFile E Zip path then Some Zip else None)
               = Some f).
    { destruct (isFormatFile E Wad path); [eexists; reflexivity|].
      destruct (isFormatFile E Zip path); [eexists; reflexivity|].
      discriminate Hfmt. }
    destruct Hf as (f & Hf). rewrite Hf.
    unfold new_archive, archive_open_file.
    destruct (loadFile E f path); cbn [fst snd];
      match goal with
      | |- announced (announce _ _ ?st) = _ =>
          assert (HmX : muted_ st = false) by exact Hm1;
          assert (HaX : announced st = announced s) by exact Ha1;
          generalize dependent st; intros sX HmX HaX
      end;
      rewrite announce_announced by exact HmX; rewrite HaX; reflexivity.
Qed.

End BaseResourceAnnouncements.


(** * Further properties of the manager *)

(** ** Looking archives up *)

(** The first record with handle [x] splits the registry. *)
Lemma first_record (v : list OpenArchive) (x : Handle) :
  In x (map archive v) ->
  exists l1 oa l2,
    v = l1 ++ oa :: l2 /\ archive oa = x /\ ~ In x (map archive l1).
Proof.
  induction v as [|ob v IH]; intros Hin; [destruct Hin|].
  destruct (Nat.eq_dec (archive ob) x) as [Heq|Hne].
  - exists [], ob, v. repeat split; [exact Heq|intros []].
  - destruct Hin as [Hin|Hin]; [contradiction|].
    destruct (IH Hin) as (l1 & oa & l2 & Hv & Hoa & Hl1).
    exists (ob :: l1), oa, l2. rewrite Hv. repeat split; [exact Hoa|].
    intros [H|H]; [contradiction|exact (Hl1 H)].
Qed.

(** The index of a tracked archive is valid and leads back to it. *)
Lemma archiveIndex_tracked (x : Handle) (s : State) :
  tracked s x ->
  (0 <= archiveIndex x s < Z.of_nat (List.length (open_archives_ s)))%Z /\
  getArchiveAt (archiveIndex x s) s = Some x.
Proof.
  intros Hx. destruct (first_record _ _ Hx) as (l1 & oa & l2 & Hv & Hoa & Hl1).
  unfold archiveIndex, getArchiveAt. rewrite Hv.
  rewrite (archiveIndex_from_split 0 x l1 l2 oa Hl1 Hoa). cbn [Nat.add].
  rewrite length_app. cbn [List.length].
  split; [lia|].
  replace ((Z.of_nat (List.length l1) <? 0)%Z) with false
    by (symmetry; apply Z.ltb_ge; lia).
  replace ((Z.of_nat (List.length l1 + S (List.length l2))
            <=? Z.of_nat (List.length l1))%Z) with false
    by (symmetry; apply Z.leb_gt; lia).
  cbn [orb]. rewrite Nat2Z.id, nth_error_middle. cbn [option_map].
  rewrite Hoa. reflexivity.
Qed.

(** An archive that is not tracked has index -1. *)
Lemma archiveIndex_untracked (x : Handle) (s : State) :
  ~ tracked s x -> archiveIndex x s = (-1)%Z.
Proof. intros Hx. exact (archiveIndex_from_notin 0 x _ Hx). Qed.

(** X1: [archiveIndex] and [getArchive] by index are inverse to each other
    on the open archives: the index of a tracked archive is within the
    list and leads back to the archive, and an archive that is not tracked
    has index -1, at which [getArchive] answers with the null pointer. *)
Theorem archiveIndex_getArchiveAt (x : Handle) (s : State) :
  (tracked s x ->
   (0 <= archiveIndex x s < Z.of_nat (List.length (open_archives_ s)))%Z /\
   getArchiveAt (archiveIndex x s) s = Some x) /\
  (~ tracked s x ->
   archiveIndex x s = (-1)%Z /\ getArchiveAt (archiveIndex x s) s = None).
Proof.
  split.
  - apply archiveIndex_tracked.
  - intros Hx. rewrite (archiveIndex_untracked x s Hx).
    split; reflexivity.
Qed.

(** X2: while no archive is registered twice, the archive found at a valid
    index has that index. *)
Theorem getArchiveAt_archiveIndex (index : Z) (x : Handle) (s : State) :
  NoDup (map archive (open_archives_ s)) ->
  getArchiveAt index s = Some x ->
  archiveIndex x s = index.
Proof.
  intros Hnd Hget. unfold getArchiveAt in Hget.
  destruct ((index <? 0)%Z || _)%bool eqn:Hr; [discriminate Hget|].
  apply orb_false_iff in Hr. destruct Hr as [Hlo Hhi].
  apply Z.ltb_ge in Hlo. apply Z.leb_gt in Hhi.
  destruct (nth_error (open_archives_ s) (Z.to_nat index)) as [oa|] eqn:Hnth;
    [|discriminate Hget].
  cbn [option_map] in Hget. injection Hget as Hoa.
  destruct (nth_error_split _ _ Hnth) as (l1 & l2 & Hv & Hl1).
  rewrite Hv in Hnd.
  destruct (handles_split_notin _ _ _ Hnd) as (H1 & _ & _).
  unfold archiveIndex. rewrite Hv.
  rewrite (archiveIndex_from_split 0 x l1 l2 oa); cbn [Nat.add].
  - rewrite Hl1. apply Z2Nat.id. exact Hlo.
  - rewrite <- Hoa. exact H1.
  - exact Hoa.
Qed.

Lemma getArchiveAt_archiveIndex_witness :
  NoDup (map archive (open_archives_ nestedState)) /\
  getArchiveAt 2%Z nestedState = Some 2 /\
  archiveIndex 2 nestedState = 2%Z.
Proof.
  assert (Hnd : NoDup (map archive (open_archives_ nestedState))).
  { apply nodupb_sound. vm_compute. reflexivity. }
  split; [exact Hnd|]. split; [reflexivity|].
  apply (getArchiveAt_archiveIndex 2%Z 2 nestedState Hnd). reflexivity.
Defined.

(** ** The resource flag *)

Lemma find_record_none (x : Handle) (v : list OpenArchive) :
  ~ In x (map archive v) ->
  find (fun ob => Nat.eqb (archive ob) x) v = None.
Proof.
  induction v as [|ob v IH]; intros Hx; [reflexivity|].
  cbn [find]. destruct (Nat.eqb (archive ob) x) eqn:Heq.
  - apply Nat.eqb_eq in Heq. exfalso. apply Hx. left. exact Heq.
  - apply IH. intros H. apply Hx. right. exact H.
Qed.

(** [archiveIsResource] reads the flag of the first record of the archive. *)
Lemma archiveIsResource_find (x : Handle) (s : State) :
  archiveIsResource x s
  = match find (fun ob => Nat.eqb (archive ob) x) (open_archives_ s) with
    | Some oa => resource oa
    | None => false
    end.
Proof.
  unfold archiveIsResource, archiveIndex.
  destruct (in_dec Nat.eq_dec x (map archive (open_archives_ s))) as [Hx|Hx].
  - destruct (first_record _ _ Hx) as (l1 & oa & l2 & Hv & Hoa & Hl1).
    rewrite Hv, (archiveIndex_from_split 0 x l1 l2 oa Hl1 Hoa).
    cbn [Nat.add].
    replace ((Z.of_nat (List.length l1) <? 0)%Z) with false
      by (symmetry; apply Z.ltb_ge; lia).
    rewrite Nat2Z.id, nth_error_middle, (find_record_middle x l1 l2 oa Hl1 Hoa).
    reflexivity.
  - rewrite (archiveIndex_from_notin 0 x _ Hx), (find_record_none x _ Hx).
    reflexivity.
Qed.

(** What [setArchiveResource] does to the registry of a tracked archive. *)
Lemma setArchiveResource_registry (x : Handle) (res : bool) (s : State)
    (l1 l2 : list OpenArchive) (oa : OpenArchive) :
  open_archives_ s = l1 ++ oa :: l2 ->
  archive oa = x -> ~ In x (map archive l1) ->
  open_archives_ (setArchiveResource x res s)
  = l1 ++ mkOpen x res (open_children oa) :: l2 /\
  resources (setArchiveResource x res s)
  = (if res && negb (resource oa) then resources s ++ [x]
     else if negb res && resource oa
          then filter (fun y => negb (Nat.eqb y x)) (resources s)
          else resources s).
Proof.
  intros Hv Hoa Hl1. unfold setArchiveResource, archiveIndex.
  rewrite Hv, (archiveIndex_from_split 0 x l1 l2 oa Hl1 Hoa). cbn [Nat.add].
  replace ((0 <=? Z.of_nat (List.length l1))%Z) with true
    by (symmetry; apply Z.leb_le; lia).
  rewrite Nat2Z.id, nth_error_middle, setAt_middle, Hoa.
  destruct (res && negb (resource oa))%bool;
    [|destruct (negb res && resource oa)%bool];
    unfold resources_addArchive, resources_removeArchive; state_simpl;
    split; reflexivity.
Qed.

(** X3: a round trip through the resource flag.  After
    [setArchiveResource(x, res)] on a tracked archive,
    [archiveIsResource(x)] is [res], no other archive's flag has changed,
    the registry lists the same archives in the same order, and [x] is in
    the resource pool exactly when [res] is set, provided the pool agreed
    with the flag before. *)
Theorem setArchiveResource_roundtrip (x : Handle) (res : bool) (s : State) :
  tracked s x ->
  archiveIsResource x (setArchiveResource x res s) = res /\
  (forall y, y <> x ->
             archiveIsResource y (setArchiveResource x res s)
             = archiveIsResource y s) /\
  map archive (open_archives_ (setArchiveResource x res s))
  = map archive (open_archives_ s) /\
  ((In x (resources s) <-> archiveIsResource x s = true) ->
   (In x (resources (setArchiveResource x res s)) <-> res = true)).
Proof.
  intros Hx. destruct (first_record _ _ Hx) as (l1 & oa & l2 & Hv & Hoa & Hl1).
  destruct (setArchiveResource_registry x res s l1 l2 oa Hv Hoa Hl1)
    as [Hreg Hpool].
  split; [|split; [|split]].
  - rewrite archiveIsResource_find, Hreg.
    rewrite (find_record_middle x l1 l2
               (mkOpen x res (open_children oa)) Hl1 eq_refl).
    reflexivity.
  - intros y Hy. rewrite !archiveIsResource_find, Hreg, Hv.
    rewrite (find_record_replace y l1 l2 oa
               (mkOpen x res (open_children oa)));
      [reflexivity|congruence|cbn [archive]; congruence].
  - rewrite Hreg, Hv, !map_app. cbn [map archive]. rewrite Hoa. reflexivity.
  - rewrite archiveIsResource_find, Hv,
      (find_record_middle x l1 l2 oa Hl1 Hoa), Hpool.
    intros Hagree.
    destruct res, (resource oa); cbn [andb negb].
    + split; [reflexivity|]. intros _. apply Hagree. reflexivity.
    + split; [reflexivity|]. intros _. apply in_or_app. right. left.
      reflexivity.
    + split; [|discriminate]. intros Hin. apply filter_In in Hin.
      destruct Hin as [_ Hne]. rewrite Nat.eqb_refl in Hne. discriminate Hne.
    + split; [|discriminate]. intros Hin. apply Hagree. exact Hin.
Qed.

Lemma setArchiveResource_roundtrip_witness :
  archiveIsResource 1 (setArchiveResource 1 false nestedState) = false /\
  (forall y, y <> 1 ->
             archiveIsResource y (setArchiveResource 1 false nestedState)
             = archiveIsResource y nestedState) /\
  map archive (open_archives_ (setArchiveResource 1 false nestedState))
  = map archive (open_archives_ nestedState) /\
  ((In 1 (resources nestedState) <-> archiveIsResource 1 nestedState = true) ->
   (In 1 (resources (setArchiveResource 1 false nestedState))
    <-> false = true)).
Proof.
  apply (setArchiveResource_roundtrip 1 false nestedState).
  vm_compute. right. left. reflexivity.
Defined.

(** ** Closing by pointer, by name, and closing everything *)

Section ClosingVariants.

Context (E : Env).

(** Closing a tracked archive leaves fewer records. *)
Lemma closeArchive_shrinks (s : State) (fuel index : nat) (oa : OpenArchive) :
  wellFormed E s ->
  List.length (open_archives_ s) <= fuel ->
  nth_error (open_archives_ s) index = Some oa ->
  exists s' L,
    closeArchive E fuel (Z.of_nat index) s = Done (true, s') /\
    destroyed s' = destroyed s ++ L ++ [archive oa] /\
    (forall d, In d L -> tracked s d) /\
    (forall y, tracked s' y <->
               tracked s y /\ y <> archive oa /\ ~ In y L) /\
    heap s' = heap s /\
    wellFormed E s' /\
    List.length (open_archives_ s') < List.length (open_archives_ s).
Proof.
  intros Hwf Hfuel Hnth.
  destruct (closeArchive_subtree E s fuel index oa Hwf Hfuel Hnth)
    as (s' & L & Hrun & Hdes & _ & HL & Htr & _ & Hheap & Hwf').
  exists s', L. split; [exact Hrun|]. split; [exact Hdes|].
  split; [|split; [exact Htr|split; [exact Hheap|split; [exact Hwf'|]]]].
  - intros d Hd. apply HL in Hd.
    destruct Hwf as (_ & _ & _ & Hord).
    exact (descendant_tracked _ _ _ Hord Hd).
  - assert (Hincl : incl (archive oa :: map archive (open_archives_ s'))
                      (map archive (open_archives_ s))).
    { intros y [Hy|Hy].
      - subst y. apply in_map. exact (nth_error_In _ _ Hnth).
      - apply Htr in Hy. exact (proj1 Hy). }
    assert (Hnd : NoDup (archive oa :: map archive (open_archives_ s'))).
    { constructor; [|exact (proj1 Hwf')].
      intros Hin. apply Htr in Hin. destruct Hin as (_ & Hne & _).
      apply Hne. reflexivity. }
    pose proof (NoDup_incl_length Hnd Hincl) as Hle.
    cbn [List.length] in Hle. rewrite !length_map in Hle. lia.
Qed.

(** X4: [closeAll] empties the registry.  From a well-formed registry, with
    a pass and fuel for each record, the loop ends with no archive open,
    having closed and deleted every archive that was tracked and nothing
    else. *)
Theorem closeAll_closes_everything (passes fuel : nat) (s : State) :
  wellFormed E s ->
  List.length (open_archives_ s) <= passes ->
  List.length (open_archives_ s) <= fuel ->
  exists s' D,
    closeAll E passes fuel s = Done s' /\
    open_archives_ s' = [] /\
    destroyed s' = destroyed s ++ D /\
    (forall x, In x D <-> tracked s x) /\
    heap s' = heap s.
Proof.
  revert s. induction passes as [|passes IH]; intros s Hwf Hp Hf.
  - destruct (open_archives_ s) as [|oa v] eqn:Hv;
      [|cbn [List.length] in Hp; lia].
    exists s, []. cbn [closeAll]. rewrite Hv.
    split; [reflexivity|]. split; [reflexivity|].
    split; [rewrite app_nil_r; reflexivity|]. split; [|reflexivity].
    intros x. unfold tracked. rewrite Hv. cbn [map]. reflexivity.
  - destruct (open_archives_ s) as [|oa v] eqn:Hv.
    + exists s, []. cbn [closeAll]. rewrite Hv.
      split; [reflexivity|]. split; [reflexivity|].
      split; [rewrite app_nil_r; reflexivity|]. split; [|reflexivity].
      intros x. unfold tracked. rewrite Hv. cbn [map]. reflexivity.
    + assert (Hnth : nth_error (open_archives_ s) 0 = Some oa)
        by (rewrite Hv; reflexivity).
      assert (Hf' : List.length (open_archives_ s) <= fuel)
        by (rewrite Hv; exact Hf).
      destruct (closeArchive_shrinks s fuel 0 oa Hwf Hf' Hnth)
        as (s1 & L & Hrun & Hdes & HL & Htr & Hheap & Hwf1 & Hlen).
      rewrite Hv in Hlen. cbn [List.length] in Hlen, Hp, Hf.
      destruct (IH s1 Hwf1 ltac:(lia) ltac:(lia))
        as (s' & D & Hall & Hempty & Hdes' & HD & Hheap').
      exists s', ((L ++ [archive oa]) ++ D).
      cbn [closeAll]. rewrite Hv. cbn [Z.of_nat] in Hrun.
      rewrite Hrun. cbn [bind snd].
      split; [exact Hall|]. split; [exact Hempty|].
      split; [rewrite Hdes', Hdes, <- !app_assoc; reflexivity|].
      split; [|congruence].
      intros x. rewrite !in_app_iff, HD, Htr. cbn [In].
      assert (Hoa : tracked s (archive oa))
        by (apply in_map; exact (nth_error_In _ _ Hnth)).
      split.
      * intros [[Hx|[Hx|[]]]|Hx].
        -- exact (HL x Hx).
        -- subst x. exact Hoa.
        -- exact (proj1 Hx).
      * intros Hx.
        destruct (in_dec Nat.eq_dec x L) as [HxL|HxL]; [left; left; exact HxL|].
        destruct (Nat.eq_dec x (archive oa)) as [Heq|Hne].
        -- left. right. left. symmetry. exact Heq.
        -- right. split; [exact Hx|]. split; assumption.
Qed.

(** X5: [closeArchive] by pointer, on an archive that is not in the list,
    returns false and changes nothing; on a tracked archive of a
    well-formed registry it returns true, the archive is closed and deleted
    and is tracked no longer. *)
Theorem closeArchivePtr_closes (fuel : nat) (x : Handle) (s : State) :
  wellFormed E s ->
  List.length (open_archives_ s) <= fuel ->
  (~ tracked s x -> closeArchivePtr E fuel x s = Done (false, s)) /\
  (tracked s x ->
   exists s',
     closeArchivePtr E fuel x s = Done (true, s') /\
     In x (destroyed s') /\ ~ tracked s' x /\
     (forall y, tracked s' y -> tracked s y)).
Proof.
  intros Hwf Hfuel. unfold closeArchivePtr. split.
  - intros Hx.
    destruct (indexOf_from Nat.eqb 0 x (map archive (open_archives_ s)))
      as [a|] eqn:Hidx; [|reflexivity].
    apply (indexOf_from_Some Nat.eqb nat_eqb_spec) in Hidx.
    destruct Hidx as (before & after & Hv & _ & _).
    exfalso. apply Hx. unfold tracked. rewrite Hv.
    apply in_or_app. right. left. reflexivity.
  - intros Hx.
    destruct (first_record _ _ Hx) as (l1 & oa & l2 & Hv & Hoa & Hl1).
    rewrite Hv, map_app. cbn [map]. rewrite Hoa.
    rewrite (indexOf_from_first Nat.eqb nat_eqb_spec 0 x _ _ Hl1).
    cbn [Nat.add]. rewrite length_map.
    assert (Hnth : nth_error (open_archives_ s) (List.length l1) = Some oa)
      by (rewrite Hv; apply nth_error_middle).
    destruct (closeArchive_shrinks s fuel (List.length l1) oa Hwf Hfuel Hnth)
      as (s' & L & Hrun & Hdes & _ & Htr & _ & _ & _).
    exists s'. split; [exact Hrun|]. rewrite Hoa in Hdes, Htr.
    split; [|split].
    + rewrite Hdes. apply in_or_app. right. apply in_or_app. right. left.
      reflexivity.
    + intros Hin. apply Htr in Hin. destruct Hin as (_ & Hne & _).
      apply Hne. reflexivity.
    + intros y Hy. apply Htr in Hy. exact (proj1 Hy).
Qed.

(** [getArchive] by name and [closeArchive] by name scan alike. *)
Lemma getArchive_loop_index (s : State) (path : string)
    (v : list OpenArchive) (a0 : nat) :
  match getArchive_loop E s path v with
  | None =>
      indexOf_from String.eqb a0 path
        (map (fun oa => filename E s (archive oa)) v) = None
  | Some a =>
      exists l1 oa l2,
        v = l1 ++ oa :: l2 /\ archive oa = a /\
        indexOf_from String.eqb a0 path
          (map (fun oa => filename E s (archive oa)) v)
        = Some (a0 + List.length l1)
  end.
Proof.
  revert a0. induction v as [|ob v IH]; intros a0; [reflexivity|].
  cbn [getArchive_loop map indexOf_from].
  destruct (String.eqb (filename E s (archive ob)) path).
  - exists [], ob, v. cbn [List.length]. rewrite Nat.add_0_r.
    repeat split.
  - specialize (IH (S a0)).
    destruct (getArchive_loop E s path v) as [a|]; [|exact IH].
    destruct IH as (l1 & oa & l2 & Hv & Hoa & Hidx).
    exists (ob :: l1), oa, l2. rewrite Hidx. cbn [List.length].
    split; [rewrite Hv; reflexivity|]. split; [exact Hoa|]. f_equal. lia.
Qed.

(** X6: [closeArchive] by file name closes the archive that [getArchive]
    finds under that name: when no open archive has the name it returns
    false and changes nothing, otherwise (registry well-formed) it
    returns true and that archive is closed, deleted and tracked no longer. *)
Theorem closeArchiveNamed_closes_found (fuel : nat) (path : string)
    (s : State) :
  wellFormed E s ->
  List.length (open_archives_ s) <= fuel ->
  match getArchive E path s with
  | None => closeArchiveNamed E fuel path s = Done (false, s)
  | Some a =>
      exists s',
        closeArchiveNamed E fuel path s = Done (true, s') /\
        In a (destroyed s') /\ ~ tracked s' a
  end.
Proof.
  intros Hwf Hfuel. unfold getArchive, closeArchiveNamed.
  pose proof (getArchive_loop_index s path (open_archives_ s) 0) as Hscan.
  destruct (getArchive_loop E s path (open_archives_ s)) as [a|].
  - destruct Hscan as (l1 & oa & l2 & Hv & Hoa & Hidx).
    rewrite Hidx. cbn [Nat.add].
    assert (Hnth : nth_error (open_archives_ s) (List.length l1) = Some oa)
      by (rewrite Hv; apply nth_error_middle).
    destruct (closeArchive_shrinks s fuel (List.length l1) oa Hwf Hfuel Hnth)
      as (s' & L & Hrun & Hdes & _ & Htr & _ & _ & _).
    exists s'. split; [exact Hrun|]. rewrite Hoa in Hdes, Htr. split.
    + rewrite Hdes. apply in_or_app. right. apply in_or_app. right. left.
      reflexivity.
    + intros Hin. apply Htr in Hin. destruct Hin as (_ & Hne & _).
      apply Hne. reflexivity.
  - rewrite Hscan. reflexivity.
Qed.

End ClosingVariants.

Lemma closeAll_closes_everything_witness :
  wellFormed nestedEnv nestedState /\
  exists s' D,
    closeAll nestedEnv 4 4 nestedState = Done s' /\
    open_archives_ s' = [] /\
    destroyed s' = destroyed nestedState ++ D /\
    (forall x, In x D <-> tracked nestedState x) /\
    heap s' = heap nestedState.
Proof.
  assert (Hwf : wellFormed nestedEnv nestedState)
    by (apply wellFormedb_sound; vm_compute; reflexivity).
  split; [exact Hwf|].
  apply (closeAll_closes_everything nestedEnv 4 4 nestedState Hwf);
    cbn [nestedState open_archives_ List.length]; lia.
Defined.


Lemma closeArchivePtr_closes_witness :
  wellFormed nestedEnv nestedState /\
  (~ tracked nestedState 1 ->
   closeArchivePtr nestedEnv 4 1 nestedState = Done (false, nestedState)) /\
  (tracked nestedState 1 ->
   exists s',
     closeArchivePtr nestedEnv 4 1 nestedState = Done (true, s') /\
     In 1 (destroyed s') /\ ~ tracked s' 1 /\
     (forall y, tracked s' y -> tracked nestedState y)).
Proof.
  assert (Hwf : wellFormed nestedEnv nestedState)
    by (apply wellFormedb_sound; vm_compute; reflexivity).
  split; [exact Hwf|].
  apply (closeArchivePtr_closes nestedEnv 4 1 nestedState Hwf).
  cbn [nestedState open_archives_ List.length]. lia.
Defined.

Lemma closeArchiveNamed_closes_found_witness :
  wellFormed nestedEnv nestedState /\
  exists s',
    closeArchiveNamed nestedEnv 4 "other.wad" nestedState = Done (true, s') /\
    In 3 (destroyed s') /\ ~ tracked s' 3.
Proof.
  assert (Hwf : wellFormed nestedEnv nestedState)
    by (apply wellFormedb_sound; vm_compute; reflexivity).
  split; [exact Hwf|].
  apply (closeArchiveNamed_closes_found nestedEnv 4 "other.wad" nestedState
           Hwf).
  cbn [nestedState open_archives_ List.length]. lia.
Defined.

(** ** The recent-file list *)

Section RecentFileList.

Context (E : Env).

Lemma trimRecent_within (passes : nat) (max : Z) (v : list string) :
  (Z.of_nat (List.length v) <= to_uint32 max)%Z ->
  trimRecent passes max v = v.
Proof.
  intros Hlen. destruct passes as [|passes]; [reflexivity|].
  cbn [trimRecent].
  replace ((to_uint32 max <? Z.of_nat (List.length v))%Z) with false
    by (symmetry; apply Z.ltb_ge; exact Hlen).
  reflexivity.
Qed.

(** Adding a path that is on disk and not yet listed, with room left. *)
Lemma addRecentFile_fresh (path : string) (s : State) :
  fileExists E path || dirExists E path = true ->
  ~ In (replaceBackslash path) (recent_files_ s) ->
  (Z.of_nat (List.length (recent_files_ s)) < to_uint32 (max_recent_files s))%Z ->
  recent_files_ (addRecentFile E path s)
  = replaceBackslash path :: recent_files_ s.
Proof.
  intros Hex Hnew Hroom. unfold addRecentFile. rewrite Hex. cbn [negb].
  destruct (indexOf_from String.eqb 0 (replaceBackslash path) (recent_files_ s))
    as [a|] eqn:Hidx.
  - apply (indexOf_from_Some String.eqb string_eqb_spec) in Hidx.
    destruct Hidx as (before & after & Hv & _ & _).
    exfalso. apply Hnew. rewrite Hv. apply in_or_app. right. left. reflexivity.
  - rewrite announce_recent_files. state_simpl.
    apply trimRecent_within. cbn [List.length]. lia.
Qed.

(** Every listed path was listed before or is the path just added. *)
Lemma addRecentFile_In (path : string) (s : State) (p : string) :
  In p (recent_files_ (addRecentFile E path s)) ->
  p = replaceBackslash path \/ In p (recent_files_ s).
Proof.
  unfold addRecentFile.
  destruct (negb (fileExists E path || dirExists E path));
    [intros H; right; exact H|].
  destruct (indexOf_from String.eqb 0 (replaceBackslash path) (recent_files_ s))
    as [a|]; rewrite announce_recent_files; state_simpl.
  - intros [H|H]; [left; symmetry; exact H|right].
    exact (eraseAt_In _ _ _ H).
  - destruct (trimRecent_firstn
                (List.length (replaceBackslash path :: recent_files_ s))
                (max_recent_files s)
                (replaceBackslash path :: recent_files_ s)) as [k Hk].
    rewrite Hk. intros H.
    assert (H' : In p (replaceBackslash path :: recent_files_ s)).
    { rewrite <- (firstn_skipn k). apply in_or_app. left. exact H. }
    clear H. rename H' into H.
    destruct H as [H|H]; [left; symmetry; exact H|right; exact H].
Qed.

(** While the announcer is muted, adding recent files announces nothing
    and leaves it muted. *)
Lemma addRecentFile_muted (path : string) (s : State) :
  muted_ s = true ->
  muted_ (addRecentFile E path s) = true /\
  announced (addRecentFile E path s) = announced s.
Proof.
  intros Hm. unfold addRecentFile.
  destruct (negb (fileExists E path || dirExists E path));
    [split; [exact Hm|reflexivity]|].
  destruct (indexOf_from String.eqb 0 (replaceBackslash path) (recent_files_ s));
    unfold announce; state_simpl; rewrite Hm; state_simpl;
      split; (exact Hm || reflexivity).
Qed.

Lemma addRecentFile_fold_muted (paths : list string) (s : State) :
  muted_ s = true ->
  muted_ (fold_left (fun st path => addRecentFile E path st) paths s) = true /\
  announced (fold_left (fun st path => addRecentFile E path st) paths s)
  = announced s.
Proof.
  revert s. induction paths as [|p paths IH]; intros s Hm; cbn [fold_left].
  - split; [exact Hm|reflexivity].
  - destruct (addRecentFile_muted p s Hm) as [Hm1 Ha1].
    destruct (IH _ Hm1) as [Hm2 Ha2]. split; [exact Hm2|congruence].
Qed.

Lemma addRecentFile_fold_In (paths : list string) (s : State) (p : string) :
  In p (recent_files_
          (fold_left (fun st path => addRecentFile E path st) paths s)) ->
  In p (recent_files_ s) \/
  exists q, In q paths /\ p = replaceBackslash q.
Proof.
  revert s. induction paths as [|q paths IH]; intros s; cbn [fold_left].
  - intros H. left. exact H.
  - intros H. destruct (IH _ H) as [H1|(q' & Hq' & Hp)].
    + destruct (addRecentFile_In q s p H1) as [H2|H2].
      * right. exists q. split; [left; reflexivity|exact H2].
      * left. exact H2.
    + right. exists q'. split; [right; exact Hq'|exact Hp].
Qed.

(** X7: [addRecentFiles] replaces the list and announces once.  Whatever
    the paths and whether or not the manager was muted before, the call
    ends unmuted with exactly one "recent_files_changed" appended to what
    was announced, and every path then listed is the slash-normalised form
    of one of the given paths. *)
Theorem addRecentFiles_announces_once (paths : list string) (s : State) :
  announced (addRecentFiles E paths s)
  = announced s ++ [("recent_files_changed", None)] /\
  muted_ (addRecentFiles E paths s) = false /\
  (forall p, In p (recent_files_ (addRecentFiles E paths s)) ->
             exists q, In q paths /\ p = replaceBackslash q).
Proof.
  unfold addRecentFiles.
  set (s0 := set_recent_files [] (set_muted true s)).
  destruct (addRecentFile_fold_muted paths s0 eq_refl) as [_ Hann].
  set (s1 := fold_left (fun st path => addRecentFile E path st) paths s0) in *.
  split; [|split].
  - unfold announce. state_simpl. rewrite Hann. reflexivity.
  - rewrite announce_muted. reflexivity.
  - intros p. rewrite announce_recent_files. state_simpl. intros Hp.
    assert (Hs1 : In p (recent_files_ s1)).
    { destruct s1. exact Hp. }
    destruct (addRecentFile_fold_In paths s0 p Hs1) as [[]|H]. exact H.
Qed.

Lemma addRecentFile_fold_reversed (paths : list string) (s : State) :
  (forall q, In q paths -> fileExists E q || dirExists E q = true) ->
  NoDup (map replaceBackslash paths) ->
  (forall q, In q paths -> ~ In (replaceBackslash q) (recent_files_ s)) ->
  (Z.of_nat (List.length (recent_files_ s) + List.length paths)
   <= to_uint32 (max_recent_files s))%Z ->
  recent_files_ (fold_left (fun st path => addRecentFile E path st) paths s)
  = rev (map replaceBackslash paths) ++ recent_files_ s.
Proof.
  revert s. induction paths as [|q paths IH]; intros s Hex Hnd Hnew Hroom;
    cbn [fold_left map rev]; [reflexivity|].
  cbn [map] in Hnd. inversion Hnd as [|? ? Hq Hnd']; subst.
  assert (Hfresh : recent_files_ (addRecentFile E q s)
                   = replaceBackslash q :: recent_files_ s).
  { apply addRecentFile_fresh.
    - apply Hex. left. reflexivity.
    - apply Hnew. left. reflexivity.
    - cbn [List.length] in Hroom. lia. }
  rewrite IH.
  - rewrite Hfresh, <- app_assoc. reflexivity.
  - intros q' Hq'. apply Hex. right. exact Hq'.
  - exact Hnd'.
  - intros q' Hq'. rewrite Hfresh. intros [H|H].
    + apply Hq. rewrite H. apply in_map. exact Hq'.
    + exact (Hnew q' (or_intror Hq') H).
  - rewrite Hfresh, addRecentFile_max. cbn [List.length] in *. lia.
Qed.

(** X8: [addRecentFiles] lists the paths last to first.  When every given
    path is on disk, no two normalise to the same path and they fit the
    configured maximum, the recent-file list afterwards is the normalised
    paths in reverse order: each path is put in front of the ones before. *)
Theorem addRecentFiles_reversed (paths : list string) (s : State) :
  (forall q, In q paths -> fileExists E q || dirExists E q = true) ->
  NoDup (map replaceBackslash paths) ->
  (Z.of_nat (List.length paths) <= to_uint32 (max_recent_files s))%Z ->
  recent_files_ (addRecentFiles E paths s)
  = rev (map replaceBackslash paths).
Proof.
  intros Hex Hnd Hroom. unfold addRecentFiles.
  rewrite announce_recent_files.
  set (s0 := set_recent_files [] (set_muted true s)).
  transitivity
    (recent_files_ (fold_left (fun st path => addRecentFile E path st)
                      paths s0)).
  { destruct (fold_left _ paths s0). reflexivity. }
  rewrite addRecentFile_fold_reversed.
  - apply app_nil_r.
  - exact Hex.
  - exact Hnd.
  - intros q _ [].
  - exact Hroom.
Qed.

(** X9: a round trip through the recent files.  After [addRecentFile] of
    a path that is on disk, was not listed and for which there was room,
    [recentFile] finds the normalised path at index 0, and
    [removeRecentFile] of the normalised path gives the list back. *)
Theorem removeRecentFile_undoes_add (path : string) (s : State) :
  fileExists E path || dirExists E path = true ->
  ~ In (replaceBackslash path) (recent_files_ s) ->
  (Z.of_nat (List.length (recent_files_ s)) < to_uint32 (max_recent_files s))%Z ->
  recentFile 0%Z (addRecentFile E path s) = replaceBackslash path /\
  recent_files_ (removeRecentFile (replaceBackslash path)
                   (addRecentFile E path s))
  = recent_files_ s.
Proof.
  intros Hex Hnew Hroom.
  pose proof (addRecentFile_fresh path s Hex Hnew Hroom) as Hadd.
  split.
  - unfold recentFile. rewrite Hadd. reflexivity.
  - unfold removeRecentFile. rewrite Hadd.
    cbn [indexOf_from]. rewrite String.eqb_refl.
    rewrite announce_recent_files. reflexivity.
Qed.

(** X10: [removeRecentFile] compares the path as given.  A path with a
    backslash is listed in its normalised form, so removing it under the
    spelling it was added with finds nothing and changes nothing. *)
Theorem removeRecentFile_other_spelling (path : string) (s : State) :
  replaceBackslash path <> path ->
  ~ In path (recent_files_ s) ->
  removeRecentFile path (addRecentFile E path s) = addRecentFile E path s.
Proof.
  intros Hne Hnew. unfold removeRecentFile.
  destruct (indexOf_from String.eqb 0 path
              (recent_files_ (addRecentFile E path s))) as [a|] eqn:Hidx;
    [|reflexivity].
  apply (indexOf_from_Some String.eqb string_eqb_spec) in Hidx.
  destruct Hidx as (before & after & Hv & _ & _).
  assert (Hin : In path (recent_files_ (addRecentFile E path s)))
    by (rewrite Hv; apply in_or_app; right; left; reflexivity).
  destruct (addRecentFile_In path s path Hin) as [H|H].
  - exfalso. apply Hne. symmetry. exact H.
  - contradiction.
Qed.

End RecentFileList.

Lemma addRecentFiles_reversed_witness :
  recent_files_ (addRecentFiles (diskEnv ["a.wad"; "b.wad"])
                   ["a.wad"; "b.wad"] initial)
  = rev (map replaceBackslash ["a.wad"; "b.wad"]).
Proof.
  apply (addRecentFiles_reversed (diskEnv ["a.wad"; "b.wad"])
           ["a.wad"; "b.wad"] initial).
  - intros q [Hq|[Hq|[]]]; subst q; reflexivity.
  - apply NoDup_cons; [|apply NoDup_cons; [|apply NoDup_nil]].
    + cbn. intros [H|[]]. discriminate H.
    + intros [].
  - vm_compute. discriminate.
Defined.

Lemma removeRecentFile_undoes_add_witness :
  recentFile 0%Z (addRecentFile slashEnv "C:\maps\a.wad" initial)
  = replaceBackslash "C:\maps\a.wad" /\
  recent_files_ (removeRecentFile (replaceBackslash "C:\maps\a.wad")
                   (addRecentFile slashEnv "C:\maps\a.wad" initial))
  = recent_files_ initial.
Proof.
  apply (removeRecentFile_undoes_add slashEnv "C:\maps\a.wad" initial).
  - reflexivity.
  - intros [].
  - vm_compute. reflexivity.
Defined.

Lemma removeRecentFile_other_spelling_witness :
  removeRecentFile "C:\maps\a.wad"
    (addRecentFile slashEnv "C:\maps\a.wad" initial)
  = addRecentFile slashEnv "C:\maps\a.wad" initial.
Proof.
  apply (removeRecentFile_other_spelling slashEnv "C:\maps\a.wad" initial).
  - vm_compute. discriminate.
  - intros [].
Defined.

(** ** The bookmark list *)

Section BookmarkList.

Context (E : Env).

(** X11: the bookmark list never holds an entry twice: each of
    [addBookmark], the two [deleteBookmark]s and
    [deleteBookmarksInArchive] takes a list without duplicates to a list
    without duplicates. *)
Theorem bookmarks_stay_distinct (entry : Entry) (index : Z) (x : Handle)
    (s : State) :
  NoDup (bookmarks_ s) ->
  NoDup (bookmarks_ (addBookmark entry s)) /\
  NoDup (bookmarks_ (snd (deleteBookmark entry s))) /\
  NoDup (bookmarks_ (snd (deleteBookmarkAt index s))) /\
  NoDup (bookmarks_ (snd (deleteBookmarksInArchive E x s))).
Proof.
  intros Hnd. split; [|split; [|split]].
  - unfold addBookmark.
    destruct (existsb (fun b => Nat.eqb b entry) (bookmarks_ s)) eqn:Hex;
      [exact Hnd|].
    rewrite announce_bookmarks. state_simpl.
    apply NoDup_app; [exact Hnd|repeat constructor; intros []|].
    intros b Hb [Hbe|[]]. subst b.
    assert (Hc : existsb (fun b => Nat.eqb b entry) (bookmarks_ s) = true).
    { apply existsb_exists. exists entry. split; [exact Hb|].
      apply Nat.eqb_refl. }
    congruence.
  - unfold deleteBookmark.
    destruct (indexOf_from Nat.eqb 0 entry (bookmarks_ s)); [|exact Hnd].
    cbn [snd]. rewrite announce_bookmarks. state_simpl.
    apply NoDup_eraseAt. exact Hnd.
  - unfold deleteBookmarkAt.
    destruct (Z.of_nat (List.length (bookmarks_ s)) <=? index)%Z; [exact Hnd|].
    cbn [snd]. rewrite announce_bookmarks. state_simpl.
    apply NoDup_eraseAt. exact Hnd.
  - unfold deleteBookmarksInArchive.
    rewrite deleteBookmarksInArchive_loop_spec. cbn [orb].
    destruct (existsb _ (bookmarks_ s)); cbn [snd];
      [rewrite announce_bookmarks|]; state_simpl;
      apply NoDup_filter; exact Hnd.
Qed.

(** X12: a round trip through the bookmarks.  Bookmarking an entry that is
    not bookmarked puts it at the end of the list, where [getBookmark]
    finds it, and [deleteBookmark] of the entry then gives the list back;
    bookmarking it a second time changes nothing, announcements
    included. *)
Theorem addBookmark_roundtrip (entry : Entry) (s : State) :
  ~ In entry (bookmarks_ s) ->
  bookmarks_ (addBookmark entry s) = bookmarks_ s ++ [entry] /\
  getBookmark (Z.of_nat (List.length (bookmarks_ s))) (addBookmark entry s)
  = Some entry /\
  fst (deleteBookmark entry (addBookmark entry s)) = true /\
  bookmarks_ (snd (deleteBookmark entry (addBookmark entry s)))
  = bookmarks_ s /\
  addBookmark entry (addBookmark entry s) = addBookmark entry s.
Proof.
  intros Hnew.
  assert (Hadd : bookmarks_ (addBookmark entry s) = bookmarks_ s ++ [entry]).
  { unfold addBookmark.
    destruct (existsb (fun b => Nat.eqb b entry) (bookmarks_ s)) eqn:Hex.
    - apply existsb_exists in Hex. destruct Hex as (b & Hb & Heq).
      apply Nat.eqb_eq in Heq. subst b. contradiction.
    - rewrite announce_bookmarks. reflexivity. }
  assert (Hidx : indexOf_from Nat.eqb 0 entry (bookmarks_ s ++ [entry])
                 = Some (0 + List.length (bookmarks_ s)))
    by exact (indexOf_from_first Nat.eqb nat_eqb_spec 0 entry _ [] Hnew).
  split; [exact Hadd|]. split; [|split; [|split]].
  - unfold getBookmark. rewrite Hadd, length_app. cbn [List.length].
    replace ((Z.of_nat (List.length (bookmarks_ s) + 1)
              <=? Z.of_nat (List.length (bookmarks_ s)))%Z) with false
      by (symmetry; apply Z.leb_gt; lia).
    rewrite Nat2Z.id. apply nth_error_middle.
  - unfold deleteBookmark. rewrite Hadd, Hidx. reflexivity.
  - unfold deleteBookmark. rewrite Hadd, Hidx. cbn [snd Nat.add].
    rewrite announce_bookmarks. state_simpl.
    rewrite eraseAt_split. apply app_nil_r.
  - unfold addBookmark at 1. rewrite Hadd.
    replace (existsb (fun b => Nat.eqb b entry) (bookmarks_ s ++ [entry]))
      with true; [reflexivity|].
    symmetry. apply existsb_exists. exists entry.
    split; [apply in_or_app; right; left; reflexivity|apply Nat.eqb_refl].
Qed.

End BookmarkList.

Lemma bookmarks_stay_distinct_witness :
  NoDup (bookmarks_ (addBookmark 6 bookmarkedState)) /\
  NoDup (bookmarks_ (snd (deleteBookmark 6 bookmarkedState))) /\
  NoDup (bookmarks_ (snd (deleteBookmarkAt 1%Z bookmarkedState))) /\
  NoDup (bookmarks_ (snd (deleteBookmarksInArchive bookmarkEnv 0
                            bookmarkedState))).
Proof.
  apply (bookmarks_stay_distinct bookmarkEnv 6 1%Z 0 bookmarkedState).
  apply nodupb_sound. vm_compute. reflexivity.
Defined.

Lemma addBookmark_roundtrip_witness :
  bookmarks_ (addBookmark 9 bookmarkedState)
  = bookmarks_ bookmarkedState ++ [9] /\
  getBookmark (Z.of_nat (List.length (bookmarks_ bookmarkedState)))
    (addBookmark 9 bookmarkedState) = Some 9 /\
  fst (deleteBookmark 9 (addBookmark 9 bookmarkedState)) = true /\
  bookmarks_ (snd (deleteBookmark 9 (addBookmark 9 bookmarkedState)))
  = bookmarks_ bookmarkedState /\
  addBookmark 9 (addBookmark 9 bookmarkedState) = addBookmark 9 bookmarkedState.
Proof.
  apply (addBookmark_roundtrip 9 bookmarkedState).
  vm_compute. intuition discriminate.
Defined.

(** ** Base resource paths and the base resource archive *)

Section BaseResourcePaths.

Context (E : Env).

Lemma openBaseResource_paths (index : Z) (s : State) :
  base_resource_paths_ (snd (openBaseResource E index s))
  = base_resource_paths_ s.
Proof.
  unfold openBaseResource.
  destruct (match base_resource_archive_ s with
            | Some _ => true
            | None => false
            end && (base_resource s =? index)%Z)%bool; [reflexivity|].
  set (s1 := match base_resource_archive_ s with
             | Some b =>
                 delete_archive b
                   (set_base_resource_archive None
                      (resources_removeArchive b s))
             | None => s
             end).
  assert (H1 : base_resource_paths_ s1 = base_resource_paths_ s).
  { unfold s1. destruct (base_resource_archive_ s); reflexivity. }
  clearbody s1.
  destruct ((index <? 0)%Z || _)%bool.
  { cbn [snd]. rewrite announce_base_resource_paths. exact H1. }
  destruct (nth_error (base_resource_paths_ s1) (Z.to_nat index)) as [path|];
    [|exact H1].
  destruct (isFormatFile E Wad path).
  - cbn [new_archive]. unfold archive_open_file.
    destruct (loadFile E Wad path); cbn [snd];
      rewrite announce_base_resource_paths; exact H1.
  - destruct (isFormatFile E Zip path); [|exact H1].
    cbn [new_archive]. unfold archive_open_file.
    destruct (loadFile E Zip path); cbn [snd];
      rewrite announce_base_resource_paths; exact H1.
Qed.

(** X13: the list of base resource paths never holds a path twice:
    [addBaseResourcePath] refuses a path that is listed or not on disk,
    and [removeBaseResourcePath] only takes a path out.  A path that was
    added is found by [getBaseResourcePath] at the end of the list. *)
Theorem base_resource_paths_distinct (path : string) (index : Z) (s : State) :
  NoDup (base_resource_paths_ s) ->
  NoDup (base_resource_paths_ (snd (addBaseResourcePath E path s))) /\
  NoDup (base_resource_paths_ (removeBaseResourcePath E index s)) /\
  (fst (addBaseResourcePath E path s) = true <->
   fileExists E path = true /\ ~ In path (base_resource_paths_ s)) /\
  (fst (addBaseResourcePath E path s) = true ->
   getBaseResourcePath (Z.of_nat (List.length (base_resource_paths_ s)))
     (snd (addBaseResourcePath E path s)) = path).
Proof.
  intros Hnd.
  assert (Hex : existsb (fun p => String.eqb p path) (base_resource_paths_ s)
                = true <-> In path (base_resource_paths_ s)).
  { rewrite existsb_exists. split.
    - intros (p & Hp & Heq). apply String.eqb_eq in Heq. subst p. exact Hp.
    - intros Hp. exists path. split; [exact Hp|apply String.eqb_refl]. }
  assert (Hrem : NoDup (base_resource_paths_
                          (removeBaseResourcePath E index s))).
  { unfold removeBaseResourcePath.
    destruct (Z.of_nat (List.length (base_resource_paths_ s)) <=? index)%Z;
      [exact Hnd|].
    rewrite announce_base_resource_paths. state_simpl.
    apply NoDup_eraseAt.
    destruct (index =? to_uint32 (base_resource s))%Z;
      [rewrite openBaseResource_paths; exact Hnd|].
    destruct (to_int32 index <? base_resource s)%Z; exact Hnd. }
  unfold addBaseResourcePath.
  destruct (fileExists E path); cbn [negb].
  - destruct (existsb (fun p => String.eqb p path) (base_resource_paths_ s))
      eqn:Hlisted; cbn [fst snd].
    + split; [exact Hnd|]. split; [exact Hrem|]. split; [|discriminate].
      split; [discriminate|]. intros [_ Hn]. exfalso. apply Hn.
      apply Hex. reflexivity.
    + assert (Hn : ~ In path (base_resource_paths_ s)).
      { intros Hin. apply Hex in Hin. congruence. }
      rewrite announce_base_resource_paths. state_simpl.
      split; [|split; [exact Hrem|split]].
      * apply NoDup_app; [exact Hnd|repeat constructor; intros []|].
        intros p Hp [Hpe|[]]. subst p. contradiction.
      * split; [intros _; split; [reflexivity|exact Hn]|reflexivity].
      * intros _. unfold getBaseResourcePath.
        rewrite announce_base_resource_paths. state_simpl.
        rewrite length_app. cbn [List.length].
        replace ((Z.of_nat (List.length (base_resource_paths_ s) + 1)
                  <=? Z.of_nat (List.length (base_resource_paths_ s)))%Z)
          with false by (symmetry; apply Z.leb_gt; lia).
        rewrite Nat2Z.id, app_nth2, Nat.sub_diag by lia. reflexivity.
  - cbn [fst snd]. split; [exact Hnd|]. split; [exact Hrem|].
    split; [|discriminate].
    split; [discriminate|]. intros [H _]. discriminate H.
Qed.

(** A successful [openBaseResource] leaves an archive loaded and the
    [base_resource] setting at the index asked for. *)
Lemma openBaseResource_success (index : Z) (s : State) :
  fst (openBaseResource E index s) = true ->
  (exists b, base_resource_archive_ (snd (openBaseResource E index s))
             = Some b) /\
  base_resource (snd (openBaseResource E index s)) = index.
Proof.
  unfold openBaseResource.
  destruct (match base_resource_archive_ s with
            | Some _ => true
            | None => false
            end && (base_resource s =? index)%Z)%bool eqn:Hsame.
  { intros _. apply andb_true_iff in Hsame. destruct Hsame as [Hl He].
    cbn [snd]. split; [|apply Z.eqb_eq; exact He].
    destruct (base_resource_archive_ s) as [b|]; [|discriminate Hl].
    exists b. reflexivity. }
  set (s1 := match base_resource_archive_ s with
             | Some b =>
                 delete_archive b
                   (set_base_resource_archive None
                      (resources_removeArchive b s))
             | None => s
             end).
  clearbody s1.
  destruct ((index <? 0)%Z || _)%bool; [intros H; discriminate H|].
  destruct (nth_error (base_resource_paths_ s1) (Z.to_nat index)) as [path|];
    [|intros H; discriminate H].
  destruct (isFormatFile E Wad path).
  - cbn [new_archive]. unfold archive_open_file.
    destruct (loadFile E Wad path); cbn [fst snd];
      [|intros H; discriminate H].
    intros _. rewrite announce_base_resource_archive, announce_base_resource.
    split; [eexists|]; reflexivity.
  - destruct (isFormatFile E Zip path); [|intros H; discriminate H].
    cbn [new_archive]. unfold archive_open_file.
    destruct (loadFile E Zip path); cbn [fst snd];
      [|intros H; discriminate H].
    intros _. rewrite announce_base_resource_archive, announce_base_resource.
    split; [eexists|]; reflexivity.
Qed.

(** X14: [openBaseResource] is idempotent.  Once a call with [index] has
    succeeded, calling again with the same index, or [initBaseResource],
    returns true and changes nothing: no reload, no announcement. *)
Theorem openBaseResource_again (index : Z) (s : State) :
  fst (openBaseResource E index s) = true ->
  openBaseResource E index (snd (openBaseResource E index s))
  = (true, snd (openBaseResource E index s)) /\
  initBaseResource E (snd (openBaseResource E index s))
  = (true, snd (openBaseResource E index s)).
Proof.
  intros Hok. destruct (openBaseResource_success index s Hok) as [[b Hb] Hi].
  set (s' := snd (openBaseResource E index s)) in *. clearbody s'.
  assert (Hagain : openBaseResource E index s' = (true, s')).
  { unfold openBaseResource. rewrite Hb, Hi, Z.eqb_refl. reflexivity. }
  split; [exact Hagain|].
  unfold initBaseResource. rewrite Hi. exact Hagain.
Qed.

(** X15: switching the base resource.  When an archive is loaded and
    [openBaseResource] succeeds for another index, the old archive has been
    taken out of the resource pool and deleted, and a new archive, loaded
    from the path at that index, is the base resource archive and the last
    archive of the pool; the list of open archives is not touched. *)
Theorem openBaseResource_switch (index : Z) (old : Handle) (s : State) :
  base_resource_archive_ s = Some old ->
  base_resource s <> index ->
  fst (openBaseResource E index s) = true ->
  let s' := snd (openBaseResource E index s) in
  base_resource_archive_ s' = Some (List.length (heap s)) /\
  destroyed s' = destroyed s ++ [old] /\
  resources s'
  = filter (fun y => negb (Nat.eqb y old)) (resources s)
    ++ [List.length (heap s)] /\
  open_archives_ s' = open_archives_ s /\
  exists path,
    nth_error (base_resource_paths_ s) (Z.to_nat index) = Some path /\
    filename E s' (List.length (heap s)) = path.
Proof.
  intros Hold Hne. unfold openBaseResource. rewrite Hold.
  replace ((base_resource s =? index)%Z) with false
    by (symmetry; apply Z.eqb_neq; exact Hne).
  cbn [andb].
  set (s1 := delete_archive old
               (set_base_resource_archive None
                  (resources_removeArchive old s))).
  assert (H1 : base_resource_paths_ s1 = base_resource_paths_ s
               /\ heap s1 = heap s /\ destroyed s1 = destroyed s ++ [old]
               /\ resources s1
                  = filter (fun y => negb (Nat.eqb y old)) (resources s)
               /\ open_archives_ s1 = open_archives_ s)
    by (repeat split).
  destruct H1 as (Hp & Hh & Hd & Hr & Ho). clearbody s1.
  destruct ((index <? 0)%Z || _)%bool; [intros H; discriminate H|].
  rewrite <- Hp, <- Hh, <- Hd, <- Hr, <- Ho.
  destruct (nth_error (base_resource_paths_ s1) (Z.to_nat index)) as [path|];
    [|intros H; discriminate H].
  assert (Hload : forall f,
            loadFile E f path = true ->
            let s' := announce "base_resource_changed" None
                        (resources_addArchive (List.length (heap s1))
                           (set_base_resource index
                              (set_heap
                                 (setAt (List.length (heap s1))
                                    (mkArchive f path None)
                                    (heap s1 ++ [mkArchive f "" None]))
                                 (set_base_resource_archive
                                    (Some (List.length (heap s1)))
                                    (set_heap
                                       (heap s1 ++ [mkArchive f "" None])
                                       s1))))) in
            base_resource_archive_ s' = Some (List.length (heap s1)) /\
            destroyed s' = destroyed s1 /\
            resources s' = resources s1 ++ [List.length (heap s1)] /\
            open_archives_ s' = open_archives_ s1 /\
            exists path0,
              Some path = Some path0 /\
              filename E s' (List.length (heap s1)) = path0).
  { intros f _ s'. unfold s'. clear s'.
    split; [rewrite announce_base_resource_archive; reflexivity|].
    split; [rewrite announce_destroyed; reflexivity|].
    split; [rewrite announce_resources; reflexivity|].
    split; [rewrite announce_open_archives; reflexivity|].
    exists path. split; [reflexivity|].
    unfold filename. rewrite announce_heap.
    unfold resources_addArchive. state_simpl.
    rewrite nth_error_alloc_new. reflexivity. }
  destruct (isFormatFile E Wad path).
  - cbn [new_archive]. unfold archive_open_file. state_simpl.
    destruct (loadFile E Wad path) eqn:Hl; cbn [fst snd];
      [|intros H; discriminate H].
    intros _. exact (Hload Wad Hl).
  - destruct (isFormatFile E Zip path); [|intros H; discriminate H].
    cbn [new_archive]. unfold archive_open_file. state_simpl.
    destruct (loadFile E Zip path) eqn:Hl; cbn [fst snd];
      [|intros H; discriminate H].
    intros _. exact (Hload Zip Hl).
Qed.

End BaseResourcePaths.

Lemma base_resource_paths_distinct_witness :
  NoDup (base_resource_paths_
           (snd (addBaseResourcePath (diskEnv ["p2.wad"]) "p2.wad"
                   secondLoaded))) /\
  NoDup (base_resource_paths_
           (removeBaseResourcePath (diskEnv ["p2.wad"]) 0%Z secondLoaded)) /\
  (fst (addBaseResourcePath (diskEnv ["p2.wad"]) "p2.wad" secondLoaded) = true
   <-> fileExists (diskEnv ["p2.wad"]) "p2.wad" = true /\
       ~ In "p2.wad" (base_resource_paths_ secondLoaded)) /\
  (fst (addBaseResourcePath (diskEnv ["p2.wad"]) "p2.wad" secondLoaded) = true
   -> getBaseResourcePath
        (Z.of_nat (List.length (base_resource_paths_ secondLoaded)))
        (snd (addBaseResourcePath (diskEnv ["p2.wad"]) "p2.wad" secondLoaded))
      = "p2.wad").
Proof.
  apply (base_resource_paths_distinct (diskEnv ["p2.wad"]) "p2.wad" 0%Z
           secondLoaded).
  cbn [secondLoaded base_resource_paths_].
  apply NoDup_cons; [|apply NoDup_cons; [intros []|apply NoDup_nil]].
  intros [H|[]]. discriminate H.
Defined.

Lemma openBaseResource_again_witness :
  openBaseResource slashEnv 1%Z (snd (openBaseResource slashEnv 1%Z baseLoaded))
  = (true, snd (openBaseResource slashEnv 1%Z baseLoaded)) /\
  initBaseResource slashEnv (snd (openBaseResource slashEnv 1%Z baseLoaded))
  = (true, snd (openBaseResource slashEnv 1%Z baseLoaded)).
Proof.
  apply (openBaseResource_again slashEnv 1%Z baseLoaded). reflexivity.
Defined.

Lemma openBaseResource_switch_witness :
  let s' := snd (openBaseResource slashEnv 1%Z baseLoaded) in
  base_resource_archive_ s' = Some (List.length (heap baseLoaded)) /\
  destroyed s' = destroyed baseLoaded ++ [0] /\
  resources s'
  = filter (fun y => negb (Nat.eqb y 0)) (resources baseLoaded)
    ++ [List.length (heap baseLoaded)] /\
  open_archives_ s' = open_archives_ baseLoaded /\
  exists path,
    nth_error (base_resource_paths_ baseLoaded) (Z.to_nat 1%Z) = Some path /\
    filename slashEnv s' (List.length (heap baseLoaded)) = path.
Proof.
  apply (openBaseResource_switch slashEnv 1%Z 0 baseLoaded).
  - reflexivity.
  - vm_compute. discriminate.
  - reflexivity.
Defined.

(** ** What closing announces *)

Lemma extends_refl (s : State) : extends s s.
Proof. split; [reflexivity|]. exists []. symmetry. apply app_nil_r. Qed.

Lemma extends_trans (s1 s2 s3 : State) :
  extends s1 s2 -> extends s2 s3 -> extends s1 s3.
Proof.
  intros [Hm1 [e1 H1]] [Hm2 [e2 H2]]. split; [congruence|].
  exists (e1 ++ e2). rewrite H2, H1, app_assoc. reflexivity.
Qed.

Lemma extends_same (s s' : State) :
  muted_ s' = muted_ s -> announced s' = announced s -> extends s s'.
Proof.
  intros Hm Ha. split; [exact Hm|]. exists []. rewrite Ha.
  symmetry. apply app_nil_r.
Qed.

Lemma extends_announce (name : string) (data : option Z) (s : State) :
  extends s (announce name data s).
Proof.
  split; [apply announce_muted|]. unfold announce.
  destruct (muted_ s).
  - exists []. symmetry. apply app_nil_r.
  - exists [(name, data)]. reflexivity.
Qed.

Section ClosingAnnouncements.

Context (E : Env).

Lemma deleteBookmarksInArchive_extends (x : Handle) (s : State) :
  extends s (snd (deleteBookmarksInArchive E x s)).
Proof.
  unfold deleteBookmarksInArchive.
  destruct (deleteBookmarksInArchive_loop E x (bookmarks_ s) false)
    as [kept removed].
  destruct removed; cbn [snd].
  - apply (extends_trans _ (set_bookmarks kept s)).
    + apply extends_same; reflexivity.
    + apply extends_announce.
  - apply extends_same; reflexivity.
Qed.

Lemma set_children_extends (index : nat) (cs : list Handle) (s : State) :
  extends s (set_children index cs s).
Proof.
  unfold set_children. destruct (nth_error (open_archives_ s) index).
  - apply extends_same; reflexivity.
  - apply extends_refl.
Qed.

Lemma detachFromParent_extends (x : Handle) (s : State) :
  extends s (detachFromParent E x s).
Proof.
  unfold detachFromParent.
  destruct (parentEntry s x) as [parent|]; [|apply extends_refl].
  destruct (entryParent E parent) as [gp|]; [|apply extends_refl].
  destruct (0 <=? archiveIndex gp s)%Z; [|apply extends_refl].
  destruct (nth_error (open_archives_ s) (Z.to_nat (archiveIndex gp s)));
    [apply set_children_extends|apply extends_refl].
Qed.

(** Every call of [closeArchive] only adds to what was announced; a call
    that closes an archive and is not muted starts with "archive_closing"
    and ends with "archive_closed", both carrying the index. *)
Lemma closeArchive_announced (fuel : nat) :
  forall (index : Z) (s : State) (r : bool) (s' : State),
    closeArchive E fuel index s = Done (r, s') ->
    extends s s' /\
    (r = false -> s' = s) /\
    (r = true -> muted_ s = false ->
     exists mid,
       announced s'
       = announced s
         ++ ("archive_closing", Some (to_int32 index)) :: mid
         ++ [("archive_closed", Some (to_int32 index))]).
Proof.
  induction fuel as [|fuel IH]; intros index s r s' Hrun;
    [discriminate Hrun|].
  cbn [closeArchive] in Hrun.
  destruct ((index <? 0)%Z || _)%bool.
  { injection Hrun as Hr Hs. subst r s'.
    split; [apply extends_refl|]. split; [reflexivity|discriminate]. }
  set (mc := Some (to_int32 index)) in *.
  set (sA := announce "archive_closing" mc s) in *.
  destruct (nth_error (open_archives_ sA) (Z.to_nat index)) as [oa|];
    [|discriminate Hrun].
  set (sD := set_children (Z.to_nat index) []
               (resources_removeArchive (archive oa)
                  (snd (deleteBookmarksInArchive E (archive oa) sA)))) in *.
  assert (HAD : extends sA sD).
  { apply (extends_trans _ (snd (deleteBookmarksInArchive E (archive oa) sA)));
      [apply deleteBookmarksInArchive_extends|].
    apply (extends_trans _ (resources_removeArchive (archive oa)
             (snd (deleteBookmarksInArchive E (archive oa) sA))));
      [apply extends_same; reflexivity|apply set_children_extends]. }
  clearbody sD.
  destruct (forEach _ (open_children oa) sD) as [sE| |] eqn:Hloop;
    cbn [bind] in Hrun; [|discriminate Hrun|discriminate Hrun].
  assert (HDE : extends sD sE).
  { refine (forEach_preserves (extends sD) _ _ _ sD sE Hloop (extends_refl sD)).
    intros child st st' Hbody Hst.
    destruct (0 <=? archiveIndex child st)%Z.
    - destruct (closeArchive E fuel (archiveIndex child st) st)
        as [[r1 st1]| |] eqn:Hchild; cbn [bind] in Hbody;
        [|discriminate Hbody|discriminate Hbody].
      injection Hbody as Hst'. cbn [snd] in Hst'. subst st'.
      exact (extends_trans _ _ _ Hst (proj1 (IH _ _ _ _ Hchild))).
    - injection Hbody as Hst'. subst st'. exact Hst. }
  clear Hloop.
  destruct (nth_error (open_archives_ sE) (Z.to_nat index)) as [oa'|];
    [|discriminate Hrun].
  set (sF := detachFromParent E (archive oa') sE) in *.
  assert (HEF : extends sE sF) by apply detachFromParent_extends.
  clearbody sF.
  destruct (nth_error (open_archives_ sF) (Z.to_nat index)) as [oa''|];
    [|discriminate Hrun].
  injection Hrun as Hr Hs'. subst r.
  set (sH := set_open_archives (eraseAt (Z.to_nat index) (open_archives_ sF))
               (delete_archive (archive oa'') sF)) in *.
  assert (HFH : extends sF sH) by (apply extends_same; reflexivity).
  clearbody sH.
  pose proof (extends_trans _ _ _ HAD
                (extends_trans _ _ _ HDE (extends_trans _ _ _ HEF HFH)))
    as HAH.
  split; [|split; [discriminate|]].
  - rewrite <- Hs'.
    exact (extends_trans _ _ _ (extends_announce _ _ s)
             (extends_trans _ _ _ HAH (extends_announce _ _ sH))).
  - intros _ Hm. destruct HAH as [HmH [mid Hmid]].
    exists mid. rewrite <- Hs'.
    assert (HmA : muted_ sA = false)
      by (unfold sA; rewrite announce_muted; exact Hm).
    rewrite announce_announced by congruence.
    rewrite Hmid. unfold sA. rewrite announce_announced by exact Hm.
    rewrite <- !app_assoc. reflexivity.
Qed.

(** X16: closing announces in brackets.  With the manager not muted,
    closing the tracked archive at [index] of a well-formed registry
    appends to the announcements first "archive_closing" and last
    "archive_closed", both with that index; whatever the call announces
    in between, for the bookmarks removed and the child archives closed,
    comes between the two. *)
Theorem closeArchive_brackets (s : State) (fuel index : nat)
    (oa : OpenArchive) :
  wellFormed E s ->
  List.length (open_archives_ s) <= fuel ->
  nth_error (open_archives_ s) index = Some oa ->
  muted_ s = false ->
  exists s' mid,
    closeArchive E fuel (Z.of_nat index) s = Done (true, s') /\
    muted_ s' = false /\
    announced s'
    = announced s
      ++ ("archive_closing", Some (to_int32 (Z.of_nat index))) :: mid
      ++ [("archive_closed", Some (to_int32 (Z.of_nat index)))].
Proof.
  intros Hwf Hfuel Hnth Hm.
  destruct (closeArchive_subtree E s fuel index oa Hwf Hfuel Hnth)
    as (s' & L & Hrun & _).
  destruct (closeArchive_announced fuel _ _ _ _ Hrun) as ([Hm' _] & _ & Hann).
  destruct (Hann eq_refl Hm) as [mid Hmid].
  exists s', mid. split; [exact Hrun|]. split; [congruence|exact Hmid].
Qed.

End ClosingAnnouncements.

Lemma closeArchive_brackets_witness :
  exists s' mid,
    closeArchive nestedEnv 4 (Z.of_nat 0) nestedState = Done (true, s') /\
    muted_ s' = false /\
    announced s'
    = announced nestedState
      ++ ("archive_closing", Some (to_int32 (Z.of_nat 0))) :: mid
      ++ [("archive_closed", Some (to_int32 (Z.of_nat 0)))].
Proof.
  apply (closeArchive_brackets nestedEnv nestedState 4 0
           (mkOpen 0 true [1])).
  - apply wellFormedb_sound. vm_compute. reflexivity.
  - cbn [nestedState open_archives_ List.length]. lia.
  - reflexivity.
  - reflexivity.
Defined.

(** ** Closing a tracked archive, in full *)

Section CascadeInFull.

Context (E : Env).

Lemma quietly_refl (s : State) : quietly s s.
Proof. unfold quietly, closeFrame. repeat split; reflexivity. Qed.

Lemma quietly_trans (s1 s2 s3 : State) :
  quietly s1 s2 -> quietly s2 s3 -> quietly s1 s3.
Proof.
  unfold quietly, closeFrame.
  intros [(A1 & A2 & A3 & A4 & A5 & A6 & A7) Ha]
         [(B1 & B2 & B3 & B4 & B5 & B6 & B7) Hb].
  repeat split; try congruence.
  intros Hm. rewrite Hb by congruence. exact (Ha Hm).
Qed.

Lemma quietly_announce (name : string) (data : option Z) (s : State) :
  quietly s (announce name data s).
Proof.
  unfold quietly, closeFrame. state_simpl.
  repeat split; try reflexivity.
  intros Hm. unfold announce. rewrite Hm. reflexivity.
Qed.

Lemma quietly_set_children (index : nat) (children : list Handle)
    (s : State) :
  quietly s (set_children index children s).
Proof.
  unfold set_children. destruct (nth_error (open_archives_ s) index);
    [|apply quietly_refl].
  unfold quietly, closeFrame. repeat split; reflexivity.
Qed.

Lemma quietly_detachFromParent (x : Handle) (s : State) :
  quietly s (detachFromParent E x s).
Proof.
  unfold detachFromParent.
  destruct (parentEntry s x) as [parent|]; [|apply quietly_refl].
  destruct (entryParent E parent) as [gp|]; [|apply quietly_refl].
  destruct (0 <=? archiveIndex gp s)%Z; [|apply quietly_refl].
  destruct (nth_error (open_archives_ s) (Z.to_nat (archiveIndex gp s)));
    [apply quietly_set_children|apply quietly_refl].
Qed.

Lemma quietly_deleteBookmarksInArchive (x : Handle) (s : State) :
  quietly s (snd (deleteBookmarksInArchive E x s)).
Proof.
  unfold deleteBookmarksInArchive.
  rewrite deleteBookmarksInArchive_loop_spec. cbn [orb].
  destruct (existsb _ (bookmarks_ s)); cbn [snd].
  - apply (quietly_trans _ (set_bookmarks
                              (filter
                                 (fun b =>
                                    negb (eqb_ptr (entryParent E b) (Some x)))
                                 (bookmarks_ s)) s)).
    + unfold quietly, closeFrame. repeat split; reflexivity.
    + apply quietly_announce.
  - unfold quietly, closeFrame. repeat split; reflexivity.
Qed.

(** Whatever its argument and result, [closeArchive] leaves the base
    resource, the recent files, the settings and the muting alone, and
    announces nothing when muted. *)
Lemma closeArchive_quietly (fuel : nat) :
  forall (index : Z) (s : State) (r : bool) (s' : State),
    closeArchive E fuel index s = Done (r, s') -> quietly s s'.
Proof.
  induction fuel as [|fuel IH]; intros index s r s' Hrun;
    [discriminate Hrun|].
  cbn [closeArchive] in Hrun.
  destruct ((index <? 0)%Z || _)%bool.
  { injection Hrun as Hr Hs. subst r s'. apply quietly_refl. }
  set (mc := Some (to_int32 index)) in *.
  set (sA := announce "archive_closing" mc s) in *.
  destruct (nth_error (open_archives_ sA) (Z.to_nat index)) as [oa|];
    [|discriminate Hrun].
  set (sD := set_children (Z.to_nat index) []
               (resources_removeArchive (archive oa)
                  (snd (deleteBookmarksInArchive E (archive oa) sA)))) in *.
  assert (HAD : quietly sA sD).
  { apply (quietly_trans _ (snd (deleteBookmarksInArchive E (archive oa) sA)));
      [apply quietly_deleteBookmarksInArchive|].
    apply (quietly_trans _ (resources_removeArchive (archive oa)
             (snd (deleteBookmarksInArchive E (archive oa) sA))));
      [|apply quietly_set_children].
    unfold quietly, closeFrame. repeat split; reflexivity. }
  clearbody sD.
  destruct (forEach _ (open_children oa) sD) as [sE| |] eqn:Hloop;
    cbn [bind] in Hrun; [|discriminate Hrun|discriminate Hrun].
  assert (HDE : quietly sD sE).
  { refine (forEach_preserves (quietly sD) _ _ _ sD sE Hloop (quietly_refl sD)).
    intros child st st' Hbody Hst.
    destruct (0 <=? archiveIndex child st)%Z.
    - destruct (closeArchive E fuel (archiveIndex child st) st)
        as [[r1 st1]| |] eqn:Hchild; cbn [bind] in Hbody;
        [|discriminate Hbody|discriminate Hbody].
      injection Hbody as Hst'. cbn [snd] in Hst'. subst st'.
      exact (quietly_trans _ _ _ Hst (IH _ _ _ _ Hchild)).
    - injection Hbody as Hst'. subst st'. exact Hst. }
  clear Hloop.
  destruct (nth_error (open_archives_ sE) (Z.to_nat index)) as [oa'|];
    [|discriminate Hrun].
  set (sF := detachFromParent E (archive oa') sE) in *.
  assert (HEF : quietly sE sF) by apply quietly_detachFromParent.
  clearbody sF.
  destruct (nth_error (open_archives_ sF) (Z.to_nat index)) as [oa''|];
    [|discriminate Hrun].
  injection Hrun as Hr Hs'. subst r.
  set (sH := set_open_archives (eraseAt (Z.to_nat index) (open_archives_ sF))
               (delete_archive (archive oa'') sF)) in *.
  assert (HFH : quietly sF sH)
    by (unfold quietly, closeFrame; repeat split; reflexivity).
  clearbody sH. rewrite <- Hs'.
  exact (quietly_trans _ _ _ (quietly_announce _ _ s)
           (quietly_trans _ _ _ HAD
              (quietly_trans _ _ _ HDE
                 (quietly_trans _ _ _ HEF
                    (quietly_trans _ _ _ HFH (quietly_announce _ _ sH)))))).
Qed.

(** The registry, the bookmarks, the resource pool and the count of every
    announcement after closing the tracked archive at [index]. *)
Lemma closeArchive_whole (s : State) (fuel index : nat) (oa : OpenArchive) :
  wellFormed E s ->
  List.length (open_archives_ s) <= fuel ->
  nth_error (open_archives_ s) index = Some oa ->
  exists s' L,
    closeArchive E fuel (Z.of_nat index) s = Done (true, s') /\
    L ++ [archive oa] = closeOrder fuel (open_archives_ s) (archive oa) /\
    NoDup (L ++ [archive oa]) /\
    open_archives_ s'
    = map (detachFrom (parentArchive E s) (archive oa))
        (filter (keep (L ++ [archive oa])) (open_archives_ s)) /\
    bookmarks_ s'
    = filter (keepBookmark E (L ++ [archive oa])) (bookmarks_ s) /\
    resources s' = filter (notAmong (L ++ [archive oa])) (resources s) /\
    (muted_ s = false ->
     forall name,
       announcedCount name s'
       = announcedCount name s
         + closingEvents E (bookmarks_ s) (L ++ [archive oa]) name).
Proof.
  intros Hwf Hfuel Hnth.
  destruct (nth_error_split _ _ Hnth) as (l1 & l2 & Hv & Hl1).
  set (par := parentArchive E s).
  unfold wellFormed in Hwf. fold par in Hwf. rewrite Hv in Hwf.
  assert (Hlen : List.length l2 < fuel).
  { rewrite Hv, length_app in Hfuel. cbn [List.length] in Hfuel. lia. }
  destruct (closeArchive_spec E par fuel s l1 oa l2 Hv
              (fun y => eq_refl) Hwf Hlen)
    as (s' & L & Hclose & Hreg & _ & _ & HL & HLord & Hbm & Hres & Hnd
        & _ & Hcnt).
  pose proof Hwf as (Hnodup & _ & _ & Hord).
  destruct (handles_split_notin _ _ _ Hnodup) as (Hx1 & Hx2 & Hdisj).
  assert (HLback : forall d, In d L -> In d (map archive l2)).
  { intros d Hd. apply HL in Hd.
    exact (descendant_later _ _ _ _ Hnodup Hord Hd). }
  set (R := L ++ [archive oa]) in *.
  assert (Hfront : forall ob, In ob l1 -> ~ In (archive ob) R).
  { intros ob Hob Hr. apply in_app_or in Hr. destruct Hr as [Hr|[Hr|[]]].
    - exact (Hdisj _ (in_map archive _ _ Hob) (HLback _ Hr)).
    - apply Hx1. rewrite Hr. apply in_map. exact Hob. }
  assert (Hback : filter (keep R) l2 = filter (keep L) l2).
  { unfold R. rewrite filter_keep_app. apply filter_keep_all.
    intros ob Hob [Hr|[]]. apply filter_In in Hob. destruct Hob as [Hob _].
    apply Hx2. rewrite Hr. apply in_map. exact Hob. }
  assert (Hwhole : filter (keep R) (l1 ++ oa :: l2)
                   = l1 ++ filter (keep L) l2).
  { rewrite (filter_keep_split R l1 l2 oa L eq_refl Hfront), Hback.
    reflexivity. }
  unfold R in *. clear R.
  exists s', L. rewrite <- Hl1. split; [exact Hclose|].
  split; [rewrite Hv; exact HLord|]. split; [exact Hnd|].
  split; [rewrite Hv, Hwhole; exact Hreg|].
  split; [exact Hbm|]. split; [exact Hres|exact Hcnt].
Qed.

(** C1.  In a well-formed registry, closing the tracked archive at [index]
    with fuel for the depth of the nesting returns [true].  The archives
    closed and deleted by the call are [L] and then the archive itself,
    each once, where [L] is exactly the set of its descendants along the
    child lists: every descendant is closed before the archive is, and the
    order of closing is the depth-first order [closeOrder].  Every one of
    them goes through the whole procedure: its object is deleted, its
    registry record is erased, its bookmarks are removed, it leaves the
    resource pool, it is taken out of its parent's child list, and, unless
    the manager is muted, "archive_closing" and "archive_closed" are
    announced once for each and "bookmarks_changed" once for each that held
    a bookmark, the first and the last announcement being those of the
    archive itself.  The state afterwards is given member by member: the
    registry is the old one without the records of the closed archives and
    with the archive detached from its parent's record, so the tracked
    archives are those tracked before except the archive and its
    descendants and no remaining record lists any of them as a child; the
    archive objects, the base resource, the recent files and the settings
    are as they were, and the registry is well-formed again. *)
Theorem closeArchive_cascades (s : State) (fuel index : nat)
    (oa : OpenArchive) :
  wellFormed E s ->
  List.length (open_archives_ s) <= fuel ->
  nth_error (open_archives_ s) index = Some oa ->
  exists s' L,
    closeArchive E fuel (Z.of_nat index) s = Done (true, s') /\
    destroyed s' = destroyed s ++ L ++ [archive oa] /\
    L ++ [archive oa] = closeOrder fuel (open_archives_ s) (archive oa) /\
    (forall d, In d L <-> descendant (open_archives_ s) (archive oa) d) /\
    (forall y, tracked s' y <->
               tracked s y /\ y <> archive oa /\ ~ In y L) /\
    (forall ob c, In ob (open_archives_ s') -> In c (open_children ob) ->
                  c <> archive oa /\ ~ In c L) /\
    heap s' = heap s /\
    wellFormed E s' /\
    NoDup (L ++ [archive oa]) /\
    open_archives_ s'
    = map (detachFrom (parentArchive E s) (archive oa))
        (filter (keep (L ++ [archive oa])) (open_archives_ s)) /\
    bookmarks_ s'
    = filter (keepBookmark E (L ++ [archive oa])) (bookmarks_ s) /\
    resources s' = filter (notAmong (L ++ [archive oa])) (resources s) /\
    closeFrame s s' /\
    (muted_ s = true -> announced s' = announced s) /\
    (muted_ s = false ->
     (exists mid,
        announced s'
        = announced s
          ++ ("archive_closing", Some (to_int32 (Z.of_nat index))) :: mid
          ++ [("archive_closed", Some (to_int32 (Z.of_nat index)))]) /\
     forall name,
       announcedCount name s'
       = announcedCount name s
         + closingEvents E (bookmarks_ s) (L ++ [archive oa]) name).
Proof.
  intros Hwf Hfuel Hnth.
  destruct (closeArchive_subtree E s fuel index oa Hwf Hfuel Hnth)
    as (s' & L & Hrun & Hdes & Hord & HL & Htr & Hch & Hheap & Hwf').
  destruct (closeArchive_whole s fuel index oa Hwf Hfuel Hnth)
    as (s2 & L2 & Hrun2 & Hord2 & Hnd & Hreg & Hbm & Hres & Hcnt).
  rewrite Hrun in Hrun2. injection Hrun2 as Hs2. subst s2.
  assert (HL2 : L2 = L).
  { apply (app_inv_tail [archive oa]). congruence. }
  subst L2.
  destruct (closeArchive_quietly fuel _ _ _ _ Hrun) as [Hframe Hquiet].
  destruct (closeArchive_announced E fuel _ _ _ _ Hrun) as (_ & _ & Hann).
  exists s', L.
  repeat (split; [assumption|]).
  intros Hm. split; [exact (Hann eq_refl Hm)|exact (Hcnt Hm)].
Qed.

End CascadeInFull.

Lemma closeArchive_cascades_witness :
  exists s' L,
    closeArchive nestedEnv 4 (Z.of_nat 0) nestedState = Done (true, s') /\
    destroyed s' = destroyed nestedState ++ L ++ [0] /\
    L ++ [0] = closeOrder 4 (open_archives_ nestedState) 0 /\
    (forall d, In d L <-> descendant (open_archives_ nestedState) 0 d) /\
    (forall y, tracked s' y <-> tracked nestedState y /\ y <> 0 /\ ~ In y L) /\
    (forall ob c, In ob (open_archives_ s') -> In c (open_children ob) ->
                  c <> 0 /\ ~ In c L) /\
    heap s' = heap nestedState /\
    wellFormed nestedEnv s' /\
    NoDup (L ++ [0]) /\
    open_archives_ s'
    = map (detachFrom (parentArchive nestedEnv nestedState) 0)
        (filter (keep (L ++ [0])) (open_archives_ nestedState)) /\
    bookmarks_ s'
    = filter (keepBookmark nestedEnv (L ++ [0])) (bookmarks_ nestedState) /\
    resources s' = filter (notAmong (L ++ [0])) (resources nestedState) /\
    closeFrame nestedState s' /\
    (muted_ nestedState = true -> announced s' = announced nestedState) /\
    (muted_ nestedState = false ->
     (exists mid,
        announced s'
        = announced nestedState
          ++ ("archive_closing", Some (to_int32 (Z.of_nat 0))) :: mid
          ++ [("archive_closed", Some (to_int32 (Z.of_nat 0)))]) /\
     forall name,
       announcedCount name s'
       = announcedCount name nestedState
         + closingEvents nestedEnv (bookmarks_ nestedState) (L ++ [0]) name).
Proof.
  apply (closeArchive_cascades nestedEnv nestedState 4 0 (mkOpen 0 true [1])).
  - apply wellFormedb_sound. reflexivity.
  - simpl. lia.
  - reflexivity.
Defined.

(** The cascade on the example, with bookmarks on entry 20 of [maps.pk3],
    on entry 21 of archive 1 and on an entry of no open archive: the two
    bookmarks in closed archives go, [other.wad] alone stays in the
    registry and in the resource pool, and each of the three closes
    announces itself. *)
Example closeArchive_nested_bookmarks :
  exists s',
    closeArchive nestedEnv 4 0%Z (set_bookmarks [20; 21; 5] nestedState)
    = Done (true, s') /\
    destroyed s' = [2; 1; 0] /\
    open_archives_ s' = [mkOpen 3 true []] /\
    bookmarks_ s' = [5] /\
    resources s' = [3] /\
    announced s'
    = [("archive_closing", Some 0%Z); ("bookmarks_changed", None);
       ("archive_closing", Some 1%Z); ("bookmarks_changed", None);
       ("archive_closing", Some 2%Z); ("archive_closed", Some 2%Z);
       ("archive_closed", Some 1%Z); ("archive_closed", Some 0%Z)].
Proof.
  eexists. split; [vm_compute; reflexivity|]. repeat split.
Qed.

(** ** Calls that fail *)

Section FailingCalls.

Context (E : Env).

Lemma returned_false (m : outcome (option Handle * State)) (s' : State) :
  returned m = Done (false, s') -> m = Done (None, s').
Proof.
  unfold returned. destruct m as [[[a|] st]| |]; cbn [bind fst snd];
    intros H; try discriminate H.
  injection H as Hs. subst st. reflexivity.
Qed.

Lemma afterFailedOpen_sameRegistry (s s' : State) :
  afterFailedOpen E s s' -> sameRegistry s s'.
Proof.
  intros [H|[[msg H]|[f H]]]; subst s'; unfold sameRegistry; repeat split.
Qed.

(** The body shared by the opens from a file and from a directory. *)
Lemma open_file_failed (fuel : nat) (f : Format) (path : string)
    (manage silent : bool) (s s' : State) :
  (let '(a, s0) := new_archive f s in
   let '(ok, s1) := archive_open_file E a f path s0 in
   if ok then
     if manage then
       do res <- addArchive E fuel (Some a) s1;
       Done (Some a, addRecentFile E path (announceOpened a silent (snd res)))
     else Done (Some a, s1)
   else Done (None, delete_archive a s1)) = Done (None, s') ->
  afterFailedOpen E s s'.
Proof.
  unfold new_archive, archive_open_file.
  destruct (loadFile E f path).
  - destruct manage; [|intros H; discriminate H].
    intros H. exfalso.
    exact (bind_Some_not_None _ _
             (fun r => addRecentFile E path (announceOpened _ silent (snd r)))
             _ H).
  - intros H. injection H as Hs. subst s'. right. right. exists f.
    reflexivity.
Qed.

Lemma openDirArchive_failed (fuel : nat) (dir : string)
    (manage silent : bool) (s s' : State) :
  openDirArchive E fuel dir manage silent s = Done (None, s') ->
  afterFailedOpen E s s'.
Proof.
  unfold openDirArchive.
  destruct (getArchive E dir s); [intros H; discriminate H|].
  apply open_file_failed.
Qed.

Lemma openArchive_failed (fuel : nat) (path : string) (manage silent : bool)
    (s s' : State) :
  openArchive E fuel path manage silent s = Done (None, s') ->
  afterFailedOpen E s s'.
Proof.
  unfold openArchive.
  destruct (negb (fileExists E path) && dirExists E path);
    [apply openDirArchive_failed|].
  destruct (getArchive E path s); [intros H; discriminate H|].
  destruct (detectFile E path) as [f|]; [apply open_file_failed|].
  intros H. injection H as Hs. subst s'. right. left.
  exists unsupported. reflexivity.
Qed.

Lemma openArchiveEntry_failed (fuel : nat) (entry : option Entry)
    (manage silent : bool) (s s' : State) :
  openArchiveEntry E fuel entry manage silent s = Done (None, s') ->
  afterFailedOpen E s s'.
Proof.
  destruct fuel as [|fuel]; [intros H; discriminate H|].
  cbn [openArchiveEntry].
  destruct entry as [e|];
    [|intros H; injection H as Hs; subst s'; left; reflexivity].
  destruct (openedFrom s e (open_archives_ s));
    [intros H; discriminate H|].
  destruct (detectEntry E e) as [f|].
  - unfold new_archive, archive_open_entry.
    destruct (loadEntry E f e).
    + destruct manage; [|intros H; discriminate H].
      intros H. exfalso.
      exact (bind_Some_not_None _ _
               (fun r => announceOpened _ silent (snd r)) _ H).
    + intros H. injection H as Hs. subst s'. right. right. exists f.
      reflexivity.
  - intros H. injection H as Hs. subst s'. right. left.
    exists unsupported. reflexivity.
Qed.

Lemma newArchive_failed (fuel : nat) (desc : Format -> string) (fmt : string)
    (s s' : State) :
  newArchive E fuel desc fmt s = Done (None, s') ->
  afterFailedOpen E s s'.
Proof.
  unfold newArchive.
  assert (Hsome : forall f,
             (let '(a, s0) := new_archive f s in
              let s1 := setFilename a ("UNSAVED (" ++ desc f ++ ")")%string s0
              in
              do r <- addArchive E fuel (Some a) s1; Done (Some a, snd r))
             = Done (None, s') -> False).
  { intros f. unfold new_archive. cbv zeta.
    destruct (addArchive E fuel _ _) as [r| |]; cbn [bind]; intros H;
      discriminate H. }
  destruct (String.eqb fmt "wad"); [intros H; destruct (Hsome Wad H)|].
  destruct (String.eqb fmt "zip"); [intros H; destruct (Hsome Zip H)|].
  intros H. injection H as Hs. subst s'. right. left.
  eexists. reflexivity.
Qed.

Lemma addArchive_failed (fuel : nat) (x : option Handle) (s s' : State) :
  addArchive E fuel x s = Done (false, s') -> s' = s.
Proof.
  unfold addArchive, addArchive_with. destruct x as [a|].
  - cbv zeta.
    match goal with
    | |- (if ?c then _ else _) = _ -> _ => destruct c
    end.
    + match goal with
      | |- context [forEach ?body ?v ?st] => destruct (forEach body v st)
      end; cbn [bind]; intros H; discriminate H.
    + intros H. discriminate H.
  - intros H. injection H as Hs. symmetry. exact Hs.
Qed.

Lemma closeArchive_failed (fuel : nat) (index : Z) (s s' : State) :
  closeArchive E fuel index s = Done (false, s') -> s' = s.
Proof.
  intros H.
  exact (proj1 (proj2 (closeArchive_announced E fuel _ _ _ _ H)) eq_refl).
Qed.

Lemma deleteBookmark_failed (entry : Entry) (s s' : State) :
  deleteBookmark entry s = (false, s') -> s' = s.
Proof.
  unfold deleteBookmark.
  destruct (indexOf_from Nat.eqb 0 entry (bookmarks_ s));
    intros H; [discriminate H|].
  injection H as Hs. symmetry. exact Hs.
Qed.

Lemma set_bookmarks_same (s : State) : set_bookmarks (bookmarks_ s) s = s.
Proof. destruct s. reflexivity. Qed.

Lemma filter_none {A : Type} (p : A -> bool) (v : list A) :
  existsb p v = false -> filter (fun x => negb (p x)) v = v.
Proof.
  induction v as [|x v IH]; cbn [existsb filter]; [reflexivity|].
  destruct (p x); cbn [orb negb]; [intros H; discriminate H|].
  intros H. rewrite (IH H). reflexivity.
Qed.

Lemma deleteBookmarksInArchive_failed (x : Handle) (s s' : State) :
  deleteBookmarksInArchive E x s = (false, s') -> s' = s.
Proof.
  unfold deleteBookmarksInArchive.
  rewrite deleteBookmarksInArchive_loop_spec. cbn [orb].
  destruct (existsb _ (bookmarks_ s)) eqn:Hex; intros H;
    [discriminate H|].
  injection H as Hs. subst s'.
  rewrite (filter_none _ _ Hex). apply set_bookmarks_same.
Qed.

(** A scan of [deleteBookmarksInDir] that ends with the flag down has
    kept every bookmark. *)
Lemma deleteBookmarksInDir_loop_kept (fuel : nat) (node : Node) (x : Handle)
    (v : list Entry) :
  forall (removed : bool) (kept : list Entry),
    deleteBookmarksInDir_loop E fuel node x v removed = Done (kept, false) ->
    kept = v.
Proof.
  induction v as [|b v IH]; intros removed kept H;
    cbn [deleteBookmarksInDir_loop] in H.
  - injection H as Hk _. symmetry. exact Hk.
  - assert (Hkeep : (do kr <- deleteBookmarksInDir_loop E fuel node x v removed;
                     Done (b :: fst kr, snd kr)) = Done (kept, false) ->
                    kept = b :: v).
    { destruct (deleteBookmarksInDir_loop E fuel node x v removed)
        as [[k r]| |] eqn:Hrest; cbn [bind fst snd]; intros H';
        try discriminate H'.
      injection H' as Hk Hr. subst kept r.
      rewrite (IH removed k Hrest). reflexivity. }
    destruct (eqb_ptr (entryParent E b) (Some x)); [|exact (Hkeep H)].
    destruct (withinDir E fuel node (rootDir E x) (parentDir E b))
      as [[|]| |]; cbn [bind] in H; try discriminate H.
    + pose proof (deleteBookmarksInDir_loop_flag E fuel node x v true kept
                    false H eq_refl) as Hr.
      discriminate Hr.
    + exact (Hkeep H).
Qed.

Lemma deleteBookmarksInDir_failed (fuel : nat) (node : Node) (s s' : State) :
  deleteBookmarksInDir E fuel node s = Done (false, s') -> s' = s.
Proof.
  unfold deleteBookmarksInDir.
  destruct (deleteBookmark (dirEntry E node) s) as [removed s0] eqn:Hdel.
  destruct (deleteBookmarksInDir_loop E fuel node (nodeArchive E node)
              (bookmarks_ s0) removed) as [[kept r]| |] eqn:Hloop;
    cbn [bind fst snd]; intros H; try discriminate H.
  destruct r; [discriminate H|].
  injection H as Hs. subst s'.
  destruct removed.
  - pose proof (deleteBookmarksInDir_loop_flag E fuel node _ _ true kept
                  false Hloop eq_refl) as Hr.
    discriminate Hr.
  - rewrite (deleteBookmark_failed _ _ _ Hdel) in *.
    rewrite (deleteBookmarksInDir_loop_kept _ _ _ _ _ _ Hloop).
    apply set_bookmarks_same.
Qed.

(** C4, as amended.  A call that reports failure, be it an open from a
    file, a directory or an entry, [newArchive], [addArchive], a close by
    index, by file name or by pointer, [addBaseResourcePath] or one of the
    four bookmark removals, leaves the state it was made in, with two
    exceptions that concern the opens and [newArchive] only: the message
    written to [Global::error], and, after a load that failed, the archive
    object that was created for the load and deleted again.  In
    particular every member the manager keeps about open archives,
    bookmarks, recent files, the base resource, the resource pool and what
    was announced is as it was. *)
Theorem failed_call_leaves_state (fuel : nat) (c : Call) (s s' : State) :
  runCall E fuel c s = Done (false, s') ->
  (creates c = false -> s' = s) /\
  afterFailedOpen E s s' /\
  sameRegistry s s'.
Proof.
  intros Hrun.
  assert (H : (creates c = false -> s' = s) /\ afterFailedOpen E s s').
  { destruct c; cbn [runCall creates] in *.
    - split; [intros Hc; discriminate Hc|].
      exact (openArchive_failed _ _ _ _ _ _ (returned_false _ _ Hrun)).
    - split; [intros Hc; discriminate Hc|].
      exact (openDirArchive_failed _ _ _ _ _ _ (returned_false _ _ Hrun)).
    - split; [intros Hc; discriminate Hc|].
      exact (openArchiveEntry_failed _ _ _ _ _ _ (returned_false _ _ Hrun)).
    - split; [intros Hc; discriminate Hc|].
      exact (newArchive_failed _ _ _ _ _ (returned_false _ _ Hrun)).
    - pose proof (addArchive_failed _ _ _ _ Hrun) as Hs.
      split; [intros _; exact Hs|left; exact Hs].
    - pose proof (closeArchive_failed _ _ _ _ Hrun) as Hs.
      split; [intros _; exact Hs|left; exact Hs].
    - assert (Hs : s' = s).
      { unfold closeArchiveNamed in Hrun.
        destruct (indexOf_from String.eqb 0 path _).
        - exact (closeArchive_failed _ _ _ _ Hrun).
        - injection Hrun as Hs. symmetry. exact Hs. }
      split; [intros _; exact Hs|left; exact Hs].
    - assert (Hs : s' = s).
      { unfold closeArchivePtr in Hrun.
        destruct (indexOf_from Nat.eqb 0 x _).
        - exact (closeArchive_failed _ _ _ _ Hrun).
        - injection Hrun as Hs. symmetry. exact Hs. }
      split; [intros _; exact Hs|left; exact Hs].
    - assert (Hs : s' = s).
      { unfold addBaseResourcePath in Hrun.
        destruct (negb (fileExists E path));
          [injection Hrun as Hs; symmetry; exact Hs|].
        destruct (existsb _ (base_resource_paths_ s));
          [injection Hrun as Hs; symmetry; exact Hs|].
        discriminate Hrun. }
      split; [intros _; exact Hs|left; exact Hs].
    - assert (Hs : s' = s).
      { injection Hrun as Hrun. rewrite (surjective_pairing (deleteBookmark _ _)) in Hrun.
        apply (deleteBookmark_failed entry).
        rewrite (surjective_pairing (deleteBookmark _ _)).
        injection Hrun as H1 H2. rewrite H1, H2. reflexivity. }
      split; [intros _; exact Hs|left; exact Hs].
    - assert (Hs : s' = s).
      { unfold deleteBookmarkAt in Hrun.
        destruct (Z.of_nat (List.length (bookmarks_ s)) <=? index)%Z;
          [injection Hrun as Hs; symmetry; exact Hs|discriminate Hrun]. }
      split; [intros _; exact Hs|left; exact Hs].
    - assert (Hs : s' = s).
      { apply (deleteBookmarksInArchive_failed x).
        injection Hrun as Hrun. exact Hrun. }
      split; [intros _; exact Hs|left; exact Hs].
    - pose proof (deleteBookmarksInDir_failed _ _ _ _ Hrun) as Hs.
      split; [intros _; exact Hs|left; exact Hs]. }
  destruct H as [H1 H2].
  split; [exact H1|]. split; [exact H2|].
  exact (afterFailedOpen_sameRegistry _ _ H2).
Qed.

End FailingCalls.

Lemma failed_call_leaves_state_witness :
  (creates (Call_openArchive "broken.wad" true false) = false ->
   afterBrokenOpen = nestedState) /\
  afterFailedOpen brokenEnv nestedState afterBrokenOpen /\
  sameRegistry nestedState afterBrokenOpen.
Proof.
  apply (failed_call_leaves_state brokenEnv 1
           (Call_openArchive "broken.wad" true false) nestedState
           afterBrokenOpen).
  reflexivity.
Defined.

(** The failing calls on the example: the open of [broken.wad] leaves the
    four archives, and closing an archive that is not open, removing a
    bookmark that is not set and adding a missing base resource path
    change nothing. *)
Example failing_calls_nested :
  runCall brokenEnv 1 (Call_openArchive "broken.wad" true false) nestedState
  = Done (false, afterBrokenOpen) /\
  runCall brokenEnv 1 (Call_openArchive "notes.txt" true false) nestedState
  = Done (false, set_global_error unsupported nestedState) /\
  runCall brokenEnv 4 (Call_closeArchive 7) nestedState
  = Done (false, nestedState) /\
  runCall brokenEnv 4 (Call_closeArchivePtr 9) nestedState
  = Done (false, nestedState) /\
  runCall brokenEnv 4 (Call_closeArchiveNamed "absent.wad") nestedState
  = Done (false, nestedState) /\
  runCall brokenEnv 1 (Call_deleteBookmark 20) nestedState
  = Done (false, nestedState) /\
  runCall brokenEnv 1 (Call_addBaseResourcePath "absent.wad") nestedState
  = Done (false, nestedState) /\
  runCall brokenEnv 1 (Call_newArchive (fun _ => "") "pk7") nestedState
  = Done (false,
          set_global_error "Can not create archive of format: pk7"
            nestedState).
Proof. repeat split. Qed.

(** ** What closing leaves behind *)

Section ClosingCleansUp.

Context (E : Env).

(** X17: closing cleans up after the archives it closes.  Of the
    bookmarks, exactly those in the closed archive or in one of its
    descendants are gone, and of the resource pool exactly these archives;
    what stays keeps its order. *)
Theorem closeArchive_cleans_up (s : State) (fuel index : nat)
    (oa : OpenArchive) :
  wellFormed E s ->
  List.length (open_archives_ s) <= fuel ->
  nth_error (open_archives_ s) index = Some oa ->
  exists s' L,
    closeArchive E fuel (Z.of_nat index) s = Done (true, s') /\
    (forall d, In d L <-> descendant (open_archives_ s) (archive oa) d) /\
    destroyed s' = destroyed s ++ L ++ [archive oa] /\
    bookmarks_ s'
    = filter (keepBookmark E (L ++ [archive oa])) (bookmarks_ s) /\
    resources s' = filter (notAmong (L ++ [archive oa])) (resources s) /\
    (forall b a, In b (bookmarks_ s') -> In a (destroyed s') ->
                 In a (destroyed s) \/ entryParent E b <> Some a).
Proof.
  intros Hwf Hfuel Hnth.
  destruct (nth_error_split _ _ Hnth) as (l1 & l2 & Hv & Hl1).
  unfold wellFormed in Hwf. rewrite Hv in Hwf.
  assert (Hlen : List.length l2 < fuel).
  { rewrite Hv, length_app in Hfuel. cbn [List.length] in Hfuel. lia. }
  destruct (closeArchive_spec E (parentArchive E s) fuel s l1 oa l2 Hv
              (fun y => eq_refl) Hwf Hlen)
    as (s' & L & Hclose & _ & Hdes & _ & HL & _ & Hbm & Hres & _).
  exists s', L. rewrite Hl1 in Hclose. rewrite Hv.
  split; [exact Hclose|]. split; [exact HL|]. split; [exact Hdes|].
  split; [exact Hbm|]. split; [exact Hres|].
  intros b a Hb Ha. rewrite Hdes in Ha. apply in_app_or in Ha.
  destruct Ha as [Ha|Ha]; [left; exact Ha|right].
  rewrite Hbm in Hb. apply filter_In in Hb. destruct Hb as [_ Hk].
  intros Hp. unfold keepBookmark in Hk.
  apply negb_true_iff in Hk.
  assert (Hex : existsb (fun a0 => eqb_ptr (entryParent E b) (Some a0))
                  (L ++ [archive oa]) = true).
  { apply existsb_exists. exists a. split; [exact Ha|].
    rewrite Hp. cbn [eqb_ptr]. apply Nat.eqb_refl. }
  congruence.
Qed.

End ClosingCleansUp.

Lemma closeArchive_cleans_up_witness :
  exists s' L,
    closeArchive nestedEnv 4 (Z.of_nat 0) nestedState = Done (true, s') /\
    (forall d, In d L <->
               descendant (open_archives_ nestedState)
                 (archive (mkOpen 0 true [1])) d) /\
    destroyed s' = destroyed nestedState ++ L ++ [archive (mkOpen 0 true [1])] /\
    bookmarks_ s'
    = filter (keepBookmark nestedEnv (L ++ [archive (mkOpen 0 true [1])]))
        (bookmarks_ nestedState) /\
    resources s'
    = filter (notAmong (L ++ [archive (mkOpen 0 true [1])]))
        (resources nestedState) /\
    (forall b a, In b (bookmarks_ s') -> In a (destroyed s') ->
                 In a (destroyed nestedState) \/
                 entryParent nestedEnv b <> Some a).
Proof.
  apply (closeArchive_cleans_up nestedEnv nestedState 4 0
           (mkOpen 0 true [1])).
  - apply wellFormedb_sound. vm_compute. reflexivity.
  - cbn [nestedState open_archives_ List.length]. lia.
  - reflexivity.
Defined.

(** ** Announcements relayed from the archives *)

Section Relay.

Context (E : Env).

(** X18: [onAnnouncement] relays what a tracked archive announces, with
    the archive's index: "saved" becomes one "archive_saved", "modified"
    and "entry_modified" become one "archive_modified", and the index sent
    along is the one at which [getArchive] finds the archive.  Any other
    event changes nothing. *)
Theorem onAnnouncement_relays (x : Handle) (s : State) :
  muted_ s = false ->
  tracked s x ->
  getArchiveAt (archiveIndex x s) s = Some x /\
  announced (onAnnouncement x "saved" s)
  = announced s ++ [("archive_saved", Some (archiveIndex x s))] /\
  announced (onAnnouncement x "modified" s)
  = announced s ++ [("archive_modified", Some (archiveIndex x s))] /\
  announced (onAnnouncement x "entry_modified" s)
  = announced s ++ [("archive_modified", Some (archiveIndex x s))] /\
  (forall event_name,
      event_name <> "saved" -> event_name <> "modified" ->
      event_name <> "entry_modified" ->
      onAnnouncement x event_name s = s).
Proof.
  intros Hm Hx.
  destruct (archiveIndex_tracked x s Hx) as [[Hlo _] Hget].
  split; [exact Hget|].
  assert (Hpos : (0 <=? archiveIndex x s)%Z = true) by (apply Z.leb_le; lia).
  unfold onAnnouncement. rewrite Hpos.
  split; [|split; [|split]].
  - cbn [String.eqb Ascii.eqb Bool.eqb orb andb].
    apply announce_announced. exact Hm.
  - cbn [String.eqb Ascii.eqb Bool.eqb orb andb].
    apply announce_announced. exact Hm.
  - cbn [String.eqb Ascii.eqb Bool.eqb orb andb].
    apply announce_announced. exact Hm.
  - intros ev H1 H2 H3.
    apply String.eqb_neq in H1, H2, H3. rewrite H1, H2, H3. reflexivity.
Qed.

(** X19: nothing is relayed from an archive that is not tracked, and so
    nothing from an archive that was closed: after closing the archive at
    [index], an announcement from that archive or from any of its
    descendants leaves the manager as it is. *)
Theorem onAnnouncement_after_close (s : State) (fuel index : nat)
    (oa : OpenArchive) :
  wellFormed E s ->
  List.length (open_archives_ s) <= fuel ->
  nth_error (open_archives_ s) index = Some oa ->
  exists s',
    closeArchive E fuel (Z.of_nat index) s = Done (true, s') /\
    forall y event_name,
      y = archive oa \/ descendant (open_archives_ s) (archive oa) y ->
      onAnnouncement y event_name s' = s'.
Proof.
  intros Hwf Hfuel Hnth.
  destruct (closeArchive_subtree E s fuel index oa Hwf Hfuel Hnth)
    as (s' & L & Hrun & _ & _ & HL & Htr & _).
  exists s'. split; [exact Hrun|].
  intros y ev Hy.
  assert (Hun : ~ tracked s' y).
  { intros Hin. apply Htr in Hin. destruct Hin as (_ & Hne & HnL).
    destruct Hy as [Hy|Hy]; [exact (Hne Hy)|].
    apply HnL. apply HL. exact Hy. }
  unfold onAnnouncement.
  rewrite (archiveIndex_untracked y s' Hun).
  reflexivity.
Qed.

End Relay.

Lemma onAnnouncement_relays_witness :
  getArchiveAt (archiveIndex 2 nestedState) nestedState = Some 2 /\
  announced (onAnnouncement 2 "saved" nestedState)
  = announced nestedState
    ++ [("archive_saved", Some (archiveIndex 2 nestedState))] /\
  announced (onAnnouncement 2 "modified" nestedState)
  = announced nestedState
    ++ [("archive_modified", Some (archiveIndex 2 nestedState))] /\
  announced (onAnnouncement 2 "entry_modified" nestedState)
  = announced nestedState
    ++ [("archive_modified", Some (archiveIndex 2 nestedState))] /\
  (forall event_name,
      event_name <> "saved" -> event_name <> "modified" ->
      event_name <> "entry_modified" ->
      onAnnouncement 2 event_name nestedState = nestedState).
Proof.
  apply (onAnnouncement_relays 2 nestedState).
  - reflexivity.
  - vm_compute. right. right. left. reflexivity.
Defined.

Lemma onAnnouncement_after_close_witness :
  exists s',
    closeArchive nestedEnv 4 (Z.of_nat 0) nestedState = Done (true, s') /\
    forall y event_name,
      y = archive (mkOpen 0 true [1]) \/
      descendant (open_archives_ nestedState) (archive (mkOpen 0 true [1])) y ->
      onAnnouncement y event_name s' = s'.
Proof.
  apply (onAnnouncement_after_close nestedEnv nestedState 4 0
           (mkOpen 0 true [1])).
  - apply wellFormedb_sound. vm_compute. reflexivity.
  - cbn [nestedState open_archives_ List.length]. lia.
  - reflexivity.
Defined.

(** ** New archives *)

Section NewArchives.

Context (E : Env).

Lemma nth_error_snoc {A : Type} (h : list A) (o : A) :
  nth_error (h ++ [o]) (List.length h) = Some o.
Proof. rewrite nth_error_app2, Nat.sub_diag by lia. reflexivity. Qed.

(** [newArchive] for a format that is created and whose root is not
    searched for WADs. *)
Lemma newArchive_plain (fuel : nat) (desc : Format -> string) (fmt : string)
    (f : Format) (s : State) :
  (if String.eqb fmt "wad" then Some Wad
   else if String.eqb fmt "zip" then Some Zip else None) = Some f ->
  rootWadsFormat f && auto_open_wads_root s = false ->
  newArchive E fuel desc fmt s
  = Done (Some (List.length (heap s)),
          resources_addArchive (List.length (heap s))
            (announce "archive_added" None
               (set_listening (listening s ++ [List.length (heap s)])
                  (set_open_archives
                     (open_archives_ s ++ [mkOpen (List.length (heap s)) true []])
                     (set_heap
                        (setAt (List.length (heap s))
                           (mkArchive f ("UNSAVED (" ++ desc f ++ ")") None)
                           (heap s ++ [mkArchive f "" None])) s))))).
Proof.
  intros Hf Hplain. unfold newArchive. rewrite Hf. cbn [new_archive].
  unfold setFilename. state_simpl. rewrite nth_error_snoc.
  cbn [format parent_]. state_simpl.
  unfold addArchive.
  rewrite (addArchive_plain E _ (List.length (heap s)) f).
  - reflexivity.
  - unfold formatOf. state_simpl. rewrite nth_error_alloc_new. reflexivity.
  - exact Hplain.
Qed.

(** X20: [newArchive] creates WAD and ZIP archives only.  For "wad", and
    for "zip" while WADs in archive roots are not opened automatically,
    the new archive is registered last, flagged as a resource and put in
    the resource pool, it is called "UNSAVED (...)" after its format, and
    the only announcement is "archive_added": it is not announced as
    opened and does not enter the recent files.  For any other format the
    call returns the null pointer and only sets the error text. *)
Theorem newArchive_creates (fuel : nat) (desc : Format -> string)
    (fmt : string) (s : State) :
  muted_ s = false ->
  (fmt = "wad" \/ fmt = "zip" /\ auto_open_wads_root s = false ->
   exists s',
     newArchive E fuel desc fmt s = Done (Some (List.length (heap s)), s') /\
     open_archives_ s'
     = open_archives_ s ++ [mkOpen (List.length (heap s)) true []] /\
     filename E s' (List.length (heap s))
     = ("UNSAVED ("
        ++ desc (if String.eqb fmt "wad" then Wad else Zip) ++ ")")%string /\
     resources s' = resources s ++ [List.length (heap s)] /\
     announced s' = announced s ++ [("archive_added", None)] /\
     recent_files_ s' = recent_files_ s) /\
  (fmt <> "wad" -> fmt <> "zip" ->
   newArchive E fuel desc fmt s
   = Done (None,
           set_global_error
             ("Can not create archive of format: " ++ fmt)%string s)).
Proof.
  intros Hm. split.
  - intros Hfmt.
    set (f := if String.eqb fmt "wad" then Wad else Zip).
    assert (Hf : (if String.eqb fmt "wad" then Some Wad
                  else if String.eqb fmt "zip" then Some Zip else None)
                 = Some f).
    { unfold f. destruct Hfmt as [H|[H _]]; subst fmt; reflexivity. }
    assert (Hplain : rootWadsFormat f && auto_open_wads_root s = false).
    { unfold f. destruct Hfmt as [H|[H Hauto]]; subst fmt; cbn.
      - reflexivity.
      - exact Hauto. }
    rewrite (newArchive_plain fuel desc fmt f s Hf Hplain).
    eexists. split; [reflexivity|].
    unfold resources_addArchive, filename. state_simpl.
    rewrite nth_error_alloc_new. cbn [parent_ filename_].
    split; [reflexivity|]. split; [reflexivity|]. split; [reflexivity|].
    split; [|reflexivity].
    unfold announce. state_simpl. rewrite Hm. reflexivity.
  - intros H1 H2. unfold newArchive.
    apply String.eqb_neq in H1, H2. rewrite H1, H2. reflexivity.
Qed.

End NewArchives.

Lemma newArchive_creates_witness :
  (("wad" = "wad" \/ "wad" = "zip" /\ auto_open_wads_root nestedState = false) ->
   exists s',
     newArchive nestedEnv 1 (fun _ => "Doom Wad") "wad" nestedState
     = Done (Some (List.length (heap nestedState)), s') /\
     open_archives_ s'
     = open_archives_ nestedState
       ++ [mkOpen (List.length (heap nestedState)) true []] /\
     filename nestedEnv s' (List.length (heap nestedState))
     = ("UNSAVED ("
        ++ (fun _ : Format => "Doom Wad")
             (if String.eqb "wad" "wad" then Wad else Zip) ++ ")")%string /\
     resources s' = resources nestedState ++ [List.length (heap nestedState)] /\
     announced s' = announced nestedState ++ [("archive_added", None)] /\
     recent_files_ s' = recent_files_ nestedState) /\
  ("wad" <> "wad" -> "wad" <> "zip" ->
   newArchive nestedEnv 1 (fun _ => "Doom Wad") "wad" nestedState
   = Done (None,
           set_global_error
             ("Can not create archive of format: " ++ "wad")%string
             nestedState)).
Proof.
  apply (newArchive_creates nestedEnv 1 (fun _ => "Doom Wad") "wad"
           nestedState).
  reflexivity.
Defined.

(** ** The wildcard string for file dialogs *)

Lemma occurrences_append (c : ascii) (a b : string) :
  occurrences c (a ++ b)%string = occurrences c a + occurrences c b.
Proof.
  induction a as [|d a IH]; [reflexivity|].
  cbn [String.append occurrences]. rewrite IH. lia.
Qed.

Lemma lowerChar_pipe (c : ascii) :
  Ascii.eqb (lowerChar c) "|" = Ascii.eqb c "|".
Proof. destruct c as [[] [] [] [] [] [] [] []]; reflexivity. Qed.

Lemma upperChar_pipe (c : ascii) :
  Ascii.eqb (upperChar c) "|" = Ascii.eqb c "|".
Proof. destruct c as [[] [] [] [] [] [] [] []]; reflexivity. Qed.

Lemma occurrences_Lower (t : string) :
  occurrences "|" (Lower t) = occurrences "|" t.
Proof.
  induction t as [|c t IH]; [reflexivity|].
  cbn [Lower mapString occurrences]. fold (Lower t).
  rewrite lowerChar_pipe, IH. reflexivity.
Qed.

Lemma occurrences_Upper (t : string) :
  occurrences "|" (Upper t) = occurrences "|" t.
Proof.
  induction t as [|c t IH]; [reflexivity|].
  cbn [Upper mapString occurrences]. fold (Upper t).
  rewrite upperChar_pipe, IH. reflexivity.
Qed.

Lemma occurrences_Capitalize (t : string) :
  occurrences "|" (Capitalize t) = occurrences "|" t.
Proof.
  destruct t as [|c t]; [reflexivity|].
  cbn [Capitalize occurrences].
  rewrite upperChar_pipe, occurrences_Lower. reflexivity.
Qed.

Lemma occurrences_extCase (ext : string) :
  occurrences "|" (extCase ext) = 3 * occurrences "|" ext.
Proof.
  unfold extCase. rewrite !occurrences_append.
  rewrite occurrences_Lower, occurrences_Upper, occurrences_Capitalize.
  cbn [occurrences Ascii.eqb Bool.eqb]. lia.
Qed.

Lemma RemoveLast_snoc (t : string) (c : ascii) :
  RemoveLast (t ++ String c EmptyString)%string = t.
Proof.
  induction t as [|d t IH]; [reflexivity|].
  cbn [String.append RemoveLast]. rewrite IH.
  destruct (t ++ String c EmptyString)%string eqn:Ht; [|reflexivity].
  destruct t; discriminate Ht.
Qed.

Lemma append_assoc (a b c : string) :
  ((a ++ b) ++ c)%string = (a ++ (b ++ c))%string.
Proof.
  induction a as [|d a IH]; [reflexivity|].
  cbn [String.append]. rewrite IH. reflexivity.
Qed.

(** The first loop: the patterns of all extensions, each followed by a
    semicolon. *)
Lemma patterns_loop (exts : list (string * string)) :
  (forall ext, In ext exts -> occurrences "|" (fst ext) = 0) ->
  exts <> [] ->
  forall all,
  exists t,
    fold_left (fun all ext => (all ++ (extCase (fst ext) ++ ";"))%string)
      exts all = (t ++ ";")%string /\
    occurrences "|" t = occurrences "|" all.
Proof.
  induction exts as [|e exts IH]; intros Hext Hne all; [contradiction|].
  cbn [fold_left].
  assert (He : occurrences "|" (extCase (fst e)) = 0).
  { rewrite occurrences_extCase, (Hext e (or_introl eq_refl)). reflexivity. }
  destruct exts as [|e' exts].
  - cbn [fold_left]. exists (all ++ extCase (fst e))%string.
    split; [symmetry; apply append_assoc|].
    rewrite occurrences_append, He. lia.
  - destruct (IH (fun ext H => Hext ext (or_intror H)) ltac:(discriminate)
                (all ++ (extCase (fst e) ++ ";"))%string) as (t & Ht & Hocc).
    exists t. split; [exact Ht|]. rewrite Hocc, !occurrences_append, He.
    cbn [occurrences Ascii.eqb Bool.eqb]. lia.
Qed.

(** The second loop: one description and pattern for each extension. *)
Lemma descriptions_loop (exts : list (string * string)) :
  (forall ext, In ext exts ->
               occurrences "|" (fst ext) = 0 /\
               occurrences "|" (snd ext) = 0) ->
  forall all,
    occurrences "|"
      (fold_left (fun all ext => (all ++ ("|" ++ ext))%string)
         (map (fun ext =>
                 (snd ext ++ " files (*." ++ fst ext ++ ")|"
                  ++ extCase (fst ext))%string) exts) all)
    = occurrences "|" all + 2 * List.length exts.
Proof.
  induction exts as [|e exts IH]; intros Hext all; cbn [map fold_left].
  - cbn [List.length]. lia.
  - rewrite IH by (intros ext H; apply Hext; right; exact H).
    destruct (Hext e (or_introl eq_refl)) as [H1 H2].
    rewrite !occurrences_append, occurrences_extCase, H1, H2.
    cbn [occurrences Ascii.eqb Bool.eqb List.length]. lia.
Qed.

(** X21: the wildcard string has the shape a file dialog expects only when
    there is an extension.  With no vertical bar in any extension or
    description, the string for [n] extensions holds [2 n + 1] bars, that
    is [n + 1] pairs of description and pattern; with no extension at all
    the bar after "Any supported file" is cut off and the string is that
    description alone, without a pattern. *)
Theorem getArchiveExtensionsString_bars (formats : list ArchiveFormat) :
  (forall ext, In ext (flat_map extensions formats) ->
               occurrences "|" (fst ext) = 0 /\
               occurrences "|" (snd ext) = 0) ->
  occurrences "|" (getArchiveExtensionsString formats)
  = match List.length (flat_map extensions formats) with
    | 0 => 0
    | S n => 2 * S n + 1
    end /\
  (flat_map extensions formats = [] ->
   getArchiveExtensionsString formats = "Any supported file").
Proof.
  intros Hext. unfold getArchiveExtensionsString.
  destruct (flat_map extensions formats) as [|e exts].
  - split; reflexivity.
  - split; [|discriminate].
    destruct (patterns_loop (e :: exts)
                (fun ext H => proj1 (Hext ext H)) ltac:(discriminate)
                "Any supported file|") as (t & Ht & Hocc).
    rewrite Ht, RemoveLast_snoc, descriptions_loop by exact Hext.
    rewrite Hocc. cbn [occurrences Ascii.eqb Bool.eqb List.length]. lia.
Qed.

Lemma getArchiveExtensionsString_bars_witness :
  occurrences "|"
    (getArchiveExtensionsString
       [mkFormat [("wad", "Doom Wad")]; mkFormat [("zip", "Zip"); ("pk3", "Pk3")]])
  = 7 /\
  (flat_map extensions
     [mkFormat [("wad", "Doom Wad")]; mkFormat [("zip", "Zip"); ("pk3", "Pk3")]]
   = [] ->
   getArchiveExtensionsString
     [mkFormat [("wad", "Doom Wad")]; mkFormat [("zip", "Zip"); ("pk3", "Pk3")]]
   = "Any supported file").
Proof.
  apply (getArchiveExtensionsString_bars
           [mkFormat [("wad", "Doom Wad")];
            mkFormat [("zip", "Zip"); ("pk3", "Pk3")]]).
  intros ext [H|[H|[H|[]]]]; subst ext; split; reflexivity.
Defined.

(** ** Opening, then closing *)

Section OpenThenClose.

Context (E : Env).

Lemma announceOpened_side (a : Handle) (silent : bool) (s : State) :
  destroyed (announceOpened a silent s) = destroyed s /\
  resources (announceOpened a silent s) = resources s /\
  recent_files_ (announceOpened a silent s) = recent_files_ s /\
  max_recent_files (announceOpened a silent s) = max_recent_files s.
Proof.
  unfold announceOpened. destruct silent; [repeat split|].
  rewrite announce_destroyed, announce_resources, announce_recent_files,
    announce_max_recent_files.
  repeat split.
Qed.

Lemma addRecentFile_side (path : string) (s : State) :
  destroyed (addRecentFile E path s) = destroyed s /\
  resources (addRecentFile E path s) = resources s.
Proof.
  unfold addRecentFile.
  destruct (negb (fileExists E path || dirExists E path)); [split; reflexivity|].
  destruct (indexOf_from String.eqb 0 (replaceBackslash path) (recent_files_ s));
    rewrite announce_destroyed, announce_resources; split; reflexivity.
Qed.

(** Opening a file that is on disk, not open yet, recognised and loaded,
    while no root entries are opened with it. *)
Lemma openArchive_fresh (fuel : nat) (path : string) (silent : bool)
    (s : State) (f : Format) :
  fileExists E path = true ->
  getArchive E path s = None ->
  detectFile E path = Some f ->
  loadFile E f path = true ->
  rootWadsFormat f && auto_open_wads_root s = false ->
  exists s1,
    openArchive E fuel path true silent s
    = Done (Some (List.length (heap s)), s1) /\
    open_archives_ s1
    = open_archives_ s ++ [mkOpen (List.length (heap s)) true []] /\
    heap s1 = setAt (List.length (heap s)) (mkArchive f path None)
                (heap s ++ [mkArchive f "" None]) /\
    destroyed s1 = destroyed s /\
    resources s1 = resources s ++ [List.length (heap s)].
Proof.
  intros Hfile Hg Hf Hl Hroots.
  set (a := List.length (heap s)).
  set (sA := set_heap
               (setAt a (mkArchive f path None)
                  (heap (set_heap (heap s ++ [mkArchive f "" None]) s)))
               (set_heap (heap s ++ [mkArchive f "" None]) s)).
  set (s0 := resources_addArchive a
               (announce "archive_added" None
                  (set_listening (listening sA ++ [a])
                     (set_open_archives
                        (open_archives_ sA ++ [mkOpen a true []]) sA)))).
  set (s1 := addRecentFile E path (announceOpened a silent s0)).
  assert (HfmtA : formatOf sA a = Some f).
  { unfold formatOf, sA. state_simpl. subst a.
    rewrite nth_error_alloc_new. reflexivity. }
  assert (Hfirst : openArchive E fuel path true silent s = Done (Some a, s1)).
  { unfold openArchive. rewrite Hfile. cbn [negb andb]. rewrite Hg, Hf.
    unfold new_archive, archive_open_file. rewrite Hl.
    fold a. fold sA. unfold addArchive.
    rewrite (addArchive_plain E _ a f sA HfmtA Hroots).
    reflexivity. }
  exists s1. split; [exact Hfirst|].
  destruct (announceOpened_frame a silent s0) as (Ho1 & Hh1 & _).
  destruct (addRecentFile_frame E path (announceOpened a silent s0))
    as (Ho2 & Hh2 & _).
  destruct (announceOpened_side a silent s0) as (Hd1 & Hr1 & Hf1 & Hx1).
  destruct (addRecentFile_side path (announceOpened a silent s0))
    as (Hd2 & Hr2).
  fold s1 in Ho2, Hh2, Hd2, Hr2.
  split; [rewrite Ho2, Ho1; unfold s0, resources_addArchive; state_simpl;
          reflexivity|].
  split; [rewrite Hh2, Hh1; unfold s0, resources_addArchive; state_simpl;
          reflexivity|].
  split; [rewrite Hd2, Hd1; unfold s0, resources_addArchive; state_simpl;
          reflexivity|].
  rewrite Hr2, Hr1. unfold s0, resources_addArchive. state_simpl.
  reflexivity.
Qed.

(** X22: opening a file and closing it again gives the list of open
    archives back.  For a file that is on disk, not open yet, recognised
    and loaded, with no root entries opened along with it: the archive is
    registered last; closing it at that index succeeds, deletes that one
    archive and no other, takes it out of the resource pool and leaves
    [open_archives_] as it was before the file was opened. *)
Theorem open_close_roundtrip (fuel fuel' : nat) (path : string)
    (silent : bool) (s : State) (f : Format) :
  registryInv E s ->
  fileExists E path = true ->
  getArchive E path s = None ->
  detectFile E path = Some f ->
  loadFile E f path = true ->
  rootWadsFormat f && auto_open_wads_root s = false ->
  List.length (open_archives_ s) < fuel' ->
  exists a s1 s2,
    openArchive E fuel path true silent s = Done (Some a, s1) /\
    getArchiveAt (Z.of_nat (List.length (open_archives_ s))) s1 = Some a /\
    closeArchive E fuel' (Z.of_nat (List.length (open_archives_ s))) s1
    = Done (true, s2) /\
    open_archives_ s2 = open_archives_ s /\
    destroyed s2 = destroyed s ++ [a] /\
    ~ In a (resources s2) /\
    registryInv E s2.
Proof.
  intros Hinv Hfile Hg Hf Hl Hroots Hfuel.
  destruct (openArchive_fresh fuel path silent s f Hfile Hg Hf Hl Hroots)
    as (s1 & Hopen & Hv1 & Hh1 & Hd1 & Hr1).
  set (a := List.length (heap s)) in *.
  pose proof (openArchive_inv E fuel path true silent s _ s1 Hopen Hinv)
    as Hinv1.
  pose proof (proj1 Hinv1) as Hwf1. unfold wellFormed in Hwf1.
  rewrite Hv1 in Hwf1.
  destruct (closeArchive_spec E (parentArchive E s1) fuel' s1
              (open_archives_ s) (mkOpen a true []) [] Hv1
              (fun y => eq_refl) Hwf1 ltac:(cbn [List.length]; lia))
    as (s2 & L & Hclose & Hv2 & Hd2 & Hh2 & HL & _ & _ & Hr2 & _).
  assert (HLnil : L = []).
  { destruct L as [|d L]; [reflexivity|]. exfalso.
    assert (Hd : descendant (open_archives_ s ++ [mkOpen a true []]) a d)
      by (apply HL; left; reflexivity).
    apply descendant_first in Hd.
    destruct Hd as (ob & c & Hob & Hoba & Hc & _).
    assert (Hlast : In (mkOpen a true [])
                      (open_archives_ s ++ [mkOpen a true []]))
      by (apply in_or_app; right; left; reflexivity).
    rewrite (handles_unique _ ob (mkOpen a true []) (proj1 Hwf1) Hob Hlast
               Hoba) in Hc.
    exact Hc. }
  subst L. cbn [filter app archive] in Hv2, Hd2, Hr2.
  assert (Hpar : parentArchive E s1 a = None).
  { unfold parentArchive, parentEntry. rewrite Hh1. unfold a.
    rewrite nth_error_alloc_new. reflexivity. }
  exists a, s1, s2. split; [exact Hopen|].
  split.
  { unfold getArchiveAt. rewrite Hv1, length_app. cbn [List.length].
    replace ((Z.of_nat (List.length (open_archives_ s)) <? 0)%Z) with false
      by (symmetry; apply Z.ltb_ge; lia).
    replace ((Z.of_nat (List.length (open_archives_ s) + 1)
              <=? Z.of_nat (List.length (open_archives_ s)))%Z) with false
      by (symmetry; apply Z.leb_gt; lia).
    cbn [orb]. rewrite Nat2Z.id, nth_error_middle. reflexivity. }
  split; [exact Hclose|].
  split.
  { rewrite Hv2, app_nil_r. apply map_detachFrom_id.
    intros ob _ Hp. rewrite Hpar in Hp. discriminate Hp. }
  split; [rewrite Hd2, Hd1; reflexivity|].
  split.
  { rewrite Hr2. intros Hin. apply filter_In in Hin.
    destruct Hin as [_ Hk]. unfold notAmong in Hk. cbn [existsb] in Hk.
    rewrite Nat.eqb_refl in Hk. discriminate Hk. }
  refine (closeArchive_inv E fuel' _ s1 true s2 _ Hclose Hinv1).
  rewrite Hv1, length_app. cbn [List.length]. lia.
Qed.

(** X23: an archive opened from an entry hangs below the archive that
    holds the entry.  For an entry of a tracked archive [p] that is not
    open yet, is recognised and loads (no root entries opened along): the
    new archive is tracked, its parent archive is [p], it is a descendant
    of [p] and the registry stays well-formed; and closing [p] afterwards
    closes and deletes the new archive too. *)
Theorem openArchiveEntry_child (fuel fuel' : nat) (e : Entry) (p : Handle)
    (f : Format) (silent : bool) (s : State) :
  registryInv E s ->
  entryParent E e = Some p ->
  tracked s p ->
  openedFrom s e (open_archives_ s) = None ->
  detectEntry E e = Some f ->
  loadEntry E f e = true ->
  rootWadsFormat f && auto_open_wads_root s = false ->
  List.length (open_archives_ s) < fuel' ->
  exists a s1,
    openArchiveEntry E (S fuel) (Some e) true silent s = Done (Some a, s1) /\
    (forall x, tracked s1 x <-> tracked s x \/ x = a) /\
    parentArchive E s1 a = Some p /\
    descendant (open_archives_ s1) p a /\
    registryInv E s1 /\
    exists s2,
      closeArchivePtr E fuel' p s1 = Done (true, s2) /\
      In a (destroyed s2) /\ ~ tracked s2 a /\ ~ tracked s2 p.
Proof.
  intros Hinv Hparent Hp Hfresh Hdetect Hload Hroots Hfuel.
  destruct (first_record _ _ Hp) as (l1 & op & l2 & Hv & Hop & Hl1).
  set (a := List.length (heap s)).
  set (sA := set_heap
               (setAt a (mkArchive f "" (Some e))
                  (heap (set_heap (heap s ++ [mkArchive f "" None]) s)))
               (set_heap (heap s ++ [mkArchive f "" None]) s)).
  set (op' := mkOpen (archive op) (resource op) (open_children op ++ [a])).
  set (sB := set_open_archives (l1 ++ op' :: l2) sA).
  set (s0 := resources_addArchive a
               (announce "archive_added" None
                  (set_listening (listening sB ++ [a])
                     (set_open_archives
                        (open_archives_ sB ++ [mkOpen a true []]) sB)))).
  assert (Hrun : openArchiveEntry E (S fuel) (Some e) true silent s
                 = Done (Some a, announceOpened a silent s0)).
  { cbn [openArchiveEntry]. rewrite Hfresh, Hdetect.
    unfold new_archive, archive_open_entry. rewrite Hload, Hparent.
    fold a. fold sA.
    assert (Hidx : archiveIndex p sA = Z.of_nat (List.length l1)).
    { unfold archiveIndex, sA. state_simpl. rewrite Hv.
      exact (archiveIndex_from_split 0 p l1 l2 op Hl1 Hop). }
    rewrite Hidx.
    replace ((0 <=? Z.of_nat (List.length l1))%Z) with true
      by (symmetry; apply Z.leb_le; lia).
    rewrite Nat2Z.id.
    assert (HvA : open_archives_ sA = l1 ++ op :: l2) by exact Hv.
    rewrite HvA, nth_error_middle, setAt_middle. fold op'. fold sB.
    rewrite (addArchive_plain E _ a f sB).
    - reflexivity.
    - unfold formatOf, sB, sA. state_simpl. unfold a.
      rewrite nth_error_alloc_new. reflexivity.
    - exact Hroots. }
  set (s1 := announceOpened a silent s0) in *.
  destruct (announceOpened_frame a silent s0) as (Ho1 & Hh1 & _).
  fold s1 in Ho1, Hh1.
  assert (Hv1 : open_archives_ s1 = (l1 ++ op' :: l2) ++ [mkOpen a true []]).
  { rewrite Ho1. unfold s0, resources_addArchive. state_simpl. reflexivity. }
  assert (Hheap1 : heap s1 = setAt a (mkArchive f "" (Some e))
                               (heap s ++ [mkArchive f "" None])).
  { rewrite Hh1. unfold s0, resources_addArchive. state_simpl. reflexivity. }
  pose proof (openArchiveEntry_inv E (S fuel) (Some e) true silent s _ s1
                Hrun Hinv) as Hinv1.
  assert (Htr : forall x, tracked s1 x <-> tracked s x \/ x = a).
  { intros x. unfold tracked. rewrite Hv1, Hv, !map_app. cbn [map].
    rewrite !in_app_iff. cbn [In archive op'].
    assert (Hs : a = x <-> x = a) by (split; intros H; symmetry; exact H).
    tauto. }
  assert (Hpar : parentArchive E s1 a = Some p).
  { unfold parentArchive, parentEntry. rewrite Hheap1. unfold a.
    rewrite nth_error_alloc_new. exact Hparent. }
  assert (Hop' : In op' (open_archives_ s1)).
  { rewrite Hv1. apply in_or_app. left. apply in_or_app. right. left.
    reflexivity. }
  assert (Hdesc : descendant (open_archives_ s1) p a).
  { apply (desc_child _ _ op' a Hop' Hop).
    cbn [open_children op']. apply in_or_app. right. left. reflexivity. }
  exists a, s1. split; [exact Hrun|]. split; [exact Htr|].
  split; [exact Hpar|]. split; [exact Hdesc|]. split; [exact Hinv1|].
  assert (Hlen1 : List.length (open_archives_ s1) <= fuel').
  { rewrite Hv1, !length_app. cbn [List.length].
    rewrite Hv, length_app in Hfuel. cbn [List.length] in Hfuel. lia. }
  assert (Hnth : nth_error (open_archives_ s1) (List.length l1) = Some op').
  { rewrite Hv1, <- app_assoc. apply nth_error_middle. }
  destruct (closeArchive_subtree E s1 fuel' (List.length l1) op'
              (proj1 Hinv1) Hlen1 Hnth)
    as (s2 & L & Hclose & Hdes & _ & HL & Htr2 & _).
  exists s2. cbn [archive op'] in Hdes, HL, Htr2. rewrite Hop in Hdes, HL, Htr2.
  assert (HaL : In a L) by (apply HL; exact Hdesc).
  split.
  { unfold closeArchivePtr. rewrite Hv1, <- app_assoc, map_app.
    cbn [map app archive op']. rewrite Hop.
    rewrite (indexOf_from_first Nat.eqb nat_eqb_spec 0 p _ _ Hl1).
    cbn [Nat.add]. rewrite length_map. exact Hclose. }
  split; [rewrite Hdes; apply in_or_app; right; apply in_or_app; left;
          exact HaL|].
  split.
  - intros Hin. apply Htr2 in Hin. destruct Hin as (_ & _ & Hn).
    exact (Hn HaL).
  - intros Hin. apply Htr2 in Hin. destruct Hin as (_ & Hn & _).
    apply Hn. reflexivity.
Qed.

End OpenThenClose.

Lemma open_close_roundtrip_witness :
  exists a s1 s2,
    openArchive slashEnv 1 "C:/maps/a.wad" true false initial
    = Done (Some a, s1) /\
    getArchiveAt (Z.of_nat (List.length (open_archives_ initial))) s1
    = Some a /\
    closeArchive slashEnv 1 (Z.of_nat (List.length (open_archives_ initial)))
      s1 = Done (true, s2) /\
    open_archives_ s2 = open_archives_ initial /\
    destroyed s2 = destroyed initial ++ [a] /\
    ~ In a (resources s2) /\
    registryInv slashEnv s2.
Proof.
  apply (open_close_roundtrip slashEnv 1 1 "C:/maps/a.wad" false initial Wad).
  - apply registryInv_initial.
  - reflexivity.
  - reflexivity.
  - reflexivity.
  - reflexivity.
  - reflexivity.
  - cbn [initial open_archives_ List.length]. lia.
Defined.

Lemma openArchiveEntry_child_witness :
  exists a s1,
    openArchiveEntry nestedChildEnv (S 0) (Some 22) true false nestedState
    = Done (Some a, s1) /\
    (forall x, tracked s1 x <-> tracked nestedState x \/ x = a) /\
    parentArchive nestedChildEnv s1 a = Some 3 /\
    descendant (open_archives_ s1) 3 a /\
    registryInv nestedChildEnv s1 /\
    exists s2,
      closeArchivePtr nestedChildEnv 5 3 s1 = Done (true, s2) /\
      In a (destroyed s2) /\ ~ tracked s2 a /\ ~ tracked s2 3.
Proof.
  apply (openArchiveEntry_child nestedChildEnv 0 5 22 3 Wad false nestedState).
  - split.
    + apply wellFormedb_sound. vm_compute. reflexivity.
    + intros x Hx. vm_compute in Hx.
      destruct Hx as [Hx|[Hx|[Hx|[Hx|[]]]]]; subst x;
        cbn [nestedState heap List.length]; lia.
  - reflexivity.
  - vm_compute. auto.
  - reflexivity.
  - reflexivity.
  - reflexivity.
  - reflexivity.
  - cbn [nestedState open_archives_ List.length]. lia.
Defined.

(** ** The registry in every reachable state *)

Section ReachableRegistry.

Context (E : Env).

Lemma registryInv_add (a : Handle) (s : State) :
  registryInv E s -> a < List.length (heap s) -> ~ tracked s a ->
  registryInv E
    (set_open_archives (open_archives_ s ++ [mkOpen a true []]) s).
Proof.
  intros [Hwf Halloc] Ha Hfresh. split.
  - exact (wf_snoc (parentArchive E s) (open_archives_ s) a Hwf Hfresh).
  - intros x Hx. unfold tracked in Hx.
    cbn [set_open_archives open_archives_] in Hx.
    rewrite map_app in Hx. apply in_app_or in Hx.
    destruct Hx as [Hx|[Hx|[]]].
    + exact (Halloc x Hx).
    + subst x. exact Ha.
Qed.

Lemma newArchive_inv (fuel : nat) (desc : Format -> string) (fmt : string)
    (s : State) (r : option Handle) (s' : State) :
  newArchive E fuel desc fmt s = Done (r, s') ->
  registryInv E s -> registryInv E s'.
Proof.
  unfold newArchive. intros Hrun Hinv.
  destruct (if String.eqb fmt "wad" then Some Wad
            else if String.eqb fmt "zip" then Some Zip else None) as [f|].
  2:{ injection Hrun as _ Hs'. rewrite <- Hs'. revert Hinv.
      apply registryInv_same; reflexivity. }
  cbn [new_archive] in Hrun. unfold setFilename in Hrun.
  cbn [heap set_heap] in Hrun. rewrite nth_error_snoc in Hrun.
  cbn [format parent_] in Hrun.
  match type of Hrun with
  | context [addArchive E fuel ?x ?st] =>
      destruct (addArchive E fuel x st) as [[b s1]| |] eqn:Hadd
  end; cbn [bind snd] in Hrun; try discriminate Hrun.
  injection Hrun as _ Hs'. rewrite <- Hs'.
  eapply addArchive_inv; [exact Hadd|].
  apply (registryInv_register E s _ (mkArchive f "" None)
           (mkArchive f ("UNSAVED (" ++ desc f ++ ")") None) None Hinv);
    reflexivity.
Qed.

Lemma closeArchiveNamed_inv (fuel : nat) (path : string) (s : State)
    (r : bool) (s' : State) :
  List.length (open_archives_ s) <= fuel ->
  closeArchiveNamed E fuel path s = Done (r, s') ->
  registryInv E s -> registryInv E s'.
Proof.
  unfold closeArchiveNamed. intros Hfuel Hrun Hinv.
  destruct (indexOf_from String.eqb 0 path _) as [a|].
  - exact (closeArchive_inv E _ _ _ _ _ Hfuel Hrun Hinv).
  - injection Hrun as _ Hs'. rewrite <- Hs'. exact Hinv.
Qed.

Lemma closeArchivePtr_inv (fuel : nat) (x : Handle) (s : State) (r : bool)
    (s' : State) :
  List.length (open_archives_ s) <= fuel ->
  closeArchivePtr E fuel x s = Done (r, s') ->
  registryInv E s -> registryInv E s'.
Proof.
  unfold closeArchivePtr. intros Hfuel Hrun Hinv.
  destruct (indexOf_from Nat.eqb 0 x _) as [a|].
  - exact (closeArchive_inv E _ _ _ _ _ Hfuel Hrun Hinv).
  - injection Hrun as _ Hs'. rewrite <- Hs'. exact Hinv.
Qed.

Lemma closeAll_inv (passes fuel : nat) :
  forall (s s' : State),
    List.length (open_archives_ s) <= fuel ->
    closeAll E passes fuel s = Done s' ->
    registryInv E s -> registryInv E s'.
Proof.
  induction passes as [|passes IH]; intros s s' Hfuel Hrun Hinv;
    cbn [closeAll] in Hrun;
    destruct (open_archives_ s) as [|oa v] eqn:Hv;
    try (injection Hrun as Hs'; rewrite <- Hs'; exact Hinv);
    try discriminate Hrun.
  assert (Hnth : nth_error (open_archives_ s) 0 = Some oa)
    by (rewrite Hv; reflexivity).
  assert (Hfuel' : List.length (open_archives_ s) <= fuel)
    by (rewrite Hv; exact Hfuel).
  destruct (closeArchive_shrinks E s fuel 0 oa (proj1 Hinv) Hfuel' Hnth)
    as (s1 & L & Hclose & _ & _ & _ & _ & _ & Hlen).
  cbn [Z.of_nat] in Hclose. rewrite Hclose in Hrun. cbn [bind snd] in Hrun.
  apply (IH s1 s'); [lia|exact Hrun|].
  exact (closeArchive_inv E fuel 0%Z s true s1 Hfuel' Hclose Hinv).
Qed.

Lemma c_open_inv (fuel : nat) (args : list string) (s s' : State) :
  c_open E fuel args s = Done s' ->
  registryInv E s -> registryInv E s'.
Proof.
  unfold c_open. apply forEach_preserves.
  intros arg st st' Hbody Hst. unfold openArchive_default in Hbody.
  destruct (openArchive E fuel arg true false st) as [[r s1]| |] eqn:Hopen;
    cbn [bind snd] in Hbody; try discriminate Hbody.
  injection Hbody as Hs'. rewrite <- Hs'.
  exact (openArchive_inv E _ _ _ _ _ _ _ Hopen Hst).
Qed.

Lemma onAnnouncement_inv (x : Handle) (event_name : string) (s : State) :
  registryInv E s -> registryInv E (onAnnouncement x event_name s).
Proof.
  apply registryInv_same; unfold onAnnouncement;
    destruct (0 <=? archiveIndex x s)%Z; try reflexivity;
    destruct (String.eqb event_name "saved");
    destruct (String.eqb event_name "modified"
              || String.eqb event_name "entry_modified")%bool;
    rewrite ?announce_open_archives, ?announce_heap; reflexivity.
Qed.

(** Every state the manager gets into satisfies the registry invariant. *)
Lemma reachable_registryInv (s : State) : reachable E s -> registryInv E s.
Proof.
  intros Hreach.
  induction Hreach as
    [s Hreg Hheap
    |o s _ IH
    |fuel x s r s' _ IH Hguard Hrun
    |fuel desc fmt s r s' _ IH Hrun
    |fuel path manage silent s r s' _ IH Hrun
    |fuel dir manage silent s r s' _ IH Hrun
    |fuel entry manage silent s r s' _ IH Hrun
    |fuel args s s' _ IH Hrun
    |fuel index s r s' _ IH Hfuel Hrun
    |fuel path s r s' _ IH Hfuel Hrun
    |fuel x s r s' _ IH Hfuel Hrun
    |passes fuel s s' _ IH Hfuel Hrun
    |x res s _ IH
    |s _ IH
    |index s _ IH
    |index s _ IH
    |path s _ IH
    |path s _ IH
    |paths s _ IH
    |path s _ IH
    |entry s _ IH
    |entry s _ IH
    |index s _ IH
    |x s _ IH
    |fuel node s r s' _ IH Hrun
    |x event_name s _ IH].
  - split.
    + unfold wellFormed, wf. rewrite Hreg. cbn [map ordered].
      split; [constructor|]. split; [intros oa c []|].
      split; [intros oa []|exact I].
    + intros x Hx. unfold tracked in Hx. rewrite Hreg in Hx. destruct Hx.
  - revert IH. apply (registryInv_grow E _ _ o); reflexivity.
  - destruct x as [a|].
    + destruct (Hguard a eq_refl) as [Ha Hfresh].
      exact (addArchive_inv E _ _ _ _ _ Hrun
               (registryInv_add a s IH Ha Hfresh)).
    + injection Hrun as _ Hs'. rewrite <- Hs'. exact IH.
  - exact (newArchive_inv _ _ _ _ _ _ Hrun IH).
  - exact (openArchive_inv E _ _ _ _ _ _ _ Hrun IH).
  - exact (openDirArchive_inv E _ _ _ _ _ _ _ Hrun IH).
  - exact (openArchiveEntry_inv E _ _ _ _ _ _ _ Hrun IH).
  - exact (c_open_inv _ _ _ _ Hrun IH).
  - exact (closeArchive_inv E _ _ _ _ _ Hfuel Hrun IH).
  - exact (closeArchiveNamed_inv _ _ _ _ _ Hfuel Hrun IH).
  - exact (closeArchivePtr_inv _ _ _ _ _ Hfuel Hrun IH).
  - exact (closeAll_inv _ _ _ _ Hfuel Hrun IH).
  - exact (setArchiveResource_inv E _ _ _ IH).
  - exact (openBaseResource_inv E _ _ IH).
  - exact (openBaseResource_inv E _ _ IH).
  - unfold removeBaseResourcePath.
    destruct (Z.of_nat (List.length (base_resource_paths_ s)) <=? index)%Z;
      [exact IH|].
    destruct (index =? to_uint32 (base_resource s))%Z.
    + generalize (openBaseResource_inv E (-1)%Z s IH).
      apply registryInv_same; state_simpl; reflexivity.
    + destruct (to_int32 index <? base_resource s)%Z; revert IH;
        apply registryInv_same; state_simpl; reflexivity.
  - unfold addBaseResourcePath.
    destruct (negb (fileExists E path)); [exact IH|].
    destruct (existsb _ _); [exact IH|]. cbn [snd]. revert IH.
    apply registryInv_same; state_simpl; reflexivity.
  - exact (addRecentFile_inv_registry E _ _ IH).
  - unfold addRecentFiles.
    assert (Hfold : forall l st, registryInv E st ->
              registryInv E
                (fold_left (fun st0 p => addRecentFile E p st0) l st)).
    { induction l as [|p l IHl]; intros st Hst; cbn [fold_left];
        [exact Hst|].
      apply IHl. apply (addRecentFile_inv_registry E). exact Hst. }
    assert (H0 : registryInv E (set_recent_files [] (set_muted true s)))
      by (revert IH; apply registryInv_same; reflexivity).
    generalize (Hfold paths _ H0).
    apply registryInv_same; state_simpl; reflexivity.
  - unfold removeRecentFile.
    destruct (indexOf_from String.eqb 0 path (recent_files_ s)); [|exact IH].
    revert IH. apply registryInv_same; state_simpl; reflexivity.
  - unfold addBookmark. destruct (existsb _ _); [exact IH|].
    revert IH. apply registryInv_same; state_simpl; reflexivity.
  - unfold deleteBookmark.
    destruct (indexOf_from Nat.eqb 0 entry (bookmarks_ s)); [|exact IH].
    cbn [snd]. revert IH. apply registryInv_same; state_simpl; reflexivity.
  - unfold deleteBookmarkAt.
    destruct (Z.of_nat (List.length (bookmarks_ s)) <=? index)%Z; [exact IH|].
    cbn [snd]. revert IH. apply registryInv_same; state_simpl; reflexivity.
  - destruct (deleteBookmarksInArchive_frame E x s) as (H1 & H2 & _).
    revert IH. apply registryInv_same; assumption.
  - destruct (deleteBookmarksInDir_frame E _ _ _ _ _ Hrun) as [H1 H2].
    revert IH. apply registryInv_same; assumption.
  - exact (onAnnouncement_inv _ _ _ IH).
Qed.


(** C1 over the states the manager gets into: closing a tracked archive
    closes its descendants first and leaves none of the closed handles in
    the registry or in a child list. *)
Corollary reachable_closeArchive_subtree (s : State) (fuel index : nat)
    (oa : OpenArchive) :
  reachable E s ->
  List.length (open_archives_ s) <= fuel ->
  nth_error (open_archives_ s) index = Some oa ->
  exists s' L,
    closeArchive E fuel (Z.of_nat index) s = Done (true, s') /\
    destroyed s'
    = destroyed s ++ closeOrder fuel (open_archives_ s) (archive oa) /\
    (forall d, In d L <-> descendant (open_archives_ s) (archive oa) d) /\
    (forall y, tracked s' y <->
               tracked s y /\ y <> archive oa /\ ~ In y L) /\
    (forall ob c, In ob (open_archives_ s') -> In c (open_children ob) ->
                  c <> archive oa /\ ~ In c L).
Proof.
  intros Hreach Hfuel Hnth.
  destruct (closeArchive_subtree E s fuel index oa
              (proj1 (reachable_registryInv s Hreach)) Hfuel Hnth)
    as (s' & L & H1 & H2 & Ho & H3 & H4 & H5 & _).
  exists s', L. split; [exact H1|]. split; [rewrite H2, Ho; reflexivity|].
  split; [exact H3|]. split; [exact H4|exact H5].
Qed.

(** X24: in every state the manager reaches from an empty registry through
    its member functions and the console command [open], with archive
    objects created by the manager or by its caller and [addArchive]
    called with null or with a created archive that is not registered yet,
    no archive is registered twice, every listed child is itself
    registered, was opened from an entry of the archive that lists it and
    is listed once, no archive is its own descendant, and every
    registered handle is the handle of an archive object that was
    created. *)
Theorem reachable_registry_sound (s : State) :
  reachable E s ->
  NoDup (map archive (open_archives_ s)) /\
  (forall oa c, In oa (open_archives_ s) -> In c (open_children oa) ->
                tracked s c /\ parentArchive E s c = Some (archive oa) /\
                NoDup (open_children oa)) /\
  (forall x, ~ descendant (open_archives_ s) x x) /\
  (forall x, tracked s x -> x < List.length (heap s)).
Proof.
  intros Hreach.
  destruct (reachable_registryInv s Hreach)
    as [(Hnd & Hpar & Hcn & Hord) Halloc].
  split; [exact Hnd|]. split; [|split; [|exact Halloc]].
  - intros oa c Hoa Hc. split; [exact (ordered_in _ _ _ Hord Hoa Hc)|].
    split; [exact (Hpar oa c Hoa Hc)|exact (Hcn oa Hoa)].
  - intros x. exact (descendant_irrefl _ _ Hnd Hord).
Qed.

End ReachableRegistry.

(** Why [reachable] asks [addArchive] for an archive that is not
    registered yet: [addArchive] does not look the archive up, so adding
    [other.wad] a second time gives it a second record. *)
Example addArchive_registers_again :
  exists s',
    addArchive nestedEnv 1 (Some 3) nestedState = Done (true, s') /\
    map archive (open_archives_ s') = [0; 1; 2; 3; 3].
Proof. eexists. split; [vm_compute; reflexivity|reflexivity]. Qed.

Lemma reachable_registry_sound_witness :
  exists s,
    openArchive autoMountEnv 2 "maps.pk3" true false autoMountState
    = Done (Some 0, s) /\
    NoDup (map archive (open_archives_ s)) /\
    (forall oa c, In oa (open_archives_ s) -> In c (open_children oa) ->
                  tracked s c /\
                  parentArchive autoMountEnv s c = Some (archive oa) /\
                  NoDup (open_children oa)) /\
    (forall x, ~ descendant (open_archives_ s) x x) /\
    (forall x, tracked s x -> x < List.length (heap s)).
Proof.
  eexists. split; [vm_compute; reflexivity|].
  apply (reachable_registry_sound autoMountEnv).
  apply (reach_openArchive autoMountEnv 2 "maps.pk3" true false
           autoMountState (Some 0)).
  - apply reach_start; reflexivity.
  - vm_compute. reflexivity.
Defined.

(** ** The console command [open] *)

Section ConsoleOpen.

Context (E : Env).

Lemma announceOpened_auto (a : Handle) (silent : bool) (s : State) :
  auto_open_wads_root (announceOpened a silent s) = auto_open_wads_root s.
Proof.
  unfold announceOpened. destruct silent; [reflexivity|].
  apply announce_auto_open_wads_root.
Qed.

Lemma addRecentFile_auto (path : string) (s : State) :
  auto_open_wads_root (addRecentFile E path s) = auto_open_wads_root s.
Proof.
  unfold addRecentFile.
  destruct (negb (fileExists E path || dirExists E path)); [reflexivity|].
  destruct (indexOf_from String.eqb 0 (replaceBackslash path) (recent_files_ s));
    rewrite announce_auto_open_wads_root; reflexivity.
Qed.

(** Loading a file into a new archive while root WADs are not opened. *)
Lemma open_file_plain (fuel : nat) (f : Format) (path : string)
    (silent : bool) (s : State) :
  auto_open_wads_root s = false ->
  exists r s',
    (let '(a, s0) := new_archive f s in
     let '(ok, s1) := archive_open_file E a f path s0 in
     if ok then
       do res <- addArchive E fuel (Some a) s1;
       Done (Some a, addRecentFile E path (announceOpened a silent (snd res)))
     else Done (None, delete_archive a s1)) = Done (r, s') /\
    auto_open_wads_root s' = false /\
    (forall x, tracked s x -> tracked s' x).
Proof.
  intros Hauto. unfold new_archive, archive_open_file.
  destruct (loadFile E f path).
  - set (a := List.length (heap s)).
    set (sA := set_heap _ (set_heap _ s)).
    unfold addArchive.
    rewrite (addArchive_plain E _ a f sA).
    + cbn [bind snd]. eexists. eexists. split; [reflexivity|].
      rewrite addRecentFile_auto, announceOpened_auto.
      split.
      * unfold resources_addArchive. state_simpl. exact Hauto.
      * intros x Hx. unfold tracked.
        rewrite (proj1 (addRecentFile_frame E _ _)),
          (proj1 (announceOpened_frame _ _ _)).
        unfold resources_addArchive. state_simpl.
        rewrite map_app. apply in_or_app. left. exact Hx.
    + unfold formatOf, sA. state_simpl. unfold a.
      rewrite nth_error_alloc_new. reflexivity.
    + unfold sA. state_simpl. rewrite Hauto. apply andb_false_r.
  - eexists. eexists. split; [reflexivity|].
    split; [exact Hauto|]. intros x Hx. exact Hx.
Qed.

Lemma openArchive_plain (fuel : nat) (path : string) (silent : bool)
    (s : State) :
  auto_open_wads_root s = false ->
  exists r s',
    openArchive E fuel path true silent s = Done (r, s') /\
    auto_open_wads_root s' = false /\
    (forall x, tracked s x -> tracked s' x).
Proof.
  intros Hauto.
  assert (Hknown : forall a,
            exists r s',
              Done (Some a, announceOpened a silent s) = Done (r, s') /\
              auto_open_wads_root s' = false /\
              (forall x, tracked s x -> tracked s' x)).
  { intros a. eexists. eexists. split; [reflexivity|].
    rewrite announceOpened_auto. split; [exact Hauto|].
    intros x Hx. unfold tracked.
    rewrite (proj1 (announceOpened_frame a silent s)). exact Hx. }
  unfold openArchive, openDirArchive.
  destruct (negb (fileExists E path) && dirExists E path)%bool.
  - destruct (getArchive E path s) as [a|]; [apply Hknown|].
    exact (open_file_plain fuel Dir path silent s Hauto).
  - destruct (getArchive E path s) as [a|]; [apply Hknown|].
    destruct (detectFile E path) as [f|].
    + exact (open_file_plain fuel f path silent s Hauto).
    + eexists. eexists. split; [reflexivity|].
      split; [exact Hauto|]. intros x Hx. exact Hx.
Qed.

(** X25: the console command [open], while WADs in archive roots are not
    opened automatically, always runs to the end, whatever its arguments:
    files that cannot be opened are passed over, no archive that was
    tracked is lost, and the registry invariant is kept. *)
Theorem c_open_keeps_registry (fuel : nat) (args : list string) (s : State) :
  auto_open_wads_root s = false ->
  registryInv E s ->
  exists s',
    c_open E fuel args s = Done s' /\
    registryInv E s' /\
    (forall x, tracked s x -> tracked s' x) /\
    auto_open_wads_root s' = false.
Proof.
  revert s. induction args as [|arg args IH]; intros s Hauto Hinv.
  - exists s. split; [reflexivity|]. split; [exact Hinv|].
    split; [intros x Hx; exact Hx|exact Hauto].
  - destruct (openArchive_plain fuel arg false s Hauto)
      as (r & s1 & Hopen & Hauto1 & Hmono1).
    pose proof (openArchive_inv E fuel arg true false s r s1 Hopen Hinv)
      as Hinv1.
    destruct (IH s1 Hauto1 Hinv1) as (s' & Hrun & Hinv' & Hmono' & Hauto').
    exists s'. unfold c_open, openArchive_default in *. cbn [forEach].
    rewrite Hopen.
    cbn [bind snd]. split; [exact Hrun|]. split; [exact Hinv'|].
    split; [|exact Hauto'].
    intros x Hx. apply Hmono'. apply Hmono1. exact Hx.
Qed.

End ConsoleOpen.

Lemma c_open_keeps_registry_witness :
  exists s',
    c_open slashEnv 1 ["C:/maps/a.wad"; "gone.wad"] initial = Done s' /\
    registryInv slashEnv s' /\
    (forall x, tracked initial x -> tracked s' x) /\
    auto_open_wads_root s' = false.
Proof.
  apply (c_open_keeps_registry slashEnv 1 ["C:/maps/a.wad"; "gone.wad"]
           initial).
  - reflexivity.
  - apply registryInv_initial.
Defined.

(** ** Instances of the properties above *)

Lemma getDependentArchives_descendants_witness :
  exists vec,
    getDependentArchives 4 (archive (mkOpen 0 true [1])) nestedState
    = Done vec /\
    (forall d, In d vec <->
               descendant (open_archives_ nestedState)
                 (archive (mkOpen 0 true [1])) d).
Proof.
  apply (getDependentArchives_descendants
           (parentArchive nestedEnv nestedState) nestedState
           (wellFormedb_sound nestedEnv nestedState eq_refl)
           4 0 (mkOpen 0 true [1])).
  - cbn [nestedState open_archives_ List.length]. lia.
  - reflexivity.
Defined.

Lemma getDependentArchives_untracked_witness :
  getDependentArchives (S 3) 7 nestedState = Undefined.
Proof.
  apply (getDependentArchives_untracked 3 7 nestedState).
  vm_compute. intuition discriminate.
Defined.

Lemma deleteBookmarksInArchive_announces_once_witness :
  let r := deleteBookmarksInArchive bookmarkEnv 0 bookmarkedState in
  bookmarks_ (snd r)
  = filter (fun b => negb (eqb_ptr (entryParent bookmarkEnv b) (Some 0)))
      (bookmarks_ bookmarkedState) /\
  fst r = existsb (fun b => eqb_ptr (entryParent bookmarkEnv b) (Some 0))
            (bookmarks_ bookmarkedState) /\
  announcedCount "bookmarks_changed" (snd r)
  = announcedCount "bookmarks_changed" bookmarkedState
    + (if fst r then 1 else 0).
Proof.
  apply (deleteBookmarksInArchive_announces_once bookmarkEnv 0
           bookmarkedState).
  reflexivity.
Defined.

Lemma openBaseResource_failure_unloaded_witness :
  base_resource_archive_ (snd (openBaseResource emptyEnv 1%Z baseLoaded))
  = None.
Proof.
  apply (openBaseResource_failure_unloaded emptyEnv 1%Z baseLoaded).
  reflexivity.
Defined.

Lemma openBaseResource_announces_witness :
  announced (snd (openBaseResource slashEnv 1%Z baseLoaded))
  = announced baseLoaded ++ [("base_resource_changed", None)].
Proof.
  apply (openBaseResource_announces slashEnv 1%Z baseLoaded).
  - lia.
  - reflexivity.
  - reflexivity.
  - right. right. exists "notes.txt". split; reflexivity.
Defined.
